(* ===== verification/_CoqProject ===== *)
-Q . S2P
Prelude.v
Identifiers.v
Text.v
Tabulate.v
Posting.v
Volumes.v
Sha256.v
Decimal.v
GoTime.v
Json.v
Transaction.v
Codec.v
Encoding.v
Errors.v
Schema.v
Txn.v
Locking.v
Guards.v
Moves.v
History.v
Log.v
Observer.v
Commit.v
Committed.v
Book.v
Chain.v
Sample.v
CommitSpec.v
Tracing.v
Replay.v
Effective.v
Read.v
Verify.v
Invariant.v
Revert.v
Bulk.v
MetadataOps.v
Policy.v
Closure.v
Registry.v
Base64.v
Recovery.v
Page.v
Lists.v
Params.v
Reader.v
Body.v
Client.v
Formats.v
Wire.v
Replies.v
Ledger.v
Refinement.v
VerifyRuns.v
Locks.v
Deadlock.v
Service.v
Triggers.v
Counters.v
Api.v
Contract.v
Http.v
Laws.v
Readable.v
Answers.v
Live.v
Rational.v
Fx.v
Numeric.v
Recon.v
Matching.v
Migrations.v
Migrate.v
Operator.v
Restore.v
Nightly.v
Words.v
Startup.v
Telemetry.v
Setup.v
