(* ===== verification/Prelude.v ===== *)
(** * giro, verified

    giro is a double-entry ledger in Go on PostgreSQL: an engine (package
    storage over package ledger) that commits transactions, an HTTP API over it
    (internal/api), a command line (cmd/giro), and three libraries beside it:
    conversions (fx), reconciliation with statements (recon) and telemetry
    (obs); package migrate owns the schema. This development models all of
    them as functions that evaluate, and proves what makes them correct. It is
    a library: this file is the prelude every other file loads.

    ** The model

    A database is a value, [Schema.Database]: the tables of one ledger as
    finite maps, with the guards of [migrations/*.sql] in the statements that
    meet them. Every statement of the engine carries [ledger = $1], so one
    ledger's rows are a database of their own; the API and the command line
    map names to such databases ([Api], [Operator.Books]).

    A database transaction is [Txn.Txn]: state passing with failure. Which
    statement fails, and with which SQLSTATE, is an argument ([faults]) of every
    operation, and so are the clocks and what other sessions commit between an
    operation's first read and its locks ([Commit.Env], [landed]; a
    [Weather] has one per attempt). Theorems hold for all of them, so each says
    what is true when anything may fail and others are writing. Go's errors are
    values ([Errors.error]) with their chains, matched as [errors.Is] and
    [errors.As] match them; a panic is a failure. Integers of [math/big] are
    [Z]; an int64 is a [Z] with its range where the range matters. A Go string
    is a string of bytes. Amounts of any size pass through JSON and through
    the driver digit by digit ([Json], [Decimal], [Numeric]).

    ** The files

    The data, package ledger: [Identifiers] (address.go, asset.go), [Posting]
    (posting.go), [Volumes] (volumes.go), [Transaction] (transaction.go,
    log.go). What the standard library does for them: [Text] (UTF-8),
    [Tabulate] (text/tabwriter), [Sha256], [Decimal], [GoTime], [Json],
    [Reader], [Base64], [Rational].
    The bytes that are hashed and stored: [Codec], the interface the engine is
    proved against, and [Encoding], encoding/json on the engine's types.

    The engine, package storage: [Errors] (errors.go, retry.go), [Schema] and
    [Txn] (the database), [Locking] (volumes.go), [Guards] (the checks of
    commit.go), [Moves], [History] and [Effective] (moves.go, effective.go),
    [Log] and [Chain] (allocate.go, log.go), [Observer] and [Tracing]
    (observer.go), [Commit] (commit.go, rows.go), [Read] (read.go, stale.go),
    [Verify] (verify.go), [Revert] (revert.go), [Bulk] (bulk.go), [MetadataOps]
    (metadata.go),
    [Policy] (policy.go), [Closure] (closure.go), [Registry] (assets.go,
    ledgers.go), [Recovery] (recovery.go), [Page] and [Lists] (page.go,
    statement.go), [VerifyRuns] (verify_runs.go). [Committed], [Book],
    [CommitSpec], [Replay] and [Invariant] hold no new operation: they say what
    a commit does. [Locks] and [Deadlock] are about the rows, index
    entries and foreign keys the operations lock, in statement order, and sessions
    interleaved; [Triggers] is about the guards that make the tables append only.

    The abstract specification: [Ledger], a double-entry ledger of counters,
    transactions and bounds, with its actions; [Refinement], the abstraction
    from the tables and the simulation; [Service] and [Counters], every state
    any sequence of requests reaches; [Laws], what no request undoes; [Live],
    the converse: what the ledger admits, the service commits.

    The API: [Params] (query strings), [Body] and [Client] (request bodies, both
    ways), [Wire] (responses and errors), [Formats] and [Replies] (the struct
    tags of gen.go and writeJSON: a response's bytes), [Api] (server.go,
    handlers.go), [Contract] (gen.go's parameters, and that the handlers read
    them), [Http] (its theorems). [Readable] and [Answers] follow the
    bytes of an answer back to the requests that wrote the tables. The
    libraries: [Fx] (fx), [Numeric], [Recon] and [Matching] (recon),
    [Migrations] and [Migrate] (migrate), [Telemetry] and [Setup] (obs).
    The command line: [Operator] (account.go, and what every command shares),
    [Restore] (recover.go), [Nightly] (verify.go), [Startup] (main.go, serve.go,
    migrate.go, db.go). [Words] has what the engine's errors and findings say, and
    when a run that says it is on record. [Sample] has the small ledger the witnesses use.

    Interfaces between parts are classes: [Codec] (a payload decodes to what
    was encoded), [Page.Listing] (what a listing owes to pagination),
    [Locks.Collation] (the order of the database's text).

    ** The theorems

    Whole system. [Refinement.service_refines_ledger]: each request, whatever
    fails, leads the tables from where the other sessions' commits left them by
    exactly the abstract ledger's actions that its answer promises: those of its
    kind, once, where it succeeded, and none where it was refused, rehearsed or
    found under its key. [Service.every_state_verifies] and [Http.http_keeps_books]: after
    any traffic every check the program has passes.
    [Http.status_tells_outcome]: 201 accounts for exactly what the request did to
    its ledger, nothing where the answer was found under its key; anything else
    says it did nothing. [Answers.answers_are_read]:
    after any traffic, a client reads from the bytes of any response
    exactly what was answered. [Laws]: recorded postings are well formed and stay,
    and [Laws.revert_only_once], whatever is served in between.
    [Counters.ids_never_reissued]; [Triggers.nothing_is_rewritten]: between the
    tables before any traffic and after it lies only what the append-only triggers
    admit; [Triggers.tip_remembers]: a tip taken before that traffic checks after
    it, and against a log that verifies it decides whether the log still has the
    entry, or shows a collision of SHA-256. [Deadlock.money_never_deadlocks],
    [Deadlock.everyone_ends]: no interleaving of the operations that move money
    deadlocks over the rows, index entries and foreign keys they lock, and all of
    them end; a write of an account's metadata is outside that order.

    Operations. Commits are all or nothing, bounded in retries and replayed
    by key; sweeps resolve exactly; Go's guard and the triggers agree but on a
    delta of nothing;
    reverts undo; batches are atomic; closed accounts stand
    still; balances stay in bounds; balances as of a date are exact; the hash
    chain pins its entries; what VerifyProjection decides is what the log says, by
    a reading of its own; pages are complete; requests
    round-trip; errors get their status. Each operation's behaviour on its
    other branches is stated beside it.

    Around the engine. A conversion receives an exact quotient and stays
    clean under the check; matching records only what the tables justify and
    settles; an interrupted migration run can be resumed; giro serve listens
    only on its own schema; giro account, verify and recover do what their
    exit codes say, and the restore drill never reissues an id; tracing a commit
    changes nothing of it, and its spans are closed with what it returned; the
    series of the telemetry are bounded by the ledgers and their registries, but
    for the misspelt assets of callers.

    Where the code does not do what it or its documents say, an [Example]
    evaluates it: [Deadlock.metadata_can_deadlock],
    [Matching.second_run_matches_more], [Matching.colliding_sets_fail],
    [Recovery.colon_breaks_tip], [Wire.recovery_outside_contract],
    [Http.chunked_body_ignored], [Read.prefix_wildcard],
    [Posting.zero_amount_valid], [Fx.rate_not_decimal],
    [Restore.intact_ledger_resumed], [Nightly.never_run_passes],
    [Words.cut_run_lost], [Telemetry.unregistered_label] and others.
    [Verify.altered_postings_pass] and [Guards.nothing_on_a_row_outside] mark where
    a check ends: a row of transactions whose postings were altered passes
    VerifyProjection, and a zero amount on a row outside its bound passes the
    trigger and not the guard in Go.

    ** Bounds and fuel

    [maxAttempts] is the code's ten. Every other fuel is the length of what is
    consumed, and is proved enough: the JSON reader's ([Reader]), a walk through
    pages ([Page]), matching to a fixed point ([Matching]). SHA-256 and the
    decoders are structural or fuelled by their input.

    ** Not modelled

    Time passing: how long anything takes (the telemetry is given the durations),
    timeouts and signals. [Commit.backoff] gives the wait between attempts, which no
    result depends on. Texts for people: what is put before an error on its way up
    and the words of errors without a method of their own (where a response or a
    detail carries them they are a parameter; [Words] has the others), printf
    output (the lines are data), and the embedded pages of internal/api. Spans are followed through a
    commit; a batch and a revert open one only around their locks.

    PostgreSQL beyond what the statements rely on. A lost acknowledgement of
    COMMIT: a failed COMMIT did nothing. The gaps of the [moves.seq] sequence,
    and overflow of bigint columns. Reads outside transactions answer from the
    committed tables and fail only in the command line ([query_fault]). The
    planner's choice of an order in statements that do not fix one, the text
    order of a collation other than C (where only locks depend on it), and the
    SQL of a migration are arguments. In [Deadlock], the primary
    keys of transactions and logs and the foreign key of a move to its own
    transaction, which only the holder of the ledger's row touches. Guards against TRUNCATE, and the
    grants of the application's role. What others commit lands at one
    point of an operation, between its first read and its locks; a closure's
    race is an argument of its own.

    Third parties: net/http as far as the segments of a path and the bytes of a
    body; the redirects of [ServeMux]; the cap on the parameters of a query;
    OpenTelemetry's SDK (what it answers is a parameter of [Setup]); the flag package's parsing of
    giro verify's arguments; pgx beyond [pgtype.Numeric]. A source of
    statements ([recon.Source]) is an argument.

    Simplifications, each erring on the permissive side: command line arguments
    and ledger names are text PostgreSQL stores; a JSON timestamp spelt with
    escapes is read where the library refuses it; the estimate of a catalogue
    does not overflow. *)

From stdpp Require Export base gmap strings list sorting.
From Stdlib Require Export Ascii ZArith Lia.

(** Let [simpl] compute concatenation on a literal head. *)
#[global] Arguments String.append !_ _ /.

(** ** Fallible computations

    A Go function returning [(T, error)] becomes a function returning
    [res E T]; an early [return nil, err] is [Err err]. *)

Inductive res (E A : Type) : Type :=
| Ok (a : A)
| Err (e : E).

Arguments Ok {E A} a.
Arguments Err {E A} e.

Definition rbind {E A B} (m : res E A) (k : A -> res E B) : res E B :=
  match m with
  | Ok a => k a
  | Err e => Err e
  end.

Definition rmap {E A B} (f : A -> B) (m : res E A) : res E B :=
  match m with
  | Ok a => Ok (f a)
  | Err e => Err e
  end.

Definition is_ok {E A} (m : res E A) : bool :=
  match m with Ok _ => true | Err _ => false end.

Declare Scope giro_scope.
Delimit Scope giro_scope with giro.
Open Scope giro_scope.

Notation "'let!' x ':=' m 'in' k" := (rbind m (fun x => k))
  (at level 10, x name, m at level 100, k at level 200) : giro_scope.
Notation "'let!' ' p ':=' m 'in' k" := (rbind m (fun p => k))
  (at level 10, p strict pattern, m at level 100, k at level 200) : giro_scope.

(** [when b e] refuses with [e] when the guard [b] of the code fires. *)
Definition when {E} (b : bool) (e : E) : res E unit :=
  if b then Err e else Ok tt.

#[export] Instance res_eq_dec `{EqDecision E} `{EqDecision A} : EqDecision (res E A).
Proof. solve_decision. Defined.

Lemma rbind_Ok {E A B} (m : res E A) (k : A -> res E B) b :
  rbind m k = Ok b <-> exists a, m = Ok a /\ k a = Ok b.
Proof. destruct m; naive_solver. Qed.

Lemma rbind_Err {E A B} (m : res E A) (k : A -> res E B) e :
  rbind m k = Err e <-> m = Err e \/ exists a, m = Ok a /\ k a = Err e.
Proof. destruct m; naive_solver. Qed.

(** A run that was not refused, with its result named. *)
Lemma ran {E A S} (x : res E A * S) : is_ok x.1 = true -> exists a, x = (Ok a, x.2).
Proof. destruct x as [[a|e] s]; [by exists a|done]. Qed.

Lemma when_Ok {E} b (e : E) : when b e = Ok tt <-> b = false.
Proof. destruct b; naive_solver. Qed.

(** Takes a successful run apart, one bind and one guard at a time. *)
Ltac inv_ok :=
  repeat match goal with
  | H : rbind _ _ = Ok _ |- _ => apply rbind_Ok in H as (? & ? & H)
  | H : when _ _ = Ok ?u |- _ => destruct u; apply when_Ok in H
  | H : Ok _ = Ok _ |- _ => injection H as H
  | H : Err _ = Ok _ |- _ => discriminate H
  | H : Ok _ = Err _ |- _ => discriminate H
  | H : Err _ = Err _ |- _ => injection H as H
  end; simplify_eq/=.

(** Splits every [match] of a hypothesis or goal, as Go's branches do. *)
Ltac split_match :=
  repeat (case_match; simplify_eq/=; try done).

(** ** Sums *)

Open Scope Z_scope.

Definition sumZ {A} (f : A -> Z) (l : list A) : Z :=
  foldr (fun x acc => f x + acc) 0 l.

Lemma sumZ_nil {A} (f : A -> Z) : sumZ f [] = 0.
Proof. done. Qed.

Lemma sumZ_cons {A} (f : A -> Z) x l : sumZ f (x :: l) = f x + sumZ f l.
Proof. done. Qed.

Lemma sumZ_app {A} (f : A -> Z) l1 l2 : sumZ f (l1 ++ l2) = sumZ f l1 + sumZ f l2.
Proof. induction l1; simpl; lia. Qed.

Lemma sumZ_permutation {A} (f : A -> Z) l1 l2 :
  l1 ≡ₚ l2 -> sumZ f l1 = sumZ f l2.
Proof. induction 1; simpl; lia. Qed.

Lemma sumZ_ext {A} (f g : A -> Z) l :
  (forall x, x ∈ l -> f x = g x) -> sumZ f l = sumZ g l.
Proof.
  induction l as [|x l IH]; intros Hfg; simpl; [done|].
  rewrite (Hfg x), IH; set_solver.
Qed.

Lemma sumZ_plus {A} (f g : A -> Z) l :
  sumZ (fun x => f x + g x) l = sumZ f l + sumZ g l.
Proof. induction l; simpl; lia. Qed.

Lemma sumZ_minus {A} (f g : A -> Z) l :
  sumZ (fun x => f x - g x) l = sumZ f l - sumZ g l.
Proof. induction l; simpl; lia. Qed.

Lemma sumZ_zero {A} (f : A -> Z) l :
  (forall x, x ∈ l -> f x = 0) -> sumZ f l = 0.
Proof.
  induction l as [|x l IH]; intros Hf; simpl; [done|].
  rewrite Hf, IH; set_solver.
Qed.

Lemma sumZ_nonneg {A} (f : A -> Z) l :
  (forall x, x ∈ l -> 0 <= f x) -> 0 <= sumZ f l.
Proof.
  induction l as [|x l IH]; intros Hf; simpl; [done|].
  pose proof (Hf x ltac:(set_solver)). pose proof (IH ltac:(set_solver)). lia.
Qed.

Lemma sumZ_map {A B} (f : B -> Z) (g : A -> B) l :
  sumZ f (g <$> l) = sumZ (fun x => f (g x)) l.
Proof. induction l as [|x l IH]; csimpl; [done|]. by rewrite IH. Qed.

Create Rewrite HintDb giro_sum.
#[export] Hint Rewrite @sumZ_nil @sumZ_cons @sumZ_app @sumZ_map @sumZ_plus : giro_sum.

(** ** Sums over a finite map *)

Section map_sum.
Context `{Countable K} {V : Type}.
Implicit Types (m : gmap K V) (f : K -> V -> Z).

Definition map_sum f m : Z := sumZ (fun kv => f kv.1 kv.2) (map_to_list m).

Lemma map_sum_empty f : map_sum f ∅ = 0.
Proof. unfold map_sum. by rewrite map_to_list_empty. Qed.

Lemma map_sum_insert_new f m k v :
  m !! k = None -> map_sum f (<[k:=v]> m) = f k v + map_sum f m.
Proof.
  intros Hk. unfold map_sum.
  by rewrite (sumZ_permutation _ _ _ (map_to_list_insert m k v Hk)).
Qed.

Lemma map_sum_delete f m k v :
  m !! k = Some v -> map_sum f m = f k v + map_sum f (delete k m).
Proof.
  intros Hk. rewrite <-(insert_delete_id m k v Hk) at 1.
  apply map_sum_insert_new, lookup_delete_eq.
Qed.

Lemma map_sum_insert f m k v :
  map_sum f (<[k:=v]> m) = map_sum f m - from_option (f k) 0 (m !! k) + f k v.
Proof.
  destruct (m !! k) as [w|] eqn:Hk; simpl.
  - rewrite <-insert_delete_eq, map_sum_insert_new by apply lookup_delete_eq.
    rewrite (map_sum_delete f m k w Hk). lia.
  - rewrite map_sum_insert_new by done. lia.
Qed.

Lemma map_sum_alter f m k o :
  map_sum f (partial_alter (fun _ => o) k m) =
  map_sum f m - from_option (f k) 0 (m !! k) + from_option (f k) 0 o.
Proof.
  destruct o as [v|]; [apply map_sum_insert|]. simpl.
  change (partial_alter (fun _ => None) k m) with (delete k m).
  destruct (m !! k) as [w|] eqn:Hk; simpl.
  - rewrite (map_sum_delete f m k w Hk). lia.
  - rewrite delete_id by done. lia.
Qed.

(** Two tables that differ only at the keys of [l]. *)
Lemma map_sum_differ f m m' l :
  NoDup l -> (forall k, k ∉ l -> m' !! k = m !! k) ->
  map_sum f m' =
  map_sum f m + sumZ (fun k => from_option (f k) 0 (m' !! k) - from_option (f k) 0 (m !! k)) l.
Proof.
  revert m. induction l as [|k l IH]; intros m Hnd Hsame.
  - simpl. rewrite Z.add_0_r. f_equal. apply map_eq. intros k. apply Hsame. set_solver.
  - apply NoDup_cons in Hnd as [Hk Hnd].
    rewrite (IH (partial_alter (fun _ => m' !! k) k m) Hnd).
    + rewrite map_sum_alter, sumZ_cons.
      rewrite (sumZ_ext _ (fun k => from_option (f k) 0 (m' !! k) - from_option (f k) 0 (m !! k)) l); [lia|].
      intros k' Hk'. rewrite lookup_partial_alter_ne by set_solver. done.
    + intros k' Hk'. destruct (decide (k' = k)) as [->|Hne]; [by rewrite lookup_partial_alter_eq|].
      rewrite lookup_partial_alter_ne by done. apply Hsame. set_solver.
Qed.

Lemma map_sum_ext f g m :
  (forall k v, m !! k = Some v -> f k v = g k v) -> map_sum f m = map_sum g m.
Proof.
  intros Hfg. apply sumZ_ext. intros [k v] Hin%elem_of_map_to_list. eauto.
Qed.

Lemma map_sum_plus f g m :
  map_sum (fun k v => f k v + g k v) m = map_sum f m + map_sum g m.
Proof. apply sumZ_plus. Qed.

Lemma map_sum_minus f g m :
  map_sum (fun k v => f k v - g k v) m = map_sum f m - map_sum g m.
Proof. apply sumZ_minus. Qed.

End map_sum.

(** ** Listing the rows of a table in key order

    [map_rows R m] is what [select ... order by key] returns for the table
    [m]; the key order [R] is total, and the keys are distinct, so the listing
    is determined by the table. *)

Section map_rows.
Context `{Countable K} {V : Type} (R : relation K).
Context `{!RelDecision R, !PreOrder R, !AntiSymm (=) R, !Total R}.
Implicit Types (m : gmap K V).

Definition row_le : relation (K * V) := fun a b => R a.1 b.1.

#[local] Instance row_le_dec : forall a b, Decision (row_le a b).
Proof. intros a b. apply RelDecision0. Defined.

#[local] Instance row_le_trans : Transitive row_le.
Proof. intros a b c. unfold row_le. apply transitivity. Qed.

#[local] Instance row_le_total : Total row_le.
Proof. intros a b. apply Total0. Qed.

Definition map_rows m : list (K * V) := merge_sort row_le (map_to_list m).

Lemma map_rows_perm m : map_rows m ≡ₚ map_to_list m.
Proof. apply merge_sort_Permutation. Qed.

Lemma elem_of_map_rows m k v : (k, v) ∈ map_rows m <-> m !! k = Some v.
Proof. by rewrite map_rows_perm, elem_of_map_to_list. Qed.

Lemma map_rows_sorted m : StronglySorted row_le (map_rows m).
Proof. apply StronglySorted_merge_sort; apply _. Qed.

Lemma map_rows_NoDup m : NoDup (map_rows m).*1.
Proof. rewrite map_rows_perm. apply NoDup_fst_map_to_list. Qed.

Lemma map_rows_unique m l :
  StronglySorted row_le l -> l ≡ₚ map_to_list m -> map_rows m = l.
Proof.
  intros Hs Hp.
  apply (StronglySorted_unique_strong row_le); [|apply map_rows_sorted|done|].
  - intros [k1 v1] [k2 v2] H1%elem_of_map_rows H2 R12 R21.
    rewrite Hp, elem_of_map_to_list in H2. unfold row_le in *; simpl in *.
    assert (k1 = k2) as -> by (by apply (anti_symm R)). congruence.
  - by rewrite map_rows_perm, Hp.
Qed.

Lemma map_rows_empty : map_rows (∅ : gmap K V) = [].
Proof. apply map_rows_unique; [constructor|]. by rewrite map_to_list_empty. Qed.

(** A row inserted under a key above every other key comes last. *)
Lemma map_rows_insert_last m k v :
  (forall k', is_Some (m !! k') -> R k' k /\ k' <> k) ->
  map_rows (<[k:=v]> m) = map_rows m ++ [(k, v)].
Proof.
  intros Hlast. apply map_rows_unique.
  - apply StronglySorted_app_2; [|apply map_rows_sorted|repeat constructor].
    intros [k' v'] x Hin%elem_of_map_rows Hx%list_elem_of_singleton. subst x.
    by apply Hlast.
  - rewrite map_rows_perm, (map_to_list_insert m k v).
    + by rewrite (comm (++)).
    + apply eq_None_not_Some. intros Hk. by apply Hlast in Hk as [_ ?].
Qed.

End map_rows.

(** Rows with their values replaced. *)
Lemma map_rows_fmap `{Countable K} {V W} (R : relation K) `{!RelDecision R, !PreOrder R, !AntiSymm (=) R, !Total R}
    (f : V -> W) (m : gmap K V) :
  map_rows R (f <$> m) = prod_map id f <$> map_rows R m.
Proof.
  apply map_rows_unique; [done..| |].
  - induction (map_rows_sorted R m) as [|x l Hs IH Hx]; [constructor|]. constructor; [done|].
    apply Forall_fmap. eapply Forall_impl; [exact Hx|]. done.
  - by rewrite map_to_list_fmap, map_rows_perm.
Qed.

(** ** Small facts on integers, options and lists *)

(** Go's [int64] arithmetic: two's complement wrap-around at 64 bits. *)
Definition wrap64 (z : Z) : Z := (z + 2 ^ 63) mod 2 ^ 64 - 2 ^ 63.

Definition max_int64 : Z := 2 ^ 63 - 1.

Lemma wrap64_range z : - 2 ^ 63 <= wrap64 z <= max_int64.
Proof.
  unfold wrap64, max_int64.
  pose proof (Z.mod_pos_bound (z + 2 ^ 63) (2 ^ 64) ltac:(lia)). lia.
Qed.

Lemma wrap64_id z : - 2 ^ 63 <= z <= max_int64 -> wrap64 z = z.
Proof. intros Hz. unfold wrap64, max_int64 in *. rewrite Z.mod_small; lia. Qed.

(** The first element satisfying a test, with what it maps to. *)
Fixpoint find_map {A B} (f : A -> option B) (l : list A) : option B :=
  match l with
  | [] => None
  | x :: l => match f x with Some y => Some y | None => find_map f l end
  end.

Lemma find_map_None {A B} (f : A -> option B) l :
  find_map f l = None <-> forall x, x ∈ l -> f x = None.
Proof.
  induction l as [|x l IH]; simpl; [set_solver|].
  setoid_rewrite elem_of_cons. destruct (f x) eqn:Hx.
  - split; [done|]. intros Hall. rewrite (Hall x) in Hx; eauto.
  - rewrite IH. naive_solver.
Qed.

Lemma find_map_Some {A B} (f : A -> option B) l y :
  find_map f l = Some y <->
  exists l1 x l2, l = l1 ++ x :: l2 /\ f x = Some y /\ forall z, z ∈ l1 -> f z = None.
Proof.
  induction l as [|x l IH]; simpl.
  - split; [done|]. intros (l1 & x & l2 & Hl & _). by destruct l1.
  - destruct (f x) as [y'|] eqn:Hx.
    + split.
      * intros [= ->]. exists [], x, l. set_solver.
      * intros (l1 & x' & l2 & Hl & Hf & Hl1). destruct l1 as [|x'' l1]; simplify_eq/=.
        -- congruence.
        -- rewrite (Hl1 x'') in Hx; set_solver.
    + rewrite IH. split.
      * intros (l1 & x' & l2 & -> & Hf & Hl1). exists (x :: l1), x', l2. set_solver.
      * intros (l1 & x' & l2 & Hl & Hf & Hl1). destruct l1 as [|x'' l1]; simplify_eq/=.
        exists l1, x', l2. set_solver.
Qed.
