(* ===== verification/Identifiers.v ===== *)
(** * Addresses and assets

    The two identifier types of package ledger: [ledger/address.go] and
    [ledger/asset.go]. A Go string is a sequence of bytes, here a Rocq
    [string] of [ascii]; the two regular expressions are over ASCII classes,
    so matching bytes is matching runes. *)

From S2P Require Import Prelude.

(** ** The parts of Go's strings package the two files use *)

Fixpoint forall_char (p : ascii -> bool) (s : string) : bool :=
  match s with
  | EmptyString => true
  | String c s => p c && forall_char p s
  end.

(** [strings.Split(s, sep)] for a one byte separator: never empty. *)
Fixpoint split_on (sep : ascii) (s : string) : list string :=
  match s with
  | EmptyString => [EmptyString]
  | String c s =>
      let rest := split_on sep s in
      if bool_decide (c = sep) then EmptyString :: rest
      else match rest with
           | w :: ws => String c w :: ws
           | [] => [String c EmptyString]
           end
  end.

(** [strings.Join(l, sep)] *)
Fixpoint join_with (sep : ascii) (l : list string) : string :=
  match l with
  | [] => EmptyString
  | [w] => w
  | w :: ws => w +:+ String sep (join_with sep ws)
  end.

(** [strings.Cut(s, sep)] : before, after, found. *)
Fixpoint cut (sep : ascii) (s : string) : string * string * bool :=
  match s with
  | EmptyString => (EmptyString, EmptyString, false)
  | String c s =>
      if bool_decide (c = sep) then (EmptyString, s, true)
      else let '(before, after, found) := cut sep s in
           (String c before, after, found)
  end.

(** The longest prefix whose characters satisfy [p], and what follows it:
    a greedy [[...]*] of a regular expression. *)
Fixpoint span_char (p : ascii -> bool) (s : string) : string * string :=
  match s with
  | EmptyString => (EmptyString, EmptyString)
  | String c s' =>
      if p c then let '(a, b) := span_char p s' in (String c a, b)
      else (EmptyString, s)
  end.

Definition in_range (lo hi : ascii) (c : ascii) : bool :=
  (N.leb (N_of_ascii lo) (N_of_ascii c) && N.leb (N_of_ascii c) (N_of_ascii hi))%N.

Definition is_lower : ascii -> bool := in_range "a" "z".
Definition is_upper : ascii -> bool := in_range "A" "Z".
Definition is_digit : ascii -> bool := in_range "0" "9".

Definition digit_value (c : ascii) : Z := Z.of_N (N_of_ascii c) - 48.

(** Reading decimal digits, most significant first. *)
Fixpoint digits_value (acc : Z) (s : string) : Z :=
  match s with
  | EmptyString => acc
  | String c s => digits_value (10 * acc + digit_value c) s
  end.

(** ** ledger/address.go *)

Abbreviation Address := string (only parsing).

(** [addressSegment], the regular expression [^[a-zA-Z0-9_-]+$] *)
Definition segment_char (c : ascii) : bool :=
  is_lower c || is_upper c || is_digit c
  || bool_decide (c = "_"%char) || bool_decide (c = "-"%char).

Definition addressSegment (s : string) : bool :=
  bool_decide (s <> EmptyString) && forall_char segment_char s.

Definition Segments (a : Address) : list string := split_on ":" a.

Definition Address_Valid (a : Address) : bool :=
  forallb addressSegment (Segments a).

(** ** ledger/asset.go *)

Abbreviation Asset := string (only parsing).

Definition asset_char (c : ascii) : bool :=
  is_upper c || is_digit c || bool_decide (c = "_"%char).

(** [assetPattern], the regular expression [^[A-Z][A-Z0-9_]*(/\d{1,6})?$] *)
Definition Asset_Valid (a : Asset) : bool :=
  match a with
  | EmptyString => false
  | String c rest =>
      is_upper c &&
      match span_char asset_char rest with
      | (_, EmptyString) => true
      | (_, String s digits) =>
          bool_decide (s = "/"%char) && forall_char is_digit digits
          && (1 <=? String.length digits)%nat && (String.length digits <=? 6)%nat
      end
  end.

Definition Scale (a : Asset) : option Z :=
  if Asset_Valid a then
    let '(_, digits, found) := cut "/" a in
    Some (if found then digits_value 0 digits else 0)
  else None.

Definition Code (a : Asset) : string :=
  let '(code, _, _) := cut "/" a in code.

(** ** Lemmas on the string functions *)

Lemma forall_char_app p s t :
  forall_char p (s +:+ t) = forall_char p s && forall_char p t.
Proof.
  induction s as [|c s IH]; simpl; [done|]. by rewrite IH, andb_assoc.
Qed.

Lemma split_on_nonempty sep s : split_on sep s <> [].
Proof. destruct s; simpl; [done|]. repeat case_match; done. Qed.

Lemma join_split sep s : join_with sep (split_on sep s) = s.
Proof.
  induction s as [|c s IH]; [done|]. simpl.
  pose proof (split_on_nonempty sep s) as Hne.
  case_bool_decide as Hc.
  - subst c. destruct (split_on sep s); [done|]. by rewrite <-IH.
  - destruct (split_on sep s) as [|w ws]; [done|].
    destruct ws; simpl in *; by rewrite IH.
Qed.

Definition free_of (sep : ascii) (s : string) : bool :=
  forall_char (fun c => bool_decide (c <> sep)) s.

Lemma split_free sep s : free_of sep s = true -> split_on sep s = [s].
Proof.
  induction s as [|c s IH]; [done|]. unfold free_of in *; simpl.
  intros [Hc Hs]%andb_true_iff. apply bool_decide_eq_true in Hc.
  rewrite IH by done. by case_bool_decide.
Qed.

Lemma split_app_sep sep s t :
  free_of sep s = true ->
  split_on sep (s +:+ String sep t) = s :: split_on sep t.
Proof.
  induction s as [|c s IH]; intros Hs; simpl.
  - by rewrite bool_decide_true.
  - apply andb_true_iff in Hs as [Hc Hs]. apply bool_decide_eq_true in Hc.
    rewrite IH by done. by case_bool_decide.
Qed.

Lemma split_join sep l :
  l <> [] -> forallb (free_of sep) l = true -> split_on sep (join_with sep l) = l.
Proof.
  induction l as [|w l IH]; [done|]. intros _ [Hw Hl]%andb_true_iff.
  destruct l as [|w' l]; [by apply split_free|].
  change (join_with sep (w :: w' :: l)) with (w +:+ String sep (join_with sep (w' :: l))).
  rewrite split_app_sep by done. by rewrite IH.
Qed.

Lemma forall_char_impl (p q : ascii -> bool) s :
  (forall c, p c = true -> q c = true) -> forall_char p s = true -> forall_char q s = true.
Proof.
  intros Hpq. induction s as [|c s IH]; [done|]. simpl.
  rewrite !andb_true_iff. intros [??]; auto.
Qed.

Lemma cut_free sep s : free_of sep s = true -> cut sep s = (s, EmptyString, false).
Proof.
  induction s as [|c s IH]; [done|]. intros [Hc Hs]%andb_true_iff.
  apply bool_decide_eq_true in Hc. simpl. rewrite IH by done. by case_bool_decide.
Qed.

Lemma cut_app_sep sep s t :
  free_of sep s = true -> cut sep (s +:+ String sep t) = (s, t, true).
Proof.
  induction s as [|c s IH]; intros Hs; simpl.
  - by rewrite bool_decide_true.
  - apply andb_true_iff in Hs as [Hc Hs]. apply bool_decide_eq_true in Hc.
    rewrite IH by done. by case_bool_decide.
Qed.

Lemma span_char_spec p s a b :
  span_char p s = (a, b) ->
  s = a +:+ b /\ forall_char p a = true /\
  match b with EmptyString => True | String c _ => p c = false end.
Proof.
  revert a b. induction s as [|c s IH]; intros a b Hs; simplify_eq/=; [done|].
  destruct (p c) eqn:Hc; simplify_eq/=; [|done].
  destruct (span_char p s) as [a' b']. simplify_eq/=.
  destruct (IH _ _ eq_refl) as (-> & ? & ?). by rewrite Hc.
Qed.

Lemma span_char_app p s t :
  forall_char p s = true ->
  match t with EmptyString => True | String c _ => p c = false end ->
  span_char p (s +:+ t) = (s, t).
Proof.
  intros Hs Ht. induction s as [|c s IH]; simpl in *.
  - destruct t; simpl; [done|]. by rewrite Ht.
  - apply andb_true_iff in Hs as [-> Hs]. by rewrite IH.
Qed.

Lemma digit_value_range c : is_digit c = true -> 0 <= digit_value c <= 9.
Proof.
  unfold is_digit, in_range, digit_value. rewrite andb_true_iff, !N.leb_le.
  change (N_of_ascii "0") with 48%N. change (N_of_ascii "9") with 57%N. lia.
Qed.

Lemma digits_value_bounds s acc :
  forall_char is_digit s = true -> 0 <= acc ->
  acc * 10 ^ Z.of_nat (String.length s) <= digits_value acc s
  < (acc + 1) * 10 ^ Z.of_nat (String.length s).
Proof.
  revert acc. induction s as [|c s IH]; intros acc Hs Hacc; simpl.
  - rewrite Z.pow_0_r. lia.
  - apply andb_true_iff in Hs as [Hc Hs]. pose proof (digit_value_range c Hc).
    specialize (IH (10 * acc + digit_value c) Hs ltac:(lia)).
    pose proof (Z.pow_pos_nonneg 10 (Z.of_nat (String.length s)) ltac:(lia) ltac:(lia)).
    rewrite Nat2Z.inj_succ, Z.pow_succ_r by lia. nia.
Qed.

(** ** What validity means *)

Lemma segment_free s : addressSegment s = true -> free_of ":" s = true.
Proof.
  unfold addressSegment. intros [_ Hs]%andb_true_iff. revert Hs.
  apply forall_char_impl. intros c Hc. apply bool_decide_eq_true. by intros ->.
Qed.

Lemma asset_char_free s : forall_char asset_char s = true -> free_of "/" s = true.
Proof. apply forall_char_impl. intros c Hc. apply bool_decide_eq_true. by intros ->. Qed.

Lemma segments_of_valid segs :
  segs <> [] -> forallb addressSegment segs = true ->
  Segments (join_with ":" segs) = segs.
Proof.
  intros Hne Hs. apply split_join; [done|]. revert Hs. rewrite !forallb_forall.
  eauto using segment_free.
Qed.

(** An address is valid exactly when it is what joining one or more
    non-empty segments over [[a-zA-Z0-9_-]] with ':' produces, and then
    [Segments] gives those segments back: splitting and joining an address
    lose nothing. *)
Theorem address_valid_iff (a : Address) :
  Address_Valid a = true <->
  exists segs, segs <> [] /\ forallb addressSegment segs = true /\
               a = join_with ":" segs /\ Segments a = segs.
Proof.
  split.
  - intros Hv. exists (Segments a). split_and!; [apply split_on_nonempty|done| |done].
    symmetry. apply join_split.
  - intros (segs & _ & Hs & _ & Heq). unfold Address_Valid. by rewrite Heq.
Qed.

(** The shape the asset pattern describes. *)
Definition asset_code (code : string) : Prop :=
  exists c rest, code = String c rest /\ is_upper c = true /\ forall_char asset_char rest = true.

Lemma asset_code_free code : asset_code code -> free_of "/" code = true.
Proof.
  intros (c & rest & -> & Hc & Hrest). apply asset_char_free. simpl.
  rewrite Hrest, andb_true_r. unfold asset_char. by rewrite Hc.
Qed.

Lemma asset_valid_inv (a : Asset) :
  Asset_Valid a = true ->
  asset_code a \/
  exists code digits, asset_code code /\ a = code +:+ String "/" digits /\
    forall_char is_digit digits = true /\ (1 <= String.length digits <= 6)%nat.
Proof.
  destruct a as [|c rest]; [done|]. cbn [Asset_Valid]. intros [Hc Hm]%andb_true_iff.
  destruct (span_char asset_char rest) as [code tail] eqn:Hspan.
  apply span_char_spec in Hspan as (-> & Hcode & _).
  destruct tail as [|s digits].
  - left. exists c, code. split_and!; [|done..]. f_equal. clear. by induction code; f_equal/=.
  - right. apply andb_true_iff in Hm as [[[Hs Hd]%andb_true_iff H1]%andb_true_iff H6].
    apply bool_decide_eq_true in Hs as ->. apply Nat.leb_le in H1, H6.
    exists (String c code), digits. split_and!; try done. by exists c, code.
Qed.

(** The scale of a well formed asset. "CODE" has scale 0 and "CODE/ds"
    the number its one to six digits write, so a scale is between 0 and
    999999; [Code] is what precedes the '/', and anything malformed has no
    scale. *)
Theorem asset_scale_code (a : Asset) :
  (Asset_Valid a = false /\ Scale a = None) \/
  (Asset_Valid a = true /\ asset_code a /\ Scale a = Some 0 /\ Code a = a) \/
  (Asset_Valid a = true /\ exists code digits, asset_code code /\ a = code +:+ String "/" digits /\
     (1 <= String.length digits <= 6)%nat /\ forall_char is_digit digits = true /\
     Code a = code /\ Scale a = Some (digits_value 0 digits) /\
     0 <= digits_value 0 digits < 10 ^ 6).
Proof.
  unfold Scale, Code. destruct (Asset_Valid a) eqn:Hv; [right|by left].
  apply asset_valid_inv in Hv as Hs.
  destruct Hs as [Hc|(code & digits & Hc & -> & Hd & Hl)].
  - left. by rewrite cut_free by by apply asset_code_free.
  - right. split; [done|]. exists code, digits. rewrite cut_app_sep by by apply asset_code_free.
    pose proof (digits_value_bounds digits 0 Hd ltac:(lia)).
    pose proof (Z.pow_le_mono_r 10 (Z.of_nat (String.length digits)) 6). split_and!; try done; lia.
Qed.

(** A code with a well formed scale suffix is accepted. *)
Lemma asset_valid_code code : asset_code code -> Asset_Valid code = true.
Proof.
  intros (c & rest & -> & Hc & Hr). cbn [Asset_Valid]. rewrite Hc.
  pose proof (span_char_app asset_char rest EmptyString Hr I) as Hs.
  replace (rest +:+ EmptyString) with rest in Hs by (clear; by induction rest; f_equal/=).
  by rewrite Hs.
Qed.
