(* ===== verification/Text.v ===== *)
(** * Text

    Go strings are byte strings. What is valid UTF-8 matters at two borders:
    [encoding/json] replaces an invalid byte by U+FFFD when it writes a string,
    and a postgres text column stores neither invalid UTF-8 nor a NUL. *)

From S2P Require Import Prelude Identifiers.

Definition byte_of (c : ascii) : Z := Z.of_N (N_of_ascii c).

Definition byte_in (lo hi : Z) (c : ascii) : bool :=
  (lo <=? byte_of c) && (byte_of c <=? hi).

Definition is_ascii (c : ascii) : bool := byte_of c <? 128.

(** The lead and continuation byte ranges of [unicode/utf8]'s tables. *)
Definition two_byte (a b : ascii) : bool := byte_in 194 223 a && byte_in 128 191 b.

Definition three_byte (a b c : ascii) : bool :=
  byte_in 128 191 c &&
  ((byte_in 224 224 a && byte_in 160 191 b) ||
   (byte_in 225 236 a && byte_in 128 191 b) ||
   (byte_in 237 237 a && byte_in 128 159 b) ||
   (byte_in 238 239 a && byte_in 128 191 b)).

Definition four_byte (a b c d : ascii) : bool :=
  byte_in 128 191 c && byte_in 128 191 d &&
  ((byte_in 240 240 a && byte_in 144 191 b) ||
   (byte_in 241 243 a && byte_in 128 191 b) ||
   (byte_in 244 244 a && byte_in 128 143 b)).

(** [utf8.DecodeRuneInString]: how many bytes the rune at the head takes, and
    0 where the head is not the start of a valid encoding. *)
Definition rune_width (s : string) : nat :=
  match s with
  | EmptyString => 0
  | String a s1 =>
      if is_ascii a then 1 else
      match s1 with
      | EmptyString => 0
      | String b s2 =>
          if two_byte a b then 2 else
          match s2 with
          | EmptyString => 0
          | String c s3 =>
              if three_byte a b c then 3 else
              match s3 with
              | EmptyString => 0
              | String d _ => if four_byte a b c d then 4 else 0
              end
          end
      end
  end.

Fixpoint string_take (n : nat) (s : string) : string :=
  match n, s with
  | S n, String c s => String c (string_take n s)
  | _, _ => EmptyString
  end.

Fixpoint string_drop (n : nat) (s : string) : string :=
  match n, s with
  | S n, String _ s => string_drop n s
  | _, _ => s
  end.

(** The runes of a string, in order: [Some r] for a valid encoding, [None] for
    a byte that starts none. Fuel: every step consumes a byte. *)
Fixpoint runes_fuel (fuel : nat) (s : string) : list (option string) :=
  match fuel with
  | O => []
  | S fuel =>
      match s with
      | EmptyString => []
      | String _ s' =>
          match rune_width s with
          | O => None :: runes_fuel fuel s'
          | w => Some (string_take w s) :: runes_fuel fuel (string_drop w s)
          end
      end
  end.

Definition runes (s : string) : list (option string) := runes_fuel (String.length s) s.

(** [utf8.ValidString]. *)
Definition utf8_valid (s : string) : bool := forallb (fun r => bool_decide (is_Some r)) (runes s).

Fixpoint concat_strings (l : list string) : string :=
  match l with
  | [] => EmptyString
  | s :: l => String.append s (concat_strings l)
  end.

(** U+FFFD. *)
Definition replacement : string :=
  String (ascii_of_N 239) (String (ascii_of_N 191) (String (ascii_of_N 189) EmptyString)).

(** What a string becomes when it is written as JSON and read back. *)
Definition coerce_utf8 (s : string) : string :=
  concat_strings ((fun r => default replacement r) <$> runes s).

Definition has_nul (s : string) : bool := negb (forall_char (fun c => negb (byte_of c =? 0)) s).

(** What a text or varchar column accepts. *)
Definition pg_text (s : string) : bool := utf8_valid s && negb (has_nul s).

(** ** Folding and trimming *)

Definition bytes (l : list N) : string := fold_right (fun n s => String (ascii_of_N n) s) EmptyString l.

(** [unicode.IsSpace] *)
Definition space_runes : list string :=
  [bytes [194;133]%N; bytes [194;160]%N; bytes [225;154;128]%N; bytes [226;128;168]%N; bytes [226;128;169]%N;
   bytes [226;128;175]%N; bytes [226;129;159]%N; bytes [227;128;128]%N]
  ++ ((fun n => bytes [226;128;n]%N) <$> [128;129;130;131;132;133;134;135;136;137;138]%N).

Definition unicode_space (r : option string) : bool :=
  match r with
  | None => false
  | Some (String c EmptyString) => byte_in 9 13 c || byte_in 32 32 c
  | Some r => bool_decide (r ∈ space_runes)
  end.

Fixpoint drop_spaces (l : list (option string)) : list (option string) :=
  match l with
  | r :: l' => if unicode_space r then drop_spaces l' else l
  | [] => []
  end.

(** [strings.TrimSpace] *)
Definition TrimSpace (l : list (option string)) : list (option string) :=
  reverse (drop_spaces (reverse (drop_spaces l))).

Definition lower_char (c : ascii) : ascii := if is_upper c then ascii_of_N (N_of_ascii c + 32) else c.

(** [strings.EqualFold] of a text with an ASCII one: letters in either case,
    the long s for an s and the Kelvin sign for a k. *)
Definition rune_folds (r : option string) (c : ascii) : bool :=
  match r with
  | Some (String x EmptyString) => Ascii.eqb (lower_char x) (lower_char c)
  | Some r => (bool_decide (r = bytes [197;191]%N) && Ascii.eqb (lower_char c) "s")
              || (bool_decide (r = bytes [226;132;170]%N) && Ascii.eqb (lower_char c) "k")
  | None => false
  end.

Fixpoint EqualFold (l : list (option string)) (s : string) : bool :=
  match l, s with
  | [], EmptyString => true
  | r :: l, String c s => rune_folds r c && EqualFold l s
  | _, _ => false
  end.

(** ** Lemmas *)

Lemma append_nil_r (s : string) : String.append s EmptyString = s.
Proof. induction s as [|c s IH]; simpl; congruence. Qed.

Lemma append_assoc (s1 s2 s3 : string) :
  String.append (String.append s1 s2) s3 = String.append s1 (String.append s2 s3).
Proof. induction s1 as [|c s1 IH]; simpl; congruence. Qed.

Lemma length_append (s1 s2 : string) :
  String.length (String.append s1 s2) = (String.length s1 + String.length s2)%nat.
Proof. induction s1 as [|c s1 IH]; simpl; lia. Qed.

Lemma append_inj_l (s1 s2 t1 t2 : string) :
  String.length s1 = String.length t1 ->
  String.append s1 s2 = String.append t1 t2 -> s1 = t1 /\ s2 = t2.
Proof.
  revert t1. induction s1 as [|c s1 IH]; intros [|d t1]; simpl; intros Hl Ha; try done.
  injection Ha as -> Ha. apply IH in Ha as [-> ->]; [done|lia].
Qed.

Lemma append_inj_r (s t u : string) :
  String.append s t = String.append s u -> t = u.
Proof. intros H. by apply append_inj_l in H as [_ ?]. Qed.

Lemma take_drop_string n s : String.append (string_take n s) (string_drop n s) = s.
Proof.
  revert s. induction n as [|n IH]; intros [|c s]; simpl; try done. by rewrite IH.
Qed.

Lemma length_string_drop n s : String.length (string_drop n s) = (String.length s - n)%nat.
Proof.
  revert s. induction n as [|n IH]; intros [|c s]; simpl; try done; lia.
Qed.

Lemma length_string_take n s : String.length (string_take n s) = Nat.min n (String.length s).
Proof. revert s. induction n as [|n IH]; intros [|c s]; simpl; try done; by rewrite IH. Qed.

Lemma runes_fuel_enough f1 f2 s :
  (String.length s <= f1)%nat -> (String.length s <= f2)%nat -> runes_fuel f1 s = runes_fuel f2 s.
Proof.
  revert f2 s. induction f1 as [|f1 IH]; intros [|f2] [|c s] H1 H2; simpl in H1, H2; try done; try lia.
  cbn [runes_fuel]. destruct (rune_width (String c s)) as [|w].
  - f_equal. apply IH; lia.
  - f_equal. apply IH; rewrite length_string_drop; simpl; lia.
Qed.

Lemma runes_cons c s :
  runes (String c s) =
  match rune_width (String c s) with
  | O => None :: runes s
  | w => Some (string_take w (String c s)) :: runes (string_drop w (String c s))
  end.
Proof.
  unfold runes. cbn [runes_fuel String.length].
  destruct (rune_width (String c s)) as [|w]; [done|].
  f_equal. apply runes_fuel_enough; rewrite length_string_drop; simpl; lia.
Qed.

(** A valid string is what it is coerced to. *)
Lemma coerce_valid s : utf8_valid s = true -> coerce_utf8 s = s.
Proof.
  unfold utf8_valid, coerce_utf8. remember (String.length s) as n eqn:Hn.
  revert s Hn. induction (lt_wf n) as [n _ IH]. intros [|c s] ->; [done|].
  rewrite runes_cons. destruct (rune_width (String c s)) as [|w] eqn:Hw; [done|].
  intros [_ Hv]%andb_true_iff. cbn [fmap list_fmap concat_strings default].
  rewrite (IH (String.length (string_drop (S w) (String c s)))); try done.
  - apply take_drop_string.
  - rewrite length_string_drop. simpl. lia.
Qed.

Lemma rune_width_ascii c s : is_ascii c = true -> rune_width (String c s) = 1%nat.
Proof. intros Hc. unfold rune_width. by rewrite Hc. Qed.

Lemma ascii_utf8_valid s : forall_char is_ascii s = true -> utf8_valid s = true.
Proof.
  unfold utf8_valid. induction s as [|c s IH]; [done|].
  cbn [forall_char]. intros [Hc Hs]%andb_true_iff. rewrite runes_cons.
  rewrite rune_width_ascii by done. simpl. by apply IH.
Qed.

(** ASCII without NUL: text wherever it is cut. *)
Definition basic (c : ascii) : bool := is_ascii c && negb (byte_of c =? 0).

Lemma basic_utf8 s : forall_char basic s = true -> utf8_valid s = true.
Proof. intros Hs. apply ascii_utf8_valid. eapply forall_char_impl; [|exact Hs]. by intros c [? _]%andb_true_iff. Qed.

Lemma basic_text s : forall_char basic s = true -> pg_text s = true.
Proof.
  intros Hs. unfold pg_text, has_nul. rewrite basic_utf8, negb_involutive by done. eapply forall_char_impl; [|exact Hs].
  by intros c [_ ?]%andb_true_iff.
Qed.

(** ** Identifiers are ASCII *)

Lemma segment_char_basic c : segment_char c = true -> basic c = true.
Proof. destruct c as [[][][][][][][][]]; intros H; try reflexivity; vm_compute in H; discriminate. Qed.

Lemma asset_char_basic c : asset_char c = true -> basic c = true.
Proof. destruct c as [[][][][][][][][]]; intros H; try reflexivity; vm_compute in H; discriminate. Qed.

Lemma digit_basic c : is_digit c = true -> basic c = true.
Proof. destruct c as [[][][][][][][][]]; intros H; try reflexivity; vm_compute in H; discriminate. Qed.

Lemma join_with_chars p sep l :
  p sep = true -> Forall (fun s => forall_char p s = true) l -> forall_char p (join_with sep l) = true.
Proof.
  intros Hsep Hl. induction Hl as [|s l Hs Hl IH]; [done|]. destruct l as [|s' l]; [done|].
  change (join_with sep (s :: s' :: l)) with (s +:+ String sep (join_with sep (s' :: l))).
  rewrite forall_char_app, Hs. cbn [forall_char]. by rewrite Hsep, IH.
Qed.

Lemma address_basic a : Address_Valid a = true -> forall_char basic a = true.
Proof.
  unfold Address_Valid. intros Ha. rewrite <-(join_split ":" a).
  apply join_with_chars; [done|]. apply Forall_forall. intros s Hs.
  rewrite forallb_forall in Ha. apply list_elem_of_In, Ha, andb_true_iff in Hs as [_ Hs].
  eapply forall_char_impl; [|exact Hs]. apply segment_char_basic.
Qed.

Lemma asset_basic a : Asset_Valid a = true -> forall_char basic a = true.
Proof.
  intros Ha. destruct a as [|c rest]; [done|]. simpl in Ha.
  apply andb_true_iff in Ha as [Hc Ha]. destruct (span_char asset_char rest) as [code tail] eqn:Hs.
  apply span_char_spec in Hs as (-> & Hcode & _). simpl. rewrite asset_char_basic.
  2:{ unfold asset_char. by rewrite Hc. }
  rewrite forall_char_app. simpl. apply andb_true_iff. split.
  - eapply forall_char_impl; [|exact Hcode]. apply asset_char_basic.
  - destruct tail as [|s digits]; [done|]. rewrite !andb_true_iff in Ha.
    destruct Ha as [[[Hsl Hd] _] _]. apply bool_decide_eq_true in Hsl as ->. simpl.
    eapply forall_char_impl; [|exact Hd]. apply digit_basic.
Qed.

Lemma address_utf8 a : Address_Valid a = true -> utf8_valid a = true.
Proof. intros Ha. by apply basic_utf8, address_basic. Qed.

Lemma asset_utf8 a : Asset_Valid a = true -> utf8_valid a = true.
Proof. intros Ha. by apply basic_utf8, asset_basic. Qed.

Lemma pg_text_utf8 s : pg_text s = true -> utf8_valid s = true.
Proof. unfold pg_text. by intros [? _]%andb_true_iff. Qed.
