(* ===== verification/Tabulate.v ===== *)
(** * Tables

    What the sources use of [text/tabwriter]: rows of cells lined up in columns.
    Package obs prints its catalogue that way and [giro account] a policy. *)

From S2P Require Import Prelude Identifiers Text.

(** The width of a cell is its runes; padding is two spaces; the last cell of a
    row ends the line and is in no column. Every row has as many cells. *)
Definition cell_width (s : string) : nat := length (runes s).

Fixpoint spaces (n : nat) : string :=
  match n with O => EmptyString | S n => String " " (spaces n) end.

Definition pad (w : nat) (s : string) : string := s +:+ spaces (w - cell_width s).

Definition column_width (rows : list (list string)) (j : nat) : nat :=
  foldr Nat.max 0%nat ((fun row => cell_width (default EmptyString (row !! j)) + 2)%nat <$> rows).

Fixpoint set_row (rows : list (list string)) (j : nat) (row : list string) : string :=
  match row with
  | [] => EmptyString
  | [last] => last
  | cell :: row => pad (column_width rows j) cell +:+ set_row rows (S j) row
  end.

Definition eol : string := String "010" EmptyString.

Definition lines_of (l : list string) : string := concat_strings ((fun line => line +:+ eol) <$> l).

Definition tabulate (rows : list (list string)) : string := lines_of (set_row rows 0 <$> rows).

(** ** Columns line up *)

Lemma column_width_fits rows j row cell :
  row ∈ rows -> row !! j = Some cell -> (cell_width cell + 2 <= column_width rows j)%nat.
Proof.
  unfold column_width. intros Hr Hj. induction rows as [|r rows IH]; [by apply not_elem_of_nil in Hr|].
  cbn [foldr fmap list_fmap].
  apply elem_of_cons in Hr as [<-|Hr]; [rewrite Hj; cbn [default option_rect from_option id]; lia|]. specialize (IH Hr). lia.
Qed.

Definition ascii_text (s : string) : bool := forall_char is_ascii s.

Lemma cell_width_ascii s : ascii_text s = true -> cell_width s = String.length s.
Proof.
  unfold ascii_text, cell_width. induction s as [|c s IH]; [done|]. simpl. intros [Hc Hs]%andb_true_iff.
  rewrite runes_cons, rune_width_ascii by done. cbn [string_drop String.length length]. by rewrite IH.
Qed.

Lemma spaces_length n : String.length (spaces n) = n.
Proof. induction n as [|n IH]; [done|]. cbn. by rewrite IH. Qed.

Fixpoint offset (rows : list (list string)) (j n : nat) : nat :=
  match n with O => 0 | S n => column_width rows j + offset rows (S j) n end%nat.

(** In every row of a table of text, what precedes the cell at [n] is as long:
    the widths of the columns before it. *)
Lemma set_row_offset rows j front cell rest :
  Forall (fun s => ascii_text s = true) front ->
  (forall i s, front !! i = Some s -> (cell_width s <= column_width rows (j + i))%nat) ->
  exists pre, set_row rows j (front ++ cell :: rest) = pre +:+ set_row rows (j + length front) (cell :: rest) /\
              String.length pre = offset rows j (length front).
Proof.
  revert j. induction front as [|s front IH]; intros j Ht Hw.
  - exists EmptyString. by rewrite Nat.add_0_r.
  - apply Forall_cons in Ht as [Hs Ht]. pose proof (Hw 0%nat s eq_refl) as H0. rewrite Nat.add_0_r in H0.
    destruct (IH (S j) Ht) as (pre & Hpre & Hlen).
    { intros i x Hx. replace (S j + i)%nat with (j + S i)%nat by lia. by apply Hw. }
    exists (pad (column_width rows j) s +:+ pre). split.
    + rewrite append_assoc. replace (j + length (s :: front))%nat with (S j + length front)%nat by (cbn; lia).
      rewrite <-Hpre. by destruct front.
    + rewrite length_append, Hlen. unfold pad. rewrite length_append, spaces_length, <-(cell_width_ascii s) by done. cbn. lia.
Qed.

Lemma columns_line_up rows row n cell :
  row ∈ rows -> Forall (fun s => ascii_text s = true) row -> row !! n = Some cell ->
  exists pre, set_row rows 0 row = pre +:+ set_row rows n (drop n row) /\ String.length pre = offset rows 0 n.
Proof.
  intros Hr Ht Hn. pose proof (take_drop_middle row n cell Hn) as Hsplit.
  assert (length (take n row) = n) as Hlen by (apply lookup_lt_Some in Hn; rewrite length_take; lia).
  destruct (set_row_offset rows 0 (take n row) cell (drop (S n) row)) as (pre & Hpre & Hp).
  - by apply Forall_take.
  - intros i s [Hi _]%lookup_take_Some. pose proof (column_width_fits rows i row s Hr Hi). cbn. lia.
  - exists pre. rewrite Hlen in Hpre, Hp. by rewrite Hsplit, <-(drop_S row cell n) in Hpre.
Qed.
