(* ===== verification/Posting.v ===== *)
(** * Postings

    [ledger/posting.go]: a posting names both sides of a movement, a
    transaction is an ordered list of postings. Here are validation, the size
    guard on amounts, and the reversal a correction commits. *)

From S2P Require Import Prelude Identifiers.

Definition WorldAccount : Address := "world".

(** The sentinel errors of package ledger. [ErrNilAmount] carries the index
    its message names. *)
Inductive ledger_error :=
| ErrInvalidSourceAddress
| ErrInvalidDestinationAddress
| ErrInvalidAsset
| ErrInvalidAmount
| ErrAmountTooLarge
| ErrNilAmount (index : nat)
| ErrEmptyMetadataKey
| ErrTooManyMetadataKeys
| ErrMetadataKeyTooLong
| ErrMetadataValueTooLong.

#[export] Instance ledger_error_eq_dec : EqDecision ledger_error.
Proof. solve_decision. Defined.

Definition MaxAmountDigits : Z := 100.
Definition maxAmountBits : Z := 333.

(** A nil [*big.Int] is [None]; a [big.Int] is unbounded, hence [Z]. *)
Record Posting := {
  Source : Address;
  Destination : Address;
  PAsset : Asset;
  Amount : option Z;
  UpTo : bool;
}.

#[export] Instance Posting_eq_dec : EqDecision Posting.
Proof. solve_decision. Defined.

Abbreviation Postings := (list Posting) (only parsing).

Definition HasUpTo (p : Postings) : bool := existsb UpTo p.

(** [big.Int.BitLen]: the length of the absolute value in bits, 0 for 0. *)
Definition BitLen (z : Z) : Z := if z =? 0 then 0 else Z.log2 (Z.abs z) + 1.

(** The guards of [Validate]'s loop body, in the code's order. *)
Definition validate_posting (p : Posting) : option ledger_error :=
  if negb (Address_Valid p.(Source)) then Some ErrInvalidSourceAddress
  else if negb (Address_Valid p.(Destination)) then Some ErrInvalidDestinationAddress
  else if negb (Asset_Valid p.(PAsset)) then Some ErrInvalidAsset
  else match p.(Amount) with
       | None => if p.(UpTo) then None else Some ErrInvalidAmount
       | Some a =>
           if a <? 0 then Some ErrInvalidAmount
           else if BitLen a >? maxAmountBits then Some ErrAmountTooLarge
           else None
       end.

(** [Validate] returns the index and error of the first invalid posting, or
    [None], which is the code's [(-1, nil)]. *)
Fixpoint validate_from (i : nat) (p : Postings) : option (nat * ledger_error) :=
  match p with
  | [] => None
  | posting :: p =>
      match validate_posting posting with
      | Some e => Some (i, e)
      | None => validate_from (S i) p
      end
  end.

Definition Validate (p : Postings) : option (nat * ledger_error) := validate_from 0 p.

(** One posting of [Reverse]: sides swapped, the amount copied, and the
    [UpTo] flag left at its zero value. *)
Definition reverse_posting (p : Posting) (amount : Z) : Posting :=
  {| Source := p.(Destination);
     Destination := p.(Source);
     PAsset := p.(PAsset);
     Amount := Some amount;
     UpTo := false |}.

(** [Reverse] fills [rev[len-1-i]] as it walks forward: an accumulator that
    grows at its front. *)
Fixpoint reverse_from (i : nat) (p : Postings) (acc : Postings) : res ledger_error Postings :=
  match p with
  | [] => Ok acc
  | posting :: p =>
      match posting.(Amount) with
      | None => Err (ErrNilAmount i)
      | Some a => reverse_from (S i) p (reverse_posting posting a :: acc)
      end
  end.

Definition Reverse (p : Postings) : res ledger_error Postings := reverse_from 0 p [].

(** ** Validation *)

(** What a posting must satisfy, stated without the code's order. *)
Definition posting_ok (p : Posting) : Prop :=
  Address_Valid p.(Source) = true /\ Address_Valid p.(Destination) = true /\
  Asset_Valid p.(PAsset) = true /\
  match p.(Amount) with
  | None => p.(UpTo) = true
  | Some a => 0 <= a < 2 ^ maxAmountBits
  end.

Lemma bit_len_bound z b : 0 <= z -> 0 <= b -> BitLen z <= b <-> z < 2 ^ b.
Proof.
  intros Hz Hb. unfold BitLen. destruct (Z.eqb_spec z 0) as [->|Hnz].
  - split; [|lia]. intros _. apply Z.pow_pos_nonneg; lia.
  - rewrite Z.abs_eq by lia. rewrite (Z.log2_lt_pow2 z b) by lia. lia.
Qed.

Lemma validate_posting_None p : validate_posting p = None <-> posting_ok p.
Proof.
  unfold validate_posting, posting_ok.
  destruct (Address_Valid (Source p)), (Address_Valid (Destination p)), (Asset_Valid (PAsset p));
    simpl; try naive_solver.
  destruct (Amount p) as [a|]; [|destruct (UpTo p); naive_solver].
  destruct (Z.ltb_spec a 0); [split; [done|]; lia|].
  pose proof (bit_len_bound a maxAmountBits ltac:(lia) ltac:(done)) as Hbit.
  destruct (BitLen a >? maxAmountBits) eqn:Hgt.
  - split; [done|]. rewrite Z.gtb_lt in Hgt. lia.
  - split; [|done]. intros _. rewrite Z.gtb_ltb in Hgt. apply Z.ltb_ge in Hgt. naive_solver lia.
Qed.

Lemma validate_from_None i p : validate_from i p = None <-> Forall posting_ok p.
Proof.
  revert i. induction p as [|x p IH]; intros i; simpl; [by split; constructor|].
  rewrite Forall_cons, <-validate_posting_None, <-(IH (S i)).
  destruct (validate_posting x); naive_solver.
Qed.

Lemma validate_from_Some i p j e :
  validate_from i p = Some (j, e) <->
  exists k x, (j = i + k)%nat /\ p !! k = Some x /\ validate_posting x = Some e /\
              Forall posting_ok (take k p).
Proof.
  revert i. induction p as [|x p IH]; intros i; simpl.
  - split; [done|]. naive_solver.
  - destruct (validate_posting x) as [e'|] eqn:Hx.
    + split.
      * intros [= <- <-]. exists 0%nat, x. split_and!; [lia|done|done|constructor].
      * intros ([|k] & y & -> & Hy & He & Hall); simplify_eq/=; [f_equal; f_equal; lia|].
        apply Forall_cons in Hall as [Hok _]. apply validate_posting_None in Hok. congruence.
    + rewrite IH. split.
      * intros (k & y & -> & ? & ? & ?). exists (S k), y. split_and!; try done; [lia|].
        constructor; [by apply validate_posting_None|done].
      * intros ([|k] & y & -> & Hy & He & Hall); simplify_eq/=.
        apply Forall_cons in Hall as [_ Hall]. exists k, y. split_and!; try done; lia.
Qed.

(** [Validate] decides well-formedness and reports the first offender.
    It accepts exactly the lists in which every posting has valid addresses,
    a valid asset and an amount in [0, 2^333), or no amount with [UpTo]; a
    refusal names the index of a posting whose predecessors are all well
    formed, with that posting's own error. *)
Theorem validate_reports_first (p : Postings) :
  match Validate p with
  | None => Forall posting_ok p
  | Some (i, e) =>
      exists x, p !! i = Some x /\ validate_posting x = Some e /\ ~ posting_ok x /\
                Forall posting_ok (take i p)
  end.
Proof.
  unfold Validate. destruct (validate_from 0 p) as [[i e]|] eqn:Hv.
  - apply validate_from_Some in Hv as (k & x & -> & ? & He & ?). exists x.
    split_and!; try done. rewrite <-validate_posting_None. congruence.
  - by apply validate_from_None in Hv.
Qed.

(** The size guard never refuses an amount of [MaxAmountDigits] decimal
    digits, and never lets one of more than 101 digits through. *)
Theorem amount_guard_digits (a : Z) :
  (0 <= a < 10 ^ MaxAmountDigits -> BitLen a <= maxAmountBits) /\
  (10 ^ (MaxAmountDigits + 1) <= a -> maxAmountBits < BitLen a).
Proof.
  assert (10 ^ MaxAmountDigits < 2 ^ maxAmountBits < 10 ^ (MaxAmountDigits + 1)) as [Hlo Hhi]
    by (split; vm_compute; reflexivity).
  split; intros Ha.
  - apply bit_len_bound; [lia|done|lia].
  - assert (0 <= a) by (pose proof (Z.pow_nonneg 10 (MaxAmountDigits + 1)); lia).
    destruct (Z.le_gt_cases (BitLen a) maxAmountBits) as [Hle|]; [|lia].
    apply bit_len_bound in Hle; [lia|done|done].
Qed.

(** ** Reversal *)

Definition amount_of (p : Posting) : Z := default 0 p.(Amount).

Lemma reverse_from_Ok i p acc r :
  reverse_from i p acc = Ok r <->
  Forall (fun x => is_Some x.(Amount)) p /\
  r = reverse ((fun x => reverse_posting x (amount_of x)) <$> p) ++ acc.
Proof.
  revert i acc. induction p as [|x p IH]; intros i acc; csimpl.
  - split; [intros [= ->]; split; [constructor|done]|]. intros [_ ->]. done.
  - rewrite Forall_cons, reverse_cons, <-app_assoc. simpl.
    unfold amount_of at 1. destruct (Amount x) as [a|] eqn:Ha; simpl.
    + rewrite IH. unfold amount_of. rewrite Ha. simpl. split; intros H; destruct_and!; split_and!; eauto.
    + split; [done|]. intros [[[? [=]] _] _].
Qed.

Lemma reverse_from_Err i p acc e :
  reverse_from i p acc = Err e ->
  exists k x, p !! k = Some x /\ x.(Amount) = None /\ e = ErrNilAmount (i + k).
Proof.
  revert i acc. induction p as [|x p IH]; intros i acc; simpl; [done|].
  destruct (Amount x) eqn:Ha.
  - intros (k & y & ? & ? & ->)%IH. exists (S k), y. split_and!; try done. f_equal. lia.
  - intros [= <-]. exists 0%nat, x. split_and!; try done. f_equal. lia.
Qed.

Lemma reverse_Ok p r :
  Reverse p = Ok r <->
  Forall (fun x => is_Some x.(Amount)) p /\
  r = reverse ((fun x => reverse_posting x (amount_of x)) <$> p).
Proof. unfold Reverse. by rewrite reverse_from_Ok, app_nil_r. Qed.

Lemma reverse_posting_twice x :
  UpTo x = false -> is_Some (Amount x) ->
  reverse_posting (reverse_posting x (amount_of x)) (amount_of x) = x.
Proof. destruct x as [s d a [z|] []]; intros ? [? ?]; simplify_eq/=; done. Qed.

(** Reversing is total on postings that carry amounts and undoes itself:
    for postings without ceilings, [Reverse] succeeds and reversing the result
    gives the original list back, in the original order; on a nil amount it is
    an error naming the posting, never a panic. *)
Theorem Reverse_involutive (p : Postings) :
  match Reverse p with
  | Ok r => HasUpTo p = false -> Reverse r = Ok p
  | Err e => exists i x, p !! i = Some x /\ x.(Amount) = None /\ e = ErrNilAmount i
  end.
Proof.
  destruct (Reverse p) as [r|e] eqn:Hr.
  - apply reverse_Ok in Hr as [Hall ->]. intros Hup. apply reverse_Ok. split.
    + apply Forall_reverse, Forall_fmap, Forall_true. by eexists.
    + rewrite fmap_reverse, reverse_involutive, <-list_fmap_compose.
      etrans; [symmetry; apply list_fmap_id|]. apply list_fmap_ext. intros i x Hx.
      change (x = reverse_posting (reverse_posting x (amount_of x)) (amount_of x)).
      symmetry. apply reverse_posting_twice.
      * unfold HasUpTo in Hup. apply not_true_is_false. intros Hu.
        apply not_true_iff_false in Hup. apply Hup, existsb_exists. exists x.
        split; [|done]. by apply list_elem_of_In, list_elem_of_lookup_2 with i.
      * by apply (Forall_lookup_1 _ _ _ _ Hall Hx).
  - apply reverse_from_Err in Hr as (k & x & ? & ? & ->). eauto.
Qed.

(** A posting of nothing is well formed. *)
Example zero_amount_valid :
  Validate [{| Source := "world"; Destination := "users:alice"; PAsset := "USD/2"; Amount := Some 0; UpTo := false |}] = None.
Proof. reflexivity. Qed.
