(* ===== verification/Volumes.v ===== *)
(** * Volumes

    [ledger/volumes.go]: two counters per (account, asset) that only ever
    increase, and the per pair deltas a transaction applies, in the order its
    row locks are taken. *)

From S2P Require Import Prelude Identifiers Posting.

(** The [key] of [VolumeUpdates], and of an accounts_volumes row. *)
Abbreviation key := (string * string)%type (only parsing).

(** A counter of the engine is never nil: a row that does not exist is an
    absent key, and [NewVolumes] is what it stands for. *)
Record Volumes := { Input : Z; Output : Z }.

#[export] Instance Volumes_eq_dec : EqDecision Volumes.
Proof. solve_decision. Defined.

Definition NewVolumes : Volumes := {| Input := 0; Output := 0 |}.

Definition Balance (v : Volumes) : Z := v.(Input) - v.(Output).

Record VolumeUpdate := {
  Account : Address;
  UAsset : Asset;
  UInput : Z;
  UOutput : Z;
}.

#[export] Instance VolumeUpdate_eq_dec : EqDecision VolumeUpdate.
Proof. solve_decision. Defined.

Definition update_key (u : VolumeUpdate) : key := (u.(Account), u.(UAsset)).

(** ** The lock order *)

(** [cmp.Or] of two comparisons: the first that is not equal. *)
Definition cmp_or (c1 c2 : comparison) : comparison :=
  match c1 with Eq => c2 | _ => c1 end.

(** [cmp.Or(cmp.Compare(a.Account, b.Account), cmp.Compare(a.Asset, b.Asset))] *)
Definition compare_key (a b : key) : comparison :=
  cmp_or (String.compare a.1 b.1) (String.compare a.2 b.2).

Definition key_le : relation key := fun a b => compare_key a b <> Gt.

Definition key_lt : relation key := fun a b => compare_key a b = Lt.

#[export] Instance key_le_dec : RelDecision key_le.
Proof. intros a b. unfold key_le. apply _. Defined.

(** ** VolumeUpdates *)

(** [at(account, asset)]: the entry for the pair, created empty. *)
Definition entry_at (m : gmap key Volumes) (k : key) : Volumes := default NewVolumes (m !! k).

Definition add_output (k : key) (amount : Z) (m : gmap key Volumes) : gmap key Volumes :=
  let u := entry_at m k in
  <[k := {| Input := u.(Input); Output := u.(Output) + amount |}]> m.

Definition add_input (k : key) (amount : Z) (m : gmap key Volumes) : gmap key Volumes :=
  let u := entry_at m k in
  <[k := {| Input := u.(Input) + amount; Output := u.(Output) |}]> m.

Definition source_key (p : Posting) : key := (p.(Source), p.(PAsset)).
Definition destination_key (p : Posting) : key := (p.(Destination), p.(PAsset)).

(** The loop over the postings. A posting with a ceiling and no amount
    contributes zero; without a ceiling a nil amount is an error. *)
Fixpoint volume_index (i : nat) (p : Postings) (m : gmap key Volumes)
    : res ledger_error (gmap key Volumes) :=
  match p with
  | [] => Ok m
  | posting :: p =>
      let amount := match posting.(Amount) with
                    | None => if posting.(UpTo) then Some 0 else None
                    | Some a => Some a
                    end in
      match amount with
      | None => Err (ErrNilAmount i)
      | Some a =>
          volume_index (S i) p
            (add_input (destination_key posting) a
               (add_output (source_key posting) a m))
      end
  end.

Definition to_update (kv : key * Volumes) : VolumeUpdate :=
  {| Account := kv.1.1; UAsset := kv.1.2;
     UInput := kv.2.(Input); UOutput := kv.2.(Output) |}.

(** The map's iteration order is random and the sort fixes it: the result
    lists the map's entries by key. *)
Definition VolumeUpdates (p : Postings) : res ledger_error (list VolumeUpdate) :=
  let! index := volume_index 0 p ∅ in
  Ok (to_update <$> map_rows key_le index).

(** ** The order is a total order *)

Lemma compare_key_refl a : compare_key a a = Eq.
Proof.
  assert (forall s, (s ?= s)%string = Eq) as Hrefl.
  { induction s as [|c s IH]; simpl; [done|]. unfold Ascii.compare. by rewrite N.compare_refl. }
  unfold compare_key. by rewrite !Hrefl.
Qed.

Lemma compare_key_eq a b : compare_key a b = Eq -> a = b.
Proof.
  destruct a as [a1 a2], b as [b1 b2]. unfold compare_key, cmp_or; simpl.
  destruct (a1 ?= b1)%string eqn:H1; [|done..].
  intros H2. apply String.compare_eq_iff in H1, H2. congruence.
Qed.

Lemma key_le_lex a b :
  key_le a b <-> (a.1 <> b.1 /\ (a.1 ≤ b.1)%string) \/ (a.1 = b.1 /\ (a.2 ≤ b.2)%string).
Proof.
  destruct a as [a1 a2], b as [b1 b2]. unfold key_le, compare_key, cmp_or, String.le, String.leb; simpl.
  destruct (a1 ?= b1)%string eqn:H1.
  - apply String.compare_eq_iff in H1 as ->. destruct (a2 ?= b2)%string; naive_solver.
  - assert (a1 <> b1); [|naive_solver]. intros ->.
    pose proof (compare_key_refl (b1, b1)) as Hr. unfold compare_key, cmp_or in Hr; simpl in Hr.
    by rewrite H1 in Hr.
  - split; [done|]. intros [[_ []]|[-> _]].
    pose proof (compare_key_refl (b1, b1)) as Hr. unfold compare_key, cmp_or in Hr; simpl in Hr.
    by rewrite H1 in Hr.
Qed.

#[export] Instance key_le_preorder : PreOrder key_le.
Proof.
  split.
  - intros a. unfold key_le. by rewrite compare_key_refl.
  - intros a b c. rewrite !key_le_lex.
    intros [[Hn1 H1]|[H1 H1']] [[Hn2 H2]|[H2 H2']].
    + left. split; [|by etrans]. intros Hac. rewrite Hac in *.
      assert (b.1 = c.1) by (by apply (anti_symm String.le)). done.
    + left. by rewrite <-H2.
    + left. by rewrite H1.
    + right. split; [congruence|]. by etrans.
Qed.

#[export] Instance key_le_antisymm : AntiSymm (=) key_le.
Proof.
  intros [a1 a2] [b1 b2]. rewrite !key_le_lex; simpl.
  intros [[? ?]|[-> ?]] [[? ?]|[? ?]]; subst; try done.
  - by assert (a1 = b1) by (by apply (anti_symm String.le)).
  - f_equal. by apply (anti_symm String.le).
Qed.

#[export] Instance key_le_total : Total key_le.
Proof.
  intros a b. rewrite !key_le_lex.
  destruct (decide (a.1 = b.1)) as [->|Hne].
  - destruct (total String.le a.2 b.2); auto.
  - destruct (total String.le a.1 b.1); auto.
Qed.

Lemma key_le_lt a b : key_le a b -> a <> b -> key_lt a b.
Proof.
  unfold key_le, key_lt. intros Hle Hne. destruct (compare_key a b) eqn:Hc; try done.
  by apply compare_key_eq in Hc.
Qed.

#[export] Instance key_lt_irreflexive : Irreflexive key_lt.
Proof. intros a Ha. unfold key_lt in Ha. by rewrite compare_key_refl in Ha. Qed.

Lemma key_lt_le a b : key_lt a b -> key_le a b.
Proof. unfold key_lt, key_le. by intros ->. Qed.

#[export] Instance key_lt_transitive : Transitive key_lt.
Proof.
  intros a b c Hab Hbc. apply key_le_lt.
  - etrans; by apply key_lt_le.
  - intros <-. assert (a = b) as -> by (by apply (anti_symm key_le); apply key_lt_le).
    by apply (irreflexivity key_lt b).
Qed.

(** ** What the deltas are *)

(** What a posting moves: an unresolved ceiling moves nothing yet. *)
Definition moved (p : Posting) : Z := amount_of p.

Definition delta_in (p : Postings) (k : key) : Z :=
  sumZ (fun x => if decide (destination_key x = k) then moved x else 0) p.

Definition delta_out (p : Postings) (k : key) : Z :=
  sumZ (fun x => if decide (source_key x = k) then moved x else 0) p.

Definition touched (p : Postings) (k : key) : Prop :=
  exists x, x ∈ p /\ (source_key x = k \/ destination_key x = k).

Definition resolvable (x : Posting) : Prop := is_Some x.(Amount) \/ x.(UpTo) = true.

Lemma entry_add_output k a m k' :
  entry_at (add_output k a m) k' =
  {| Input := Input (entry_at m k');
     Output := Output (entry_at m k') + if decide (k = k') then a else 0 |}.
Proof.
  unfold add_output, entry_at. rewrite lookup_insert. case_decide; subst; simpl; [done|].
  destruct (default NewVolumes (m !! k')); simpl. f_equal; lia.
Qed.

Lemma entry_add_input k a m k' :
  entry_at (add_input k a m) k' =
  {| Input := Input (entry_at m k') + (if decide (k = k') then a else 0);
     Output := Output (entry_at m k') |}.
Proof.
  unfold add_input, entry_at. rewrite lookup_insert. case_decide; subst; simpl; [done|].
  destruct (default NewVolumes (m !! k')); simpl. f_equal; lia.
Qed.

Lemma volume_index_Ok i p m m' :
  volume_index i p m = Ok m' ->
  Forall resolvable p /\
  (forall k, entry_at m' k = {| Input := Input (entry_at m k) + delta_in p k;
                                Output := Output (entry_at m k) + delta_out p k |}) /\
  (forall k, is_Some (m' !! k) <-> is_Some (m !! k) \/ touched p k).
Proof.
  revert i m. induction p as [|x p IH]; intros i m; simpl.
  - intros [= ->]. split_and!; [constructor| |].
    + intros k. unfold delta_in, delta_out; simpl. destruct (entry_at m' k); simpl. f_equal; lia.
    + intros k. unfold touched. set_solver.
  - destruct (match Amount x with Some a => Some a | None => if UpTo x then Some 0 else None end)
      as [a|] eqn:Ha; [|done].
    intros (Hres & Hentry & Hdom)%IH.
    assert (resolvable x /\ moved x = a) as [Hx Hmoved].
    { unfold resolvable, moved, amount_of. destruct (Amount x); simplify_eq/=; [eauto|].
      destruct (UpTo x); simplify_eq/=; eauto. }
    split_and!; [by constructor| |].
    + intros k. rewrite Hentry, entry_add_input, entry_add_output; simpl.
      unfold delta_in, delta_out. cbn [sumZ foldr]. rewrite Hmoved. f_equal; lia.
    + intros k. rewrite Hdom. unfold add_input, add_output. rewrite !lookup_insert_is_Some'.
      unfold touched. setoid_rewrite elem_of_cons. naive_solver.
Qed.

Lemma volume_index_Err i p m e :
  volume_index i p m = Err e ->
  exists k x, p !! k = Some x /\ ~ resolvable x /\ e = ErrNilAmount (i + k).
Proof.
  revert i m. induction p as [|x p IH]; intros i m; simpl; [done|].
  destruct (match Amount x with Some a => Some a | None => if UpTo x then Some 0 else None end)
    as [a|] eqn:Ha.
  - intros (k & y & ? & ? & ->)%IH. exists (S k), y. split_and!; try done. f_equal; lia.
  - intros [= <-]. exists 0%nat, x. split_and!; [done| |f_equal; lia].
    unfold resolvable. destruct (Amount x), (UpTo x); naive_solver.
Qed.

(** The updates of a list of postings, as a specification: sorted strictly by
    key, one entry per touched pair, each carrying that pair's exact sums. *)
Record updates_of (p : Postings) (us : list VolumeUpdate) : Prop := {
  updates_resolvable : Forall resolvable p;
  updates_sorted : StronglySorted key_lt (update_key <$> us);
  updates_touched : forall k, k ∈ update_key <$> us <-> touched p k;
  updates_input : forall u, u ∈ us -> UInput u = delta_in p (update_key u);
  updates_output : forall u, u ∈ us -> UOutput u = delta_out p (update_key u);
}.

Lemma map_rows_strict {V} (m : gmap key V) : StronglySorted key_lt (map_rows key_le m).*1.
Proof.
  pose proof (map_rows_sorted key_le m) as Hs. pose proof (map_rows_NoDup key_le m) as Hnd.
  induction Hs as [|[k v] l Hl IH Hfa]; csimpl in *; [constructor|].
  apply NoDup_cons in Hnd as [Hk Hnd]. constructor; [by apply IH|].
  apply Forall_fmap. apply Forall_forall. intros [k' v'] Hin.
  rewrite Forall_forall in Hfa. apply key_le_lt; [by apply (Hfa _ Hin)|].
  intros ->. apply Hk. by apply (list_elem_of_fmap_2 fst) in Hin.
Qed.

Lemma volume_updates_Ok p us : VolumeUpdates p = Ok us -> updates_of p us.
Proof.
  unfold VolumeUpdates. intros Hv. inv_ok.
  match goal with H : volume_index _ _ _ = Ok ?m |- _ =>
    destruct (volume_index_Ok _ _ _ _ H) as (Hres & Hentry & Hdom); rename m into index end.
  assert (forall u, u ∈ to_update <$> map_rows key_le index ->
            index !! update_key u = Some {| Input := UInput u; Output := UOutput u |}) as Hu.
  { intros u ([k v] & -> & Hin)%list_elem_of_fmap. apply elem_of_map_rows in Hin.
    unfold update_key; simpl. destruct k, v; simpl in *. done. }
  assert (update_key <$> (to_update <$> map_rows key_le index) = (map_rows key_le index).*1) as Hk.
  { rewrite <-list_fmap_compose. apply list_fmap_ext. by intros ? [[??]?] _. }
  split.
  - done.
  - rewrite Hk. apply map_rows_strict.
  - intros k. rewrite Hk, list_elem_of_fmap. rewrite <-(or_False (touched p k)), (comm or).
    transitivity (is_Some (index !! k)).
    + split; [intros ([k' v] & -> & Hin%elem_of_map_rows); by eexists|].
      intros [v Hin]. exists (k, v). split; [done|]. by apply elem_of_map_rows.
    + rewrite Hdom, lookup_empty. split; [intros [[??]|?]; naive_solver|naive_solver].
  - intros u Hin%Hu. pose proof (Hentry (update_key u)) as He. unfold entry_at in He.
    rewrite Hin, lookup_empty in He; simpl in He. injection He. lia.
  - intros u Hin%Hu. pose proof (Hentry (update_key u)) as He. unfold entry_at in He.
    rewrite Hin, lookup_empty in He; simpl in He. injection He. lia.
Qed.

Lemma volume_updates_Err p e :
  VolumeUpdates p = Err e ->
  exists i x, p !! i = Some x /\ ~ resolvable x /\ e = ErrNilAmount i.
Proof.
  unfold VolumeUpdates. intros [H|(?&?&?)]%rbind_Err; [|done].
  apply volume_index_Err in H as (k & x & ? & ? & ->). eauto.
Qed.

Lemma volume_updates_total p :
  Forall resolvable p -> exists us, VolumeUpdates p = Ok us.
Proof.
  intros Hall. destruct (VolumeUpdates p) as [us|e] eqn:Hu; [by eexists|].
  apply volume_updates_Err in Hu as (i & x & Hx & Hno & _).
  by apply (Forall_lookup_1 _ _ _ _ Hall) in Hx.
Qed.

(** The sorted key list is determined by the touched pairs. *)
Lemma updates_keys_unique p p' us us' :
  updates_of p us -> updates_of p' us' ->
  (forall k, touched p k <-> touched p' k) ->
  update_key <$> us = update_key <$> us'.
Proof.
  intros [_ Hs Ht _ _] [_ Hs' Ht' _ _] Heq.
  assert (forall l : list key, StronglySorted key_lt l -> NoDup l) as Hnd.
  { induction 1 as [|k l Hl IH Hfa]; constructor; [|done].
    intros Hin. rewrite Forall_forall in Hfa. by apply (irreflexivity key_lt k), Hfa. }
  assert (forall l : list key, StronglySorted key_lt l -> StronglySorted key_le l) as Hle.
  { induction 1 as [|k l Hl IH Hfa]; constructor; [done|].
    eapply Forall_impl; [exact Hfa|]. apply key_lt_le. }
  apply (StronglySorted_unique key_le); [by apply Hle..|].
  apply NoDup_Permutation; [by apply Hnd..|]. intros k. by rewrite Ht, Ht', Heq.
Qed.

Lemma updates_NoDup p us : updates_of p us -> NoDup (update_key <$> us).
Proof.
  intros [_ Hs _ _ _]. revert Hs. generalize (update_key <$> us). clear.
  induction 1 as [|k l Hl IH Hfa]; constructor; [|done].
  intros Hin. rewrite Forall_forall in Hfa. by apply (irreflexivity key_lt k), Hfa.
Qed.

(** ** Totals: what leaves the sources is what reaches the destinations *)

Lemma map_sum_add_input (w : key -> Z) k a m :
  map_sum (fun k v => w k * Input v) (add_input k a m) =
  map_sum (fun k v => w k * Input v) m + w k * a.
Proof.
  unfold add_input, entry_at. rewrite map_sum_insert.
  destruct (m !! k); simpl; lia.
Qed.

Lemma map_sum_add_input_out (w : key -> Z) k a m :
  map_sum (fun k v => w k * Output v) (add_input k a m) =
  map_sum (fun k v => w k * Output v) m.
Proof.
  unfold add_input, entry_at. rewrite map_sum_insert.
  destruct (m !! k); simpl; lia.
Qed.

Lemma map_sum_add_output (w : key -> Z) k a m :
  map_sum (fun k v => w k * Output v) (add_output k a m) =
  map_sum (fun k v => w k * Output v) m + w k * a.
Proof.
  unfold add_output, entry_at. rewrite map_sum_insert.
  destruct (m !! k); simpl; lia.
Qed.

Lemma map_sum_add_output_in (w : key -> Z) k a m :
  map_sum (fun k v => w k * Input v) (add_output k a m) =
  map_sum (fun k v => w k * Input v) m.
Proof.
  unfold add_output, entry_at. rewrite map_sum_insert.
  destruct (m !! k); simpl; lia.
Qed.

Lemma volume_index_totals (w : key -> Z) i p m m' :
  volume_index i p m = Ok m' ->
  map_sum (fun k v => w k * Input v) m' =
    map_sum (fun k v => w k * Input v) m + sumZ (fun x => w (destination_key x) * moved x) p /\
  map_sum (fun k v => w k * Output v) m' =
    map_sum (fun k v => w k * Output v) m + sumZ (fun x => w (source_key x) * moved x) p.
Proof.
  revert i m. induction p as [|x p IH]; intros i m; simpl; [intros [= ->]; lia|].
  destruct (match Amount x with Some a => Some a | None => if UpTo x then Some 0 else None end)
    as [a|] eqn:Ha; [|done].
  intros [-> ->]%IH.
  rewrite map_sum_add_input, map_sum_add_output_in, map_sum_add_input_out, map_sum_add_output.
  assert (moved x = a) as ->; [|lia].
  unfold moved, amount_of. destruct (Amount x); simplify_eq/=; [done|].
  destruct (UpTo x); by simplify_eq/=.
Qed.

(** Weighted totals of a sorted update list. *)
Lemma updates_totals (w : key -> Z) p us :
  VolumeUpdates p = Ok us ->
  sumZ (fun u => w (update_key u) * UInput u) us = sumZ (fun x => w (destination_key x) * moved x) p /\
  sumZ (fun u => w (update_key u) * UOutput u) us = sumZ (fun x => w (source_key x) * moved x) p.
Proof.
  unfold VolumeUpdates. intros Hv. inv_ok.
  match goal with H : volume_index _ _ _ = Ok ?m |- _ =>
    destruct (volume_index_totals w _ _ _ _ H) as [Hin Hout]; rename m into index end.
  rewrite map_sum_empty, Z.add_0_l in Hin, Hout.
  rewrite <-Hin, <-Hout, !sumZ_map. unfold map_sum, update_key; simpl.
  split; rewrite <-(sumZ_permutation _ _ _ (map_rows_perm key_le index));
    apply sumZ_ext; by intros [[??]?] _.
Qed.

(** The specification determines the list. *)
Lemma updates_of_unique p us : updates_of p us -> VolumeUpdates p = Ok us.
Proof.
  intros Hus. destruct (volume_updates_total p (updates_resolvable _ _ Hus)) as [us' Hus'].
  rewrite Hus'. f_equal. apply volume_updates_Ok in Hus'.
  pose proof (updates_keys_unique p p us' us Hus' Hus ltac:(done)) as Hkeys.
  assert (forall u' u, u' ∈ us' -> u ∈ us -> update_key u' = update_key u -> u' = u) as Heq.
  { intros u' u Hu' Hu Hk.
    pose proof (updates_input _ _ Hus' u' Hu') as Hi'. pose proof (updates_output _ _ Hus' u' Hu') as Ho'.
    rewrite Hk, <-(updates_input _ _ Hus u Hu) in Hi'. rewrite Hk, <-(updates_output _ _ Hus u Hu) in Ho'.
    destruct u', u. unfold update_key in Hk. simpl in *. congruence. }
  clear Hus Hus'. revert us Hkeys Heq. induction us' as [|u' us' IH]; intros [|u us] Hk Heq; try done.
  csimpl in *. injection Hk as Ha Hs Hk. f_equal.
  - apply Heq; [left; done|left; done|]. unfold update_key. congruence.
  - apply IH; [done|]. intros ????. apply Heq; by right.
Qed.

Definition asset_weight (a : Asset) (k : key) : Z := if decide (k.2 = a) then 1 else 0.

(** The deltas of a transaction. [VolumeUpdates] succeeds exactly when no
    posting lacks an amount without being a ceiling; its result is strictly
    sorted by (account, asset) -- the lock order -- with one entry per touched
    pair, carrying the exact sums of what the pair sends and receives; and per
    asset the inputs and the outputs add up to the same figure. *)
Theorem volume_updates_exact (p : Postings) :
  match VolumeUpdates p with
  | Ok us =>
      updates_of p us /\
      forall a, sumZ (fun u => asset_weight a (update_key u) * UInput u) us =
                sumZ (fun u => asset_weight a (update_key u) * UOutput u) us
  | Err e => exists i x, p !! i = Some x /\ ~ resolvable x /\ e = ErrNilAmount i
  end.
Proof.
  destruct (VolumeUpdates p) as [us|e] eqn:Hu.
  - split; [by apply volume_updates_Ok|]. intros a.
    by destruct (updates_totals (asset_weight a) p us Hu) as [-> ->].
  - by apply volume_updates_Err.
Qed.
