(* ===== verification/Sha256.v ===== *)
(** * crypto/sha256

    [ledger/log.go] chains log entries with [sha256.New().Write(...).Sum(nil)]
    and [storage/log.go], [storage/bulk.go] and [migrate/parse.go] use
    [sha256.Sum256]. Go's standard library implements FIPS 180-4; this is that
    function on byte strings, executable, so that hashes in the development
    are the hashes the program computes. *)

From S2P Require Import Prelude.

Module Sha256.

Open Scope N_scope.

Definition mask32 : N := 4294967295.

Definition add32 (a b : N) : N := N.land (a + b) mask32.
Definition rotr (n x : N) : N :=
  N.lor (N.shiftr x n) (N.land (N.shiftl x (32 - n)) mask32).
Definition not32 (x : N) : N := N.lxor x mask32.

Definition ch (x y z : N) : N := N.lxor (N.land x y) (N.land (not32 x) z).
Definition maj (x y z : N) : N :=
  N.lxor (N.lxor (N.land x y) (N.land x z)) (N.land y z).
Definition big_sigma0 (x : N) : N := N.lxor (N.lxor (rotr 2 x) (rotr 13 x)) (rotr 22 x).
Definition big_sigma1 (x : N) : N := N.lxor (N.lxor (rotr 6 x) (rotr 11 x)) (rotr 25 x).
Definition small_sigma0 (x : N) : N := N.lxor (N.lxor (rotr 7 x) (rotr 18 x)) (N.shiftr x 3).
Definition small_sigma1 (x : N) : N := N.lxor (N.lxor (rotr 17 x) (rotr 19 x)) (N.shiftr x 10).

(** FIPS 180-4 takes its constants from the primes: the first 32 bits of the
    fractional parts of the cube roots of the first 64, and of the square roots
    of the first 8. They are computed here rather than copied. *)
Definition is_prime (n : nat) : bool :=
  (2 <=? n)%nat && forallb (fun d => negb (Nat.modulo n d =? 0)%nat) (seq 2 (n - 2)).

Definition first_primes : list N := Eval vm_compute in
  N.of_nat <$> List.filter is_prime (seq 2 310).

Fixpoint cube_root_bits (bits : nat) (root n : N) : N :=
  match bits with
  | O => root
  | S bits =>
      let candidate := root + 2 ^ N.of_nat bits in
      cube_root_bits bits (if candidate ^ 3 <=? n then candidate else root) n
  end.

(** The cube root of [2 ^ 96] times a number below 512 has 35 bits. *)
Definition cube_root_fraction (p : N) : N := N.land (cube_root_bits 36 0 (p * 2 ^ 96)) mask32.

Definition square_root_fraction (p : N) : N := N.land (N.sqrt (p * 2 ^ 64)) mask32.

Definition round_constants : list N := Eval vm_compute in cube_root_fraction <$> first_primes.

Record state := { sa : N; sb : N; sc : N; sd : N; se : N; sf : N; sg : N; sh : N }.

Definition initial_words : list N := Eval vm_compute in square_root_fraction <$> take 8 first_primes.

Definition initial : state :=
  let word i := nth i initial_words 0 in
  {| sa := word 0%nat; sb := word 1%nat; sc := word 2%nat; sd := word 3%nat;
     se := word 4%nat; sf := word 5%nat; sg := word 6%nat; sh := word 7%nat |}.

Definition round (s : state) (kw : N * N) : state :=
  let t1 := add32 (add32 (add32 (add32 s.(sh) (big_sigma1 s.(se)))
                                (ch s.(se) s.(sf) s.(sg))) kw.1) kw.2 in
  let t2 := add32 (big_sigma0 s.(sa)) (maj s.(sa) s.(sb) s.(sc)) in
  {| sa := add32 t1 t2; sb := s.(sa); sc := s.(sb); sd := s.(sc);
     se := add32 s.(sd) t1; sf := s.(se); sg := s.(sf); sh := s.(sg) |}.

(** The message schedule, built newest word first. *)
Fixpoint extend (n : nat) (w : list N) : list N :=
  match n with
  | O => w
  | S n =>
      let at_ i := nth i w 0 in
      extend n (add32 (add32 (small_sigma1 (at_ 1%nat)) (at_ 6%nat))
                      (add32 (small_sigma0 (at_ 14%nat)) (at_ 15%nat)) :: w)
  end.

Definition schedule (block : list N) : list N := rev (extend 48 (rev block)).

Definition compress (s : state) (block : list N) : state :=
  let r := fold_left round (zip round_constants (schedule block)) s in
  {| sa := add32 s.(sa) r.(sa); sb := add32 s.(sb) r.(sb);
     sc := add32 s.(sc) r.(sc); sd := add32 s.(sd) r.(sd);
     se := add32 s.(se) r.(se); sf := add32 s.(sf) r.(sf);
     sg := add32 s.(sg) r.(sg); sh := add32 s.(sh) r.(sh) |}.

Fixpoint bytes_of (s : string) : list N :=
  match s with
  | EmptyString => []
  | String c s => N_of_ascii c :: bytes_of s
  end.

(** Big endian bytes of a word. *)
Definition word_bytes (w : N) : list N :=
  [N.land (N.shiftr w 24) 255; N.land (N.shiftr w 16) 255;
   N.land (N.shiftr w 8) 255; N.land w 255].

Fixpoint words_of (bytes : list N) : list N :=
  match bytes with
  | b0 :: b1 :: b2 :: b3 :: rest =>
      N.lor (N.shiftl b0 24) (N.lor (N.shiftl b1 16) (N.lor (N.shiftl b2 8) b3)) :: words_of rest
  | _ => []
  end.

(** 0x80, zeros up to 56 modulo 64, and the bit length on 64 bits. *)
Definition pad (bytes : list N) : list N :=
  let n := N.of_nat (length bytes) in
  let zeros := (119 - n mod 64) mod 64 in
  let bits := n * 8 in
  bytes ++ 128 :: replicate (N.to_nat zeros) 0
        ++ word_bytes (N.land (N.shiftr bits 32) mask32) ++ word_bytes (N.land bits mask32).

(** One block of sixteen words at a time; the number of words bounds the
    number of blocks. *)
Fixpoint blocks (fuel : nat) (s : state) (words : list N) : state :=
  match fuel, words with
  | S fuel, _ :: _ => blocks fuel (compress s (take 16 words)) (drop 16 words)
  | _, _ => s
  end.

Definition digest_bytes (s : state) : list N :=
  word_bytes s.(sa) ++ word_bytes s.(sb) ++ word_bytes s.(sc) ++ word_bytes s.(sd) ++
  word_bytes s.(se) ++ word_bytes s.(sf) ++ word_bytes s.(sg) ++ word_bytes s.(sh).

Fixpoint string_of_bytes (l : list N) : string :=
  match l with
  | [] => EmptyString
  | b :: l => String (ascii_of_N b) (string_of_bytes l)
  end.

Definition sum256 (msg : string) : string :=
  let words := words_of (pad (bytes_of msg)) in
  string_of_bytes (digest_bytes (blocks (length words) initial words)).

Lemma sum256_length msg : String.length (sum256 msg) = 32%nat.
Proof. reflexivity. Qed.

End Sha256.

(** Proofs never unfold the hash. *)
#[global] Opaque Sha256.sum256.

(** [encoding/hex.EncodeToString] *)
Definition hex_digit (n : N) : ascii :=
  if (n <? 10)%N then ascii_of_N (48 + n) else ascii_of_N (87 + n).

Fixpoint hex_encode (s : string) : string :=
  match s with
  | EmptyString => EmptyString
  | String c s =>
      String (hex_digit (N.shiftr (N_of_ascii c) 4))
        (String (hex_digit (N.land (N_of_ascii c) 15)) (hex_encode s))
  end.

(** The test vectors of FIPS 180-4. *)
Example sha256_abc :
  hex_encode (Sha256.sum256 "abc") =
  "ba7816bf8f01cfea414140de5dae2223b00361a396177a9cb410ff61f20015ad".
Proof. vm_compute. reflexivity. Qed.

Example sha256_two_blocks :
  hex_encode (Sha256.sum256 "abcdbcdecdefdefgefghfghighijhijkijkljklmklmnlmnomnopnopq") =
  "248d6a61d20638b8e5c026930c3e6039a33ce45964ff2167f6ecedd419db06c1".
Proof. vm_compute. reflexivity. Qed.

Example sha256_empty :
  hex_encode (Sha256.sum256 "") =
  "e3b0c44298fc1c149afbf4c8996fb92427ae41e4649b934ca495991b7852b855".
Proof. vm_compute. reflexivity. Qed.

(** Only constructors of digits: the encoding is injective. *)
Lemma hex_digit_inj a b : (a < 16)%N -> (b < 16)%N -> hex_digit a = hex_digit b -> a = b.
Proof.
  intros Ha Hb Heq.
  assert (forall n, (n < 16)%N -> N_of_ascii (hex_digit n) = if (n <? 10)%N then 48 + n else 87 + n)%N as Hd.
  { intros n Hn. unfold hex_digit. destruct (n <? 10)%N eqn:?; rewrite N_ascii_embedding; lia. }
  pose proof (Hd a Ha) as H1. pose proof (Hd b Hb) as H2. rewrite Heq, H2 in H1.
  destruct (N.ltb_spec a 10), (N.ltb_spec b 10); lia.
Qed.

Lemma hex_encode_inj s t : hex_encode s = hex_encode t -> s = t.
Proof.
  revert t. induction s as [|c s IH]; intros [|d t]; try done.
  cbn [hex_encode]. intros Heq. injection Heq as Hhi Hlo Hst.
  pose proof (N_ascii_bounded c) as Hc. pose proof (N_ascii_bounded d) as Hd.
  assert (forall n, (n < 256)%N -> (N.shiftr n 4 < 16)%N) as Hsh.
  { intros n Hn. rewrite N.shiftr_div_pow2. apply N.Div0.div_lt_upper_bound. simpl. lia. }
  assert (forall n, (N.land n 15 < 16)%N) as Hld.
  { intros n. change 15%N with (N.ones 4). rewrite N.land_ones. by apply N.mod_lt. }
  apply hex_digit_inj in Hhi; [|by apply Hsh..]. apply hex_digit_inj in Hlo; [|by apply Hld..].
  f_equal; [|by apply IH]. rewrite <-(ascii_N_embedding c), <-(ascii_N_embedding d). f_equal.
  change 15%N with (N.ones 4) in Hlo. rewrite !N.land_ones in Hlo. rewrite !N.shiftr_div_pow2 in Hhi.
  rewrite (N.div_mod (N_of_ascii c) (2 ^ 4)), (N.div_mod (N_of_ascii d) (2 ^ 4)) by done.
  by rewrite Hhi, Hlo.
Qed.
