(* ===== verification/Decimal.v ===== *)
(** * Decimal text

    What [strconv.FormatInt], [big.Int.String] and the fixed width fields of a
    formatted time print, and what [strconv.ParseInt] and [big.Int.SetString]
    read back. *)

From S2P Require Import Prelude Identifiers.

Definition digit_char (n : Z) : ascii := ascii_of_N (Z.to_N (48 + n)).

(** ** Fixed width, zero padded *)

Fixpoint pad_digits (width : nat) (n : Z) (acc : string) : string :=
  match width with
  | O => acc
  | S w => pad_digits w (n / 10) (String (digit_char (n mod 10)) acc)
  end.

(** ** Without padding *)

Fixpoint nat_digits (fuel : nat) (n : Z) (acc : string) : string :=
  match fuel with
  | O => acc
  | S fuel =>
      let acc := String (digit_char (n mod 10)) acc in
      if n / 10 =? 0 then acc else nat_digits fuel (n / 10) acc
  end.

(** Fuel: a number has at most one more decimal digit than its length in
    bits. *)
Definition print_nat (n : Z) : string := nat_digits (Z.to_nat (Z.log2 n + 1)) n EmptyString.

Definition print_Z (z : Z) : string :=
  if z <? 0 then String "-" (print_nat (- z)) else print_nat z.

(** Unsigned decimal: one or more digits and nothing else. *)
Definition parse_nat (s : string) : option Z :=
  if bool_decide (s <> EmptyString) && forall_char is_digit s
  then Some (digits_value 0 s) else None.

(** [big.Int.SetString(s, 10)]: an optional sign, then digits. *)
Definition parse_Z (s : string) : option Z :=
  match s with
  | String "-" s' => Z.opp <$> parse_nat s'
  | String "+" s' => parse_nat s'
  | _ => parse_nat s
  end.

(** [strconv.ParseInt(s, 10, 64)]: the same, refused outside int64. *)
Definition parse_int64 (s : string) : option Z :=
  z ← parse_Z s;
  if (- 2 ^ 63 <=? z) && (z <=? max_int64) then Some z else None.

(** ** Round trips *)

Lemma digit_char_is_digit n : 0 <= n <= 9 -> is_digit (digit_char n) = true.
Proof.
  intros Hn. assert (n ∈ [0;1;2;3;4;5;6;7;8;9]) as Hin by (rewrite !elem_of_cons; lia).
  clear Hn. set_unfold. destruct_or!; subst; done.
Qed.

Lemma digit_char_value n : 0 <= n <= 9 -> digit_value (digit_char n) = n.
Proof.
  intros Hn. unfold digit_value, digit_char. rewrite N_ascii_embedding by lia. lia.
Qed.

Lemma mod10_range n : 0 <= n mod 10 <= 9.
Proof. pose proof (Z.mod_pos_bound n 10). lia. Qed.
#[local] Hint Resolve mod10_range : core.

Lemma pad_digits_spec w n acc a :
  0 <= n < 10 ^ Z.of_nat w ->
  digits_value a (pad_digits w n acc) = digits_value (a * 10 ^ Z.of_nat w + n) acc.
Proof.
  revert n acc. induction w as [|w IH]; intros n acc Hn; simpl.
  - rewrite Z.pow_0_r in *. f_equal. lia.
  - rewrite Nat2Z.inj_succ, Z.pow_succ_r in * by lia.
    rewrite IH by (pose proof (Z.div_mod n 10); pose proof (mod10_range n); nia). simpl.
    rewrite digit_char_value by done. f_equal. pose proof (Z.div_mod n 10). lia.
Qed.

Lemma pad_digits_digits w n acc :
  forall_char is_digit acc = true -> forall_char is_digit (pad_digits w n acc) = true.
Proof.
  revert n acc. induction w as [|w IH]; intros n acc Hacc; simpl; [done|].
  apply IH. simpl. by rewrite digit_char_is_digit.
Qed.

Lemma pad_digits_length w n acc :
  String.length (pad_digits w n acc) = (w + String.length acc)%nat.
Proof.
  revert n acc. induction w as [|w IH]; intros n acc; simpl; [done|]. rewrite IH. simpl. lia.
Qed.

Lemma nat_digits_value fuel n acc :
  0 <= n < 10 ^ Z.of_nat fuel ->
  (1 <= fuel)%nat ->
  digits_value 0 (nat_digits fuel n acc) = digits_value n acc.
Proof.
  revert n acc. induction fuel as [|fuel IH]; intros n acc Hn Hf; [lia|]. simpl.
  pose proof (Z.div_mod n 10 ltac:(lia)) as Hdm. pose proof (mod10_range n).
  destruct (Z.eqb_spec (n / 10) 0) as [Hz|Hz].
  - simpl. rewrite digit_char_value by done. f_equal. lia.
  - rewrite Nat2Z.inj_succ, Z.pow_succ_r in Hn by lia.
    assert (1 <= fuel)%nat by (destruct fuel; [rewrite Z.pow_0_r in Hn; nia|lia]).
    rewrite IH by (try done; nia). simpl. rewrite digit_char_value by done. f_equal. lia.
Qed.

Lemma nat_digits_digits fuel n acc :
  forall_char is_digit acc = true -> forall_char is_digit (nat_digits fuel n acc) = true.
Proof.
  revert n acc. induction fuel as [|fuel IH]; intros n acc Hacc; simpl; [done|].
  case_match; [|apply IH]; simpl; by rewrite digit_char_is_digit.
Qed.

Lemma nat_digits_nonempty fuel n acc : (1 <= fuel)%nat -> nat_digits fuel n acc <> EmptyString.
Proof.
  revert n acc. induction fuel as [|fuel IH]; intros n acc Hf; [lia|]. simpl.
  case_match; [done|]. destruct fuel; [done|]. apply IH. lia.
Qed.

Lemma print_nat_fuel n : 0 <= n -> 0 <= n < 10 ^ Z.of_nat (Z.to_nat (Z.log2 n + 1)).
Proof.
  intros Hn. split; [done|]. rewrite Z2Nat.id by (pose proof (Z.log2_nonneg n); lia).
  destruct (Z.eq_dec n 0) as [->|]; [done|].
  pose proof (Z.log2_spec n ltac:(lia)). pose proof (Z.log2_nonneg n).
  pose proof (Z.pow_le_mono_l 2 10 (Z.log2 n + 1)). unfold Z.succ in *. lia.
Qed.

Lemma print_nat_nonempty n : print_nat n <> EmptyString.
Proof. apply nat_digits_nonempty. pose proof (Z.log2_nonneg n). lia. Qed.

Lemma print_nat_is_digits n : forall_char is_digit (print_nat n) = true.
Proof. by apply nat_digits_digits. Qed.

Lemma parse_print_nat n : 0 <= n -> parse_nat (print_nat n) = Some n.
Proof.
  intros Hn. unfold parse_nat.
  rewrite print_nat_is_digits, bool_decide_true by apply print_nat_nonempty. simpl. f_equal.
  unfold print_nat. rewrite nat_digits_value; [done|by apply print_nat_fuel|].
  pose proof (Z.log2_nonneg n). lia.
Qed.

Lemma digits_not_sign s : forall_char is_digit s = true -> parse_Z s = parse_nat s.
Proof.
  intros Hs. destruct s as [|c s]; [done|]. simpl in Hs. apply andb_true_iff in Hs as [Hc _].
  unfold parse_Z. by destruct c as [[][][][][][][][]].
Qed.

Lemma parse_print_Z z : parse_Z (print_Z z) = Some z.
Proof.
  unfold print_Z. destruct (Z.ltb_spec z 0).
  - simpl. rewrite parse_print_nat by lia. simpl. f_equal. lia.
  - rewrite digits_not_sign by apply print_nat_is_digits. apply parse_print_nat. lia.
Qed.

Lemma parse_print_int64 z :
  - 2 ^ 63 <= z <= max_int64 -> parse_int64 (print_Z z) = Some z.
Proof.
  intros Hz. unfold parse_int64. rewrite parse_print_Z. simpl.
  destruct (Z.leb_spec (- 2 ^ 63) z), (Z.leb_spec z max_int64); try done; lia.
Qed.

Lemma print_Z_nonempty z : print_Z z <> EmptyString.
Proof. unfold print_Z. case_match; [done|]. apply print_nat_nonempty. Qed.
