(* ===== verification/GoTime.v ===== *)
(** * Time

    [time.Time] as the code uses it: an instant in nanoseconds since the Unix
    epoch, with the zone offset that [encoding/json] prints. Postgres keeps
    microseconds, which is what [Truncate] rounds to. *)

From S2P Require Import Prelude Identifiers Text Decimal.

(** An instant; every time the engine stores or returns is in UTC. *)
Abbreviation Instant := Z (only parsing).

(** A caller's time carries its zone, as seconds east of UTC. *)
Record Time := { unix_nano : Instant; zone : Z }.

#[export] Instance Time_eq_dec : EqDecision Time.
Proof. solve_decision. Defined.

Definition second : Z := 1000000000.
Definition millisecond : Z := 1000000.
Definition microsecond : Z := 1000.

(** January 1, year 1, 00:00:00 UTC. *)
Definition zero_instant : Instant := -62135596800 * second.

Definition IsZero (t : Time) : bool := t.(unix_nano) =? zero_instant.

Definition UTC (t : Time) : Instant := t.(unix_nano).

(** [Truncate] rounds towards the zero time; the unit divides its distance
    from the epoch, so this is rounding down. *)
Definition Truncate (t : Instant) (unit : Z) : Instant := t / unit * unit.

(** ** The proleptic Gregorian calendar *)

Definition civil_from_days (days : Z) : Z * Z * Z :=
  let z := days + 719468 in
  let era := z / 146097 in
  let doe := z mod 146097 in
  let yoe := (doe - doe / 1460 + doe / 36524 - doe / 146096) / 365 in
  let doy := doe - (365 * yoe + yoe / 4 - yoe / 100) in
  let mp := (5 * doy + 2) / 153 in
  let d := doy - (153 * mp + 2) / 5 + 1 in
  let m := if mp <? 10 then mp + 3 else mp - 9 in
  (yoe + era * 400 + (if m <=? 2 then 1 else 0), m, d).

Definition days_from_civil (y m d : Z) : Z :=
  let y := if m <=? 2 then y - 1 else y in
  let era := y / 400 in
  let yoe := y mod 400 in
  let doy := (153 * (if 2 <? m then m - 3 else m + 9) + 2) / 5 + d - 1 in
  era * 146097 + (yoe * 365 + yoe / 4 - yoe / 100 + doy) - 719468.

Definition leap (y : Z) : bool := (y mod 4 =? 0) && (negb (y mod 100 =? 0) || (y mod 400 =? 0)).

Definition days_in (y m : Z) : Z :=
  if m =? 2 then (if leap y then 29 else 28)
  else if (m =? 4) || (m =? 6) || (m =? 9) || (m =? 11) then 30 else 31.

(** The year within a 400 year cycle, and what is left of the day number: the
    years start in March, so that the leap day is a year's last. *)
Lemma year_of_cycle doe :
  0 <= doe < 146097 ->
  let yoe := (doe - doe / 1460 + doe / 36524 - doe / 146096) / 365 in
  let doy := doe - (365 * yoe + yoe / 4 - yoe / 100) in
  0 <= yoe < 400 /\ 0 <= doy <= 365 /\
  (doy = 365 -> (yoe + 1) mod 4 = 0 /\ ((yoe + 1) mod 100 <> 0 \/ (yoe + 1) mod 400 = 0)).
Proof.
  intros Hdoe yoe doy.
  assert (0 <= yoe < 400) as Hyoe by (subst yoe doy; Z.to_euclidean_division_equations; lia).
  split; [done|]. split; [subst yoe doy; Z.to_euclidean_division_equations; lia|].
  intros Hlast. split; [subst yoe doy; Z.to_euclidean_division_equations; lia|].
  assert ((yoe + 1) mod 100 <> 0 \/ yoe = 399) as [? | ->]; [|by left|by right].
  subst yoe doy. Z.to_euclidean_division_equations; lia.
Qed.

Lemma month_of_year doy :
  0 <= doy <= 365 ->
  let mp := (5 * doy + 2) / 153 in
  let d := doy - (153 * mp + 2) / 5 + 1 in
  let m := if mp <? 10 then mp + 3 else mp - 9 in
  1 <= m <= 12 /\ 1 <= d <= 31 /\ (m <= 2 <-> 306 <= doy) /\
  (doy < 365 -> m = 2 -> d <= 28) /\ (doy = 365 -> m = 2 /\ d = 29) /\
  (m = 4 \/ m = 6 \/ m = 9 \/ m = 11 -> d <= 30) /\
  (153 * (if 2 <? m then m - 3 else m + 9) + 2) / 5 + d - 1 = doy.
Proof.
  intros Hdoy mp d m.
  assert (0 <= mp <= 11) as Hmp by (subst mp; Z.to_euclidean_division_equations; lia).
  assert (mp = 0 \/ mp = 1 \/ mp = 2 \/ mp = 3 \/ mp = 4 \/ mp = 5 \/ mp = 6 \/ mp = 7 \/
          mp = 8 \/ mp = 9 \/ mp = 10 \/ mp = 11) as Hcases by lia.
  assert (153 * mp <= 5 * doy + 2 < 153 * mp + 153) as Hb
    by (subst mp; Z.to_euclidean_division_equations; lia).
  clearbody mp. subst d m. destruct_or!; subst mp; simpl in *; split_and!; Z.to_euclidean_division_equations; lia.
Qed.

Lemma leap_shift y k : leap (y + k * 400) = leap y.
Proof.
  unfold leap.
  assert (forall n, 0 < n -> (400 mod n = 0) -> (y + k * 400) mod n = y mod n) as Hm.
  { intros n Hn Hd. rewrite Z.add_mod, Z.mul_mod, Hd, Z.mul_0_r, Z.mod_0_l, Z.add_0_r, Z.mod_mod; lia. }
  by rewrite !Hm.
Qed.

Lemma days_from_civil_shift y m d k :
  days_from_civil (y + k * 400) m d = days_from_civil y m d + k * 146097.
Proof.
  unfold days_from_civil.
  assert ((if m <=? 2 then y + k * 400 - 1 else y + k * 400) =
          (if m <=? 2 then y - 1 else y) + k * 400) as -> by (destruct (m <=? 2); lia).
  rewrite Z.div_add, Z.mod_add by lia. lia.
Qed.

Lemma civil_from_days_spec days y m d :
  civil_from_days days = (y, m, d) ->
  1 <= m <= 12 /\ 1 <= d <= days_in y m /\ days_in y m <= 31 /\ days_from_civil y m d = days.
Proof.
  unfold civil_from_days. set (doe := (days + 719468) mod 146097). set (era := (days + 719468) / 146097).
  assert (days = doe - 719468 + era * 146097) as Hdays
    by (subst era doe; pose proof (Z.div_mod (days + 719468) 146097); lia).
  assert (0 <= doe < 146097) as Hdoe by (apply Z.mod_pos_bound; lia). clearbody doe era.
  destruct (year_of_cycle doe Hdoe) as (Hyoe & Hdoy & Hleap).
  set (yoe := (doe - doe / 1460 + doe / 36524 - doe / 146096) / 365) in *.
  set (doy := doe - (365 * yoe + yoe / 4 - yoe / 100)) in *.
  destruct (month_of_year doy Hdoy) as (Hm & Hd & Hm2 & H28 & H29 & H30 & Hback).
  set (mp := (5 * doy + 2) / 153) in *. set (d' := doy - (153 * mp + 2) / 5 + 1) in *.
  set (m' := if mp <? 10 then mp + 3 else mp - 9) in *.
  intros [= <- <- <-]. split; [done|].
  replace (yoe + era * 400 + (if m' <=? 2 then 1 else 0))
    with ((yoe + (if m' <=? 2 then 1 else 0)) + era * 400) by lia.
  rewrite days_from_civil_shift. unfold days_in, leap. fold (leap (yoe + (if m' <=? 2 then 1 else 0) + era * 400)).
  rewrite leap_shift. split_and!.
  - lia.
  - destruct (Z.eqb_spec m' 2) as [H2|].
    + destruct (Z.leb_spec m' 2); [|lia]. unfold leap.
      destruct (decide (doy = 365)) as [H365|]; [|destruct (_ && _); lia].
      destruct (Hleap H365) as [H4 H100]. rewrite H4. simpl.
      destruct (Z.eqb_spec ((yoe + 1) mod 100) 0), (Z.eqb_spec ((yoe + 1) mod 400) 0);
        simpl; lia.
    + destruct (Z.eqb_spec m' 4), (Z.eqb_spec m' 6), (Z.eqb_spec m' 9), (Z.eqb_spec m' 11); simpl; lia.
  - repeat case_match; lia.
  - unfold days_from_civil.
    replace (if m' <=? 2 then yoe + (if m' <=? 2 then 1 else 0) - 1 else yoe + (if m' <=? 2 then 1 else 0))
      with yoe by (destruct (m' <=? 2); lia).
    rewrite Z.div_small, Z.mod_small by lia. subst doy. lia.
Qed.

#[global] Arguments civil_from_days : simpl never.
#[global] Arguments days_from_civil : simpl never.

(** ** RFC 3339 with nanoseconds *)

(** The fraction: nothing for zero, else the significant digits of nine. *)
Fixpoint strip_zeros (width : nat) (n : Z) (acc : string) : string :=
  match width with
  | O => acc
  | S w => if n mod 10 =? 0 then strip_zeros w (n / 10) acc else pad_digits width n acc
  end.

Definition format_fraction (nanos : Z) (acc : string) : string :=
  if nanos =? 0 then acc else String "." (strip_zeros 9 nanos acc).

Definition format_zone (offset : Z) : string :=
  let minutes := Z.quot offset 60 in
  if minutes =? 0 then "Z"
  else String (if minutes <? 0 then "-"%char else "+"%char)
         (pad_digits 2 (Z.abs minutes / 60) (String ":" (pad_digits 2 (Z.abs minutes mod 60) ""))).

(** The local calendar fields of a time. *)
Definition local_seconds (t : Time) : Z := t.(unix_nano) / second + t.(zone).

Definition local_year (t : Time) : Z := (civil_from_days (local_seconds t / 86400)).1.1.

Definition format_time (t : Time) : string :=
  let secs := local_seconds t in
  let '(y, m, d) := civil_from_days (secs / 86400) in
  let sod := secs mod 86400 in
  pad_digits 4 y (String "-" (pad_digits 2 m (String "-" (pad_digits 2 d (String "T"
    (pad_digits 2 (sod / 3600) (String ":" (pad_digits 2 (sod / 60 mod 60) (String ":"
      (pad_digits 2 (sod mod 60)
         (format_fraction (t.(unix_nano) mod second) (format_zone t.(zone))))))))))))).

(** [Time.MarshalJSON] refuses a year outside [0,9999] and a zone of a day or
    more, because RFC 3339 cannot say either. *)
Definition marshal_time (t : Time) : option string :=
  if (0 <=? local_year t) && (local_year t <=? 9999) && (Z.abs t.(zone) <? 86400)
  then Some (format_time t) else None.

(** [n] digits at the head of a string. *)
Fixpoint take_digits (n : nat) (acc : Z) (s : string) : option (Z * string) :=
  match n with
  | O => Some (acc, s)
  | S n =>
      match s with
      | String c s => if is_digit c then take_digits n (acc * 10 + digit_value c) s else None
      | EmptyString => None
      end
  end.

Definition expect (c : ascii) (s : string) : option string :=
  match s with
  | String d s => if bool_decide (c = d) then Some s else None
  | EmptyString => None
  end.

Fixpoint fraction_value (w : nat) (s : string) : Z * string :=
  match s with
  | String c s' =>
      if is_digit c then
        match w with
        | O => fraction_value O s'
        | S w => let '(v, rest) := fraction_value w s' in (digit_value c * 10 ^ Z.of_nat w + v, rest)
        end
      else (0, s)
  | EmptyString => (0, s)
  end.

Definition parse_fraction (s : string) : option (Z * string) :=
  match s with
  | String "." (String c _ as s') => if is_digit c then Some (fraction_value 9 s') else None
  | _ => Some (0, s)
  end.

Definition parse_zone (s : string) : option Z :=
  match s with
  | "Z" => Some 0
  | String c s =>
      sign ← (if bool_decide (c = "+"%char) then Some 1
              else if bool_decide (c = "-"%char) then Some (-1) else None);
      '(h, s) ← take_digits 2 0 s;
      s ← expect ":" s;
      '(m, s) ← take_digits 2 0 s;
      if bool_decide (s = EmptyString) && (h <=? 23) && (m <=? 59)
      then Some (sign * (h * 3600 + m * 60)) else None
  | EmptyString => None
  end.

(** [Time.UnmarshalJSON]'s reading of the text between the quotes. *)
Definition parse_time (s : string) : option Time :=
  '(y, s) ← take_digits 4 0 s; s ← expect "-" s;
  '(m, s) ← take_digits 2 0 s; s ← expect "-" s;
  '(d, s) ← take_digits 2 0 s; s ← expect "T" s;
  '(hh, s) ← take_digits 2 0 s; s ← expect ":" s;
  '(mm, s) ← take_digits 2 0 s; s ← expect ":" s;
  '(ss, s) ← take_digits 2 0 s;
  '(nanos, s) ← parse_fraction s;
  offset ← parse_zone s;
  if (1 <=? m) && (m <=? 12) && (1 <=? d) && (d <=? days_in y m) &&
     (hh <=? 23) && (mm <=? 59) && (ss <=? 59)
  then Some {| unix_nano :=
                 (days_from_civil y m d * 86400 + hh * 3600 + mm * 60 + ss - offset) * second + nanos;
               zone := offset |}
  else None.

(** ** Reading back what was written *)

Lemma take_digits_pad_aux w k a n acc :
  0 <= n < 10 ^ Z.of_nat w ->
  take_digits (w + k) a (pad_digits w n acc) = take_digits k (a * 10 ^ Z.of_nat w + n) acc.
Proof.
  revert k n acc. induction w as [|w IH]; intros k n acc Hn.
  - simpl. rewrite Z.pow_0_r in *. f_equal. lia.
  - rewrite Nat2Z.inj_succ, Z.pow_succ_r in * by lia. cbn [pad_digits].
    pose proof (Z.div_mod n 10 ltac:(lia)). pose proof (mod10_range n).
    replace (S w + k)%nat with (w + S k)%nat by lia.
    rewrite IH by nia. cbn [take_digits].
    rewrite digit_char_is_digit, digit_char_value by done. f_equal. lia.
Qed.

Lemma take_digits_pad w n acc :
  0 <= n < 10 ^ Z.of_nat w -> take_digits w 0 (pad_digits w n acc) = Some (n, acc).
Proof.
  intros Hn. pose proof (take_digits_pad_aux w 0 0 n acc Hn) as H.
  rewrite Nat.add_0_r in H. rewrite H. simpl. do 2 f_equal; lia.
Qed.

Lemma fraction_value_pad w k n acc :
  0 <= n < 10 ^ Z.of_nat w ->
  fraction_value (w + k) (pad_digits w n acc) =
  (n * 10 ^ Z.of_nat k + (fraction_value k acc).1, (fraction_value k acc).2).
Proof.
  revert k n acc. induction w as [|w IH]; intros k n acc Hn.
  - simpl. rewrite Z.pow_0_r in Hn. replace n with 0 by lia. by destruct (fraction_value k acc).
  - rewrite Nat2Z.inj_succ, Z.pow_succ_r in * by lia. cbn [pad_digits].
    pose proof (Z.div_mod n 10 ltac:(lia)). pose proof (mod10_range n).
    replace (S w + k)%nat with (w + S k)%nat by lia.
    rewrite IH by nia. cbn [fraction_value].
    rewrite digit_char_is_digit, digit_char_value by done.
    destruct (fraction_value k acc) as [v rest]. simpl fst; simpl snd. f_equal.
    rewrite Nat2Z.inj_succ, Z.pow_succ_r by lia. nia.
Qed.

Lemma expect_eq c s : expect c (String c s) = Some s.
Proof. simpl. by rewrite bool_decide_true. Qed.

Definition no_digit_head (s : string) : bool :=
  match s with String c _ => negb (is_digit c) | EmptyString => true end.

Lemma fraction_value_stop k s : no_digit_head s = true -> fraction_value k s = (0, s).
Proof. destruct k, s as [|c s]; simpl; try done; destruct (is_digit c); done. Qed.

Lemma fraction_value_strip w k n acc :
  0 < n < 10 ^ Z.of_nat w -> no_digit_head acc = true ->
  fraction_value (w + k) (strip_zeros w n acc) = (n * 10 ^ Z.of_nat k, acc).
Proof.
  revert k n. induction w as [|w IH]; intros k n Hn Hacc; [simpl in Hn; lia|].
  cbn [strip_zeros]. destruct (Z.eqb_spec (n mod 10) 0) as [Hz|Hz].
  - rewrite Nat2Z.inj_succ, Z.pow_succ_r in Hn by lia. pose proof (Z.div_mod n 10 ltac:(lia)).
    replace (S w + k)%nat with (w + S k)%nat by lia. rewrite IH by (try done; lia). f_equal.
    rewrite Nat2Z.inj_succ, Z.pow_succ_r by lia. nia.
  - rewrite fraction_value_pad by lia. rewrite fraction_value_stop by done. simpl. f_equal. lia.
Qed.

Lemma pad_digits_head w n acc :
  exists c s, pad_digits (S w) n acc = String c s /\ is_digit c = true.
Proof.
  revert n acc. induction w as [|w IH]; intros n acc.
  - simpl. eexists _, _. split; [done|]. apply digit_char_is_digit, mod10_range.
  - destruct (IH (n / 10) (String (digit_char (n mod 10)) acc)) as (c & s & H & ?). by exists c, s.
Qed.

Lemma strip_zeros_head w n acc :
  0 < n < 10 ^ Z.of_nat w -> exists c s, strip_zeros w n acc = String c s /\ is_digit c = true.
Proof.
  revert n. induction w as [|w IH]; intros n Hn; [simpl in Hn; lia|]. cbn [strip_zeros].
  destruct (Z.eqb_spec (n mod 10) 0); [|apply pad_digits_head].
  apply IH. rewrite Nat2Z.inj_succ, Z.pow_succ_r in Hn by lia.
  pose proof (Z.div_mod n 10 ltac:(lia)). lia.
Qed.

Lemma parse_format_fraction n acc :
  0 <= n < second -> no_digit_head acc = true -> (forall s, acc <> String "." s) ->
  parse_fraction (format_fraction n acc) = Some (n, acc).
Proof.
  intros Hn Hacc Hdot. unfold format_fraction. destruct (Z.eqb_spec n 0) as [->|Hnz].
  - unfold parse_fraction. destruct acc as [|c acc]; [done|].
    destruct c as [[][][][][][][][]]; try done. by destruct (Hdot acc).
  - pose proof (fraction_value_strip 9 0 n acc ltac:(unfold second in *; lia) Hacc) as Hf.
    destruct (strip_zeros_head 9 n acc ltac:(unfold second in *; lia)) as (c & s & Hs & Hc).
    rewrite Hs in *.
    change (parse_fraction (String "." (String c s))) with
      (if is_digit c then Some (fraction_value (9 + 0) (String c s)) else None).
    rewrite Hc, Hf. do 2 f_equal. lia.
Qed.

Lemma format_zone_head z :
  no_digit_head (format_zone z) = true /\ forall s, format_zone z <> String "." s.
Proof. unfold format_zone. repeat case_match; done. Qed.

Lemma parse_format_zone z :
  Z.abs z < 86400 -> z mod 60 = 0 -> parse_zone (format_zone z) = Some z.
Proof.
  intros Hz Hm. unfold format_zone. set (q := Z.quot z 60).
  assert (z = 60 * q) as Hq by (subst q; Z.to_euclidean_division_equations; lia).
  destruct (Z.eqb_spec q 0) as [->|Hnz]; [by rewrite Hq|].
  assert (0 <= Z.abs q / 60 < 24) as Hh by (Z.to_euclidean_division_equations; lia).
  pose proof (Z.mod_pos_bound (Z.abs q) 60 ltac:(lia)) as Hmm.
  pose proof (Z.div_mod (Z.abs q) 60 ltac:(lia)) as Hdm.
  set (rest := pad_digits 2 (Z.abs q / 60) (String ":" (pad_digits 2 (Z.abs q mod 60) ""))).
  assert (forall sign c, c = "+"%char /\ sign = 1 \/ c = "-"%char /\ sign = -1 ->
            parse_zone (String c rest) = Some (sign * (Z.abs q * 60))) as Hparse.
  { intros sign c Hc.
    assert (parse_zone (String c rest) =
      ('(h, s) ← take_digits 2 0 rest; s ← expect ":" s; '(m, s) ← take_digits 2 0 s;
       if bool_decide (s = EmptyString) && (h <=? 23) && (m <=? 59)
       then Some (sign * (h * 3600 + m * 60)) else None)) as ->
      by (destruct Hc as [[-> ->]|[-> ->]]; reflexivity).
    unfold rest. rewrite take_digits_pad by (simpl; lia). cbn [option_bind mbind].
    rewrite expect_eq. cbn [option_bind mbind].
    rewrite take_digits_pad by (simpl; lia). cbn [option_bind mbind].
    rewrite bool_decide_true by done.
    destruct (Z.leb_spec (Z.abs q / 60) 23), (Z.leb_spec (Z.abs q mod 60) 59); simpl; try lia.
    f_equal. lia. }
  destruct (Z.ltb_spec q 0).
  - rewrite (Hparse (-1)) by auto. f_equal. lia.
  - rewrite (Hparse 1) by auto. f_equal. lia.
Qed.

(** A time that [MarshalJSON] accepts, whose zone is a whole number of minutes
    (the only kind RFC 3339 can print), is read back exactly. *)
Lemma parse_format_time t s :
  marshal_time t = Some s -> t.(zone) mod 60 = 0 -> parse_time s = Some t.
Proof.
  destruct t as [ns z]. unfold marshal_time, local_year, local_seconds; cbn [unix_nano zone].
  destruct (civil_from_days ((ns / second + z) / 86400)) as [[y m] d] eqn:Hc. cbn [fst].
  destruct (Z.leb_spec 0 y), (Z.leb_spec y 9999), (Z.ltb_spec (Z.abs z) 86400); simpl; try done.
  intros [= <-] Hz. unfold format_time, local_seconds; cbn [unix_nano zone]. rewrite Hc.
  apply civil_from_days_spec in Hc as (Hm & Hd & Hd31 & Hdays).
  set (secs := ns / second + z) in *. set (sod := secs mod 86400).
  assert (0 <= sod < 86400) as Hsod by (apply Z.mod_pos_bound; lia).
  assert (0 <= sod / 3600 <= 23 /\ 0 <= sod / 60 mod 60 <= 59 /\ 0 <= sod mod 60 <= 59 /\
          sod = sod / 3600 * 3600 + sod / 60 mod 60 * 60 + sod mod 60) as (Hhh & Hmm & Hss & Hsum)
    by (clearbody sod; Z.to_euclidean_division_equations; lia).
  unfold parse_time.
  repeat (rewrite take_digits_pad by (simpl; lia); cbn [mbind option_bind];
          try (rewrite expect_eq; cbn [mbind option_bind])).
  rewrite parse_format_fraction;
    [|apply Z.mod_pos_bound; done|apply format_zone_head..].
  cbn [mbind option_bind]. rewrite parse_format_zone by done. cbn [mbind option_bind].
  destruct (Z.leb_spec 1 m), (Z.leb_spec m 12), (Z.leb_spec 1 d), (Z.leb_spec d (days_in y m)),
    (Z.leb_spec (sod / 3600) 23), (Z.leb_spec (sod / 60 mod 60) 59), (Z.leb_spec (sod mod 60) 59);
    simpl; try lia.
  do 2 f_equal. rewrite Hdays.
  pose proof (Z.div_mod secs 86400 ltac:(lia)). pose proof (Z.div_mod ns second ltac:(done)).
  fold sod in H. unfold second in *. lia.
Qed.
