(* ===== verification/Json.v ===== *)
(** * JSON text

    [encoding/json]'s format: the compact text it writes, with its escapes, and
    the grammar it reads. *)

From S2P Require Import Prelude Identifiers Text Decimal.

(** A number keeps its literal; a decoder decides what it means. *)
#[warnings="-register-all"]
Inductive json :=
| JNull
| JBool (b : bool)
| JNum (literal : string)
| JStr (s : string)
| JArr (l : list json)
| JObj (fields : list (string * json)).

(** ** Writing *)

Definition hex_digit (n : Z) : ascii :=
  if n <? 10 then ascii_of_N (Z.to_N (48 + n)) else ascii_of_N (Z.to_N (87 + n)).

Definition quote : ascii := ascii_of_N 34.
Definition backslash : ascii := ascii_of_N 92.

(** [\u00XX] *)
Definition escape_u00 (c : ascii) : string :=
  String backslash (String "u" (String "0" (String "0"
    (String (hex_digit (byte_of c / 16)) (String (hex_digit (byte_of c mod 16)) ""))))).

(** A byte below 0x80, escaped for HTML as [json.Marshal] does. *)
Definition escape_ascii (c : ascii) : string :=
  let b := byte_of c in
  if (b =? 34) || (b =? 92) then String backslash (String c "")
  else if b =? 8 then String backslash "b"
  else if b =? 12 then String backslash "f"
  else if b =? 10 then String backslash "n"
  else if b =? 13 then String backslash "r"
  else if b =? 9 then String backslash "t"
  else if (b <? 32) || (b =? 60) || (b =? 62) || (b =? 38) then escape_u00 c
  else String c "".

(** U+2028 and U+2029, which are also escaped. *)
Definition line_separator : string :=
  String (ascii_of_N 226) (String (ascii_of_N 128) (String (ascii_of_N 168) "")).
Definition paragraph_separator : string :=
  String (ascii_of_N 226) (String (ascii_of_N 128) (String (ascii_of_N 169) "")).

Definition escape_rune (r : option string) : string :=
  match r with
  | None => String backslash "ufffd"
  | Some r =>
      if bool_decide (r = line_separator) then String backslash "u2028"
      else if bool_decide (r = paragraph_separator) then String backslash "u2029"
      else match r with
           | String c EmptyString => if is_ascii c then escape_ascii c else r
           | _ => r
           end
  end.

(** Printers take the text that follows. *)
Fixpoint escape_to (rs : list (option string)) (k : string) : string :=
  match rs with
  | [] => k
  | r :: rs => String.append (escape_rune r) (escape_to rs k)
  end.

Definition print_string (s : string) (k : string) : string :=
  String quote (escape_to (runes s) (String quote k)).

Fixpoint print_json (v : json) (k : string) : string :=
  match v with
  | JNull => String.append "null" k
  | JBool true => String.append "true" k
  | JBool false => String.append "false" k
  | JNum n => String.append n k
  | JStr s => print_string s k
  | JArr l =>
      String "["
        ((fix elems (l : list json) : string :=
            match l with
            | [] => String "]" k
            | [v] => print_json v (String "]" k)
            | v :: l => print_json v (String "," (elems l))
            end) l)
  | JObj fs =>
      String "{"
        ((fix fields (fs : list (string * json)) : string :=
            match fs with
            | [] => String "}" k
            | [(n, v)] => print_string n (String ":" (print_json v (String "}" k)))
            | (n, v) :: fs => print_string n (String ":" (print_json v (String "," (fields fs))))
            end) fs)
  end.

(** ** Reading *)

Definition is_space (c : ascii) : bool :=
  let b := byte_of c in (b =? 32) || (b =? 9) || (b =? 10) || (b =? 13).

Fixpoint skip_space (s : string) : string :=
  match s with
  | String c s' => if is_space c then skip_space s' else s
  | EmptyString => s
  end.

Definition hex_value (c : ascii) : option Z :=
  let b := byte_of c in
  if byte_in 48 57 c then Some (b - 48)
  else if byte_in 97 102 c then Some (b - 87)
  else if byte_in 65 70 c then Some (b - 55)
  else None.

Definition hex4 (s : string) : option (Z * string) :=
  match s with
  | String a (String b (String c (String d rest))) =>
      x ← hex_value a; y ← hex_value b; z ← hex_value c; w ← hex_value d;
      Some (((x * 16 + y) * 16 + z) * 16 + w, rest)
  | _ => None
  end.

Definition byte_char (z : Z) : ascii := ascii_of_N (Z.to_N z).

(** [utf8.EncodeRune], for a code point that is not a surrogate. *)
Definition encode_rune (z : Z) : string :=
  if z <? 128 then String (byte_char z) ""
  else if z <? 2048 then
    String (byte_char (192 + z / 64)) (String (byte_char (128 + z mod 64)) "")
  else if z <? 65536 then
    String (byte_char (224 + z / 4096)) (String (byte_char (128 + z / 64 mod 64))
      (String (byte_char (128 + z mod 64)) ""))
  else
    String (byte_char (240 + z / 262144)) (String (byte_char (128 + z / 4096 mod 64))
      (String (byte_char (128 + z / 64 mod 64)) (String (byte_char (128 + z mod 64)) ""))).

Definition is_high (z : Z) : bool := (55296 <=? z) && (z <? 56320).
Definition is_low (z : Z) : bool := (56320 <=? z) && (z <? 57344).

(** The rest of an escape [\u]: a pair of surrogates is one code point, a lone
    one reads as U+FFFD. *)
Definition read_unicode (s : string) : option (string * string) :=
  '(z, rest) ← hex4 s;
  if is_high z then
    match rest with
    | String b (String u rest') =>
        if bool_decide (b = backslash) && bool_decide (u = "u"%char) then
          match hex4 rest' with
          | Some (w, rest'') =>
              if is_low w
              then Some (encode_rune (65536 + (z - 55296) * 1024 + (w - 56320)), rest'')
              else Some (replacement, rest)
          | None => None
          end
        else Some (replacement, rest)
    | _ => Some (replacement, rest)
    end
  else if is_low z then Some (replacement, rest)
  else Some (encode_rune z, rest).

Definition read_escape (c : ascii) (s : string) : option (string * string) :=
  let b := byte_of c in
  if (b =? 34) || (b =? 92) || (b =? 47) then Some (String c "", s)
  else if b =? 98 then Some (String (byte_char 8) "", s)
  else if b =? 102 then Some (String (byte_char 12) "", s)
  else if b =? 110 then Some (String (byte_char 10) "", s)
  else if b =? 114 then Some (String (byte_char 13) "", s)
  else if b =? 116 then Some (String (byte_char 9) "", s)
  else if b =? 117 then read_unicode s
  else None.

(** One character of a string body that is not its closing quote. *)
Definition read_char (s : string) : option (string * string) :=
  match s with
  | EmptyString => None
  | String c s' =>
      if bool_decide (c = backslash) then
        match s' with
        | String e s'' => read_escape e s''
        | EmptyString => None
        end
      else if byte_of c <? 32 then None
      else match rune_width s with
           | O => Some (replacement, s')
           | w => Some (string_take w s, string_drop w s)
           end
  end.

(** Fuel: every character takes at least a byte. *)
Fixpoint read_body (fuel : nat) (s : string) : option (string * string) :=
  match fuel with
  | O => None
  | S fuel =>
      match s with
      | EmptyString => None
      | String c s' =>
          if bool_decide (c = quote) then Some (EmptyString, s')
          else
            '(r, rest) ← read_char s;
            '(body, rest) ← read_body fuel rest;
            Some (String.append r body, rest)
      end
  end.

Definition read_string (s : string) : option (string * string) :=
  match s with
  | String c s' => if bool_decide (c = quote) then read_body (S (String.length s')) s' else None
  | EmptyString => None
  end.

(** *** Numbers *)

Definition number_char (c : ascii) : bool :=
  is_digit c || bool_decide (c = "-"%char) || bool_decide (c = "+"%char) ||
  bool_decide (c = "."%char) || bool_decide (c = "e"%char) || bool_decide (c = "E"%char).

Definition digits1 (s : string) : option string :=
  let '(ds, rest) := span_char is_digit s in
  if bool_decide (ds = EmptyString) then None else Some rest.

(** [-? int frac? exp?], with no superfluous leading zero. *)
Definition valid_number (s : string) : bool :=
  let s := match s with String c s' => if bool_decide (c = "-"%char) then s' else s | _ => s end in
  let after_int := match s with
                   | String c s' => if bool_decide (c = "0"%char) then Some s' else digits1 s
                   | EmptyString => None
                   end in
  let after_frac := s ← after_int;
                    match s with
                    | String c s' => if bool_decide (c = "."%char) then digits1 s' else Some s
                    | EmptyString => Some s
                    end in
  let after_exp := s ← after_frac;
                   match s with
                   | String c s' =>
                       if bool_decide (c = "e"%char) || bool_decide (c = "E"%char) then
                         digits1 (match s' with
                                  | String d s'' =>
                                      if bool_decide (d = "+"%char) || bool_decide (d = "-"%char)
                                      then s'' else s'
                                  | EmptyString => s'
                                  end)
                       else Some s
                   | EmptyString => Some s
                   end in
  match after_exp with Some EmptyString => true | _ => false end.

Definition read_number (s : string) : option (json * string) :=
  let '(lit, rest) := span_char number_char s in
  if valid_number lit then Some (JNum lit, rest) else None.

Fixpoint strip_prefix (p s : string) : option string :=
  match p, s with
  | EmptyString, _ => Some s
  | String a p, String b s => if bool_decide (a = b) then strip_prefix p s else None
  | _, _ => None
  end.

Definition expect_char (c : ascii) (s : string) : option string :=
  match skip_space s with
  | String d s => if bool_decide (c = d) then Some s else None
  | EmptyString => None
  end.

(** *** Values *)

Fixpoint read_value (fuel : nat) (s : string) : option (json * string) :=
  match fuel with
  | O => None
  | S fuel =>
      let s := skip_space s in
      match s with
      | EmptyString => None
      | String c s' =>
          if bool_decide (c = quote) then '(t, rest) ← read_string s; Some (JStr t, rest)
          else if bool_decide (c = "["%char) then
            match expect_char "]" s' with
            | Some rest => Some (JArr [], rest)
            | None => '(l, rest) ← read_elems fuel s'; Some (JArr l, rest)
            end
          else if bool_decide (c = "{"%char) then
            match expect_char "}" s' with
            | Some rest => Some (JObj [], rest)
            | None => '(l, rest) ← read_fields fuel s'; Some (JObj l, rest)
            end
          else if bool_decide (c = "n"%char) then rest ← strip_prefix "null" s; Some (JNull, rest)
          else if bool_decide (c = "t"%char) then rest ← strip_prefix "true" s; Some (JBool true, rest)
          else if bool_decide (c = "f"%char) then rest ← strip_prefix "false" s; Some (JBool false, rest)
          else read_number s
      end
  end
with read_elems (fuel : nat) (s : string) : option (list json * string) :=
  match fuel with
  | O => None
  | S fuel =>
      '(v, s) ← read_value fuel s;
      match expect_char "," s with
      | Some s => '(l, rest) ← read_elems fuel s; Some (v :: l, rest)
      | None => s ← expect_char "]" s; Some ([v], s)
      end
  end
with read_fields (fuel : nat) (s : string) : option (list (string * json) * string) :=
  match fuel with
  | O => None
  | S fuel =>
      '(n, s) ← read_string (skip_space s);
      s ← expect_char ":" s;
      '(v, s) ← read_value fuel s;
      match expect_char "," s with
      | Some s => '(l, rest) ← read_fields fuel s; Some ((n, v) :: l, rest)
      | None => s ← expect_char "}" s; Some ([(n, v)], s)
      end
  end.

(** A whole document: one value and nothing but space after it. Fuel: every
    nested call of the reader has consumed a byte. *)
Definition parse_json (s : string) : option json :=
  '(v, rest) ← read_value (S (String.length s)) s;
  if bool_decide (skip_space rest = EmptyString) then Some v else None.

Definition render (v : json) : string := print_json v EmptyString.

(** ** Reading back what was written: strings *)

(** A rune: exactly the bytes of one valid encoding. *)
Definition is_rune (r : string) : Prop :=
  r <> EmptyString /\ rune_width r = String.length r.

Lemma rune_width_take s w :
  rune_width s = S w -> rune_width (string_take (S w) s) = S w /\ String.length (string_take (S w) s) = S w.
Proof.
  destruct s as [|a s]; [done|]. unfold rune_width at 1.
  destruct (is_ascii a) eqn:Ha; [intros [= <-]; simpl; by rewrite Ha|].
  destruct s as [|b s]; [done|]. destruct (two_byte a b) eqn:H2.
  { intros [= <-]. simpl. by rewrite Ha, H2. }
  destruct s as [|c s]; [done|]. destruct (three_byte a b c) eqn:H3.
  { intros [= <-]. simpl. by rewrite Ha, H2, H3. }
  destruct s as [|d s]; [done|]. destruct (four_byte a b c d) eqn:H4; [|done].
  intros [= <-]. simpl. by rewrite Ha, H2, H3, H4.
Qed.

Lemma rune_width_app r k : is_rune r -> rune_width (String.append r k) = String.length r.
Proof.
  intros [Hne Hw]. destruct r as [|a r]; [done|]. revert Hw. unfold rune_width. cbn [String.append].
  destruct (is_ascii a); [done|]. destruct r as [|b r]; [done|]. cbn [String.append].
  destruct (two_byte a b); [done|]. destruct r as [|c r]; [done|]. cbn [String.append].
  destruct (three_byte a b c); [done|]. destruct r as [|d r]; [done|]. cbn [String.append].
  by destruct (four_byte a b c d).
Qed.

Lemma take_app_string r k : string_take (String.length r) (String.append r k) = r.
Proof. induction r as [|c r IH]; [by destruct k|]. simpl. by rewrite IH. Qed.

Lemma drop_app_string r k : string_drop (String.length r) (String.append r k) = k.
Proof. induction r as [|c r IH]; [by destruct k|]. simpl. by rewrite IH. Qed.

(** What is written for a byte that starts no encoding is read as U+FFFD. *)
Definition rune_text (r : option string) : string := default replacement r.

Definition rune_ok (r : option string) : Prop := from_option is_rune True r.

Lemma runes_ok s : Forall rune_ok (runes s).
Proof.
  remember (String.length s) as n eqn:Hn. revert s Hn. induction (lt_wf n) as [n _ IH]. intros [|c s] ->; [done|].
  rewrite runes_cons. destruct (rune_width (String c s)) as [|w] eqn:Hw.
  - constructor; [done|]. by eapply IH; [|done]; simpl; lia.
  - constructor; [|eapply IH; [|done]; rewrite length_string_drop; simpl; lia].
    destruct (rune_width_take _ _ Hw) as [Ht Hl]. split; [done|]. exact (eq_trans Ht (eq_sym Hl)).
Qed.

Lemma runes_valid rs : Forall is_rune rs -> utf8_valid (concat_strings rs) = true.
Proof.
  induction 1 as [|r rs Hr _ IH]; [done|]. cbn [concat_strings]. pose proof (rune_width_app r (concat_strings rs) Hr) as Hw.
  pose proof (drop_app_string r (concat_strings rs)) as Hd. destruct r as [|a r]; [by destruct Hr|].
  unfold utf8_valid. cbn [String.append String.length] in *. rewrite runes_cons, Hw. cbn [forallb].
  change (forallb _ (runes ?t)) with (utf8_valid t). by rewrite Hd.
Qed.

Lemma coerced_valid s : utf8_valid (coerce_utf8 s) = true.
Proof.
  apply runes_valid, Forall_fmap. eapply Forall_impl; [apply runes_ok|]. intros [r|] Hr; [exact Hr|by split].
Qed.

(** A byte that starts an encoding of several is none of JSON's. *)
Lemma lead_byte a : is_ascii a = false -> 128 <= byte_of a.
Proof. unfold is_ascii. intros H%Z.ltb_ge. done. Qed.

Lemma read_ascii c k :
  is_ascii c = true ->
  read_char (String.append (escape_ascii c) k) = Some (String c "", k) /\
  (forall k', String.append (escape_ascii c) k <> String quote k').
Proof.
  destruct c as [[][][][][][][][]]; intros Hc; try (vm_compute in Hc; discriminate Hc);
    (split; [reflexivity|intros k'; discriminate]).
Qed.

Lemma read_multi a r k :
  is_ascii a = false -> is_rune (String a r) ->
  read_char (String.append (String a r) k) = Some (String a r, k) /\
  (forall k', String.append (String a r) k <> String quote k').
Proof.
  intros Ha Hr. pose proof (lead_byte a Ha) as Hb. pose proof (rune_width_app _ k Hr) as Hw.
  pose proof (take_app_string (String a r) k) as Ht. pose proof (drop_app_string (String a r) k) as Hd.
  cbn [String.append String.length] in *. split.
  - unfold read_char. rewrite bool_decide_false by (intros ->; vm_compute in Ha; discriminate).
    destruct (Z.ltb_spec (byte_of a) 32); [lia|]. rewrite Hw. by rewrite Ht, Hd.
  - intros k' [= -> _]. vm_compute in Ha. discriminate.
Qed.

Lemma read_escaped r k :
  rune_ok r ->
  read_char (String.append (escape_rune r) k) = Some (rune_text r, k) /\
  (forall k', String.append (escape_rune r) k <> String quote k').
Proof.
  destruct r as [r|]; [|intros _; split; [reflexivity|intros; discriminate]].
  intros Hr. simpl in Hr. unfold escape_rune. case_bool_decide; [subst; split; [reflexivity|intros; discriminate]|].
  case_bool_decide; [subst; split; [reflexivity|intros; discriminate]|].
  destruct r as [|a r]; [by destruct Hr|]. destruct r as [|b r].
  - destruct (is_ascii a) eqn:Ha; [by apply read_ascii|by apply read_multi].
  - destruct (is_ascii a) eqn:Ha; [|by apply read_multi].
    destruct Hr as [_ Hw]. rewrite rune_width_ascii in Hw by done. done.
Qed.

Lemma escape_some r : rune_ok r -> (1 <= String.length (escape_rune r))%nat.
Proof.
  intros Hr. destruct (escape_rune r) eqn:He; [|simpl; lia]. exfalso. unfold escape_rune in He.
  destruct r as [r|]; [|done]. destruct Hr as [Hne _]. repeat case_match; simplify_eq/=; try done.
  unfold escape_ascii in He. repeat case_match; simplify_eq/=; done.
Qed.

Lemma read_body_escaped rs k fuel :
  Forall rune_ok rs -> (String.length (escape_to rs (String quote k)) <= fuel)%nat ->
  read_body fuel (escape_to rs (String quote k)) = Some (concat_strings (rune_text <$> rs), k).
Proof.
  revert fuel. induction rs as [|r rs IH]; intros fuel Hall Hf.
  - csimpl in *. destruct fuel; [simpl in Hf; lia|]. done.
  - apply Forall_cons in Hall as [Hr Hall]. cbn [escape_to] in *. rewrite fmap_cons. cbn [concat_strings].
    destruct (read_escaped r (escape_to rs (String quote k)) Hr) as [Hread Hnq].
    rewrite length_append in Hf. pose proof (escape_some r Hr).
    destruct (String.append (escape_rune r) (escape_to rs (String quote k))) as [|c s'] eqn:Hs; [done|].
    destruct fuel as [|fuel]; [lia|]. cbn [read_body].
    rewrite bool_decide_false by (intros ->; by apply (Hnq s')).
    rewrite Hread. cbn [mbind option_bind]. rewrite IH by (try done; lia). done.
Qed.

(** A string is read back as text. *)
Lemma read_print_string s k : read_string (print_string s k) = Some (coerce_utf8 s, k).
Proof.
  unfold print_string, read_string. rewrite bool_decide_true by done. rewrite read_body_escaped; [done|apply runes_ok|lia].
Qed.

(** ** Reading back what was written: values *)

Fixpoint json_ok (v : json) : bool :=
  match v with
  | JNum n => valid_number n && forall_char number_char n
  | JStr s => utf8_valid s
  | JArr l => forallb json_ok l
  | JObj fs => forallb (fun nv => utf8_valid nv.1 && json_ok nv.2) fs
  | _ => true
  end.

(** Its numbers are numbers; its strings may be any bytes. *)
Fixpoint numerals (v : json) : bool :=
  match v with
  | JNum n => valid_number n && forall_char number_char n
  | JArr l => forallb numerals l
  | JObj fs => forallb (fun nv => numerals nv.2) fs
  | _ => true
  end.

(** What is read of it: its strings as text. *)
Fixpoint as_text (v : json) : json :=
  match v with
  | JStr s => JStr (coerce_utf8 s)
  | JArr l => JArr (as_text <$> l)
  | JObj fs => JObj ((fun nv => (coerce_utf8 nv.1, as_text nv.2)) <$> fs)
  | _ => v
  end.

Section json_ind.
Context (P : json -> Prop).
Hypothesis HNull : P JNull.
Hypothesis HBool : forall b, P (JBool b).
Hypothesis HNum : forall n, P (JNum n).
Hypothesis HStr : forall s, P (JStr s).
Hypothesis HArr : forall l, Forall P l -> P (JArr l).
Hypothesis HObj : forall fs, Forall (fun nv => P nv.2) fs -> P (JObj fs).

Fixpoint json_nested_ind (v : json) : P v :=
  match v with
  | JNull => HNull
  | JBool b => HBool b
  | JNum n => HNum n
  | JStr s => HStr s
  | JArr l =>
      HArr l ((fix go l : Forall P l :=
                 match l with
                 | [] => Forall_nil_2 P
                 | v :: l => Forall_cons_2 P v l (json_nested_ind v) (go l)
                 end) l)
  | JObj fs =>
      HObj fs ((fix go fs : Forall (fun nv : string * json => P nv.2) fs :=
                  match fs with
                  | [] => Forall_nil_2 _
                  | nv :: fs => Forall_cons_2 _ nv fs (json_nested_ind nv.2) (go fs)
                  end) fs)
  end.
End json_ind.

Lemma ok_text v : json_ok v = true -> numerals v = true /\ as_text v = v.
Proof.
  induction v as [| [] |n|s|l IH|fs IH] using json_nested_ind; intros Hok; try done; cbn [json_ok numerals as_text] in *.
  - by rewrite coerce_valid.
  - assert (forallb numerals l = true /\ as_text <$> l = l) as [-> ->]; [|done].
    induction IH as [|v l Hv _ IHl]; [done|]. cbn in *. apply andb_true_iff in Hok as [Hvok Hlok].
    destruct (Hv Hvok) as [-> ->], (IHl Hlok) as [-> ->]. done.
  - assert (forallb (fun nv => numerals nv.2) fs = true /\ (fun nv => (coerce_utf8 nv.1, as_text nv.2)) <$> fs = fs) as [-> ->]; [|done].
    induction IH as [|[n v] l Hv _ IHl]; [done|]. rewrite fmap_cons. cbn [forallb fst snd] in *.
    apply andb_true_iff in Hok as [[Hn Hvok]%andb_true_iff Hlok]. rewrite coerce_valid by done. destruct (Hv Hvok) as [-> ->], (IHl Hlok) as [-> ->]. done.
Qed.

Fixpoint print_elems (l : list json) (k : string) : string :=
  match l with
  | [] => String "]" k
  | [v] => print_json v (String "]" k)
  | v :: l => print_json v (String "," (print_elems l k))
  end.

Fixpoint print_fields (fs : list (string * json)) (k : string) : string :=
  match fs with
  | [] => String "}" k
  | [(n, v)] => print_string n (String ":" (print_json v (String "}" k)))
  | (n, v) :: fs => print_string n (String ":" (print_json v (String "," (print_fields fs k))))
  end.

Lemma print_arr l k : print_json (JArr l) k = String "[" (print_elems l k).
Proof.
  cbn [print_json]. f_equal. induction l as [|v l IH]; [done|].
  destruct l as [|v' l]; [done|]. rewrite IH. done.
Qed.

Lemma print_obj fs k : print_json (JObj fs) k = String "{" (print_fields fs k).
Proof.
  cbn [print_json]. f_equal. induction fs as [|[n v] fs IH]; [done|].
  destruct fs as [|nv fs]; [done|]. rewrite IH. done.
Qed.

(** The reader's nested calls for a value: never more than its bytes. *)
Fixpoint need (v : json) : nat :=
  S match v with
    | JArr l => foldr (fun v n => S (need v + n)) 0%nat l
    | JObj fs => foldr (fun nv n => S (need nv.2 + n)) 0%nat fs
    | _ => 0%nat
    end.

Lemma print_string_length s k : (S (String.length k) <= String.length (print_string s k))%nat.
Proof.
  unfold print_string. simpl. assert (forall rs, (S (String.length k) <= String.length (escape_to rs (String quote k)))%nat).
  { induction rs as [|r rs IH]; simpl; [lia|]. rewrite length_append. lia. }
  specialize (H (runes s)). lia.
Qed.

Lemma need_length v :
  numerals v = true -> forall k, (need v + String.length k <= String.length (print_json v k))%nat.
Proof.
  induction v as [| [] |n|s|l IH|fs IH] using json_nested_ind; intros Hok k; try (simpl; lia).
  - simpl in *. rewrite length_append. apply andb_true_iff in Hok as [Hv _].
    destruct n; [done|]. simpl. lia.
  - cbn [need print_json]. pose proof (print_string_length s k). lia.
  - rewrite print_arr. cbn [need String.length numerals] in *.
    assert (foldr (fun v n => S (need v + n)) 0%nat l + String.length k
              <= String.length (print_elems l k))%nat; [|lia].
    induction IH as [|v l Hv Hl IHl]; simpl in *; [lia|].
    apply andb_true_iff in Hok as [Hvok Hlok]. specialize (IHl Hlok).
    destruct l as [|v' l].
    + specialize (Hv Hvok (String "]" k)). simpl in *. lia.
    + specialize (Hv Hvok (String "," (print_elems (v' :: l) k))). simpl in *. lia.
  - rewrite print_obj. cbn [need String.length numerals] in *.
    assert (foldr (fun nv n => S (need nv.2 + n)) 0%nat fs + String.length k
              <= String.length (print_fields fs k))%nat; [|lia].
    induction IH as [|[n v] fs Hv Hl IHl]; cbn [foldr print_fields fst snd forallb] in *; [simpl; lia|].
    apply andb_true_iff in Hok as [Hvok Hlok].
    specialize (IHl Hlok). destruct fs as [|[n' v'] fs].
    + specialize (Hv Hvok (String "}" k)).
      pose proof (print_string_length n (String ":" (print_json v (String "}" k)))).
      cbn [String.length foldr] in *. lia.
    + set (rest := print_fields ((n', v') :: fs) k) in *.
      specialize (Hv Hvok (String "," rest)).
      pose proof (print_string_length n (String ":" (print_json v (String "," rest)))).
      cbn [String.length] in *. lia.
Qed.

(** What may follow a value: nothing a number could continue with. *)
Definition stops (k : string) : Prop :=
  match k with String c _ => number_char c = false | EmptyString => True end.

Lemma span_number n k :
  forall_char number_char n = true -> stops k -> span_char number_char (String.append n k) = (n, k).
Proof.
  intros Hn Hk. induction n as [|c n IH].
  - destruct k as [|c k]; [done|]. simpl in *. by rewrite Hk.
  - simpl in *. apply andb_true_iff in Hn as [-> Hn]. by rewrite IH.
Qed.

Lemma number_char_head c :
  number_char c = true ->
  is_space c = false /\ c <> quote /\ c <> "["%char /\ c <> "{"%char /\ c <> "n"%char /\
  c <> "t"%char /\ c <> "f"%char.
Proof.
  destruct c as [[][][][][][][][]]; intros Hc; try (vm_compute in Hc; discriminate Hc);
    (split_and!; [reflexivity|discriminate..]).
Qed.

Lemma read_number_value fuel n k :
  valid_number n = true -> forall_char number_char n = true -> stops k ->
  read_value (S fuel) (String.append n k) = Some (JNum n, k).
Proof.
  intros Hv Hn Hk. pose proof (span_number n k Hn Hk) as Hspan.
  destruct n as [|c n]; [done|]. simpl in Hn. apply andb_true_iff in Hn as [Hc _].
  destruct (number_char_head c Hc) as (Hs & Hq & Ha & Ho & Hnn & Ht & Hf).
  cbn [String.append] in *. cbn [read_value skip_space]. rewrite Hs.
  repeat (rewrite bool_decide_false by done). unfold read_number. by rewrite Hspan, Hv.
Qed.

Lemma value_head v k :
  numerals v = true ->
  exists c s, print_json v k = String c s /\ is_space c = false /\ c <> "]"%char.
Proof.
  intros Hok. destruct v as [| [] |n|s|l|fs].
  - by eexists _, _.
  - by eexists _, _.
  - by eexists _, _.
  - simpl in Hok. apply andb_true_iff in Hok as [Hv Hn]. destruct n as [|c n]; [done|].
    simpl in Hn. apply andb_true_iff in Hn as [Hc _]. exists c, (String.append n k).
    split_and!; [done|by apply number_char_head|]. intros ->. done.
  - by eexists _, _.
  - rewrite print_arr. by eexists _, _.
  - rewrite print_obj. by eexists _, _.
Qed.

Lemma expect_char_hit c s : is_space c = false -> expect_char c (String c s) = Some s.
Proof. intros Hc. unfold expect_char. simpl. rewrite Hc. by rewrite bool_decide_true. Qed.

Lemma expect_char_miss c d s :
  is_space d = false -> c <> d -> expect_char c (String d s) = None.
Proof. intros Hd Hne. unfold expect_char. simpl. rewrite Hd. by rewrite bool_decide_false. Qed.

Definition text_member (nv : string * json) : string * json := (coerce_utf8 nv.1, as_text nv.2).

Definition reads (v : json) : Prop :=
  forall k fuel, stops k -> (need v <= fuel)%nat -> read_value fuel (print_json v k) = Some (as_text v, k).

Lemma read_print_elems l v k fuel :
  Forall (fun v => numerals v = true -> reads v) (v :: l) -> forallb numerals (v :: l) = true ->
  (foldr (fun v n => S (need v + n)) 0 (v :: l) <= fuel)%nat ->
  read_elems fuel (print_elems (v :: l) k) = Some (as_text <$> (v :: l), k).
Proof.
  revert v fuel. induction l as [|v' l IH]; intros v fuel Hall Hok Hf;
    apply Forall_cons in Hall as [Hv Hall]; cbn [forallb foldr] in Hok, Hf;
    apply andb_true_iff in Hok as [Hvok Hlok];
    (destruct fuel as [|fuel]; [lia|]); cbn [read_elems].
  - change (print_elems [v] k) with (print_json v (String "]" k)).
    rewrite (Hv Hvok) by (try done; lia). cbn [mbind option_bind].
    rewrite expect_char_miss by done. rewrite expect_char_hit by done. done.
  - change (print_elems (v :: v' :: l) k) with (print_json v (String "," (print_elems (v' :: l) k))).
    rewrite (Hv Hvok) by (try done; lia). cbn [mbind option_bind].
    rewrite expect_char_hit by done. rewrite IH; [done|done|done|]. cbn [foldr] in *. lia.
Qed.

Lemma read_print_fields fs n v k fuel :
  Forall (fun nv : string * json => numerals nv.2 = true -> reads nv.2) ((n, v) :: fs) ->
  forallb (fun nv => numerals nv.2) ((n, v) :: fs) = true ->
  (foldr (fun nv m => S (need nv.2 + m)) 0 ((n, v) :: fs) <= fuel)%nat ->
  read_fields fuel (print_fields ((n, v) :: fs) k) = Some (text_member <$> ((n, v) :: fs), k).
Proof.
  revert n v fuel. induction fs as [|[n' v'] fs IH]; intros n v fuel Hall Hok Hf;
    apply Forall_cons in Hall as [Hv Hall]; cbn [forallb foldr fst snd] in Hok, Hf, Hv;
    apply andb_true_iff in Hok as [Hvok Hlok];
    (destruct fuel as [|fuel]; [lia|]); cbn [read_fields].
  - change (print_fields [(n, v)] k) with (print_string n (String ":" (print_json v (String "}" k)))).
    change (skip_space (print_string n (String ":" (print_json v (String "}" k)))))
      with (print_string n (String ":" (print_json v (String "}" k)))).
    rewrite read_print_string. cbn [mbind option_bind].
    rewrite expect_char_hit by done. cbn [mbind option_bind].
    rewrite (Hv Hvok) by (try done; lia). cbn [mbind option_bind].
    rewrite expect_char_miss by done. rewrite expect_char_hit by done. done.
  - set (rest := print_fields ((n', v') :: fs) k).
    change (print_fields ((n, v) :: (n', v') :: fs) k)
      with (print_string n (String ":" (print_json v (String "," rest)))).
    change (skip_space (print_string n (String ":" (print_json v (String "," rest)))))
      with (print_string n (String ":" (print_json v (String "," rest)))).
    rewrite read_print_string. cbn [mbind option_bind].
    rewrite expect_char_hit by done. cbn [mbind option_bind].
    rewrite (Hv Hvok) by (try done; lia). cbn [mbind option_bind].
    rewrite expect_char_hit by done. unfold rest. rewrite IH; [done|done|done|]. cbn [foldr fst snd] in *. lia.
Qed.

Lemma read_print v : numerals v = true -> reads v.
Proof.
  induction v as [| [] |n|s|l IH|fs IH] using json_nested_ind; intros Hok k fuel Hk Hf;
    cbn [need] in Hf; (destruct fuel as [|fuel]; [lia|]).
  - done.
  - done.
  - done.
  - simpl in Hok. apply andb_true_iff in Hok as [Hv Hn]. by apply read_number_value.
  - cbn [print_json numerals] in *. change (print_string s k) with (String quote (escape_to (runes s) (String quote k))).
    cbn [read_value skip_space]. change (is_space quote) with false. cbn match.
    rewrite bool_decide_true by done.
    change (String quote (escape_to (runes s) (String quote k))) with (print_string s k).
    by rewrite read_print_string.
  - rewrite print_arr. cbn [read_value skip_space]. change (is_space "[") with false. cbn match.
    rewrite bool_decide_false by done. rewrite bool_decide_true by done.
    destruct l as [|v l]; [done|]. cbn [numerals] in Hok.
    assert (expect_char "]" (print_elems (v :: l) k) = None) as ->.
    { assert (numerals v = true) as Hv by (simpl in Hok; by apply andb_true_iff in Hok as [? _]).
      destruct l as [|v' l].
      - destruct (value_head v (String "]" k) Hv) as (c & s & Hc & Hs & Hne).
        change (print_elems [v] k) with (print_json v (String "]" k)). rewrite Hc.
        by apply expect_char_miss.
      - destruct (value_head v (String "," (print_elems (v' :: l) k)) Hv) as (c & s & Hc & Hs & Hne).
        change (print_elems (v :: v' :: l) k) with (print_json v (String "," (print_elems (v' :: l) k))).
        rewrite Hc. by apply expect_char_miss. }
    rewrite read_print_elems; [done|done|done|]. lia.
  - rewrite print_obj. cbn [read_value skip_space]. change (is_space "{") with false. cbn match.
    rewrite bool_decide_false by done. rewrite bool_decide_false by done. rewrite bool_decide_true by done.
    destruct fs as [|[n v] fs]; [done|]. cbn [numerals] in Hok.
    assert (expect_char "}" (print_fields ((n, v) :: fs) k) = None) as ->.
    { by destruct fs as [|[n' v'] fs]. }
    rewrite read_print_fields; [done|done|done|]. lia.
Qed.

(** Every value that is text is read back from what is written for it. *)
Lemma parse_render v : json_ok v = true -> parse_json (render v) = Some v.
Proof.
  intros Hok. unfold parse_json, render.
  destruct (ok_text v Hok) as [Hn Ht]. rewrite read_print, Ht; [done|done|done|].
  pose proof (need_length v Hn EmptyString). simpl in *. lia.
Qed.

Lemma render_inj v w : json_ok v = true -> json_ok w = true -> render v = render w -> v = w.
Proof.
  intros Hv Hw Heq. apply parse_render in Hv, Hw. congruence.
Qed.
