(* ===== verification/Transaction.v ===== *)
(** * Transactions, metadata and log entries

    [ledger/transaction.go], [ledger/log.go]: what a commit records and what
    the log says about it. *)

From S2P Require Import Prelude Identifiers Text Posting Volumes Sha256 GoTime.

(** ** Metadata *)

(** Opaque string pairs. A nil map and an empty one differ only where the code
    marshals the caller's own map, which is an [option Metadata] there. *)
Abbreviation Metadata := (gmap string string) (only parsing).

Definition MaxMetadataKeys : Z := 32.
Definition MaxMetadataKeyLength : Z := 128.
Definition MaxMetadataValueLength : Z := 1024.

Definition len (s : string) : Z := Z.of_nat (String.length s).

(** The loop body of [Metadata.Validate]. *)
Definition validate_entry (kv : string * string) : option ledger_error :=
  let '(k, v) := kv in
  if bool_decide (k = EmptyString) then Some ErrEmptyMetadataKey
  else if len k >? MaxMetadataKeyLength then Some ErrMetadataKeyTooLong
  else if len v >? MaxMetadataValueLength then Some ErrMetadataValueTooLong
  else None.

(** Go ranges over a map in no fixed order, so which of several offenders is
    reported is not determined; the model takes the map's own enumeration. *)
Definition Metadata_Validate (m : Metadata) : option ledger_error :=
  if Z.of_nat (size m) >? MaxMetadataKeys then Some ErrTooManyMetadataKeys
  else find_map validate_entry (map_to_list m).

(** [truncate]: an oversized key is not echoed back in full. *)
Definition truncate (s : string) : string :=
  if len s <=? 32 then s else String.append (string_take 32 s) "...".

Definition entry_ok (k v : string) : Prop :=
  k <> EmptyString /\ len k <= MaxMetadataKeyLength /\ len v <= MaxMetadataValueLength.

Lemma validate_entry_None k v : validate_entry (k, v) = None <-> entry_ok k v.
Proof.
  unfold validate_entry, entry_ok. case_bool_decide; [naive_solver|].
  rewrite !Z.gtb_ltb.
  destruct (Z.ltb_spec MaxMetadataKeyLength (len k)); [split; [done|]; lia|].
  destruct (Z.ltb_spec MaxMetadataValueLength (len v)); [split; [done|]; lia|]. split; done.
Qed.

Lemma metadata_valid_iff m :
  Metadata_Validate m = None <->
  Z.of_nat (size m) <= MaxMetadataKeys /\ map_Forall entry_ok m.
Proof.
  unfold Metadata_Validate. rewrite Z.gtb_ltb.
  destruct (Z.ltb_spec MaxMetadataKeys (Z.of_nat (size m))) as [Hgt|Hle].
  - split; [done|]. lia.
  - rewrite find_map_None. split.
    + intros Hall. split; [done|]. intros k v Hkv. apply validate_entry_None, Hall.
      by apply elem_of_map_to_list.
    + intros [_ Hall] [k v] Hin%elem_of_map_to_list. by apply validate_entry_None, Hall.
Qed.

(** ** Transactions *)

(** Account -> asset -> volumes. *)
Abbreviation PostCommitVolumes := (gmap string (gmap string Volumes)) (only parsing).

Definition PostCommitVolumes_Set (v : PostCommitVolumes) (account : Address) (asset : Asset)
    (vol : Volumes) : PostCommitVolumes :=
  <[account := <[asset := vol]> (default ∅ (v !! account))]> v.

Definition pcv_lookup (v : PostCommitVolumes) (k : key) : option Volumes :=
  v !! k.1 ≫= fun m => m !! k.2.

Lemma pcv_lookup_set v k vol k' :
  pcv_lookup (PostCommitVolumes_Set v k.1 k.2 vol) k' =
  if decide (k = k') then Some vol else pcv_lookup v k'.
Proof.
  destruct k as [a s], k' as [a' s']. unfold pcv_lookup, PostCommitVolumes_Set; simpl.
  destruct (decide (a = a')) as [->|Hne].
  - rewrite lookup_insert_eq. simpl. destruct (decide (s = s')) as [->|Hs].
    + rewrite lookup_insert_eq. by rewrite decide_True.
    + rewrite lookup_insert_ne by done. rewrite decide_False by congruence.
      by destruct (v !! a').
  - rewrite lookup_insert_ne by done. by rewrite decide_False by congruence.
Qed.

(** The instants of a transaction are always UTC. *)
Record Transaction := {
  TxID : Z;
  TPostings : list Posting;
  Timestamp : Instant;
  InsertedAt : Instant;
  RevertedAt : option Instant;
  Reference : string;
  TMetadata : Metadata;
  TPostCommitVolumes : PostCommitVolumes;
}.

#[export] Instance Transaction_eq_dec : EqDecision Transaction.
Proof. solve_decision. Defined.

(** ** Log entries *)

Inductive LogType :=
| LogNewTransaction
| LogRevertedTransaction
| LogSetMetadata
| LogDeleteMetadata
| LogRecovery.

#[export] Instance LogType_eq_dec : EqDecision LogType.
Proof. solve_decision. Defined.

Inductive MetadataTargetType := TargetTransaction | TargetAccount.

#[export] Instance MetadataTargetType_eq_dec : EqDecision MetadataTargetType.
Proof. solve_decision. Defined.

Record RecoveryPayload := {
  ResumedFrom : Z;
  SkippedThrough : Z;
  Note : string;
}.

#[export] Instance RecoveryPayload_eq_dec : EqDecision RecoveryPayload.
Proof. solve_decision. Defined.

(** The payload of each kind of entry: [Transaction], [SetMetadataPayload],
    [DeleteMetadataPayload], [RevertedTransactionPayload], [RecoveryPayload]. *)
Inductive payload :=
| PTransaction (t : Transaction)
| PReverted (id : Z) (t : Transaction)
| PSetMetadata (target : MetadataTargetType) (id : string) (m : Metadata)
| PDeleteMetadata (target : MetadataTargetType) (id : string) (k : string)
| PRecovery (r : RecoveryPayload).

Definition RevertsKey : string := "giro/reverts".
Definition BatchKey : string := "giro/batch".

(** [previous] is nil for the first entry; [h.Write(nil)] writes nothing. *)
Definition ChainHash (previous : option string) (data : string) : string :=
  Sha256.sum256 (String.append (default EmptyString previous) data).
