(* ===== verification/Codec.v ===== *)
(** * The encoding of log entries, as an interface

    The engine serialises a payload once, hashes those bytes and stores them
    ([json.Marshal] in [storage/allocate.go]), and decodes stored bytes when a
    request is replayed or the log is verified. What it relies on is stated
    here; [Encoding.v] gives the instance, [encoding/json]'s format. *)

From S2P Require Import Prelude Identifiers Text Posting Volumes GoTime Transaction.

(** What [json.Marshal] keeps of a value: strings that are valid UTF-8 (an
    invalid byte is silently replaced), ids that are int64. *)
Definition text_map_ok (m : gmap string string) : Prop :=
  map_Forall (fun k v => utf8_valid k = true /\ utf8_valid v = true) m.

Definition posting_text_ok (p : Posting) : Prop :=
  utf8_valid p.(Source) = true /\ utf8_valid p.(Destination) = true /\
  utf8_valid p.(PAsset) = true.

Definition pcv_text_ok (v : gmap string (gmap string Volumes)) : Prop :=
  map_Forall (fun a m => utf8_valid a = true /\ map_Forall (fun s _ => utf8_valid s = true) m) v.

Definition int64_ok (z : Z) : Prop := - 2 ^ 63 <= z <= max_int64.

Record storable (t : Transaction) : Prop := {
  storable_id : int64_ok t.(TxID);
  storable_postings : Forall posting_text_ok t.(TPostings);
  storable_reference : utf8_valid t.(Reference) = true;
  storable_metadata : text_map_ok t.(TMetadata);
  storable_pcv : pcv_text_ok t.(TPostCommitVolumes);
}.

(** [idempotencyInput] of [storage/log.go]. *)
Record idempotencyInput := {
  IPostings : list Posting;
  ITimestamp : Time;
  IReference : string;
  IMetadata : option (gmap string string);
}.

#[export] Instance idempotencyInput_eq_dec : EqDecision idempotencyInput.
Proof. solve_decision. Defined.

Record storable_input (i : idempotencyInput) : Prop := {
  storable_input_postings : Forall posting_text_ok i.(IPostings);
  storable_input_zone : i.(ITimestamp).(zone) mod 60 = 0;
  storable_input_reference : utf8_valid i.(IReference) = true;
  storable_input_metadata : forall m, i.(IMetadata) = Some m -> text_map_ok m;
}.

Definition storable_recovery (r : RecoveryPayload) : Prop :=
  int64_ok r.(ResumedFrom) /\ int64_ok r.(SkippedThrough) /\ utf8_valid r.(Note) = true.

(** A time RFC 3339 can write. *)
Definition writable (t : Time) : Prop := is_Some (marshal_time t).

(** [marshal] fails where [json.Marshal] does, on a time outside the years RFC
    3339 can write. A decoder returns [None] for its error. *)
Class Codec := {
  marshal : payload -> option string;
  marshal_input : idempotencyInput -> option string;
  marshal_inputs : list idempotencyInput -> option string;
  unmarshal_transaction : string -> option Transaction;
  (** The transaction of a reversal's payload is a pointer, and may be nil. *)
  unmarshal_reverted : string -> option (Z * option Transaction);
  unmarshal_recovery : string -> option RecoveryPayload;

  unmarshal_marshal_transaction t s :
    storable t -> marshal (PTransaction t) = Some s -> unmarshal_transaction s = Some t;
  unmarshal_marshal_reverted id t s :
    int64_ok id -> storable t -> marshal (PReverted id t) = Some s ->
    unmarshal_reverted s = Some (id, Some t);
  unmarshal_marshal_recovery r s :
    storable_recovery r -> marshal (PRecovery r) = Some s -> unmarshal_recovery s = Some r;
  marshal_recovery_total r : is_Some (marshal (PRecovery r));
  marshal_transaction_total t :
    writable {| unix_nano := Timestamp t; zone := 0 |} -> writable {| unix_nano := InsertedAt t; zone := 0 |} ->
    RevertedAt t = None -> is_Some (marshal (PTransaction t));
  marshal_input_total i : writable i.(ITimestamp) -> is_Some (marshal_input i);
  marshal_input_inj i j s :
    storable_input i -> storable_input j ->
    marshal_input i = Some s -> marshal_input j = Some s -> i = j;
}.
