(* ===== verification/Encoding.v ===== *)
(** * The encoding of payloads and requests

    The struct tags of packages ledger and storage over [Json]'s format, and
    the [Codec] the engine is proved against. *)

From S2P Require Import Prelude Identifiers Text Posting Volumes Decimal GoTime Json Transaction Codec.

(** ** Encoding *)

Definition jint (z : Z) : json := JNum (print_Z z).

Definition jmap {A} (enc : A -> json) (m : gmap string A) : json :=
  JObj ((fun kv => (kv.1, enc kv.2)) <$> map_rows String.le m).

(** A field marked [omitempty]. *)
Definition omitempty (empty : bool) (name : string) (v : json) : list (string * json) :=
  if empty then [] else [(name, v)].

Definition posting_json (p : Posting) : json :=
  JObj ([("source", JStr (Source p)); ("destination", JStr (Destination p)); ("asset", JStr (PAsset p));
         ("amount", match Amount p with Some a => jint a | None => JNull end)]
        ++ omitempty (negb (UpTo p)) "upTo" (JBool true)).

Definition volumes_json (v : Volumes) : json :=
  JObj [("input", jint (Input v)); ("output", jint (Output v))].

Definition metadata_json (m : gmap string string) : json := jmap JStr m.

Definition pcv_json (v : gmap string (gmap string Volumes)) : json := jmap (jmap volumes_json) v.

Definition time_json (t : Time) : option json := JStr <$> marshal_time t.

Definition instant_json (t : Instant) : option json := time_json {| unix_nano := t; zone := 0 |}.

Definition transaction_json (t : Transaction) : option json :=
  ts ← instant_json (Timestamp t);
  ins ← instant_json (InsertedAt t);
  rev ← match RevertedAt t with Some r => Some <$> instant_json r | None => Some None end;
  Some (JObj ([("id", jint (TxID t)); ("postings", JArr (posting_json <$> TPostings t));
               ("timestamp", ts); ("insertedAt", ins)]
              ++ match rev with Some r => [("revertedAt", r)] | None => [] end
              ++ omitempty (bool_decide (Reference t = EmptyString)) "reference" (JStr (Reference t))
              ++ omitempty (bool_decide (TMetadata t = ∅)) "metadata" (metadata_json (TMetadata t))
              ++ omitempty (bool_decide (TPostCommitVolumes t = ∅)) "postCommitVolumes"
                   (pcv_json (TPostCommitVolumes t)))).

Definition target_json (t : MetadataTargetType) : json :=
  JStr (match t with TargetTransaction => "TRANSACTION" | TargetAccount => "ACCOUNT" end).

Definition recovery_json (r : RecoveryPayload) : json :=
  JObj ([("resumedFrom", jint (ResumedFrom r)); ("skippedThrough", jint (SkippedThrough r))]
        ++ omitempty (bool_decide (Note r = EmptyString)) "note" (JStr (Note r))).

Definition payload_json (p : payload) : option json :=
  match p with
  | PTransaction t => transaction_json t
  | PReverted id t =>
      v ← transaction_json t;
      Some (JObj [("revertedTransactionId", jint id); ("transaction", v)])
  | PSetMetadata target id m =>
      Some (JObj [("targetType", target_json target); ("targetId", JStr id); ("metadata", metadata_json m)])
  | PDeleteMetadata target id k =>
      Some (JObj [("targetType", target_json target); ("targetId", JStr id); ("key", JStr k)])
  | PRecovery r => Some (recovery_json r)
  end.

Definition input_json (i : idempotencyInput) : option json :=
  ts ← time_json (ITimestamp i);
  Some (JObj [("postings", JArr (posting_json <$> IPostings i)); ("timestamp", ts);
              ("reference", JStr (IReference i));
              ("metadata", match IMetadata i with Some m => metadata_json m | None => JNull end)]).

(** ** Decoding *)

Definition lower_ascii (c : ascii) : ascii :=
  if is_upper c then ascii_of_N (N_of_ascii c + 32) else c.

Fixpoint lower (s : string) : string :=
  match s with
  | String c s => String (lower_ascii c) (lower s)
  | EmptyString => EmptyString
  end.

(** A struct field answers to its name in any case; the last one counts. *)
Definition field (name : string) (fs : list (string * json)) : option json :=
  foldl (fun acc nv => if bool_decide (lower nv.1 = lower name) then Some nv.2 else acc) None fs.

(** A missing field, or a null, leaves the zero value. *)
Definition dec_field {A} (name : string) (zero : A) (dec : json -> option A)
    (fs : list (string * json)) : option A :=
  match field name fs with
  | None | Some JNull => Some zero
  | Some v => dec v
  end.

Definition dec_str (v : json) : option string := match v with JStr s => Some s | _ => None end.
Definition dec_bool (v : json) : option bool := match v with JBool b => Some b | _ => None end.
Definition dec_int (v : json) : option Z := match v with JNum n => parse_Z n | _ => None end.
Definition dec_int64 (v : json) : option Z := match v with JNum n => parse_int64 n | _ => None end.
Definition dec_time (v : json) : option Time := match v with JStr s => parse_time s | _ => None end.
Definition dec_instant (v : json) : option Instant := unix_nano <$> dec_time v.
Definition pointer {A} (dec : json -> option A) (v : json) : option (option A) := Some <$> dec v.

Definition dec_list {A} (dec : json -> option A) (v : json) : option (list A) :=
  match v with JArr l => mapM dec l | JNull => Some [] | _ => None end.

Fixpoint dec_entries {A} (dec : json -> option A) (fs : list (string * json)) (m : gmap string A)
    : option (gmap string A) :=
  match fs with
  | [] => Some m
  | (k, v) :: fs => x ← dec v; dec_entries dec fs (<[k := x]> m)
  end.

Definition dec_map {A} (dec : json -> option A) (v : json) : option (gmap string A) :=
  match v with JObj fs => dec_entries dec fs ∅ | JNull => Some ∅ | _ => None end.

Definition dec_struct {A} (dec : list (string * json) -> option A) (v : json) : option A :=
  match v with JObj fs => dec fs | JNull => dec [] | _ => None end.

Definition dec_posting : json -> option Posting := dec_struct (fun fs =>
  s ← dec_field "source" "" dec_str fs;
  d ← dec_field "destination" "" dec_str fs;
  a ← dec_field "asset" "" dec_str fs;
  n ← dec_field "amount" None (pointer dec_int) fs;
  u ← dec_field "upTo" false dec_bool fs;
  Some {| Source := s; Destination := d; PAsset := a; Amount := n; UpTo := u |}).

Definition dec_volumes : json -> option Volumes := dec_struct (fun fs =>
  i ← dec_field "input" 0 dec_int fs;
  o ← dec_field "output" 0 dec_int fs;
  Some {| Input := i; Output := o |}).

Definition dec_metadata : json -> option (gmap string string) := dec_map dec_str.

Definition dec_transaction : json -> option Transaction := dec_struct (fun fs =>
  id ← dec_field "id" 0 dec_int64 fs;
  ps ← dec_field "postings" [] (dec_list dec_posting) fs;
  ts ← dec_field "timestamp" zero_instant dec_instant fs;
  ins ← dec_field "insertedAt" zero_instant dec_instant fs;
  rev ← dec_field "revertedAt" None (pointer dec_instant) fs;
  ref ← dec_field "reference" "" dec_str fs;
  md ← dec_field "metadata" ∅ dec_metadata fs;
  pcv ← dec_field "postCommitVolumes" ∅ (dec_map (dec_map dec_volumes)) fs;
  Some {| TxID := id; TPostings := ps; Timestamp := ts; InsertedAt := ins; RevertedAt := rev;
          Reference := ref; TMetadata := md; TPostCommitVolumes := pcv |}).

Definition dec_reverted : json -> option (Z * option Transaction) := dec_struct (fun fs =>
  id ← dec_field "revertedTransactionId" 0 dec_int64 fs;
  t ← dec_field "transaction" None (pointer dec_transaction) fs;
  Some (id, t)).

Definition dec_recovery : json -> option RecoveryPayload := dec_struct (fun fs =>
  r ← dec_field "resumedFrom" 0 dec_int64 fs;
  s ← dec_field "skippedThrough" 0 dec_int64 fs;
  n ← dec_field "note" "" dec_str fs;
  Some {| ResumedFrom := r; SkippedThrough := s; Note := n |}).

Definition dec_input : json -> option idempotencyInput := dec_struct (fun fs =>
  ps ← dec_field "postings" [] (dec_list dec_posting) fs;
  ts ← dec_field "timestamp" {| unix_nano := zero_instant; zone := 0 |} dec_time fs;
  ref ← dec_field "reference" "" dec_str fs;
  md ← dec_field "metadata" None (pointer dec_metadata) fs;
  Some {| IPostings := ps; ITimestamp := ts; IReference := ref; IMetadata := md |}).

(** ** Decoding what was encoded *)

Lemma dec_int_jint z : dec_int (jint z) = Some z.
Proof. apply parse_print_Z. Qed.

Lemma dec_int64_jint z : int64_ok z -> dec_int64 (jint z) = Some z.
Proof. intros Hz. by apply parse_print_int64. Qed.

Lemma dec_posting_json p : dec_posting (posting_json p) = Some p.
Proof.
  destruct p as [s d a [n|] []];
    first [ transitivity (n' ← pointer dec_int (jint n);
              Some {| Source := s; Destination := d; PAsset := a; Amount := n'; UpTo := true |});
            [reflexivity|]; unfold pointer; by rewrite dec_int_jint
          | transitivity (n' ← pointer dec_int (jint n);
              Some {| Source := s; Destination := d; PAsset := a; Amount := n'; UpTo := false |});
            [reflexivity|]; unfold pointer; by rewrite dec_int_jint
          | reflexivity ].
Qed.

Lemma dec_postings_json l : dec_list dec_posting (JArr (posting_json <$> l)) = Some l.
Proof.
  unfold dec_list. induction l as [|p l IH]; [done|]. rewrite fmap_cons.
  change (mapM dec_posting (posting_json p :: (posting_json <$> l))) with
    (y ← dec_posting (posting_json p); k ← mapM dec_posting (posting_json <$> l); Some (y :: k)).
  by rewrite dec_posting_json, IH.
Qed.

Lemma dec_volumes_json v : dec_volumes (volumes_json v) = Some v.
Proof.
  destruct v as [i o].
  transitivity (i' ← dec_int (jint i); o' ← dec_int (jint o); Some {| Input := i'; Output := o' |});
    [reflexivity|]. by rewrite !dec_int_jint.
Qed.

Lemma dec_entries_enc {A} (enc : A -> json) dec l (m : gmap string A) :
  (forall x, x ∈ l.*2 -> dec (enc x) = Some x) ->
  dec_entries dec ((fun kv => (kv.1, enc kv.2)) <$> l) m =
  Some (foldl (fun m kv => <[kv.1 := kv.2]> m) m l).
Proof.
  revert m. induction l as [|[k x] l IH]; intros m Hdec; csimpl; [done|].
  rewrite Hdec by (csimpl; set_solver). csimpl. apply IH. intros y Hy. apply Hdec. csimpl. set_solver.
Qed.

Lemma foldl_rows {A} (m : gmap string A) :
  foldl (fun m kv => <[kv.1 := kv.2]> m) ∅ (map_rows String.le m) = m.
Proof.
  rewrite <-(list_to_map_to_list m) at 2.
  transitivity (list_to_map (reverse (map_rows String.le m)) : gmap string A).
  - induction (map_rows String.le m) as [|[k v] l IH] using rev_ind; [done|].
    rewrite foldl_app, reverse_snoc. simpl. by rewrite IH.
  - apply list_to_map_proper.
    + rewrite fmap_reverse, reverse_Permutation. apply map_rows_NoDup.
    + rewrite reverse_Permutation. apply map_rows_perm.
Qed.

Lemma dec_map_json {A} (enc : A -> json) dec (m : gmap string A) :
  (forall k x, m !! k = Some x -> dec (enc x) = Some x) -> dec_map dec (jmap enc m) = Some m.
Proof.
  intros Hdec. unfold dec_map, jmap. rewrite dec_entries_enc; [by rewrite foldl_rows|].
  intros x ([k y] & -> & Hin%elem_of_map_rows)%list_elem_of_fmap; [|apply _..]. eauto.
Qed.

Lemma dec_metadata_json m : dec_metadata (metadata_json m) = Some m.
Proof. by apply dec_map_json. Qed.

Lemma dec_pcv_json v : dec_map (dec_map dec_volumes) (pcv_json v) = Some v.
Proof. apply dec_map_json. intros k x _. apply dec_map_json. intros ? ? _. apply dec_volumes_json. Qed.

Lemma dec_time_json t v : t.(zone) mod 60 = 0 -> time_json t = Some v -> dec_time v = Some t.
Proof.
  unfold time_json. intros Hz. destruct (marshal_time t) as [s|] eqn:Hm; [|done].
  intros [= <-]. by apply parse_format_time.
Qed.

Lemma dec_instant_json t v : instant_json t = Some v -> dec_instant v = Some t.
Proof.
  intros H. unfold dec_instant. by rewrite (dec_time_json {| unix_nano := t; zone := 0 |} v).
Qed.

(** The fields [omitempty] may leave out, in the order they are written. *)
Definition dec_transaction_fields (id ps ts ins : json) (rev : option json) (t : Transaction)
    : option Transaction :=
  id ← dec_int64 id;
  ps ← dec_list dec_posting ps;
  ts ← dec_instant ts;
  ins ← dec_instant ins;
  rev ← match rev with Some r => pointer dec_instant r | None => Some None end;
  ref ← Some (Reference t);
  md ← dec_metadata (metadata_json (TMetadata t));
  pcv ← dec_map (dec_map dec_volumes) (pcv_json (TPostCommitVolumes t));
  Some {| TxID := id; TPostings := ps; Timestamp := ts; InsertedAt := ins; RevertedAt := rev;
          Reference := ref; TMetadata := md; TPostCommitVolumes := pcv |}.

Lemma dec_transaction_json t v :
  int64_ok (TxID t) -> transaction_json t = Some v -> dec_transaction v = Some t.
Proof.
  intros Hid. unfold transaction_json.
  destruct (instant_json (Timestamp t)) as [ts|] eqn:Hts; [|done]. cbn [mbind option_bind].
  destruct (instant_json (InsertedAt t)) as [ins|] eqn:Hins; [|done]. cbn [mbind option_bind].
  assert (exists s, ts = JStr s) as [ss ->].
  { unfold instant_json, time_json in Hts. destruct (marshal_time _); simplify_eq/=; eauto. }
  assert (exists s, ins = JStr s) as [si ->].
  { unfold instant_json, time_json in Hins. destruct (marshal_time _); simplify_eq/=; eauto. }
  set (rev := match RevertedAt t with Some r => Some <$> instant_json r | None => Some None end).
  destruct rev as [rv|] eqn:Hrev; [|done]. cbn [mbind option_bind]. intros [= <-].
  transitivity (dec_transaction_fields (jint (TxID t)) (JArr (posting_json <$> TPostings t))
                  (JStr ss) (JStr si) rv t).
  { unfold dec_transaction_fields. rewrite dec_metadata_json, dec_pcv_json.
    assert (rv = None \/ exists s, rv = Some (JStr s)) as Hrv.
    { subst rev. destruct (RevertedAt t); simplify_eq/=; [|by left].
      unfold instant_json, time_json in Hrev. destruct (marshal_time _); simplify_eq/=; eauto. }
    repeat case_bool_decide; destruct Hrv as [-> |[s ->]];
      repeat match goal with H : _ = ∅ |- _ => rewrite H | H : _ = EmptyString |- _ => rewrite H end;
      try reflexivity;
      rewrite <-?dec_metadata_json, <-?dec_pcv_json; reflexivity. }
  unfold dec_transaction_fields.
  rewrite dec_int64_jint, dec_postings_json by done. cbn [mbind option_bind].
  rewrite (dec_instant_json _ _ Hts), (dec_instant_json _ _ Hins). cbn [mbind option_bind].
  rewrite dec_metadata_json, dec_pcv_json. cbn [mbind option_bind].
  subst rev. destruct t as [id ps t0 t1 [r|] rf md pcv]; simpl in *.
  - destruct (instant_json r) as [vr|] eqn:Hr; simplify_eq/=.
    unfold pointer. by rewrite (dec_instant_json _ _ Hr).
  - by simplify_eq/=.
Qed.

Lemma transaction_json_object t v : transaction_json t = Some v -> exists fs, v = JObj fs.
Proof.
  unfold transaction_json. intros H.
  destruct (instant_json (Timestamp t)); [|done]. destruct (instant_json (InsertedAt t)); [|done].
  destruct (match RevertedAt t with Some r => Some <$> instant_json r | None => Some None end); [|done].
  cbn [mbind option_bind] in H. injection H as <-. eauto.
Qed.

Lemma dec_reverted_json id t v :
  int64_ok id -> int64_ok (TxID t) -> payload_json (PReverted id t) = Some v ->
  dec_reverted v = Some (id, Some t).
Proof.
  intros Hid Ht. cbn [payload_json]. destruct (transaction_json t) as [w|] eqn:Hw; [|done].
  cbn [mbind option_bind]. intros [= <-].
  destruct (transaction_json_object _ _ Hw) as [fs ->].
  transitivity (id' ← dec_int64 (jint id); t' ← pointer dec_transaction (JObj fs); Some (id', t'));
    [reflexivity|].
  rewrite dec_int64_jint by done. unfold pointer. by rewrite (dec_transaction_json t).
Qed.

Lemma dec_recovery_json r :
  int64_ok (ResumedFrom r) -> int64_ok (SkippedThrough r) -> dec_recovery (recovery_json r) = Some r.
Proof.
  intros Hf Hs. destruct r as [f s n]; simpl in *.
  transitivity (f' ← dec_int64 (jint f); s' ← dec_int64 (jint s);
                Some {| ResumedFrom := f'; SkippedThrough := s'; Note := n |}).
  - unfold recovery_json. simpl. case_bool_decide; subst; reflexivity.
  - by rewrite !dec_int64_jint.
Qed.

Lemma dec_input_json i v :
  (ITimestamp i).(zone) mod 60 = 0 -> input_json i = Some v -> dec_input v = Some i.
Proof.
  intros Hz. unfold input_json. destruct (time_json (ITimestamp i)) as [ts|] eqn:Hts; [|done].
  cbn [mbind option_bind]. intros [= <-].
  assert (exists s, ts = JStr s) as [s ->].
  { unfold time_json in Hts. destruct (marshal_time _); simplify_eq/=; eauto. }
  transitivity (ps ← dec_list dec_posting (JArr (posting_json <$> IPostings i));
                ts ← dec_time (JStr s);
                md ← match IMetadata i with
                     | Some m => pointer dec_metadata (metadata_json m)
                     | None => Some None
                     end;
                Some {| IPostings := ps; ITimestamp := ts; IReference := IReference i; IMetadata := md |}).
  - destruct (IMetadata i); reflexivity.
  - rewrite dec_postings_json, (dec_time_json _ _ Hz Hts). cbn [mbind option_bind].
    destruct i as [ps t r [m|]]; simpl; [|done]. unfold pointer. by rewrite dec_metadata_json.
Qed.

(** ** What is encoded is text *)

Lemma digit_number c : is_digit c = true -> number_char c = true.
Proof. unfold number_char. by intros ->. Qed.

Lemma digits_number s : forall_char is_digit s = true -> forall_char number_char s = true.
Proof.
  induction s as [|c s IH]; [done|]. simpl. intros [Hc Hs]%andb_true_iff.
  by rewrite digit_number, IH.
Qed.

Lemma span_digits s : forall_char is_digit s = true -> span_char is_digit s = (s, EmptyString).
Proof.
  induction s as [|c s IH]; [done|]. simpl. intros [-> Hs]%andb_true_iff. by rewrite IH.
Qed.

(** No superfluous zero in front: only zero itself starts with one. *)
Lemma nat_digits_head fuel n acc :
  0 < n < 10 ^ Z.of_nat fuel ->
  exists c s, nat_digits fuel n acc = String c s /\ c <> "0"%char.
Proof.
  revert n acc. induction fuel as [|fuel IH]; intros n acc Hn; [simpl in Hn; lia|]. cbn [nat_digits].
  pose proof (Z.div_mod n 10 ltac:(lia)) as Hdm. pose proof (mod10_range n).
  destruct (Z.eqb_spec (n / 10) 0) as [Hz|Hz].
  - eexists _, _. split; [done|]. intros Hc. apply (f_equal digit_value) in Hc.
    rewrite digit_char_value in Hc by done. change (digit_value "0") with 0 in Hc. lia.
  - rewrite Nat2Z.inj_succ, Z.pow_succ_r in Hn by lia. apply IH. lia.
Qed.

Lemma valid_print_nat n : 0 <= n -> valid_number (print_nat n) = true /\
  forall s, print_nat n <> String "-" s.
Proof.
  intros Hn. pose proof (print_nat_is_digits n) as Hd. pose proof (print_nat_nonempty n) as Hne.
  destruct (Z.eq_dec n 0) as [->|]; [by split|].
  destruct (nat_digits_head (Z.to_nat (Z.log2 n + 1)) n EmptyString) as (c & s & Hc & H0).
  { pose proof (print_nat_fuel n Hn). lia. }
  unfold print_nat in *. rewrite Hc in *. simpl in Hd. apply andb_true_iff in Hd as [Hcd Hsd].
  assert (c <> "-"%char) as Hm by (intros ->; done).
  split; [|intros s'; congruence].
  unfold valid_number. rewrite (bool_decide_false (c = "-"%char)) by done. cbn match.
  rewrite (bool_decide_false (c = "0"%char)) by done.
  assert (digits1 (String c s) = Some EmptyString) as ->; [|done].
  unfold digits1. cbn [span_char]. rewrite Hcd, span_digits by done. by rewrite bool_decide_false.
Qed.

Lemma jint_ok z : json_ok (jint z) = true.
Proof.
  unfold jint, print_Z. cbn [json_ok]. apply andb_true_iff. destruct (Z.ltb_spec z 0).
  - destruct (valid_print_nat (- z) ltac:(lia)) as [Hv Hm]. split.
    + unfold valid_number in *. rewrite (bool_decide_true ("-"%char = "-"%char)) by done.
      destruct (print_nat (- z)) as [|c s] eqn:He; [done|].
      rewrite (bool_decide_false (c = "-"%char)) in Hv by (intros ->; by destruct (Hm s)). done.
    + simpl. apply digits_number, print_nat_is_digits.
  - destruct (valid_print_nat z ltac:(lia)) as [Hv _]. split; [done|].
    apply digits_number, print_nat_is_digits.
Qed.

Lemma posting_json_ok p : posting_text_ok p -> json_ok (posting_json p) = true.
Proof.
  intros (Hs & Hd & Ha). unfold posting_json. cbn [json_ok forallb app fst snd].
  destruct p as [s d a [n|] []]; simpl in *; rewrite Hs, Hd, Ha; try done;
    repeat (rewrite ?andb_true_r || simpl); try apply jint_ok; done.
Qed.

Lemma volumes_json_ok v : json_ok (volumes_json v) = true.
Proof. unfold volumes_json. cbn [json_ok forallb fst snd]. by rewrite !jint_ok. Qed.

Lemma jmap_ok {A} (enc : A -> json) (m : gmap string A) :
  map_Forall (fun k x => utf8_valid k = true /\ json_ok (enc x) = true) m -> json_ok (jmap enc m) = true.
Proof.
  intros Hm. unfold jmap. cbn [json_ok]. apply forallb_forall.
  intros nv ([k x] & -> & Hin)%list_elem_of_In%list_elem_of_fmap. simpl.
  apply elem_of_map_rows in Hin; [|apply _..]. apply Hm in Hin as [-> ->]. done.
Qed.

Lemma metadata_json_ok m : text_map_ok m -> json_ok (metadata_json m) = true.
Proof. intros Hm. by apply jmap_ok. Qed.

Lemma pcv_json_ok v : pcv_text_ok v -> json_ok (pcv_json v) = true.
Proof.
  intros Hv. apply jmap_ok. intros k m Hk. destruct (Hv k m Hk) as [? Hm]. split; [done|].
  apply jmap_ok. intros s x Hs. split; [by eapply Hm|]. apply volumes_json_ok.
Qed.

Lemma print_Z_basic z : forall_char basic (print_Z z) = true.
Proof.
  assert (forall n, forall_char basic (print_nat n) = true) as Hn.
  { intros n. eapply forall_char_impl; [exact digit_basic|apply print_nat_is_digits]. }
  unfold print_Z. case_match; [|apply Hn]. cbn [forall_char]. by rewrite Hn.
Qed.

Lemma pad_digits_basic w n acc :
  forall_char basic acc = true -> forall_char basic (pad_digits w n acc) = true.
Proof.
  revert n acc. induction w as [|w IH]; intros n acc Hacc; [done|]. apply IH. simpl.
  by rewrite digit_basic by (apply digit_char_is_digit, mod10_range).
Qed.

Lemma strip_zeros_basic w n acc :
  forall_char basic acc = true -> forall_char basic (strip_zeros w n acc) = true.
Proof.
  revert n. induction w as [|w IH]; intros n Hacc; [done|]. cbn [strip_zeros].
  case_match; [by apply IH|by apply pad_digits_basic].
Qed.

Lemma format_time_basic t : forall_char basic (format_time t) = true.
Proof.
  assert (forall c s, basic c = true -> forall_char basic s = true ->
            forall_char basic (String c s) = true) as Hcons by (simpl; by intros ?? -> ->).
  assert (forall_char basic (format_zone (zone t)) = true) as Hz.
  { unfold format_zone. case_match; [done|]. apply Hcons; [by case_match|].
    apply pad_digits_basic, Hcons; [done|]. by apply pad_digits_basic. }
  unfold format_time. destruct (civil_from_days _) as [[y m] d].
  repeat first [apply pad_digits_basic | apply Hcons; [done|]].
  unfold format_fraction. case_match; [done|]. apply Hcons; [done|]. by apply strip_zeros_basic.
Qed.

Lemma time_json_ok t v : time_json t = Some v -> json_ok v = true.
Proof.
  unfold time_json, marshal_time. case_match; simpl; [|done]. intros [= <-].
  apply basic_utf8, format_time_basic.
Qed.

Lemma postings_json_ok l : Forall posting_text_ok l -> json_ok (JArr (posting_json <$> l)) = true.
Proof.
  intros Hl. cbn [json_ok]. apply forallb_forall. intros v (p & -> & Hp)%list_elem_of_In%list_elem_of_fmap.
  apply posting_json_ok. by apply (proj1 (Forall_forall _ _) Hl).
Qed.

Lemma json_obj_app fs1 fs2 : json_ok (JObj (fs1 ++ fs2)) = json_ok (JObj fs1) && json_ok (JObj fs2).
Proof. cbn [json_ok]. apply forallb_app. Qed.

Lemma omitempty_ok b n v :
  utf8_valid n = true -> (b = false -> json_ok v = true) -> json_ok (JObj (omitempty b n v)) = true.
Proof. intros Hn Hv. destruct b; [done|]. simpl. by rewrite Hn, Hv. Qed.

Lemma transaction_json_ok t v : storable t -> transaction_json t = Some v -> json_ok v = true.
Proof.
  intros [Hid Hps Href Hmd Hpcv]. unfold transaction_json.
  destruct (instant_json (Timestamp t)) as [ts|] eqn:Hts; [|done]. cbn [mbind option_bind].
  destruct (instant_json (InsertedAt t)) as [ins|] eqn:Hins; [|done]. cbn [mbind option_bind].
  destruct (match RevertedAt t with Some r => Some <$> instant_json r | None => Some None end)
    as [rv|] eqn:Hrev; [|done]. cbn [mbind option_bind]. intros [= <-].
  apply time_json_ok in Hts, Hins. pose proof (postings_json_ok _ Hps) as Hpost.
  match goal with |- json_ok (JObj ?l) = true =>
    change l with ([("id", jint (TxID t)); ("postings", JArr (posting_json <$> TPostings t));
                    ("timestamp", ts); ("insertedAt", ins)]
              ++ match rv with Some r => [("revertedAt", r)] | None => [] end
              ++ omitempty (bool_decide (Reference t = EmptyString)) "reference" (JStr (Reference t))
              ++ omitempty (bool_decide (TMetadata t = ∅)) "metadata" (metadata_json (TMetadata t))
              ++ omitempty (bool_decide (TPostCommitVolumes t = ∅)) "postCommitVolumes"
                   (pcv_json (TPostCommitVolumes t))) end.
  rewrite !json_obj_app, !andb_true_iff. split_and!.
  - cbn [json_ok forallb fst snd] in *. rewrite Hts, Hins. rewrite Hpost. pose proof (jint_ok (TxID t)) as Hj.
    cbn [json_ok] in Hj. by rewrite Hj.
  - destruct rv as [r|]; [|done]. destruct (RevertedAt t) as [rt|]; [|done].
    destruct (instant_json rt) eqn:Hr; simplify_eq/=. apply time_json_ok in Hr. by rewrite Hr.
  - by apply omitempty_ok.
  - apply omitempty_ok; [done|]. intros _. by apply metadata_json_ok.
  - apply omitempty_ok; [done|]. intros _. by apply pcv_json_ok.
Qed.

Lemma reverted_json_ok id t v : storable t -> payload_json (PReverted id t) = Some v -> json_ok v = true.
Proof.
  intros Ht. cbn [payload_json]. destruct (transaction_json t) as [w|] eqn:Hw; [|done].
  cbn [mbind option_bind]. intros [= <-]. apply transaction_json_ok in Hw; [|done].
  pose proof (jint_ok id) as Hj. cbn [json_ok forallb fst snd] in *. by rewrite Hj, Hw.
Qed.

Lemma recovery_json_ok r : utf8_valid (Note r) = true -> json_ok (recovery_json r) = true.
Proof.
  intros Hn. unfold recovery_json. rewrite json_obj_app, andb_true_iff. split.
  - pose proof (jint_ok (ResumedFrom r)) as H1. pose proof (jint_ok (SkippedThrough r)) as H2.
    cbn [json_ok forallb fst snd] in *. by rewrite H1, H2.
  - by apply omitempty_ok.
Qed.

Lemma input_json_ok i v : storable_input i -> input_json i = Some v -> json_ok v = true.
Proof.
  intros [Hps Hz Href Hmd]. unfold input_json.
  destruct (time_json (ITimestamp i)) as [ts|] eqn:Hts; [|done]. cbn [mbind option_bind]. intros [= <-].
  apply time_json_ok in Hts. pose proof (postings_json_ok _ Hps) as Hpost.
  cbn [json_ok forallb fst snd] in *. rewrite Hpost, Hts, Href.
  destruct (IMetadata i) as [m|]; [|done].
  pose proof (metadata_json_ok m (Hmd m eq_refl)) as Hm. unfold metadata_json, jmap in *.
  cbn [json_ok] in *. by rewrite Hm.
Qed.

(** ** The instance *)

Definition json_marshal (p : payload) : option string := render <$> payload_json p.

Definition json_marshal_input (i : idempotencyInput) : option string := render <$> input_json i.

Definition json_marshal_inputs (l : list idempotencyInput) : option string :=
  (fun l => render (JArr l)) <$> mapM input_json l.

Definition json_unmarshal {A} (dec : json -> option A) (s : string) : option A := parse_json s ≫= dec.

Lemma unmarshal_render {A} (dec : json -> option A) v x s :
  json_ok v = true -> dec v = Some x -> render <$> Some v = Some s -> json_unmarshal dec s = Some x.
Proof. intros Hok Hdec [= <-]. unfold json_unmarshal. by rewrite parse_render. Qed.

#[export] Program Instance JsonCodec : Codec := {|
  marshal := json_marshal;
  marshal_input := json_marshal_input;
  marshal_inputs := json_marshal_inputs;
  unmarshal_transaction := json_unmarshal dec_transaction;
  unmarshal_reverted := json_unmarshal dec_reverted;
  unmarshal_recovery := json_unmarshal dec_recovery;
|}.
Next Obligation.
  intros t s Ht. unfold json_marshal. cbn [payload_json].
  destruct (transaction_json t) as [v|] eqn:Hv; [|done].
  apply unmarshal_render; [by eapply transaction_json_ok|].
  by apply (dec_transaction_json _ _ (storable_id _ Ht)).
Qed.
Next Obligation.
  intros id t s Hid Ht. unfold json_marshal.
  destruct (payload_json (PReverted id t)) as [v|] eqn:Hv; [|done].
  apply unmarshal_render; [by eapply reverted_json_ok|].
  by apply (dec_reverted_json _ _ _ Hid (storable_id _ Ht)).
Qed.
Next Obligation.
  intros r s (Hf & Hs & Hn). unfold json_marshal. cbn [payload_json].
  apply unmarshal_render; [by apply recovery_json_ok|]. by apply dec_recovery_json.
Qed.
Next Obligation. intros r. by eexists. Qed.
Next Obligation.
  intros t [ts Hts] [ins Hins] Hr. unfold json_marshal. cbn [payload_json].
  unfold transaction_json, instant_json, time_json. rewrite Hts, Hins, Hr. by eexists.
Qed.
Next Obligation. intros i [ts Hts]. unfold json_marshal_input, input_json, time_json. rewrite Hts. by eexists. Qed.
Next Obligation.
  intros i j s Hi Hj. unfold json_marshal_input.
  destruct (input_json i) as [v|] eqn:Hv; [|done]. destruct (input_json j) as [w|] eqn:Hw; [|done].
  intros [= <-] [= Hr]. symmetry in Hr.
  pose proof (input_json_ok _ _ Hi Hv). pose proof (input_json_ok _ _ Hj Hw).
  apply render_inj in Hr; [|done..]. subst.
  apply dec_input_json in Hv; [|apply (storable_input_zone _ Hi)].
  apply dec_input_json in Hw; [|apply (storable_input_zone _ Hj)]. congruence.
Qed.
