(* ===== verification/Errors.v ===== *)
(** * Errors of the engine

    [storage/errors.go], [storage/retry.go] and the error types declared beside
    the code that raises them. A sentinel wrapped by [fmt.Errorf] with [%w] is
    the sentinel itself: messages carry no behaviour. [errors.Is] and
    [errors.As] walk the chain of [Unwrap]. *)

From S2P Require Import Prelude Identifiers Posting.

(** [Tip] of [storage/recovery.go], which [TipMismatch] carries. *)
Record Tip := { TLedger : string; TTxID : Z; TLogID : Z; THash : string }.

#[export] Instance Tip_eq_dec : EqDecision Tip.
Proof. solve_decision. Defined.

Inductive error :=
| ErrNoPostings
| ErrLedgerNotFound
| ErrLedgerExists
| ErrDuplicateReference
| ErrNotFound
| ErrInvalidCursor
| ErrUnknownAsset
| ErrAlreadyReverted
| ErrEmptyMetadata
| ErrBatchTooLarge
| ErrChainBroken
| ErrChainBehind
| ErrChainForked
| ErrIdempotencyMismatch
| ErrWorldMustAllowNegative
| ErrAccountNotEmpty
| ErrAccountClosureRefused
| LedgerError (e : ledger_error)
| PostingError (Index : nat) (Err : error)
| BatchItemError (Index : nat) (Err : error)
| InsufficientFundsError (account : Address) (asset : Asset) (Available Requested : Z)
| UnexpectedCreditError (account : Address) (asset : Asset) (Balance : Z)
| AccountClosedError (account : Address)
| UnboundedSweepError (account : Address) (asset : Asset)
| UnknownAssetError (asset : Asset) (registered : Asset)
| TipMismatch (Expected Actual : Tip) (Kind : error)
| PgError (Code : string)
| ContextError
| MarshalError
| DecodeError
| GivingUp (attempts : nat)
| PlainError (message : string).

#[export] Instance error_eq_dec : EqDecision error.
Proof. solve_decision. Defined.

(** The chain [errors.Is] and [errors.As] inspect. *)
Fixpoint chain (e : error) : list error :=
  e :: match e with
       | PostingError _ e' | BatchItemError _ e' => chain e'
       | TipMismatch _ _ k => chain k
       | UnknownAssetError _ _ => [ErrUnknownAsset]
       | _ => []
       end.

Definition errors_Is (e target : error) : bool := bool_decide (target ∈ chain e).

Definition errors_As {A} (select : error -> option A) (e : error) : option A :=
  find_map select (chain e).

Definition as_pg_error (e : error) : option string :=
  match e with PgError code => Some code | _ => None end.

(** ** Contention *)

Definition deadlockDetected : string := "40P01".
Definition serializationFailure : string := "40001".
Definition uniqueViolation : string := "23505".

Definition retryable (e : error) : bool :=
  match errors_As as_pg_error e with
  | None => false
  | Some code =>
      bool_decide (code = deadlockDetected) || bool_decide (code = serializationFailure)
  end.

Definition is_unique_violation (e : error) : bool :=
  match errors_As as_pg_error e with
  | None => false
  | Some code => bool_decide (code = uniqueViolation)
  end.

(** The other codes the schema's guards raise. *)
Definition foreignKeyViolation : string := "23503".
Definition restrictViolation : string := "23001".
Definition invalidText : string := "22021".
Definition untranslatableCharacter : string := "22P05".
Definition stringTooLong : string := "22001".
Definition numericOutOfRange : string := "22003".

Lemma errors_As_nowrap {A} (select : error -> option A) e :
  chain e = [e] -> errors_As select e = select e.
Proof. intros He. unfold errors_As. rewrite He. simpl. by destruct (select e). Qed.

Lemma retryable_pg code :
  retryable (PgError code) = bool_decide (code = deadlockDetected) || bool_decide (code = serializationFailure).
Proof. done. Qed.

(** Wrapping in the batch's or the posting's index hides nothing. *)
Lemma retryable_batch_item i e : retryable (BatchItemError i e) = retryable e.
Proof. done. Qed.
