(* ===== verification/Schema.v ===== *)
(** * The database of one ledger

    The tables of [migrations/*.sql] restricted to one ledger, their triggers
    and constraints, and the statements of package storage as functions on
    them. Every statement carries [ledger = $1], so one ledger's rows are a
    database of their own. Locks order concurrent transactions and change no
    row; [Locks.v] is about them. *)

From S2P Require Import Prelude Identifiers Text Posting Volumes GoTime Transaction Errors.

Record LedgerRow := {
  last_tx_id : Z;
  last_log_id : Z;
  last_log_hash : option string;
  added_at : Instant;
}.

Record AccountRow := {
  address_array : list string;
  metadata : Metadata;
  first_usage : Instant;
  insertion_date : Instant;
  updated_at : Instant;
  closed : bool;
}.

Record VolumeRow := {
  volumes_of : Volumes;
  allow_negative : bool;
  allow_positive : bool;
}.

(** The jsonb columns hold the decoded value. *)
Record TransactionRow := {
  timestamp : Instant;
  inserted_at : Instant;
  reverted_at : option Instant;
  reference : option string;
  postings : list Posting;
  tx_metadata : Metadata;
  sources : list string;
  destinations : list string;
  pc_volumes : PostCommitVolumes;
}.

Record MoveRow := {
  seq : Z;
  tx_id : Z;
  move_key : key;
  amount : Z;
  is_source : bool;
  effective_date : Instant;
  move_inserted : Instant;
  pcv : Volumes;
  pcev : Volumes;
}.

Record LogRow := {
  log_type : LogType;
  data : string;
  date : Instant;
  hash : string;
  idempotency_key : option string;
  idempotency_hash : option string;
}.

(** [moves] is in insertion order, which is [seq] order. [pending] holds the
    assets whose deferred conservation check is queued: it is empty outside a
    transaction. *)
Record Database := {
  ledger_row : option LedgerRow;
  accounts : gmap string AccountRow;
  volumes : gmap key VolumeRow;
  transactions : gmap Z TransactionRow;
  moves : list MoveRow;
  next_seq : Z;
  logs : gmap Z LogRow;
  assets : gmap string Instant;
  pending : list Asset;
}.

Definition empty_database : Database :=
  {| ledger_row := None; accounts := ∅; volumes := ∅; transactions := ∅; moves := [];
     next_seq := 1; logs := ∅; assets := ∅; pending := [] |}.

(** ** Writing a column of the record *)

Definition set_ledger_row (r : option LedgerRow) (d : Database) : Database :=
  {| ledger_row := r; accounts := accounts d; volumes := volumes d;
     transactions := transactions d; moves := moves d; next_seq := next_seq d;
     logs := logs d; assets := assets d; pending := pending d |}.

Definition set_accounts (m : gmap string AccountRow) (d : Database) : Database :=
  {| ledger_row := ledger_row d; accounts := m; volumes := volumes d;
     transactions := transactions d; moves := moves d; next_seq := next_seq d;
     logs := logs d; assets := assets d; pending := pending d |}.

Definition set_volumes (m : gmap key VolumeRow) (d : Database) : Database :=
  {| ledger_row := ledger_row d; accounts := accounts d; volumes := m;
     transactions := transactions d; moves := moves d; next_seq := next_seq d;
     logs := logs d; assets := assets d; pending := pending d |}.

Definition set_transactions (m : gmap Z TransactionRow) (d : Database) : Database :=
  {| ledger_row := ledger_row d; accounts := accounts d; volumes := volumes d;
     transactions := m; moves := moves d; next_seq := next_seq d;
     logs := logs d; assets := assets d; pending := pending d |}.

Definition set_moves (l : list MoveRow) (n : Z) (d : Database) : Database :=
  {| ledger_row := ledger_row d; accounts := accounts d; volumes := volumes d;
     transactions := transactions d; moves := l; next_seq := n;
     logs := logs d; assets := assets d; pending := pending d |}.

Definition set_logs (m : gmap Z LogRow) (d : Database) : Database :=
  {| ledger_row := ledger_row d; accounts := accounts d; volumes := volumes d;
     transactions := transactions d; moves := moves d; next_seq := next_seq d;
     logs := m; assets := assets d; pending := pending d |}.

Definition set_assets (m : gmap string Instant) (d : Database) : Database :=
  {| ledger_row := ledger_row d; accounts := accounts d; volumes := volumes d;
     transactions := transactions d; moves := moves d; next_seq := next_seq d;
     logs := logs d; assets := m; pending := pending d |}.

Definition set_pending (l : list Asset) (d : Database) : Database :=
  {| ledger_row := ledger_row d; accounts := accounts d; volumes := volumes d;
     transactions := transactions d; moves := moves d; next_seq := next_seq d;
     logs := logs d; assets := assets d; pending := l |}.

(** ** Triggers *)

(** [giro_volumes_monotonic] *)
Definition volumes_monotonic (old new : VolumeRow) : res error unit :=
  let! _ := when (Input (volumes_of new) <? Input (volumes_of old)) (PgError restrictViolation) in
  when (Output (volumes_of new) <? Output (volumes_of old)) (PgError restrictViolation).

(** [giro_no_unpermitted_overdraw]; [old] is [None] for an insert. *)
Definition no_unpermitted_overdraw (old : option VolumeRow) (new : VolumeRow) : res error unit :=
  if (match old with Some o => bool_decide (volumes_of o = volumes_of new) | None => false end)
  then Ok tt
  else
    let! _ := when ((Input (volumes_of new) <? Output (volumes_of new)) && negb (allow_negative new))
                (PgError restrictViolation) in
    when ((Output (volumes_of new) <? Input (volumes_of new)) && negb (allow_positive new))
      (PgError restrictViolation).

(** The drift [giro_conservation] sums for one asset. *)
Definition drift (d : Database) (a : Asset) : Z :=
  map_sum (fun k r => if decide (k.2 = a) then Balance (volumes_of r) else 0) (volumes d).

(** The deferred check at COMMIT, for every asset a row event queued. *)
Definition giro_conservation (d : Database) : res error unit :=
  when (existsb (fun a => negb (drift d a =? 0)) (pending d)) (PgError restrictViolation).

(** [giro_ledger_counters_monotonic] *)
Definition counters_monotonic (old new : LedgerRow) : res error unit :=
  let! _ := when (last_tx_id new <? last_tx_id old) (PgError restrictViolation) in
  when (last_log_id new <? last_log_id old) (PgError restrictViolation).

(** ** Row events *)

Definition registered (d : Database) (a : Asset) : bool := bool_decide (is_Some (assets d !! a)).

Definition insert_volume (k : key) (r : VolumeRow) (d : Database) : res error Database :=
  let! _ := no_unpermitted_overdraw None r in
  let! _ := when (negb (registered d k.2)) (PgError foreignKeyViolation) in
  Ok (set_pending (k.2 :: pending d) (set_volumes (<[k := r]> (volumes d)) d)).

Definition update_volume (k : key) (old new : VolumeRow) (d : Database) : res error Database :=
  let! _ := volumes_monotonic old new in
  let! _ := no_unpermitted_overdraw (Some old) new in
  Ok (set_pending (k.2 :: pending d) (set_volumes (<[k := new]> (volumes d)) d)).

Definition update_ledger (new : LedgerRow) (d : Database) : res error Database :=
  match ledger_row d with
  | None => Ok d
  | Some old =>
      let! _ := counters_monotonic old new in
      Ok (set_ledger_row (Some new) d)
  end.
