(* ===== verification/Txn.v ===== *)
(** * Database transactions

    A transaction body threads the database and may fail at any statement: the
    connection, a deadlock, a serialization failure. Which statements fail, and
    with which SQLSTATE, is the service's doing, hence a parameter ([faults]);
    every theorem holds for all of them. *)

From S2P Require Import Prelude Identifiers Posting Volumes GoTime Errors Schema.

(** Where the code waits for the server. An item of a batch numbers its own. *)
Inductive statement :=
| SBegin
| SFindKey
| SFindBatch
| SMaterialise
| SLockRows
| SReadClosed
| SApplyVolumes (i : nat)
| SEffectiveVolumes
| SAllocate
| SInsertTransaction
| SWrite (i : nat)
| SInsertLog
| SCommit
| SRaceBegin
| SRaceFind
| SCheckAssets
| SAssetWithCode
| SLockTransaction
| SMarkReverted
| SLockTarget
| SMetadata
| SLockLedger
| SAdvanceIds
| SExec
| SQuery
| SItem (i : nat) (s : statement).

Abbreviation faults := (statement -> option string) (only parsing).

Definition no_faults : faults := fun _ => None.

Definition Txn (A : Type) : Type := faults -> Database -> res error (A * Database).

Definition ret {A} (a : A) : Txn A := fun _ d => Ok (a, d).

Definition fail {A} (e : error) : Txn A := fun _ _ => Err e.

Definition bind {A B} (m : Txn A) (k : A -> Txn B) : Txn B :=
  fun f d => let! ' (a, d) := m f d in k a f d.

(** A computation outside the database that may fail. *)
Definition lift {A} (m : res error A) : Txn A :=
  fun _ d => let! a := m in Ok (a, d).

(** One statement: the service may fail it, else it runs. *)
Definition stmt {A} (s : statement) (run : Database -> res error (A * Database)) : Txn A :=
  fun f d => match f s with Some code => Err (PgError code) | None => run d end.

Definition query {A} (s : statement) (read : Database -> A) : Txn A :=
  stmt s (fun d => Ok (read d, d)).

Definition exec (s : statement) (run : Database -> res error Database) : Txn unit :=
  stmt s (fun d => let! d := run d in Ok (tt, d)).

(** The statements of one item of a batch. *)
Definition item {A} (i : nat) (m : Txn A) : Txn A := fun f d => m (fun s => f (SItem i s)) d.

(** [BatchItemError]'s wrapping, and every other change of an error. *)
Definition map_err {A} (g : error -> error) (m : Txn A) : Txn A :=
  fun f d => match m f d with Ok x => Ok x | Err e => Err (g e) end.

Notation "'do!' x ':=' m 'in' k" := (bind m (fun x => k))
  (at level 10, x name, m at level 100, k at level 200) : giro_scope.
Notation "'do!' ' p ':=' m 'in' k" := (bind m (fun p => k))
  (at level 10, p strict pattern, m at level 100, k at level 200) : giro_scope.

(** How a body ended: [tx.Commit] ran, or it returned without and the deferred
    [Rollback] undoes it. *)
Inductive outcome (A : Type) :=
| Committed (a : A)
| RolledBack (a : A).

Arguments Committed {A} a.
Arguments RolledBack {A} a.

Definition outcome_value {A} (o : outcome A) : A :=
  match o with Committed a | RolledBack a => a end.

(** [tx.Commit]: the deferred constraint triggers run first. *)
Definition commit {A} (a : A) : Txn (outcome A) :=
  stmt SCommit (fun d =>
    let! _ := giro_conservation d in
    Ok (Committed a, set_pending [] d)).

(** A whole transaction: what it returns, and the database afterwards. *)
Definition transact {A} (f : faults) (body : Txn (outcome A)) (d : Database) : res error A * Database :=
  match body f d with
  | Ok (Committed a, d') => (Ok a, d')
  | Ok (RolledBack a, _) => (Ok a, d)
  | Err e => (Err e, d)
  end.

(** [pool.Exec], [pool.Query]: a transaction of one statement. *)
Definition autocommit {A} (f : faults) (m : Txn A) (d : Database) : res error A * Database :=
  transact f (do! a := m in commit a) d.

(** ** Running one *)

Lemma bind_Ok {A B} (m : Txn A) (k : A -> Txn B) f d b d' :
  bind m k f d = Ok (b, d') <-> exists a d1, m f d = Ok (a, d1) /\ k a f d1 = Ok (b, d').
Proof.
  unfold bind. rewrite rbind_Ok. split.
  - intros ([a d1] & ? & ?). eauto.
  - intros (a & d1 & ? & ?). by exists (a, d1).
Qed.

Lemma ret_Ok {A} (a b : A) f d d' : ret a f d = Ok (b, d') <-> a = b /\ d = d'.
Proof. unfold ret. naive_solver. Qed.

Lemma lift_Ok {A} (m : res error A) f d a d' : lift m f d = Ok (a, d') <-> m = Ok a /\ d = d'.
Proof. unfold lift. rewrite rbind_Ok. naive_solver. Qed.

Lemma stmt_Ok {A} s run f d (x : A * Database) :
  stmt s run f d = Ok x <-> f s = None /\ run d = Ok x.
Proof. unfold stmt. destruct (f s); naive_solver. Qed.

Lemma query_Ok {A} s (read : Database -> A) f d a d' :
  query s read f d = Ok (a, d') <-> f s = None /\ read d = a /\ d = d'.
Proof. unfold query. rewrite stmt_Ok. naive_solver. Qed.

Lemma exec_Ok s run f d u d' :
  exec s run f d = Ok (u, d') <-> f s = None /\ run d = Ok d'.
Proof. unfold exec. rewrite stmt_Ok, rbind_Ok. destruct u. naive_solver. Qed.

Lemma map_err_Ok {A} g (m : Txn A) f d x : map_err g m f d = Ok x <-> m f d = Ok x.
Proof. unfold map_err. destruct (m f d); naive_solver. Qed.

Lemma commit_Ok {A} (a : A) f d o d' :
  commit a f d = Ok (o, d') <->
  f SCommit = None /\ giro_conservation d = Ok tt /\ o = Committed a /\ d' = set_pending [] d.
Proof.
  unfold commit. rewrite stmt_Ok, rbind_Ok. split; [|naive_solver].
  intros (? & [] & ? & ?). naive_solver.
Qed.

(** Takes a successful run of a body apart. *)
Ltac inv_txn :=
  repeat match goal with
  | H : bind _ _ _ _ = Ok (_, _) |- _ => apply bind_Ok in H as (? & ? & ? & H)
  | H : ret _ _ _ = Ok (_, _) |- _ => apply ret_Ok in H as [? ?]
  | H : fail _ _ _ = Ok _ |- _ => discriminate H
  | H : lift _ _ _ = Ok (_, _) |- _ => apply lift_Ok in H as [? ?]
  | H : query _ _ _ _ = Ok (_, _) |- _ => apply query_Ok in H as (? & ? & ?)
  | H : exec _ _ _ _ = Ok (_, _) |- _ => apply exec_Ok in H as [? ?]
  | H : stmt _ _ _ _ = Ok _ |- _ => apply stmt_Ok in H as [? ?]
  | H : map_err _ _ _ _ = Ok _ |- _ => apply map_err_Ok in H
  | H : commit _ _ _ = Ok (_, _) |- _ => apply commit_Ok in H as (? & ? & ? & ?)
  | H : item _ _ _ _ = Ok _ |- _ => unfold item in H
  end; simplify_eq/=.

(** ** Atomicity *)

(** A body that fails, or returns without committing, changes nothing. *)
Lemma transact_Err {A} f (body : Txn (outcome A)) d e d' :
  transact f body d = (Err e, d') -> d' = d.
Proof. unfold transact. destruct (body f d) as [[[] ?]|]; naive_solver. Qed.

Lemma transact_cases {A} f (body : Txn (outcome A)) d r d' :
  transact f body d = (r, d') ->
  (d' = d) \/ (exists a, r = Ok a /\ body f d = Ok (Committed a, d')).
Proof. unfold transact. destruct (body f d) as [[[] ?]|]; naive_solver. Qed.

(** [m] keeps [P], whatever the service does. *)
Definition keeps {A} (P : Database -> Prop) (m : Txn A) : Prop :=
  forall f d a d', m f d = Ok (a, d') -> P d -> P d'.

Section keeps.
Context (P : Database -> Prop).

Lemma keeps_bind {A B} (m : Txn A) (k : A -> Txn B) :
  keeps P m -> (forall a, keeps P (k a)) -> keeps P (bind m k).
Proof. intros Hm Hk f d b d' H Hd. inv_txn. eapply Hk; eauto. Qed.

Lemma keeps_ret {A} (a : A) : keeps P (ret a).
Proof. intros f d b d' H Hd. by inv_txn. Qed.

Lemma keeps_fail {A} e : keeps P (fail (A:=A) e).
Proof. intros f d b d' H. discriminate. Qed.

Lemma keeps_lift {A} (m : res error A) : keeps P (lift m).
Proof. intros f d b d' H Hd. by inv_txn. Qed.

Lemma keeps_query {A} s (read : Database -> A) : keeps P (query s read).
Proof. intros f d b d' H Hd. by inv_txn. Qed.

Lemma keeps_exec s run :
  (forall d d', run d = Ok d' -> P d -> P d') -> keeps P (exec s run).
Proof. intros Hr f d b d' H Hd. inv_txn. eauto. Qed.

Lemma keeps_stmt {A} s (run : Database -> res error (A * Database)) :
  (forall d a d', run d = Ok (a, d') -> P d -> P d') -> keeps P (stmt s run).
Proof. intros Hr f d b d' H Hd. inv_txn. eauto. Qed.

Lemma keeps_map_err {A} g (m : Txn A) : keeps P m -> keeps P (map_err g m).
Proof. intros Hm f d b d' H Hd. inv_txn. eauto. Qed.

Lemma keeps_item {A} i (m : Txn A) : keeps P m -> keeps P (item i m).
Proof. intros Hm f d b d' H Hd. eapply Hm; eauto. Qed.

Lemma keeps_transact {A} f (body : Txn (outcome A)) d r d' :
  keeps P body -> transact f body d = (r, d') -> P d -> P d'.
Proof.
  intros Hb H Hd. apply transact_cases in H as [-> |(a & -> & H)]; [done|]. eauto.
Qed.

End keeps.

Create HintDb giro_keeps.
#[export] Hint Resolve keeps_bind keeps_ret keeps_fail keeps_lift keeps_query keeps_exec
  keeps_stmt keeps_map_err keeps_item : giro_keeps.
