(* ===== verification/Locking.v ===== *)
(** * Locking the rows a transaction touches

    [storage/volumes.go]: materialise the zero rows, lock them in key order,
    read what they hold, learn which accounts are closed; and later add the
    deltas, relative, in the same order. *)

From S2P Require Import Prelude Identifiers Text Posting Volumes GoTime Transaction Errors Schema Txn.

(** One accounts_volumes row as it stood when it was locked. *)
Record locked := {
  lvolumes : Volumes;
  lallow_negative : bool;
  lallow_positive : bool;
  lclosed : bool;
}.

#[export] Instance locked_eq_dec : EqDecision locked.
Proof. solve_decision. Defined.

Definition is_world (a : Address) : bool := bool_decide (a = WorldAccount).

(** The row the insert creates: world is permitted a negative balance from
    the start. *)
Definition zero_row (k : key) : VolumeRow :=
  {| volumes_of := NewVolumes; allow_negative := is_world k.1; allow_positive := true |}.

(** [insert ... on conflict do nothing], a row at a time. *)
Fixpoint insert_zero_rows (ks : list key) (d : Database) : res error Database :=
  match ks with
  | [] => Ok d
  | k :: ks =>
      let! d := match volumes d !! k with
                | Some _ => Ok d
                | None => insert_volume k (zero_row k) d
                end in
      insert_zero_rows ks d
  end.

Definition locked_of (r : VolumeRow) : locked :=
  {| lvolumes := volumes_of r; lallow_negative := allow_negative r;
     lallow_positive := allow_positive r; lclosed := false |}.

(** [select ... where (address, asset) in (...) for update] *)
Definition select_locked (ks : list key) (d : Database) : gmap key locked :=
  foldr (fun k m => match volumes d !! k with
                    | Some r => <[k := locked_of r]> m
                    | None => m
                    end) ∅ ks.

(** What the select did not return is a row this transaction just created. *)
Definition fill_in (m : gmap key locked) (u : VolumeUpdate) : gmap key locked :=
  match m !! update_key u with
  | Some _ => m
  | None => <[update_key u := locked_of (zero_row (update_key u))]> m
  end.

Definition is_closed (d : Database) (a : Address) : bool :=
  match accounts d !! a with Some r => closed r | None => false end.

(** [scanClosed]: the closed accounts among the addresses asked about. *)
Definition scanClosed (addresses : list Address) (d : Database) : gset string :=
  list_to_set (filter (fun a => is_closed d a = true) addresses).

Definition mark_closed (closed : gset string) (k : key) (v : locked) : option locked :=
  Some (if decide (k.1 ∈ closed)
        then {| lvolumes := lvolumes v; lallow_negative := lallow_negative v;
                lallow_positive := lallow_positive v; lclosed := true |}
        else v).

Definition lockVolumes (updates : list VolumeUpdate) : Txn (gmap key locked) :=
  do! _ := exec SMaterialise (insert_zero_rows (update_key <$> updates)) in
  do! rows := query SLockRows (select_locked (update_key <$> updates)) in
  let current := foldl fill_in rows updates in
  do! closed := query SReadClosed (scanClosed (Account <$> updates)) in
  ret (map_imap (mark_closed closed) current).

(** ** Applying the deltas *)

(** [set input = input + $4, output = output + $5] *)
Definition add_delta (r : VolumeRow) (u : VolumeUpdate) : VolumeRow :=
  {| volumes_of := {| Input := Input (volumes_of r) + UInput u;
                      Output := Output (volumes_of r) + UOutput u |};
     allow_negative := allow_negative r;
     allow_positive := allow_positive r |}.

Definition apply_update (u : VolumeUpdate) (d : Database) : res error Database :=
  match volumes d !! update_key u with
  | None => Err (PlainError "apply volumes: 0 rows affected")
  | Some old => update_volume (update_key u) old (add_delta old u) d
  end.

Fixpoint apply_updates (i : nat) (updates : list VolumeUpdate) : Txn unit :=
  match updates with
  | [] => ret tt
  | u :: updates =>
      do! _ := exec (SApplyVolumes i) (apply_update u) in
      apply_updates (S i) updates
  end.

Definition applyVolumes (updates : list VolumeUpdate) : Txn unit := apply_updates 0 updates.

(** ** What changes and what does not *)

(** The statements of this file write accounts_volumes and queue its check. *)
Definition only_volumes (d d' : Database) : Prop :=
  d' = set_pending (pending d') (set_volumes (volumes d') d).

#[export] Instance only_volumes_refl : Reflexive only_volumes.
Proof. intros d. unfold only_volumes. destruct d; reflexivity. Qed.

#[export] Instance only_volumes_trans : Transitive only_volumes.
Proof. unfold only_volumes. intros d1 d2 d3 H1 H2. rewrite H1 in H2. exact H2. Qed.

Lemma only_volumes_assets d d' : only_volumes d d' -> assets d' = assets d.
Proof. intros ->. done. Qed.

Lemma insert_volume_Ok k r d d' :
  insert_volume k r d = Ok d' <->
  no_unpermitted_overdraw None r = Ok tt /\ registered d k.2 = true /\
  d' = set_pending (k.2 :: pending d) (set_volumes (<[k := r]> (volumes d)) d).
Proof.
  unfold insert_volume. split.
  - intros H. inv_ok. by split_and!; [destruct x|apply negb_false_iff|].
  - intros (-> & -> & ->). done.
Qed.

Lemma zero_row_permitted k : no_unpermitted_overdraw None (zero_row k) = Ok tt.
Proof. done. Qed.

Lemma insert_zero_rows_spec ks d d' :
  insert_zero_rows ks d = Ok d' ->
  only_volumes d d' /\
  (forall k, volumes d' !! k = match volumes d !! k with
                               | Some r => Some r
                               | None => if decide (k ∈ ks) then Some (zero_row k) else None
                               end) /\
  (forall k, k ∈ ks -> volumes d !! k = None -> registered d k.2 = true) /\
  (forall a, a ∈ pending d' <-> a ∈ pending d \/ exists k, k ∈ ks /\ volumes d !! k = None /\ k.2 = a).
Proof.
  revert d. induction ks as [|k ks IH]; intros d; simpl.
  - intros [= <-]. split_and!; [done| |set_solver|set_solver].
    intros k. by destruct (volumes d !! k).
  - intros H. inv_ok. destruct (volumes d !! k) as [r|] eqn:Hk.
    + simplify_eq/=. apply IH in H as (Hov & Hv & Hreg & Hpe). split_and!; [done| | |].
      * intros k'. rewrite Hv. destruct (volumes x !! k') eqn:Hk'; [done|].
        assert (k' <> k) by congruence. repeat case_decide; set_solver.
      * intros k' [-> |Hin]%elem_of_cons Hn; [congruence|eauto].
      * intros a. rewrite Hpe. setoid_rewrite elem_of_cons. naive_solver.
    + rename H0 into Hins. apply insert_volume_Ok in Hins as (_ & Hreg0 & ->).
      apply IH in H as (Hov & Hv & Hreg & Hpe). simpl in *. split_and!.
      * etrans; [|exact Hov]. by destruct d.
      * intros k'. rewrite Hv, lookup_insert. case_decide as Hkk; subst.
        -- rewrite Hk. rewrite decide_True; [done|set_solver].
        -- destruct (volumes d !! k'); [done|]. repeat case_decide; set_solver.
      * intros k' Hin Hn. destruct (decide (k' = k)) as [->|Hne]; [done|].
        apply elem_of_cons in Hin as [?|Hin]; [done|].
        apply Hreg in Hin; [done|]. by rewrite lookup_insert_ne.
      * intros a. rewrite Hpe. setoid_rewrite elem_of_cons. setoid_rewrite lookup_insert_None.
        split; [naive_solver|]. intros [?|(k' & [->|?] & ? & ?)]; [naive_solver..|].
        destruct (decide (k = k')); naive_solver.
Qed.

Lemma lookup_select_locked ks d k :
  select_locked ks d !! k = if decide (k ∈ ks) then locked_of <$> volumes d !! k else None.
Proof.
  induction ks as [|k' ks IH]; simpl; [done|].
  destruct (volumes d !! k') as [r|] eqn:Hr.
  - rewrite lookup_insert, IH. destruct (decide (k' = k)) as [->|].
    + rewrite decide_True by set_solver. by rewrite Hr.
    + repeat case_decide; set_solver.
  - rewrite IH. destruct (decide (k = k')) as [->|].
    + rewrite Hr. by repeat case_decide.
    + repeat case_decide; set_solver.
Qed.

Lemma fill_in_complete us m :
  (forall u, u ∈ us -> is_Some (m !! update_key u)) -> foldl fill_in m us = m.
Proof.
  revert m. induction us as [|u us IH]; intros m Hall; simpl; [done|].
  assert (fill_in m u = m) as ->.
  { unfold fill_in. by destruct (Hall u ltac:(set_solver)) as [? ->]. }
  apply IH. set_solver.
Qed.

Definition locked_row (d : Database) (k : key) (r : VolumeRow) : locked :=
  {| lvolumes := volumes_of r; lallow_negative := allow_negative r;
     lallow_positive := allow_positive r; lclosed := is_closed d k.1 |}.

(** Materialising: rows that were there stay, rows that were not are zero. *)
Definition materialised (ks : list key) (d d' : Database) : Prop :=
  only_volumes d d' /\
  forall k, volumes d' !! k = match volumes d !! k with
                              | Some r => Some r
                              | None => if decide (k ∈ ks) then Some (zero_row k) else None
                              end.

Lemma lockVolumes_spec us f d before d' :
  lockVolumes us f d = Ok (before, d') ->
  materialised (update_key <$> us) d d' /\
  (forall k, before !! k = if decide (k ∈ update_key <$> us)
                           then locked_row d k <$> volumes d' !! k else None) /\
  (forall k, k ∈ update_key <$> us -> volumes d !! k = None -> registered d k.2 = true) /\
  (forall a, a ∈ pending d' <-> a ∈ pending d \/
             exists k, k ∈ update_key <$> us /\ volumes d !! k = None /\ k.2 = a).
Proof.
  unfold lockVolumes. intros H. inv_txn.
  match goal with H : insert_zero_rows _ _ = Ok _ |- _ =>
    apply insert_zero_rows_spec in H as (Hov & Hv & Hreg & Hpe) end.
  split_and!; [done..| |done|done].
  assert (forall k, k ∈ update_key <$> us -> is_Some (volumes d' !! k)) as Hall.
  { intros k Hk. rewrite Hv. destruct (volumes d !! k); [done|]. by rewrite decide_True. }
  intros k. rewrite fill_in_complete.
  - rewrite map_lookup_imap, lookup_select_locked. case_decide as Hk; [|done].
    destruct (Hall k Hk) as [r Hr]. rewrite Hr. simpl. unfold mark_closed, locked_row. f_equal.
    assert (is_closed d' k.1 = is_closed d k.1) as Hcl by (unfold is_closed; by rewrite Hov).
    case_decide as Hc; unfold scanClosed in Hc; rewrite elem_of_list_to_set, list_elem_of_filter in Hc.
    + destruct Hc as [Hc _]. rewrite Hcl in Hc. by rewrite Hc.
    + assert (is_closed d k.1 = false) as ->; [|done]. apply not_true_is_false. intros Ht.
      apply Hc. split; [congruence|]. apply list_elem_of_fmap in Hk as (u & -> & Hu).
      by apply list_elem_of_fmap_2 with (f := Account).
  - intros u Hu. rewrite lookup_select_locked, decide_True by (by apply list_elem_of_fmap_2).
    apply fmap_is_Some, Hall. by apply list_elem_of_fmap_2.
Qed.

(** ** Applying the deltas of distinct rows *)

Lemma apply_update_Ok u d d' :
  apply_update u d = Ok d' ->
  exists old, volumes d !! update_key u = Some old /\
    volumes_monotonic old (add_delta old u) = Ok tt /\
    no_unpermitted_overdraw (Some old) (add_delta old u) = Ok tt /\
    d' = set_pending (UAsset u :: pending d)
           (set_volumes (<[update_key u := add_delta old u]> (volumes d)) d).
Proof.
  unfold apply_update. destruct (volumes d !! update_key u) as [old|] eqn:Ho; [|done].
  unfold update_volume. intros H. inv_ok. exists old.
  repeat match goal with x : unit |- _ => destruct x end. done.
Qed.

Definition delta_row (us : list VolumeUpdate) (k : key) (r : VolumeRow) : VolumeRow :=
  match find (fun u => bool_decide (update_key u = k)) us with
  | Some u => add_delta r u
  | None => r
  end.

Lemma find_update_None us k :
  k ∉ update_key <$> us -> find (fun u => bool_decide (update_key u = k)) us = None.
Proof.
  induction us as [|u us IH]; csimpl; [done|]. intros [Hne Hni]%not_elem_of_cons.
  rewrite bool_decide_false by congruence. by apply IH.
Qed.

Lemma apply_updates_spec i us f d u d' :
  NoDup (update_key <$> us) ->
  apply_updates i us f d = Ok (u, d') ->
  only_volumes d d' /\
  (forall k, volumes d' !! k = delta_row us k <$> volumes d !! k) /\
  (forall u, u ∈ us -> exists old, volumes d !! update_key u = Some old /\
      volumes_monotonic old (add_delta old u) = Ok tt /\
      no_unpermitted_overdraw (Some old) (add_delta old u) = Ok tt) /\
  (forall a, a ∈ pending d' <-> a ∈ pending d \/ a ∈ UAsset <$> us).
Proof.
  revert i d. induction us as [|v us IH]; intros i d; cbn [apply_updates].
  - intros _ H. inv_txn. split_and!; [done| |set_solver|set_solver].
    intros k. unfold delta_row. simpl. by destruct (volumes d' !! k) as [[]|].
  - csimpl. intros [Hni Hnd]%NoDup_cons H. inv_txn.
    match goal with H : apply_update _ _ = Ok _ |- _ =>
      apply apply_update_Ok in H as (old & Hold & Hmono & Hover & ->) end.
    apply IH in H as (Hov & Hv & Hall & Hpe); [|done]. simpl in *. split_and!.
    + etrans; [|exact Hov]. by destruct d.
    + intros k. rewrite Hv, lookup_insert. unfold delta_row. simpl.
      destruct (decide (update_key v = k)) as [<-|Hne].
      * rewrite bool_decide_true by done. rewrite Hold. simpl.
        by rewrite find_update_None.
      * by rewrite bool_decide_false.
    + intros w [-> |Hw]%elem_of_cons; [by exists old|].
      destruct (Hall w Hw) as (o & Ho & ?). exists o. split; [|done].
      rewrite lookup_insert_ne in Ho; [done|]. intros Heq. apply Hni. rewrite Heq.
      by apply list_elem_of_fmap_2.
    + intros a. rewrite Hpe, !elem_of_cons. naive_solver.
Qed.

(** The deltas land exactly when every row exists and its guards pass. *)
Lemma apply_updates_total i us d :
  NoDup (update_key <$> us) ->
  (forall u, u ∈ us -> exists old, volumes d !! update_key u = Some old /\
      volumes_monotonic old (add_delta old u) = Ok tt /\
      no_unpermitted_overdraw (Some old) (add_delta old u) = Ok tt) ->
  exists d', apply_updates i us no_faults d = Ok (tt, d').
Proof.
  revert i d. induction us as [|v us IH]; intros i d; cbn [apply_updates].
  - intros _ _. by eexists.
  - csimpl. intros [Hni Hnd]%NoDup_cons Hall.
    destruct (Hall v ltac:(set_solver)) as (old & Hold & Hmono & Hover).
    unfold bind, exec, stmt, apply_update, update_volume; simpl.
    rewrite Hold, Hmono, Hover. simpl. apply IH; [done|].
    intros w Hw. destruct (Hall w ltac:(set_solver)) as (o & Ho & ?). exists o. split; [|done].
    simpl. rewrite lookup_insert_ne; [done|]. intros Heq. apply Hni. rewrite Heq.
    by apply list_elem_of_fmap_2.
Qed.
