(* ===== verification/Guards.v ===== *)
(** * What a commit checks under its locks

    [storage/commit.go]: the balance guard, the closure guard, the resolution
    of ceilings, and the volumes frozen on the transaction. *)

From S2P Require Import Prelude Identifiers Text Posting Volumes GoTime Transaction Errors Schema Txn Locking.

(** [before[key]]: every key a transaction touches is locked, so the map
    always answers; see [lockVolumes_spec]. *)
Definition locked_at (before : gmap key locked) (k : key) : locked :=
  default (locked_of (zero_row k)) (before !! k).

Definition check_balance (v : locked) (u : VolumeUpdate) : res error unit :=
  let input := Input (lvolumes v) + UInput u in
  let output := Output (lvolumes v) + UOutput u in
  if negb (lallow_negative v) && (input <? output) then
    Err (InsufficientFundsError u.(Account) u.(UAsset) (Balance (lvolumes v)) (UOutput u))
  else if negb (lallow_positive v) && (output <? input) then
    Err (UnexpectedCreditError u.(Account) u.(UAsset) (input - output))
  else Ok tt.

Fixpoint checkBalances (before : gmap key locked) (updates : list VolumeUpdate) : res error unit :=
  match updates with
  | [] => Ok tt
  | u :: updates =>
      let! _ := check_balance (locked_at before (update_key u)) u in
      checkBalances before updates
  end.

Fixpoint checkClosed (before : gmap key locked) (updates : list VolumeUpdate) : res error unit :=
  match updates with
  | [] => Ok tt
  | u :: updates =>
      if lclosed (locked_at before (update_key u)) then Err (AccountClosedError u.(Account))
      else checkClosed before updates
  end.

Definition postCommitVolumes (before : gmap key locked) (updates : list VolumeUpdate) : PostCommitVolumes :=
  foldl (fun out u =>
           let v := locked_at before (update_key u) in
           PostCommitVolumes_Set out u.(Account) u.(UAsset)
             {| Input := Input (lvolumes v) + UInput u;
                Output := Output (lvolumes v) + UOutput u |}) ∅ updates.

(** ** Ceilings *)

Definition orZero (o : option Z) : Z := default 0 o.

Definition shift (k : key) (by_ : Z) (running : gmap key Z) : gmap key Z :=
  <[k := orZero (running !! k) + by_]> running.

(** Moving an amount through the running balances: the source first. *)
Definition move_running (x : Posting) (a : Z) (running : gmap key Z) : gmap key Z :=
  shift (destination_key x) a (shift (source_key x) (- a) running).

(** What an [UpTo] posting moves, given what its source has. *)
Definition capped (ceiling : option Z) (available : Z) : Z :=
  let available := if available <? 0 then 0 else available in
  match ceiling with
  | Some c => if c <? available then c else available
  | None => available
  end.

Definition resolved (x : Posting) (a : Z) : Posting :=
  {| Source := x.(Source); Destination := x.(Destination); PAsset := x.(PAsset);
     Amount := Some a; UpTo := false |}.

Fixpoint resolve_from (p : Postings) (before : gmap key locked) (running : gmap key Z)
    : res error Postings :=
  match p with
  | [] => Ok []
  | x :: p =>
      if x.(UpTo) then
        if (match before !! source_key x with Some v => lallow_negative v | None => false end)
        then Err (UnboundedSweepError x.(Source) x.(PAsset))
        else
          let a := capped x.(Amount) (orZero (running !! source_key x)) in
          let! q := resolve_from p before (move_running x a running) in
          Ok (resolved x a :: q)
      else
        let running := match x.(Amount) with
                       | Some a => move_running x a running
                       | None => running
                       end in
        let! q := resolve_from p before running in
        Ok (x :: q)
  end.

Definition resolveUpTo (p : Postings) (before : gmap key locked) : res error Postings :=
  resolve_from p before ((fun v => Balance (lvolumes v)) <$> before).

(** ** The balance guard *)

Lemma check_balance_Ok v u :
  check_balance v u = Ok tt <->
  (lallow_negative v = true \/
     Output (lvolumes v) + UOutput u <= Input (lvolumes v) + UInput u) /\
  (lallow_positive v = true \/
     Input (lvolumes v) + UInput u <= Output (lvolumes v) + UOutput u).
Proof.
  unfold check_balance.
  destruct (lallow_negative v), (lallow_positive v); simpl;
    destruct (Z.ltb_spec (Input (lvolumes v) + UInput u) (Output (lvolumes v) + UOutput u));
    destruct (Z.ltb_spec (Output (lvolumes v) + UOutput u) (Input (lvolumes v) + UInput u));
    simpl; split; try done; try (intros; lia); intros [[?|?] [?|?]]; try done; lia.
Qed.

Lemma checkBalances_Ok before us :
  checkBalances before us = Ok tt <->
  forall u, u ∈ us -> check_balance (locked_at before (update_key u)) u = Ok tt.
Proof.
  induction us as [|u us IH]; simpl; [set_solver|].
  setoid_rewrite elem_of_cons. rewrite rbind_Ok. split.
  - intros ([] & Hu & Hus) w [-> |Hw]; [done|]. by apply IH.
  - intros Hall. exists tt. split; [by apply Hall; left|]. apply IH. eauto.
Qed.

Lemma checkBalances_Err before us e :
  checkBalances before us = Err e ->
  exists l1 u l2, us = l1 ++ u :: l2 /\ check_balance (locked_at before (update_key u)) u = Err e /\
    forall w, w ∈ l1 -> check_balance (locked_at before (update_key w)) w = Ok tt.
Proof.
  induction us as [|u us IH]; simpl; [done|].
  intros [Hu|([] & Hu & Hus)]%rbind_Err.
  - exists [], u, us. set_solver.
  - destruct (IH Hus) as (l1 & w & l2 & -> & Hw & Hl1). exists (u :: l1), w, l2. set_solver.
Qed.

Lemma checkClosed_Ok before us :
  checkClosed before us = Ok tt <->
  forall u, u ∈ us -> lclosed (locked_at before (update_key u)) = false.
Proof.
  induction us as [|u us IH]; simpl; [set_solver|]. setoid_rewrite elem_of_cons.
  destruct (lclosed _) eqn:Hc; [split; [done|]|rewrite IH; naive_solver].
  intros Hall. specialize (Hall u (or_introl eq_refl)). congruence.
Qed.

Lemma checkClosed_Err before us e :
  checkClosed before us = Err e ->
  exists u, u ∈ us /\ lclosed (locked_at before (update_key u)) = true /\ e = AccountClosedError (Account u).
Proof.
  induction us as [|u us IH]; simpl; [done|]. destruct (lclosed _) eqn:Hc.
  - intros [= <-]. exists u. set_solver.
  - intros (w & ? & ? & ->)%IH. exists w. set_solver.
Qed.

Definition locked_matches (v : locked) (r : VolumeRow) : Prop :=
  lvolumes v = volumes_of r /\ lallow_negative v = allow_negative r /\
  lallow_positive v = allow_positive r.

(** The database's own guards on the row the update writes. *)
Definition row_guards (r : VolumeRow) (u : VolumeUpdate) : res error unit :=
  let! _ := volumes_monotonic r (add_delta r u) in
  no_unpermitted_overdraw (Some r) (add_delta r u).

Lemma volumes_monotonic_delta r u :
  0 <= UInput u -> 0 <= UOutput u -> volumes_monotonic r (add_delta r u) = Ok tt.
Proof.
  intros. unfold volumes_monotonic, add_delta, when; simpl.
  destruct (Z.ltb_spec (Input (volumes_of r) + UInput u) (Input (volumes_of r))); [lia|].
  destruct (Z.ltb_spec (Output (volumes_of r) + UOutput u) (Output (volumes_of r))); [lia|done].
Qed.

Lemma no_overdraw_when_checked v r u :
  locked_matches v r -> check_balance v u = Ok tt ->
  no_unpermitted_overdraw (Some r) (add_delta r u) = Ok tt.
Proof.
  intros (Hv & Hn & Hp) [Hneg Hpos]%check_balance_Ok. rewrite Hv, Hn, Hp in *.
  unfold no_unpermitted_overdraw, when. case_bool_decide; [done|]. simpl.
  destruct (Z.ltb_spec (Input (volumes_of r) + UInput u) (Output (volumes_of r) + UOutput u));
    destruct (Z.ltb_spec (Output (volumes_of r) + UOutput u) (Input (volumes_of r) + UInput u));
    destruct (allow_negative r), (allow_positive r); simpl; try done; destruct Hneg, Hpos; try done; lia.
Qed.

(** ** Theorems *)

(** C28: the balance guard in Go and the triggers in the database are the same
    rule, but for a delta of nothing. For a locked row, the database's guards
    accept the row an update writes exactly when [checkBalances]' test accepts it
    or the update moves nothing at all, which the trigger always lets pass and Go
    refuses on a row that is already out of bounds ([nothing_on_a_row_outside]).
    The refusal is the funds error precisely when the row would end below zero
    unpermitted, with the figures of the row. *)
Theorem guard_matches_trigger (v : locked) (r : VolumeRow) (u : VolumeUpdate) :
  locked_matches v r -> 0 <= UInput u -> 0 <= UOutput u ->
  (row_guards r u = Ok tt <-> check_balance v u = Ok tt \/ UInput u + UOutput u = 0) /\
  (forall e, check_balance v u = Err e ->
     let final := Balance (volumes_of r) + UInput u - UOutput u in
     (final < 0 /\ allow_negative r = false /\
      e = InsufficientFundsError (Account u) (UAsset u) (Balance (volumes_of r)) (UOutput u)) \/
     (0 < final /\ allow_positive r = false /\
      e = UnexpectedCreditError (Account u) (UAsset u) final)).
Proof.
  intros Hm Hin Hout. unfold row_guards. rewrite volumes_monotonic_delta by done. simpl.
  split.
  - split; [|intros [H|H]; [by eapply no_overdraw_when_checked|]].
    + destruct (Z.eqb_spec (UInput u + UOutput u) 0) as [?|Hmove]; [by right|]. intros Ht. left. revert Ht.
      destruct Hm as (Hv & Hn & Hp). rewrite check_balance_Ok, Hv, Hn, Hp.
      unfold no_unpermitted_overdraw, when. case_bool_decide as Heq.
      { exfalso. unfold add_delta in Heq. simpl in Heq. destruct (volumes_of r) as [i o].
        simpl in Heq. injection Heq as ??. lia. }
      simpl.
      destruct (Z.ltb_spec (Input (volumes_of r) + UInput u) (Output (volumes_of r) + UOutput u));
        destruct (Z.ltb_spec (Output (volumes_of r) + UOutput u) (Input (volumes_of r) + UInput u));
        destruct (allow_negative r), (allow_positive r); simpl; try done;
        intros _; split; try (by left); right; lia.
    + unfold no_unpermitted_overdraw, add_delta. simpl. replace (UInput u) with 0 by lia. replace (UOutput u) with 0 by lia.
      rewrite !Z.add_0_r. destruct (volumes_of r) as [i o]. by rewrite bool_decide_true.
  - destruct Hm as (Hv & Hn & Hp). intros e. unfold check_balance. rewrite Hv, Hn, Hp.
    unfold Balance.
    destruct (Z.ltb_spec (Input (volumes_of r) + UInput u) (Output (volumes_of r) + UOutput u));
      destruct (Z.ltb_spec (Output (volumes_of r) + UOutput u) (Input (volumes_of r) + UInput u));
      destruct (allow_negative r), (allow_positive r); simpl; try done;
      intros [= <-]; first [left; split_and!; (done || lia)
                           |right; split_and!; try done; try lia; f_equal; lia].
Qed.

Lemma guard_matches_trigger_witness :
  let v := {| lvolumes := {| Input := 5; Output := 2 |}; lallow_negative := false;
              lallow_positive := true; lclosed := false |} in
  let r := {| volumes_of := {| Input := 5; Output := 2 |}; allow_negative := false;
              allow_positive := true |} in
  let u := {| Account := "a"; UAsset := "USD/2"; UInput := 0; UOutput := 4 |} in
  row_guards r u = Ok tt <-> check_balance v u = Ok tt \/ UInput u + UOutput u = 0.
Proof. intros v r u. apply (guard_matches_trigger v r u); simpl; [done|lia..]. Defined.

(** An account that owes, and may not any more: the permission was taken back.
    A posting of nothing to it passes the trigger, and is refused in Go. *)
Example nothing_on_a_row_outside :
  let v := {| lvolumes := {| Input := 2; Output := 5 |}; lallow_negative := false;
              lallow_positive := true; lclosed := false |} in
  let r := {| volumes_of := {| Input := 2; Output := 5 |}; allow_negative := false;
              allow_positive := true |} in
  let u := {| Account := "a"; UAsset := "USD/2"; UInput := 0; UOutput := 0 |} in
  row_guards r u = Ok tt /\ check_balance v u = Err (InsufficientFundsError "a" "USD/2" (-3) 0).
Proof. done. Qed.

(** ** Ceilings, exactly *)

(** What [k] gains from the postings of [q]. *)
Definition flow (q : Postings) (k : key) : Z := delta_in q k - delta_out q k.

Definition held (before : gmap key locked) (k : key) : Z :=
  from_option (fun v => Balance (lvolumes v)) 0 (before !! k).

Definition unbounded (before : gmap key locked) (x : Posting) : bool :=
  UpTo x && (match before !! source_key x with Some v => lallow_negative v | None => false end).

Lemma flow_nil k : flow [] k = 0.
Proof. done. Qed.

Lemma flow_cons x q k : flow (x :: q) k = flow [x] k + flow q k.
Proof. unfold flow, delta_in, delta_out. simpl. lia. Qed.

Lemma shift_lookup k a m k' :
  orZero (shift k a m !! k') = orZero (m !! k') + if decide (k = k') then a else 0.
Proof.
  unfold shift. rewrite lookup_insert. case_decide; subst; simpl; lia.
Qed.

Lemma move_running_flow x a m k :
  Amount x = Some a -> orZero (move_running x a m !! k) = orZero (m !! k) + flow [x] k.
Proof.
  intros Ha. unfold move_running. rewrite !shift_lookup.
  unfold flow, delta_in, delta_out, moved, amount_of. simpl. rewrite Ha. simpl.
  repeat case_decide; simpl; lia.
Qed.

Lemma move_resolved_flow x a m k :
  orZero (move_running x a m !! k) = orZero (m !! k) + flow [resolved x a] k.
Proof. exact (move_running_flow (resolved x a) a m k eq_refl). Qed.

(** The posting a commit records in the place of the one it was given, when
    the account's balance at that point of the transaction is [available]. *)
Definition settled (x : Posting) (available : Z) : Posting :=
  if UpTo x then resolved x (capped (Amount x) available) else x.

Lemma resolve_from_Ok p before R q :
  resolve_from p before R = Ok q ->
  length q = length p /\
  Forall (fun x => unbounded before x = false) p /\
  forall i x, p !! i = Some x ->
    q !! i = Some (settled x (orZero (R !! source_key x) + flow (take i q) (source_key x))).
Proof.
  revert R q. induction p as [|x p IH]; intros R q; cbn [resolve_from].
  - intros [= <-]. done.
  - assert (forall R' y q', resolve_from p before R' = Ok q' ->
              unbounded before x = false ->
              y = settled x (orZero (R !! source_key x)) ->
              (forall k, orZero (R' !! k) = orZero (R !! k) + flow [y] k) ->
              length (y :: q') = length (x :: p) /\
              Forall (fun x => unbounded before x = false) (x :: p) /\
              forall i z, (x :: p) !! i = Some z ->
                (y :: q') !! i = Some (settled z (orZero (R !! source_key z) + flow (take i (y :: q')) (source_key z))))
      as Hcons.
    { intros R' y q' Hq Hu Hy HR. apply IH in Hq as (Hl & Hall & Hi).
      split_and!; [simpl; lia|by constructor|]. intros [|i] z Hz; simplify_eq/=.
      - by rewrite flow_nil, Z.add_0_r.
      - rewrite (Hi i z Hz). do 2 f_equal. rewrite HR. rewrite (flow_cons _ (take i q')). lia. }
    destruct (UpTo x) eqn:Hup.
    + destruct (match before !! source_key x with Some v => lallow_negative v | None => false end)
        eqn:Hn; [done|]. intros H. inv_ok. eapply Hcons; [eassumption| | |].
      * unfold unbounded. by rewrite Hup.
      * unfold settled. by rewrite Hup.
      * intros k. apply move_resolved_flow.
    + intros H. inv_ok. eapply Hcons; [eassumption| | |].
      * unfold unbounded. by rewrite Hup.
      * unfold settled. by rewrite Hup.
      * intros k. destruct (Amount x) as [a|] eqn:Ha; [by apply move_running_flow|].
        unfold flow, delta_in, delta_out, moved, amount_of; simpl. rewrite Ha. simpl.
        repeat case_decide; lia.
Qed.

Lemma resolve_from_Err p before R e :
  resolve_from p before R = Err e ->
  exists l1 x l2, p = l1 ++ x :: l2 /\ unbounded before x = true /\
    Forall (fun x => unbounded before x = false) l1 /\
    e = UnboundedSweepError (Source x) (PAsset x).
Proof.
  revert R. induction p as [|x p IH]; intros R; cbn [resolve_from]; [done|].
  destruct (UpTo x) eqn:Hup.
  - destruct (match before !! source_key x with Some v => lallow_negative v | None => false end) eqn:Hn.
    + intros [= <-]. exists [], x, p. unfold unbounded. by rewrite Hup, Hn.
    + intros [H|(?&?&?)]%rbind_Err; [|done]. apply IH in H as (l1 & y & l2 & -> & ? & ? & ->).
      exists (x :: l1), y, l2. split_and!; try done. constructor; [|done].
      unfold unbounded. by rewrite Hup.
  - intros [H|(?&?&?)]%rbind_Err; [|done]. apply IH in H as (l1 & y & l2 & -> & ? & ? & ->).
    exists (x :: l1), y, l2. split_and!; try done. constructor; [|done].
    unfold unbounded. by rewrite Hup.
Qed.

Lemma held_running before k :
  orZero (((fun v => Balance (lvolumes v)) <$> before) !! k) = held before k.
Proof. unfold held. rewrite lookup_fmap. by destruct (before !! k). Qed.

Lemma capped_bounds c b :
  (forall a, c = Some a -> 0 <= a) ->
  0 <= capped c b <= Z.max 0 b /\ (forall a, c = Some a -> capped c b <= a).
Proof.
  intros Hc. unfold capped. destruct c as [a|].
  - specialize (Hc a eq_refl). destruct (Z.ltb_spec b 0).
    + destruct (Z.ltb_spec a 0); split; try lia; intros ? [= <-]; lia.
    + destruct (Z.ltb_spec a b); split; try lia; intros ? [= <-]; lia.
  - destruct (Z.ltb_spec b 0); split; try lia; naive_solver.
Qed.

Lemma settled_keys x b : source_key (settled x b) = source_key x /\ destination_key (settled x b) = destination_key x.
Proof. unfold settled. by destruct (UpTo x). Qed.

Lemma settled_touched p q :
  length q = length p ->
  (forall i x, p !! i = Some x -> exists b, q !! i = Some (settled x b)) ->
  forall k, touched q k <-> touched p k.
Proof.
  intros Hl Hi k. unfold touched. split.
  - intros (y & [i Hy]%list_elem_of_lookup & Hk).
    destruct (lookup_lt_is_Some_2 p i ltac:(rewrite <-Hl; by eapply lookup_lt_Some)) as [x Hx].
    destruct (Hi i x Hx) as [b Hb]. assert (y = settled x b) as -> by congruence.
    destruct (settled_keys x b) as [Hs Hd]. rewrite Hs, Hd in Hk. exists x.
    split; [by eapply list_elem_of_lookup_2|done].
  - intros (x & [i Hx]%list_elem_of_lookup & Hk). destruct (Hi i x Hx) as [b Hb].
    exists (settled x b). destruct (settled_keys x b) as [-> ->].
    split; [by eapply list_elem_of_lookup_2|done].
Qed.

Lemma resolveUpTo_Ok p before q :
  resolveUpTo p before = Ok q ->
  length q = length p /\
  Forall (fun x => unbounded before x = false) p /\
  (forall i x, p !! i = Some x ->
     q !! i = Some (settled x (held before (source_key x) + flow (take i q) (source_key x)))) /\
  HasUpTo q = false /\
  (forall k, touched q k <-> touched p k).
Proof.
  intros (Hl & Hall & Hi)%resolve_from_Ok. setoid_rewrite held_running in Hi.
  split_and!; [done..| |].
  - apply not_true_iff_false. unfold HasUpTo. rewrite existsb_exists.
    intros (y & Hin & Hup). apply list_elem_of_In, list_elem_of_lookup in Hin as [i Hy].
    destruct (lookup_lt_is_Some_2 p i ltac:(rewrite <-Hl; by eapply lookup_lt_Some)) as [x Hx].
    rewrite (Hi i x Hx) in Hy. injection Hy as <-.
    unfold settled in Hup. destruct (UpTo x) eqn:?; simpl in Hup; congruence.
  - apply settled_touched; [done|]. intros i x Hx. eexists. by apply Hi.
Qed.

(** C29: what [UpTo] means. Resolution fails exactly on a posting that sweeps an
    account permitted a negative balance. Otherwise every posting keeps its
    place; one without a ceiling is unchanged; one with a ceiling becomes an
    ordinary posting whose amount is what its source holds at that point of the
    transaction (its locked balance and every earlier posting of the result),
    at least 0 and at most the ceiling -- so it never takes an account below
    zero -- and the (account, asset) pairs, hence the locks, are the same. *)
Theorem resolveUpTo_exact (p : Postings) (before : gmap key locked) :
  match resolveUpTo p before with
  | Err e => exists l1 x l2, p = l1 ++ x :: l2 /\ unbounded before x = true /\
               Forall (fun x => unbounded before x = false) l1 /\
               e = UnboundedSweepError (Source x) (PAsset x)
  | Ok q =>
      Forall (fun x => unbounded before x = false) p /\
      length q = length p /\ HasUpTo q = false /\ (forall k, touched q k <-> touched p k) /\
      forall i x, p !! i = Some x ->
        let available := held before (source_key x) + flow (take i q) (source_key x) in
        exists y, q !! i = Some y /\ source_key y = source_key x /\ destination_key y = destination_key x /\
          if UpTo x then
            exists a, Amount y = Some a /\ a = capped (Amount x) available /\
              (match Amount x with
               | Some c => 0 <= c -> a = Z.min c (Z.max 0 available)
               | None => a = Z.max 0 available
               end)
          else y = x
  end.
Proof.
  destruct (resolveUpTo p before) as [q|e] eqn:Hr; [|by apply resolve_from_Err in Hr].
  apply resolveUpTo_Ok in Hr as (Hl & Hall & Hi & Hno & Ht). split_and!; [done..|].
  intros i x Hx available. exists (settled x available).
  destruct (settled_keys x available) as [-> ->]. split_and!; [by apply Hi|done..|].
  unfold settled. destruct (UpTo x) eqn:Hup; [|done].
  exists (capped (Amount x) available). split_and!; [done..|].
  unfold capped. destruct (Amount x) as [c|].
  - intros Hc. destruct (Z.ltb_spec available 0); [destruct (Z.ltb_spec c 0)|destruct (Z.ltb_spec c available)]; lia.
  - destruct (Z.ltb_spec available 0); lia.
Qed.
