(* ===== verification/Moves.v ===== *)
(** * Moves and the two volume histories

    [storage/moves.go]: two rows per posting, each carrying the account's
    volumes after it in insertion order (pcv, frozen) and in effective date
    order (pcev, maintained when a backdated transaction lands); and the row
    events of a commit's last batch. *)

From S2P Require Import Prelude Identifiers Text Posting Volumes GoTime Transaction Errors Schema Txn Locking Guards.

(** ** Running volumes *)

Definition apply (m : gmap key Volumes) (k : key) (amount : Z) (isSource : bool) : gmap key Volumes :=
  let v := default NewVolumes (m !! k) in
  <[k := if isSource
         then {| Input := Input v; Output := Output v + amount |}
         else {| Input := Input v + amount; Output := Output v |}]> m.

(** [copyLocked] drops the permissions; a model's map needs no copying. *)
Definition copyLocked (before : gmap key locked) : gmap key Volumes := lvolumes <$> before.

(** ** Effective volumes as of a date *)

(** [order by effective_date, seq] *)
Definition effective_le (t1 s1 t2 s2 : Z) : bool := (t1 <? t2) || ((t1 =? t2) && (s1 <=? s2)).

Definition latest_step (k : key) (at_ : Instant) (best : option MoveRow) (m : MoveRow) : option MoveRow :=
  if bool_decide (move_key m = k) && (effective_date m <=? at_) then
    match best with
    | None => Some m
    | Some b =>
        if effective_le (effective_date b) (seq b) (effective_date m) (seq m) then Some m else Some b
    end
  else best.

(** [distinct on (address, asset) ... order by effective_date desc, seq desc]:
    the last move of [k] at or before the date. *)
Definition latest_at (l : list MoveRow) (k : key) (at_ : Instant) : option MoveRow :=
  foldl (latest_step k at_) None l.

Definition volumes_at (l : list MoveRow) (at_ : Instant) (k : key) : Volumes :=
  from_option pcev NewVolumes (latest_at l k at_).

(** The pairs no move answers for get zero volumes. *)
Definition effectiveVolumesAt (updates : list VolumeUpdate) (at_ : Instant) : Txn (gmap key Volumes) :=
  query SEffectiveVolumes (fun d =>
    list_to_map ((fun u => (update_key u, volumes_at (moves d) at_ (update_key u))) <$> updates)).

(** ** Row events *)

Definition write : Type := Database -> res error Database.

(** The foreign keys of [moves], and its [bigserial]. *)
Definition insert_move (id : Z) (k : key) (amt : Z) (src : bool) (eff ins : Instant)
    (v e : Volumes) : write := fun d =>
  if negb (bool_decide (is_Some (transactions d !! id))) || negb (registered d k.2)
  then Err (PgError foreignKeyViolation)
  else
    let row := {| seq := next_seq d; tx_id := id; move_key := k; amount := amt; is_source := src;
                  effective_date := eff; move_inserted := ins; pcv := v; pcev := e |} in
    Ok (set_moves (moves d ++ [row]) (next_seq d + 1) d).

Definition shift_move (k : key) (at_ : Instant) (u : VolumeUpdate) (m : MoveRow) : MoveRow :=
  if bool_decide (move_key m = k) && (at_ <? effective_date m)
  then {| seq := seq m; tx_id := tx_id m; move_key := move_key m; amount := amount m;
          is_source := is_source m; effective_date := effective_date m;
          move_inserted := move_inserted m; pcv := pcv m;
          pcev := {| Input := Input (pcev m) + UInput u; Output := Output (pcev m) + UOutput u |} |}
  else m.

(** [update moves set pcev = pcev + delta where effective_date > at] *)
Definition shift_later (at_ : Instant) (u : VolumeUpdate) : write := fun d =>
  Ok (set_moves (shift_move (update_key u) at_ u <$> moves d) (next_seq d) d).

Definition queueLaterEffectiveShift (updates : list VolumeUpdate) (at_ : Instant) : list write :=
  shift_later at_ <$> updates.

(** The two running maps of [queueMoves] and the inserts queued so far. *)
Record moves_state := {
  running : gmap key Volumes;
  effective : gmap key Volumes;
  queued : list write;
}.

Definition queue_one (t : Transaction) (k : key) (amt : Z) (src : bool) (s : moves_state) : moves_state :=
  let r := apply (running s) k amt src in
  let e := apply (effective s) k amt src in
  {| running := r; effective := e;
     queued := queued s ++
       [insert_move (TxID t) k amt src (Timestamp t) (InsertedAt t)
          (default NewVolumes (r !! k)) (default NewVolumes (e !! k))] |}.

Definition queue_posting (t : Transaction) (s : moves_state) (p : Posting) : moves_state :=
  queue_one t (destination_key p) (amount_of p) false
    (queue_one t (source_key p) (amount_of p) true s).

Definition queueMoves (t : Transaction) (before : gmap key locked)
    (effectiveBefore : gmap key Volumes) (updates : list VolumeUpdate) : list write :=
  queued (foldl (queue_posting t)
            {| running := copyLocked before; effective := effectiveBefore; queued := [] |}
            (TPostings t))
  ++ queueLaterEffectiveShift updates (Timestamp t).

(** ** The accounts a transaction names *)

(** The address changes between consecutive sorted updates. *)
Fixpoint distinct_accounts (updates : list VolumeUpdate) (last : option Address) : list Address :=
  match updates with
  | [] => []
  | u :: updates =>
      if bool_decide (last = Some (Account u)) then distinct_accounts updates last
      else Account u :: distinct_accounts updates (Some (Account u))
  end.

(** The row an account has once it is used: inserted, or what the conflict
    updates of it. *)
Definition used_row (a : Address) (ts now : Instant) (r : option AccountRow) : AccountRow :=
  match r with
  | None => {| address_array := Segments a; metadata := ∅; first_usage := ts;
               insertion_date := now; updated_at := now; closed := false |}
  | Some r => {| address_array := address_array r; metadata := metadata r;
                 first_usage := Z.min (first_usage r) ts;
                 insertion_date := insertion_date r; updated_at := now;
                 closed := closed r |}
  end.

Definition upsert_account (a : Address) (ts now : Instant) : write := fun d =>
  Ok (set_accounts (<[a := used_row a ts now (accounts d !! a)]> (accounts d)) d).

Definition queueAccounts (updates : list VolumeUpdate) (ts now : Instant) : list write :=
  (fun a => upsert_account a ts now) <$> distinct_accounts updates None.

(** [tx.SendBatch]: the statements run in order, and the first failure is the
    batch's. *)
Fixpoint run_batch (i : nat) (batch : list write) : Txn unit :=
  match batch with
  | [] => ret tt
  | w :: batch =>
      do! _ := exec (SWrite i) w in
      run_batch (S i) batch
  end.

(** ** Sums of volumes *)

Definition vadd (a b : Volumes) : Volumes :=
  {| Input := Input a + Input b; Output := Output a + Output b |}.

Definition vsum {A} (f : A -> Volumes) (l : list A) : Volumes :=
  {| Input := sumZ (fun x => Input (f x)) l; Output := sumZ (fun x => Output (f x)) l |}.

Lemma volumes_eq a b : Input a = Input b -> Output a = Output b -> a = b.
Proof. destruct a, b; simpl; congruence. Qed.

Ltac volumes := apply volumes_eq; simpl; try lia.

Lemma vadd_zero_l v : vadd NewVolumes v = v.
Proof. by destruct v. Qed.

Lemma vadd_zero_r v : vadd v NewVolumes = v.
Proof. volumes. Qed.

Lemma vadd_assoc a b c : vadd a (vadd b c) = vadd (vadd a b) c.
Proof. volumes. Qed.

Lemma vadd_comm a b : vadd a b = vadd b a.
Proof. volumes. Qed.

Lemma vsum_nil {A} (f : A -> Volumes) : vsum f [] = NewVolumes.
Proof. done. Qed.

Lemma vsum_cons {A} (f : A -> Volumes) x l : vsum f (x :: l) = vadd (f x) (vsum f l).
Proof. done. Qed.

Lemma vsum_app {A} (f : A -> Volumes) l1 l2 : vsum f (l1 ++ l2) = vadd (vsum f l1) (vsum f l2).
Proof. volumes; by rewrite sumZ_app. Qed.

Lemma vsum_ext {A} (f g : A -> Volumes) l :
  (forall x, x ∈ l -> f x = g x) -> vsum f l = vsum g l.
Proof. intros Hfg. volumes; apply sumZ_ext; intros x Hx; by rewrite Hfg. Qed.

Lemma vsum_zero {A} (f : A -> Volumes) l :
  (forall x, x ∈ l -> f x = NewVolumes) -> vsum f l = NewVolumes.
Proof. intros Hf. volumes; apply sumZ_zero; intros x Hx; by rewrite Hf. Qed.

Lemma vsum_map {A B} (f : B -> Volumes) (g : A -> B) l :
  vsum f (g <$> l) = vsum (fun x => f (g x)) l.
Proof. volumes; by rewrite sumZ_map. Qed.

Lemma vsum_permutation {A} (f : A -> Volumes) l1 l2 : l1 ≡ₚ l2 -> vsum f l1 = vsum f l2.
Proof. intros Hp. volumes; by apply sumZ_permutation. Qed.

(** ** The two sides of the postings *)

Record half := { hkey : key; hamount : Z; hsource : bool }.

Definition halves (q : Postings) : list half :=
  flat_map (fun x => [ {| hkey := source_key x; hamount := amount_of x; hsource := true |};
                       {| hkey := destination_key x; hamount := amount_of x; hsource := false |} ]) q.

Definition side (amt : Z) (src : bool) : Volumes :=
  if src then {| Input := 0; Output := amt |} else {| Input := amt; Output := 0 |}.

Definition half_at (k : key) (h : half) : Volumes :=
  if decide (hkey h = k) then side (hamount h) (hsource h) else NewVolumes.

Lemma apply_lookup m k amt src k' :
  default NewVolumes (apply m k amt src !! k') =
  vadd (default NewVolumes (m !! k'))
       (half_at k' {| hkey := k; hamount := amt; hsource := src |}).
Proof.
  unfold apply, half_at. rewrite lookup_insert. simpl.
  destruct (decide (k = k')) as [<-|].
  - destruct src; volumes.
  - by rewrite vadd_zero_r.
Qed.

Lemma halves_cons x q :
  halves (x :: q) =
  {| hkey := source_key x; hamount := amount_of x; hsource := true |} ::
  {| hkey := destination_key x; hamount := amount_of x; hsource := false |} :: halves q.
Proof. done. Qed.

(** Per pair, the halves add up to the deltas of the postings. *)
Lemma halves_total q k :
  vsum (half_at k) (halves q) = {| Input := delta_in q k; Output := delta_out q k |}.
Proof.
  induction q as [|x q IH]; [done|].
  rewrite halves_cons, !vsum_cons, IH. unfold half_at, delta_in, delta_out, moved; simpl.
  repeat case_decide; volumes.
Qed.

Lemma halves_touched q k : (exists h, h ∈ halves q /\ hkey h = k) <-> touched q k.
Proof.
  unfold halves, touched. split.
  - intros (h & Hin & <-). apply list_elem_of_In, in_flat_map in Hin as (x & Hx & Hh).
    exists x. split; [by apply list_elem_of_In|].
    destruct Hh as [<-|[<-|[]]]; simpl; auto.
  - intros (x & Hx & Hk).
    destruct Hk as [<-|<-];
      eexists; (split; [apply list_elem_of_In, in_flat_map; exists x; split; [by apply list_elem_of_In|]|]).
    + by left.
    + done.
    + by right; left.
    + done.
Qed.

(** ** The rows a transaction inserts *)

Definition new_move (t : Transaction) (n : Z) (before effb : gmap key Volumes) (hs : list half)
    (i : nat) (h : half) : MoveRow :=
  {| seq := n + Z.of_nat i; tx_id := TxID t; move_key := hkey h; amount := hamount h;
     is_source := hsource h; effective_date := Timestamp t; move_inserted := InsertedAt t;
     pcv := vadd (default NewVolumes (before !! hkey h)) (vsum (half_at (hkey h)) (take (S i) hs));
     pcev := vadd (default NewVolumes (effb !! hkey h)) (vsum (half_at (hkey h)) (take (S i) hs)) |}.

Definition new_moves (t : Transaction) (n : Z) (before effb : gmap key Volumes) (hs : list half)
    : list MoveRow := imap (new_move t n before effb hs) hs.

Definition queue_half (t : Transaction) (s : moves_state) (h : half) : moves_state :=
  queue_one t (hkey h) (hamount h) (hsource h) s.

Lemma queue_postings_halves t s q :
  foldl (queue_posting t) s q = foldl (queue_half t) s (halves q).
Proof.
  revert s. induction q as [|x q IH]; intros s; [done|].
  rewrite halves_cons. simpl. apply IH.
Qed.

(** The insert of a row, whose [seq] the server assigns. *)
Definition insert_row (m : MoveRow) : write :=
  insert_move (tx_id m) (move_key m) (amount m) (is_source m) (effective_date m) (move_inserted m)
    (pcv m) (pcev m).

Lemma new_move_cons t n before effb h hs i h' :
  insert_row (new_move t n (apply before (hkey h) (hamount h) (hsource h))
                (apply effb (hkey h) (hamount h) (hsource h)) hs i h') =
  insert_row (new_move t n before effb (h :: hs) (S i) h').
Proof.
  unfold insert_row, new_move; simpl. f_equal;
    rewrite apply_lookup, vsum_cons, vadd_assoc; by destruct h.
Qed.

Lemma queued_halves t s hs n :
  queued (foldl (queue_half t) s hs) =
  queued s ++ (insert_row <$> new_moves t n (running s) (effective s) hs).
Proof.
  revert s. induction hs as [|h hs IH]; intros s; cbn [foldl].
  - by rewrite app_nil_r.
  - rewrite IH. unfold new_moves. cbn [imap]. csimpl. rewrite <-app_assoc. simpl. f_equal.
    rewrite !fmap_imap. f_equal.
    + unfold insert_row, new_move; simpl. rewrite !apply_lookup.
      rewrite take_0, vsum_cons, vsum_nil, vadd_zero_r. by destruct h.
    + apply imap_ext. intros i h' _. simpl. apply new_move_cons.
Qed.

Lemma queueMoves_rows t before effb us n :
  queueMoves t before effb us =
  (insert_row <$> new_moves t n (copyLocked before) effb (halves (TPostings t))) ++
  (shift_later (Timestamp t) <$> us).
Proof.
  unfold queueMoves, queueLaterEffectiveShift. rewrite queue_postings_halves.
  rewrite (queued_halves _ _ _ n). done.
Qed.

(** ** Running the batch *)

Lemma run_batch_app i b1 b2 f d u d' :
  run_batch i (b1 ++ b2) f d = Ok (u, d') <->
  exists d1, run_batch i b1 f d = Ok (tt, d1) /\ run_batch (i + length b1) b2 f d1 = Ok (u, d').
Proof.
  revert i d. induction b1 as [|w b1 IH]; intros i d; simpl.
  - rewrite Nat.add_0_r. unfold ret. split; [eauto|]. by intros (? & [= <-] & ?).
  - rewrite bind_Ok. setoid_rewrite bind_Ok. setoid_rewrite IH.
    replace (i + S (length b1))%nat with (S i + length b1)%nat by lia. naive_solver.
Qed.

Definition only_moves (d d' : Database) : Prop :=
  d' = set_moves (moves d') (next_seq d') d.

Definition only_accounts (d d' : Database) : Prop := d' = set_accounts (accounts d') d.

#[export] Instance only_moves_refl : Reflexive only_moves.
Proof. intros d. unfold only_moves. destruct d; reflexivity. Qed.

#[export] Instance only_moves_trans : Transitive only_moves.
Proof. unfold only_moves. intros d1 d2 d3 H1 H2. rewrite H1 in H2. exact H2. Qed.

#[export] Instance only_accounts_refl : Reflexive only_accounts.
Proof. intros d. unfold only_accounts. destruct d; reflexivity. Qed.

#[export] Instance only_accounts_trans : Transitive only_accounts.
Proof. unfold only_accounts. intros d1 d2 d3 H1 H2. rewrite H1 in H2. exact H2. Qed.

Lemma insert_row_Ok m d d' :
  insert_row m d = Ok d' -> seq m = next_seq d ->
  d' = set_moves (moves d ++ [m]) (next_seq d + 1) d /\
  is_Some (transactions d !! tx_id m) /\ registered d (move_key m).2 = true.
Proof.
  unfold insert_row, insert_move.
  destruct (negb (bool_decide (is_Some (transactions d !! tx_id m)))
            || negb (registered d (move_key m).2)) eqn:Hfk; [done|].
  apply orb_false_iff in Hfk as [Ht Hr]. apply negb_false_iff in Ht, Hr.
  apply bool_decide_eq_true in Ht. intros [= <-] Hs. rewrite <-Hs. by destruct m.
Qed.

Lemma run_inserts i ms f d u d' :
  run_batch i (insert_row <$> ms) f d = Ok (u, d') ->
  (forall j m, ms !! j = Some m -> seq m = next_seq d + Z.of_nat j) ->
  only_moves d d' /\ moves d' = moves d ++ ms /\ next_seq d' = next_seq d + Z.of_nat (length ms).
Proof.
  revert i d. induction ms as [|m ms IH]; intros i d; csimpl.
  - intros H _. inv_txn. rewrite app_nil_r. split_and!; [done..|lia].
  - intros H Hseq. inv_txn. pose proof (Hseq 0%nat m eq_refl) as Hm. rewrite Z.add_0_r in Hm.
    match goal with H : insert_row _ _ = Ok _ |- _ => apply insert_row_Ok in H as (-> & _); [|done] end.
    apply IH in H as (Hom & -> & ->).
    + simpl. rewrite <-app_assoc. split_and!; [|done|lia]. etrans; [|exact Hom]. by destruct d.
    + intros j m' Hj. simpl. rewrite (Hseq (S j) m' Hj). lia.
Qed.

Definition shift_all (us : list VolumeUpdate) (at_ : Instant) (m : MoveRow) : MoveRow :=
  foldl (fun m u => shift_move (update_key u) at_ u m) m us.

Lemma run_shifts i us at_ f d u d' :
  run_batch i (shift_later at_ <$> us) f d = Ok (u, d') ->
  only_moves d d' /\ moves d' = (shift_all us at_ <$> moves d) /\ next_seq d' = next_seq d.
Proof.
  revert i d. induction us as [|v us IH]; intros i d; csimpl.
  - intros H. inv_txn. split_and!; [done| |done]. unfold shift_all. simpl. symmetry. apply list_fmap_id.
  - intros H. inv_txn. apply IH in H as (Hom & -> & ->).
    match goal with H : shift_later _ _ _ = Ok _ |- _ => injection H as <- end.
    cbn [moves next_seq set_moves]. split_and!; [|by rewrite <-list_fmap_compose|done].
    etrans; [|exact Hom]. by destruct d.
Qed.

Lemma upsert_account_closed a ts now d d' b :
  upsert_account a ts now d = Ok d' -> is_closed d' b = is_closed d b.
Proof.
  intros [= <-]. unfold is_closed. simpl. destruct (decide (a = b)) as [->|].
  - rewrite lookup_insert_eq. by destruct (accounts d !! b).
  - by rewrite lookup_insert_ne.
Qed.

(** The accounts' rows once each of [l] is used. *)
Definition used_rows (l : list Address) (ts now : Instant) (m : gmap Address AccountRow) : gmap Address AccountRow :=
  foldl (fun m a => <[a := used_row a ts now (m !! a)]> m) m l.

Lemma run_upserts i l ts now f d u d' :
  run_batch i ((fun a => upsert_account a ts now) <$> l) f d = Ok (u, d') ->
  only_accounts d d' /\ accounts d' = used_rows l ts now (accounts d) /\ forall b, is_closed d' b = is_closed d b.
Proof.
  revert i d. induction l as [|a l IH]; intros i d; csimpl.
  - intros H. by inv_txn.
  - intros H. inv_txn. apply IH in H as (H & Hr & Hc).
    match goal with H : upsert_account _ _ _ _ = Ok _ |- _ => rename H into Hu end. split_and!.
    + etrans; [|exact H]. injection Hu as <-. by destruct d.
    + rewrite Hr. by injection Hu as <-.
    + intros b. rewrite Hc. by eapply upsert_account_closed.
Qed.

(** The last batch of a commit, as one function of the tables. *)
Lemma run_writes t before effb us ts now f d u d' :
  run_batch 0 (queueAccounts us ts now ++ queueMoves t before effb us) f d = Ok (u, d') ->
  d' = set_accounts (accounts d') (set_moves (moves d') (next_seq d') d) /\
  moves d' = (shift_all us (Timestamp t) <$>
                moves d ++ new_moves t (next_seq d) (copyLocked before) effb (halves (TPostings t))) /\
  next_seq d' = next_seq d + Z.of_nat (length (halves (TPostings t))) /\
  accounts d' = used_rows (distinct_accounts us None) ts now (accounts d) /\
  (forall b, is_closed d' b = is_closed d b).
Proof.
  intros (d1 & Ha & Hm)%run_batch_app. apply run_upserts in Ha as (Ha & Hacc & Hcl).
  rewrite (queueMoves_rows _ _ _ _ (next_seq d1)) in Hm.
  apply run_batch_app in Hm as (d2 & Hi & Hs).
  apply run_inserts in Hi as (Hi & Hmoves & Hnext).
  - apply run_shifts in Hs as (Hs & Hmoves' & Hnext').
    rewrite Ha in Hi. rewrite Hi in Hs. split_and!.
    + rewrite Hs. simpl. destruct d; reflexivity.
    + rewrite Hmoves', Hmoves. rewrite Ha. done.
    + rewrite Hnext', Hnext, Ha. simpl. unfold new_moves. by rewrite length_imap.
    + rewrite Hs. exact Hacc.
    + intros b. unfold is_closed. rewrite Hs. simpl. apply Hcl.
  - intros j m Hj. unfold new_moves in Hj. rewrite list_lookup_imap in Hj.
    destruct (halves (TPostings t) !! j); by simplify_eq/=.
Qed.
