(* ===== verification/History.v ===== *)
(** * The histories the moves carry

    What pcv and pcev must be, as a replay from scratch, and that inserting a
    transaction's moves -- backdated or not -- keeps every row of both
    histories exactly that. [storage/moves.go], [storage/effective.go]. *)

From S2P Require Import Prelude Identifiers Text Posting Volumes GoTime Transaction Errors Schema Txn Locking Guards Moves.

Definition move_volume (m : MoveRow) : Volumes := side (amount m) (is_source m).

(** The volumes of [k] summed over the moves that satisfy [P]. *)
Definition sum_where (P : MoveRow -> bool) (l : list MoveRow) (k : key) : Volumes :=
  vsum (fun m => if bool_decide (move_key m = k) && P m then move_volume m else NewVolumes) l.

(** A replay, in effective date order, up to and including (date, seq). *)
Definition replay (l : list MoveRow) (k : key) (t s : Z) : Volumes :=
  sum_where (fun m => effective_le (effective_date m) (seq m) t s) l k.

(** A replay, in insertion order, up to and including [s]. *)
Definition replay_inserted (l : list MoveRow) (k : key) (s : Z) : Volumes :=
  sum_where (fun m => seq m <=? s) l k.

Definition total_at (l : list MoveRow) (at_ : Instant) (k : key) : Volumes :=
  sum_where (fun m => effective_date m <=? at_) l k.

Definition total (l : list MoveRow) (k : key) : Volumes := sum_where (fun _ => true) l k.

(** Every snapshot of either history is what the replay says, and the next
    [seq] is above every row's. *)
Record histories_ok (l : list MoveRow) (n : Z) : Prop := {
  effective_ok : forall m, m ∈ l -> pcev m = replay l (move_key m) (effective_date m) (seq m);
  frozen_ok : forall m, m ∈ l -> pcv m = replay_inserted l (move_key m) (seq m);
  seq_below : forall m, m ∈ l -> seq m < n;
}.

(** [GetBalancesAt] reads one row; this is what that row says. *)
Lemma latest_at_spec l k at_ :
  match latest_at l k at_ with
  | Some m => m ∈ l /\ move_key m = k /\ effective_date m <= at_ /\
              forall m', m' ∈ l -> move_key m' = k -> effective_date m' <= at_ ->
                effective_le (effective_date m') (seq m') (effective_date m) (seq m) = true
  | None => forall m', m' ∈ l -> move_key m' = k -> at_ < effective_date m'
  end.
Proof.
  unfold latest_at. induction l as [|x l IH] using rev_ind; [simpl; set_solver|].
  rewrite foldl_app. simpl. unfold latest_step at 1.
  destruct (bool_decide (move_key x = k)) eqn:Hk; simpl.
  - apply bool_decide_eq_true in Hk. destruct (Z.leb_spec (effective_date x) at_) as [Hle|Hgt].
    + destruct (foldl (latest_step k at_) None l) as [b|].
      * destruct IH as (Hb & Hbk & Hbt & Hmax).
        destruct (effective_le (effective_date b) (seq b) (effective_date x) (seq x)) eqn:Hbx.
        -- split_and!; [set_solver|done..|]. intros m' [Hm'| ->%list_elem_of_singleton]%elem_of_app Hk' Ht'.
           ++ specialize (Hmax m' Hm' Hk' Ht'). unfold effective_le in *. lia.
           ++ unfold effective_le. lia.
        -- split_and!; [set_solver|done..|]. intros m' [Hm'| ->%list_elem_of_singleton]%elem_of_app Hk' Ht'.
           ++ by apply Hmax.
           ++ unfold effective_le in *. lia.
      * split_and!; [set_solver|done..|]. intros m' [Hm'| ->%list_elem_of_singleton]%elem_of_app Hk' Ht'.
        -- specialize (IH m' Hm' Hk'). lia.
        -- unfold effective_le. lia.
    + destruct (foldl (latest_step k at_) None l) as [b|].
      * destruct IH as (Hb & Hbk & Hbt & Hmax). split_and!; [set_solver|done..|].
        intros m' [Hm'| ->%list_elem_of_singleton]%elem_of_app Hk' Ht'; [by apply Hmax|lia].
      * intros m' [Hm'| ->%list_elem_of_singleton]%elem_of_app Hk'; [by apply IH|lia].
  - apply bool_decide_eq_false in Hk. destruct (foldl (latest_step k at_) None l) as [b|].
    + destruct IH as (Hb & Hbk & Hbt & Hmax). split_and!; [set_solver|done..|].
      intros m' [Hm'| ->%list_elem_of_singleton]%elem_of_app Hk' Ht'; [by apply Hmax|done].
    + intros m' [Hm'| ->%list_elem_of_singleton]%elem_of_app Hk'; [by apply IH|done].
Qed.

Lemma volumes_at_total l n at_ k :
  histories_ok l n -> volumes_at l at_ k = total_at l at_ k.
Proof.
  intros Hok. unfold volumes_at, total_at, sum_where. pose proof (latest_at_spec l k at_) as Hspec.
  destruct (latest_at l k at_) as [m|]; simpl.
  - destruct Hspec as (Hm & <- & Ht & Hmax). rewrite (effective_ok _ _ Hok m Hm).
    unfold replay, sum_where. apply vsum_ext. intros m' Hm'.
    destruct (bool_decide (move_key m' = move_key m)) eqn:Hk; simpl; [|done].
    apply bool_decide_eq_true in Hk.
    destruct (Z.leb_spec (effective_date m') at_) as [Hle|Hgt].
    + by rewrite Hmax.
    + destruct (effective_le _ _ _ _) eqn:He; [|done]. unfold effective_le in He. lia.
  - symmetry. apply vsum_zero. intros m' Hm'.
    case_bool_decide as Hk; simpl; [|done]. specialize (Hspec m' Hm' Hk).
    destruct (Z.leb_spec (effective_date m') at_); [lia|done].
Qed.

(** ** What the shift of a backdated transaction does *)

Definition updates_delta (us : list VolumeUpdate) (k : key) : Volumes :=
  vsum (fun u => if bool_decide (update_key u = k)
                 then {| Input := UInput u; Output := UOutput u |} else NewVolumes) us.

Definition same_move (m m' : MoveRow) : Prop :=
  seq m' = seq m /\ tx_id m' = tx_id m /\ move_key m' = move_key m /\ amount m' = amount m /\
  is_source m' = is_source m /\ effective_date m' = effective_date m /\
  move_inserted m' = move_inserted m /\ pcv m' = pcv m.

Lemma shift_all_spec us at_ m :
  same_move m (shift_all us at_ m) /\
  pcev (shift_all us at_ m) =
    vadd (pcev m) (if at_ <? effective_date m then updates_delta us (move_key m) else NewVolumes).
Proof.
  revert m. induction us as [|u us IH]; intros m; simpl.
  - split; [done|]. destruct (at_ <? effective_date m); by rewrite vadd_zero_r.
  - destruct (IH (shift_move (update_key u) at_ u m)) as [Hs Hp].
    assert (same_move m (shift_move (update_key u) at_ u m)) as Hm.
    { unfold shift_move. by destruct (_ && _). }
    change (shift_all (u :: us) at_ m) with (shift_all us at_ (shift_move (update_key u) at_ u m)).
    split.
    + unfold same_move in *. destruct_and!. split_and!; congruence.
    + rewrite Hp. destruct Hm as (_ & _ & Hk & _ & _ & Ht & _). rewrite Hk, Ht.
      unfold updates_delta. rewrite vsum_cons. unfold shift_move.
      rewrite (bool_decide_ext (move_key m = update_key u) (update_key u = move_key m)) by done.
      destruct (at_ <? effective_date m); rewrite ?andb_false_r, ?andb_true_r; simpl; [|volumes].
      case_bool_decide; volumes.
Qed.

(** The updates a commit applies carry, per pair, what its halves add up to. *)
Lemma updates_delta_halves q us k :
  updates_of q us -> updates_delta us k = vsum (half_at k) (halves q).
Proof.
  intros Hus. rewrite halves_total. pose proof (updates_NoDup _ _ Hus) as Hnd.
  assert (forall l, NoDup (update_key <$> l) -> (forall u, u ∈ l -> u ∈ us) ->
            updates_delta l k = if decide (k ∈ update_key <$> l)
                                then {| Input := delta_in q k; Output := delta_out q k |}
                                else NewVolumes) as Hl.
  { induction l as [|u l IH]; csimpl; [done|].
    intros [Hni Hnd']%NoDup_cons Hsub. unfold updates_delta in *. rewrite vsum_cons, IH by set_solver.
    case_bool_decide as Hk.
    - subst k. rewrite (decide_False (P := update_key u ∈ update_key <$> l)) by done.
      rewrite decide_True by set_solver. rewrite vadd_zero_r.
      by rewrite (updates_input _ _ Hus u), (updates_output _ _ Hus u) by set_solver.
    - rewrite vadd_zero_l. repeat case_decide; set_solver. }
  rewrite (Hl us) by done. case_decide as Hk; [done|].
  assert (~ touched q k) as Hnt by (by rewrite <-(updates_touched _ _ Hus)).
  unfold delta_in, delta_out. symmetry.
  rewrite !sumZ_zero; [done|..]; intros x Hx; rewrite decide_False; try done;
    intros <-; apply Hnt; exists x; auto.
Qed.

(** ** Sums over the rows a transaction adds *)

Lemma sum_where_app P l1 l2 k : sum_where P (l1 ++ l2) k = vadd (sum_where P l1 k) (sum_where P l2 k).
Proof. apply vsum_app. Qed.

Lemma sum_where_ext P Q l k :
  (forall m, m ∈ l -> P m = Q m) -> sum_where P l k = sum_where Q l k.
Proof. intros HPQ. apply vsum_ext. intros m Hm. by rewrite HPQ. Qed.

Lemma sum_where_none P l k : (forall m, m ∈ l -> P m = false) -> sum_where P l k = NewVolumes.
Proof. intros HP. apply vsum_zero. intros m Hm. by rewrite HP, andb_false_r. Qed.

(** Rewriting pcev disturbs no sum. *)
Lemma sum_where_shift P us at_ l k :
  (forall m m', same_move m m' -> P m' = P m) ->
  sum_where P (shift_all us at_ <$> l) k = sum_where P l k.
Proof.
  intros HP. unfold sum_where. rewrite vsum_map. apply vsum_ext. intros m _.
  destruct (shift_all_spec us at_ m) as [Hs _]. rewrite (HP _ _ Hs).
  destruct Hs as (_ & _ & -> & Ha & Hsrc & _). unfold move_volume. by rewrite Ha, Hsrc.
Qed.

Section rows.
Context (g : nat -> half -> MoveRow).
Hypothesis g_key : forall i h, move_key (g i h) = hkey h.
Hypothesis g_volume : forall i h, move_volume (g i h) = side (hamount h) (hsource h).

Lemma sum_rows_all P hs k :
  (forall i h, hs !! i = Some h -> P (g i h) = true) ->
  sum_where P (imap g hs) k = vsum (half_at k) hs.
Proof.
  intros HP. unfold sum_where.
  assert (forall j l, (forall i h, l !! i = Some h -> P (g (j + i) h) = true) ->
            vsum (fun m => if bool_decide (move_key m = k) && P m then move_volume m else NewVolumes)
              (imap (fun i => g (j + i)%nat) l) = vsum (half_at k) l) as Hj.
  { intros j l. revert j. induction l as [|h l IH]; intros j Hl; [done|].
    cbn [imap]. rewrite !vsum_cons. f_equal.
    - rewrite (Hl 0%nat h eq_refl), g_key, g_volume, andb_true_r. unfold half_at.
      by case_bool_decide; [rewrite decide_True|rewrite decide_False].
    - rewrite <-(IH (S j)).
      + f_equal. apply imap_ext. intros i x _. simpl. f_equal. lia.
      + intros i x Hi. replace (S j + i)%nat with (j + S i)%nat by lia. by apply Hl. }
  apply (Hj 0%nat hs). done.
Qed.

End rows.

Lemma sum_rows_upto g P hs k j :
  (forall i h, move_key (g i h) = hkey h) ->
  (forall i h, move_volume (g i h) = side (hamount h) (hsource h)) ->
  (forall i h, hs !! i = Some h -> P (g i h) = bool_decide (i < j)%nat) ->
  sum_where P (imap g hs) k = vsum (half_at k) (take j hs).
Proof.
  intros Hk Hv HP. rewrite <-(take_drop j hs) at 1. rewrite imap_app, sum_where_app.
  rewrite (sum_rows_all g Hk Hv); [rewrite sum_where_none; [by rewrite vadd_zero_r|]|].
  - intros m (i & h & -> & Hi)%elem_of_lookup_imap. rewrite lookup_drop in Hi.
    pose proof (lookup_lt_Some _ _ _ Hi). simpl.
    rewrite length_take. replace (j `min` length hs + i)%nat with (j + i)%nat by lia.
    rewrite (HP _ _ Hi). apply bool_decide_eq_false. lia.
  - intros i h [Hi Hlt]%lookup_take_Some. rewrite (HP _ _ Hi). by apply bool_decide_eq_true.
Qed.

Section extend.
Context (l : list MoveRow) (n : Z) (t : Transaction) (before effb : gmap key Volumes).
Context (us : list VolumeUpdate).
Hypothesis Hok : histories_ok l n.
Hypothesis Hus : updates_of (TPostings t) us.
Hypothesis Hbefore : forall k, touched (TPostings t) k -> default NewVolumes (before !! k) = total l k.
Hypothesis Heffb : forall k, touched (TPostings t) k ->
  default NewVolumes (effb !! k) = total_at l (Timestamp t) k.

Let hs := halves (TPostings t).
Let new := new_moves t n before effb hs.

Lemma new_move_key i h : move_key (new_move t n before effb hs i h) = hkey h.
Proof. done. Qed.

Lemma new_move_volume i h : move_volume (new_move t n before effb hs i h) = side (hamount h) (hsource h).
Proof. done. Qed.

Lemma new_move_touched i h : hs !! i = Some h -> touched (TPostings t) (hkey h).
Proof. intros Hi. apply halves_touched. exists h. split; [|done]. by eapply list_elem_of_lookup_2. Qed.

Lemma total_extend k :
  total (shift_all us (Timestamp t) <$> l ++ new) k = vadd (total l k) (vsum (half_at k) hs).
Proof.
  unfold total. rewrite sum_where_shift by done. rewrite sum_where_app. f_equal.
  by apply sum_rows_all.
Qed.

Lemma old_not_after m i : m ∈ l -> (seq m <=? n + Z.of_nat i) = true.
Proof. intros Hm. pose proof (seq_below _ _ Hok m Hm). apply Z.leb_le. lia. Qed.

Lemma replay_old m :
  m ∈ l ->
  replay (l ++ new) (move_key m) (effective_date m) (seq m) =
  vadd (pcev m) (if Timestamp t <? effective_date m then vsum (half_at (move_key m)) hs else NewVolumes).
Proof.
  intros Hm. unfold replay. rewrite sum_where_app.
  rewrite (effective_ok _ _ Hok m Hm). f_equal. pose proof (seq_below _ _ Hok m Hm).
  destruct (Z.ltb_spec (Timestamp t) (effective_date m)).
  - apply sum_rows_all; [done..|]. intros i h _. unfold effective_le; simpl. lia.
  - apply sum_where_none. intros m' (i & h & -> & _)%elem_of_lookup_imap.
    unfold effective_le; simpl. apply orb_false_intro; [apply Z.ltb_ge; lia|].
    apply andb_false_intro2, Z.leb_gt. lia.
Qed.

Lemma replay_new i h :
  hs !! i = Some h ->
  replay (l ++ new) (hkey h) (Timestamp t) (n + Z.of_nat i) =
  vadd (total_at l (Timestamp t) (hkey h)) (vsum (half_at (hkey h)) (take (S i) hs)).
Proof.
  intros Hi. unfold replay. rewrite sum_where_app. f_equal.
  - unfold total_at. apply sum_where_ext. intros m Hm. pose proof (seq_below _ _ Hok m Hm).
    unfold effective_le. pose proof (Nat2Z.is_nonneg i).
    destruct (Z.ltb_spec (effective_date m) (Timestamp t)), (Z.eqb_spec (effective_date m) (Timestamp t)),
      (Z.leb_spec (seq m) (n + Z.of_nat i)), (Z.leb_spec (effective_date m) (Timestamp t)); simpl; lia.
  - apply sum_rows_upto; [done..|]. intros j h' _. unfold effective_le; simpl.
    rewrite Z.ltb_irrefl, Z.eqb_refl. simpl. apply eq_bool_prop_intro.
    rewrite bool_decide_spec. destruct (Z.leb_spec (n + Z.of_nat j) (n + Z.of_nat i)); simpl; lia.
Qed.

Lemma inserted_old m :
  m ∈ l -> replay_inserted (l ++ new) (move_key m) (seq m) = pcv m.
Proof.
  intros Hm. unfold replay_inserted. rewrite sum_where_app, (frozen_ok _ _ Hok m Hm).
  pose proof (seq_below _ _ Hok m Hm).
  rewrite (sum_where_none _ new), vadd_zero_r; [done|].
  intros m' (i & h & -> & _)%elem_of_lookup_imap. simpl. pose proof (Nat2Z.is_nonneg i). lia.
Qed.

Lemma inserted_new i h :
  hs !! i = Some h ->
  replay_inserted (l ++ new) (hkey h) (n + Z.of_nat i) =
  vadd (total l (hkey h)) (vsum (half_at (hkey h)) (take (S i) hs)).
Proof.
  intros Hi. unfold replay_inserted. rewrite sum_where_app. f_equal.
  - apply sum_where_ext. intros m Hm. by apply old_not_after.
  - apply sum_rows_upto; [done..|]. intros j h' _. simpl. apply eq_bool_prop_intro.
    rewrite bool_decide_spec. destruct (Z.leb_spec (n + Z.of_nat j) (n + Z.of_nat i)); simpl; lia.
Qed.

Lemma histories_extend :
  histories_ok (shift_all us (Timestamp t) <$> l ++ new) (n + Z.of_nat (length hs)).
Proof.
  assert (forall m, m ∈ l ++ new ->
            pcev (shift_all us (Timestamp t) m) = replay (l ++ new) (move_key m) (effective_date m) (seq m) /\
            pcv m = replay_inserted (l ++ new) (move_key m) (seq m) /\
            seq m < n + Z.of_nat (length hs)) as Hall.
  { intros m [Hm|Hm]%elem_of_app; destruct (shift_all_spec us (Timestamp t) m) as [_ ->].
    - rewrite replay_old, inserted_old by done. rewrite (updates_delta_halves _ _ _ Hus).
      split_and!; [done..|]. pose proof (seq_below _ _ Hok m Hm). lia.
    - apply elem_of_lookup_imap in Hm as (i & h & -> & Hi). pose proof (new_move_touched i h Hi).
      unfold new_move; cbn [move_key effective_date seq pcv pcev].
      pose proof (lookup_lt_Some _ _ _ Hi).
      rewrite replay_new, inserted_new by done. simpl.
      rewrite Z.ltb_irrefl, vadd_zero_r, Heffb, Hbefore by done. split_and!; [done..|lia]. }
  split; intros m' (m & -> & Hm)%list_elem_of_fmap; destruct (Hall m Hm) as (He & Hf & Hs);
    destruct (shift_all_spec us (Timestamp t) m) as [(Hseq & _ & Hkey & _ & _ & Hd & _ & Hpcv) _].
  - rewrite Hseq, Hkey, Hd, He. unfold replay. symmetry. apply sum_where_shift.
    intros ? ? (Hs' & _ & _ & _ & _ & Hd' & _). by rewrite Hs', Hd'.
  - rewrite Hseq, Hkey, Hpcv, Hf. unfold replay_inserted. symmetry. apply sum_where_shift.
    intros ? ? (Hs' & _). by rewrite Hs'.
  - by rewrite Hseq.
Qed.

End extend.
