(* ===== verification/Log.v ===== *)
(** * The log

    [storage/allocate.go], [storage/log.go]: ids from counters on the ledgers
    row, entries chained by hash, idempotency keys, and the walk that verifies
    the chain. *)

From S2P Require Import Prelude Identifiers Text Posting Volumes Sha256 GoTime Transaction Codec Errors Schema Txn.

Record CommitOptions := {
  OTimestamp : Time;
  OReference : string;
  OMetadata : option Metadata;
  OIdempotencyKey : string;
  ODryRun : bool;
}.

Record allocation := {
  transactionID : Z;
  logID : Z;
  previousHash : option string;
}.

(** ** Allocation *)

Definition bump (tx log : Z) (l : LedgerRow) : LedgerRow :=
  {| last_tx_id := last_tx_id l + tx; last_log_id := last_log_id l + log;
     last_log_hash := last_log_hash l; added_at := added_at l |}.

Definition allocate_row (tx log : Z) (d : Database) : res error (allocation * Database) :=
  match ledger_row d with
  | None => Err ErrLedgerNotFound
  | Some l =>
      let l' := bump tx log l in
      let! _ := when ((max_int64 <? last_tx_id l') || (max_int64 <? last_log_id l'))
                  (PgError numericOutOfRange) in
      let! d := update_ledger l' d in
      Ok ({| transactionID := if tx =? 0 then 0 else last_tx_id l'; logID := last_log_id l';
             previousHash := last_log_hash l' |}, d)
  end.

Definition allocate : Txn allocation := stmt SAllocate (allocate_row 1 1).

(** Only a log id, for mutations that are not transactions. *)
Definition allocateLogID : Txn allocation := stmt SAllocate (allocate_row 0 1).

(** ** Appending *)

Definition set_hash (h : string) (l : LedgerRow) : LedgerRow :=
  {| last_tx_id := last_tx_id l; last_log_id := last_log_id l;
     last_log_hash := Some h; added_at := added_at l |}.

(** [varchar(256)] counts characters. *)
Definition pg_varchar (n : nat) (s : string) : res error unit :=
  let! _ := when (negb (pg_text s)) (PgError invalidText) in
  when (n <? length (runes s))%nat (PgError stringTooLong).

Definition key_taken (d : Database) (k : string) : bool :=
  existsb (fun kv => bool_decide (idempotency_key kv.2 = Some k)) (map_to_list (logs d)).

(** The two unique indexes of [logs]. *)
Definition insert_log_row (id : Z) (r : LogRow) (d : Database) : res error Database :=
  let! _ := match idempotency_key r with Some k => pg_varchar 256 k | None => Ok tt end in
  let! _ := when (bool_decide (is_Some (logs d !! id))) (PgError uniqueViolation) in
  let! _ := when (match idempotency_key r with Some k => key_taken d k | None => false end)
              (PgError uniqueViolation) in
  Ok (set_logs (<[id := r]> (logs d)) d).

(** One statement: the entry and the chain tip it advances. *)
Definition insertLog (id : Z) (r : LogRow) : Txn unit :=
  exec SInsertLog (fun d =>
    let! d := insert_log_row id r d in
    match ledger_row d with
    | None => Ok d
    | Some l => update_ledger (set_hash (hash r) l) d
    end).

Section codec.
Context {codec : Codec}.

Definition log_type_of (p : payload) : LogType :=
  match p with
  | PTransaction _ => LogNewTransaction
  | PReverted _ _ => LogRevertedTransaction
  | PSetMetadata _ _ _ => LogSetMetadata
  | PDeleteMetadata _ _ _ => LogDeleteMetadata
  | PRecovery _ => LogRecovery
  end.

(** [appendLogEntry]: marshal once, hash those bytes, store both. An empty key
    is stored as null. *)
Definition appendLogEntry (a : allocation) (p : payload) (date_ : Instant) (key ikHash : string)
    : Txn unit :=
  match marshal p with
  | None => fail MarshalError
  | Some bytes =>
      insertLog (logID a)
        {| log_type := log_type_of p; data := bytes; date := date_;
           hash := ChainHash (previousHash a) bytes;
           idempotency_key := if bool_decide (key = EmptyString) then None else Some key;
           idempotency_hash := if bool_decide (key = EmptyString) then None else Some ikHash |}
  end.

Definition appendLog (t : Transaction) (a : allocation) (key ikHash : string) : Txn unit :=
  appendLogEntry a (PTransaction t) (InsertedAt t) key ikHash.

(** ** Idempotency *)

Definition input_of (p : Postings) (opts : CommitOptions) : idempotencyInput :=
  {| IPostings := p; ITimestamp := OTimestamp opts; IReference := OReference opts;
     IMetadata := OMetadata opts |}.

Definition idempotencyHash (p : Postings) (opts : CommitOptions) : res error string :=
  match marshal_input (input_of p opts) with
  | None => Err MarshalError
  | Some bytes => Ok (hex_encode (Sha256.sum256 bytes))
  end.

Definition find_key (d : Database) (k : string) : option LogRow :=
  find_map (fun kv : Z * LogRow =>
              if bool_decide (idempotency_key kv.2 = Some k) then Some kv.2 else None)
    (map_rows Z.le (logs d)).

(** What the stored row answers for a key and the hash of this request. *)
Definition check_replay (d : Database) (k wantHash : string) : res error (option Transaction) :=
  let! _ := when (negb (pg_text k)) (PgError invalidText) in
  match find_key d k with
  | None => Ok None
  | Some r =>
      if bool_decide (idempotency_hash r = Some wantHash) then
        match unmarshal_transaction (data r) with
        | Some t => Ok (Some t)
        | None => Err DecodeError
        end
      else Err ErrIdempotencyMismatch
  end.

Definition findByIdempotencyKey (s : statement) (k wantHash : string) : Txn (option Transaction) :=
  stmt s (fun d => let! t := check_replay d k wantHash in Ok (t, d)).

(** ** Verification *)

Definition declaredGap (r : LogRow) : res error (option RecoveryPayload) :=
  match log_type r with
  | LogRecovery =>
      match unmarshal_recovery (data r) with
      | Some p => Ok (Some p)
      | None => Err ErrChainBroken
      end
  | _ => Ok None
  end.

(** One entry, given the previous hash and the id that should come next. *)
Definition verify_entry (expectedID : Z) (previous : option string) (id : Z) (r : LogRow)
    : res error unit :=
  let! _ := if id =? expectedID then Ok tt
            else
              let! declared := declaredGap r in
              match declared with
              | Some p =>
                  when (negb ((ResumedFrom p =? expectedID - 1) && (SkippedThrough p =? id - 1)))
                    ErrChainBroken
              | None => Err ErrChainBroken
              end in
  when (negb (bool_decide (ChainHash previous (data r) = hash r))) ErrChainBroken.

Fixpoint verify_rows (rows : list (Z * LogRow)) (expectedID : Z) (previous : option string)
    (checked : nat) : nat * res error unit :=
  match rows with
  | [] => (checked, Ok tt)
  | (id, r) :: rows =>
      match verify_entry expectedID previous id r with
      | Err e => (checked, Err e)
      | Ok _ => verify_rows rows (id + 1) (Some (hash r)) (S checked)
      end
  end.

Definition VerifyLog (d : Database) : nat * res error unit :=
  verify_rows (map_rows Z.le (logs d)) 1 None 0.

End codec.
