(* ===== verification/Observer.v ===== *)
(** * What the engine reports about itself

    [storage/observer.go]: the events of the commit path, and the closed set of
    causes a refusal is counted under. Durations are wall clock readings and
    are not kept; the spans of a commit are [Tracing]'s. *)

From S2P Require Import Prelude Identifiers Posting Errors.

Inductive RefusalCause :=
| CauseInsufficientFunds
| CauseUnexpectedCredit
| CauseAccountClosed
| CauseUnknownAsset
| CauseUnboundedSweep
| CauseInvalidPosting
| CauseContentionGiveUp
| CauseOther.

#[export] Instance RefusalCause_eq_dec : EqDecision RefusalCause.
Proof. solve_decision. Defined.

Definition RefusalCauses : list RefusalCause :=
  [CauseInsufficientFunds; CauseUnexpectedCredit; CauseAccountClosed; CauseUnknownAsset;
   CauseUnboundedSweep; CauseInvalidPosting; CauseContentionGiveUp; CauseOther].

Definition as_funds (e : error) : option (Address * Asset) :=
  match e with InsufficientFundsError a s _ _ => Some (a, s) | _ => None end.
Definition as_credit (e : error) : option (Address * Asset) :=
  match e with UnexpectedCreditError a s _ => Some (a, s) | _ => None end.
Definition as_closed (e : error) : option Address :=
  match e with AccountClosedError a => Some a | _ => None end.
Definition as_unknown (e : error) : option Asset :=
  match e with UnknownAssetError a _ => Some a | _ => None end.
Definition as_sweep (e : error) : option (Address * Asset) :=
  match e with UnboundedSweepError a s => Some (a, s) | _ => None end.
Definition as_posting (e : error) : option nat :=
  match e with PostingError i _ => Some i | _ => None end.

Definition has {A} (select : error -> option A) (e : error) : bool :=
  bool_decide (is_Some (errors_As select e)).

(** [CauseOf]; [None] is "not a refusal at all". *)
Definition CauseOf (err : option error) : option RefusalCause :=
  match err with
  | None => None
  | Some e =>
      if has as_funds e then Some CauseInsufficientFunds
      else if has as_credit e then Some CauseUnexpectedCredit
      else if has as_closed e then Some CauseAccountClosed
      else if has as_unknown e || errors_Is e ErrUnknownAsset then Some CauseUnknownAsset
      else if has as_sweep e then Some CauseUnboundedSweep
      else if has as_posting e || errors_Is e ErrNoPostings then Some CauseInvalidPosting
      else None
  end.

(** [assetOf], [accountOf]: what a refusal is about, empty when nothing. *)
Definition assetOf (e : error) : Asset :=
  match errors_As as_funds e, errors_As as_credit e, errors_As as_unknown e with
  | Some (_, s), _, _ => s
  | None, Some (_, s), _ => s
  | None, None, Some s => s
  | None, None, None => EmptyString
  end.

Definition accountOf (e : error) : Address :=
  match errors_As as_funds e, errors_As as_credit e, errors_As as_closed e with
  | Some (a, _), _, _ => a
  | None, Some (a, _), _ => a
  | None, None, Some a => a
  | None, None, None => EmptyString
  end.

Inductive event :=
| Committed_event (assets : list Asset) (postings accounts attempts : nat) (addresses : list Address)
| Refused_event (reason : RefusalCause) (asset : Asset) (account : Address)
| Contended_event (attempt : nat).

#[export] Instance event_eq_dec : EqDecision event.
Proof. solve_decision. Defined.

(** First occurrences, in order: the [seen] maps of [observeCommitted]. *)
Fixpoint first_seen (seen : gset string) (l : list string) : list string :=
  match l with
  | [] => []
  | x :: l => if decide (x ∈ seen) then first_seen seen l
              else x :: first_seen ({[x]} ∪ seen) l
  end.

Definition observeCommitted (p : Postings) (attempts : nat) : event :=
  let addresses := first_seen ∅ (flat_map (fun x => [Source x; Destination x]) p) in
  Committed_event (first_seen ∅ (PAsset <$> p)) (length p) (length addresses) attempts addresses.

Definition refusal_events (e : error) : list event :=
  match CauseOf (Some e) with
  | Some cause => [Refused_event cause (assetOf e) (accountOf e)]
  | None => []
  end.

(** The cause is one of the six that name a rule of the ledger: contention and
    "other" never come out of [CauseOf], and contention, cancellation or a
    broken connection is never counted as a refusal. *)
Lemma CauseOf_range e c :
  CauseOf (Some e) = Some c -> c <> CauseContentionGiveUp /\ c <> CauseOther.
Proof. unfold CauseOf. intros H. repeat case_match; simplify_eq; done. Qed.

Lemma first_seen_spec seen l :
  NoDup (first_seen seen l) /\ forall x, x ∈ first_seen seen l <-> x ∈ l /\ x ∉ seen.
Proof.
  revert seen. induction l as [|y l IH]; intros seen; simpl.
  - split; [constructor|set_solver].
  - case_decide as Hy.
    + destruct (IH seen) as [Hnd Hx]. split; [done|]. intros x. rewrite Hx. set_solver.
    + destruct (IH ({[y]} ∪ seen)) as [Hnd Hx]. split.
      * constructor; [|done]. rewrite Hx. set_solver.
      * intros x. rewrite elem_of_cons, Hx. destruct (decide (x = y)); set_solver.
Qed.
