(* ===== verification/Commit.v ===== *)
(** * Committing a transaction

    [storage/commit.go], [storage/rows.go], [storage/retry.go] and the asset
    check of [storage/assets.go]: the retry loop, and the sequence that runs
    inside one database transaction. *)

From S2P Require Import Prelude Identifiers Text Posting Volumes Sha256 GoTime Transaction Codec Errors Schema Txn Locking Guards Moves Log Observer.

Definition maxAttempts : nat := 10.

(** ** The world around one attempt

    The clocks, the service's failures, the test seam before COMMIT, and what
    other sessions committed between this attempt's first read and its locks. *)
Record Env := {
  now : Instant;
  db_now : Instant;
  fault : faults;
  beforeCommit : option error;
  landed : Database -> Database;
}.

Record applyOptions := {
  AOTimestamp : Time;
  AOReference : string;
  AOMetadata : Metadata;
}.

Definition ledger_res {A} (m : res ledger_error A) : res error A :=
  match m with Ok a => Ok a | Err e => Err (LedgerError e) end.

(** ** The transaction row *)

(** A jsonb column keeps what [json.Marshal] wrote -- invalid UTF-8 replaced,
    the last of two keys that became equal -- and refuses a NUL. *)
Definition stored_metadata (m : Metadata) : res error Metadata :=
  if existsb (fun kv => has_nul kv.1 || has_nul kv.2) (map_to_list m)
  then Err (PgError untranslatableCharacter)
  else Ok (list_to_map (reverse ((fun kv => (coerce_utf8 kv.1, coerce_utf8 kv.2)) <$>
                                   map_rows String.le m))).

(** [endpoints]: deduplicated and sorted. *)
Definition endpoints (p : Postings) (get : Posting -> string) : list string :=
  merge_sort String.le (remove_dups (get <$> p)).

Definition reference_taken (d : Database) (r : string) : bool :=
  existsb (fun kv => bool_decide (reference kv.2 = Some r)) (map_to_list (transactions d)).

Definition row_of (t : Transaction) (db_now : Instant) (m : Metadata) : TransactionRow :=
  {| timestamp := Timestamp t; inserted_at := db_now; reverted_at := None;
     reference := if bool_decide (Reference t = EmptyString) then None else Some (Reference t);
     postings := TPostings t; tx_metadata := m;
     sources := endpoints (TPostings t) Source;
     destinations := endpoints (TPostings t) Destination;
     pc_volumes := TPostCommitVolumes t |}.

Definition insert_transaction_row (id : Z) (r : TransactionRow) (d : Database) : res error Database :=
  let! _ := match reference r with
            | Some s => when (negb (pg_text s)) (PgError invalidText)
            | None => Ok tt
            end in
  let! _ := when (bool_decide (is_Some (transactions d !! id))) (PgError uniqueViolation) in
  let! _ := when (match reference r with Some s => reference_taken d s | None => false end)
              (PgError uniqueViolation) in
  Ok (set_transactions (<[id := r]> (transactions d)) d).

Definition duplicate_reference (e : error) : error :=
  if is_unique_violation e then ErrDuplicateReference else e.

(** Returns the transaction with the row's own [inserted_at]. *)
Definition insertTransaction (db_now : Instant) (t : Transaction) : Txn Transaction :=
  do! _ := map_err duplicate_reference
             (exec SInsertTransaction (fun d =>
                let! m := stored_metadata (TMetadata t) in
                insert_transaction_row (TxID t) (row_of t db_now m) d)) in
  ret {| TxID := TxID t; TPostings := TPostings t; Timestamp := Timestamp t; InsertedAt := db_now;
         RevertedAt := RevertedAt t; Reference := Reference t; TMetadata := TMetadata t;
         TPostCommitVolumes := TPostCommitVolumes t |}.

(** ** Everything but the log entry and the COMMIT *)

Definition resolve (p : Postings) (updates : list VolumeUpdate) (before : gmap key locked)
    : res error (Postings * list VolumeUpdate) :=
  if HasUpTo p then
    let! p := resolveUpTo p before in
    let! updates := ledger_res (VolumeUpdates p) in
    Ok (p, updates)
  else Ok (p, updates).

Definition effective_timestamp (now : Instant) (t : Time) : Instant :=
  Truncate (if IsZero t then now else UTC t) microsecond.

Definition applyTransaction (now db_now : Instant) (p : Postings) (opts : applyOptions)
    : Txn (Transaction * allocation) :=
  do! updates := lift (ledger_res (VolumeUpdates p)) in
  do! before := lockVolumes updates in
  do! ' (p, updates) := lift (resolve p updates before) in
  do! _ := lift (checkClosed before updates) in
  do! _ := lift (checkBalances before updates) in
  do! _ := applyVolumes updates in
  let ts := effective_timestamp now (AOTimestamp opts) in
  do! effectiveBefore := effectiveVolumesAt updates ts in
  do! alloc := allocate in
  do! t := insertTransaction db_now
             {| TxID := transactionID alloc; TPostings := p; Timestamp := ts; InsertedAt := 0;
                RevertedAt := None; Reference := AOReference opts; TMetadata := AOMetadata opts;
                TPostCommitVolumes := postCommitVolumes before updates |} in
  do! _ := run_batch 0 (queueAccounts updates ts db_now ++
                        queueMoves t before effectiveBefore updates) in
  ret (t, alloc).

Section codec.
Context {codec : Codec}.

(** ** One attempt *)

(** After a unique violation: whoever won the key answers, read in a
    transaction of its own. *)
Definition idempotencyRace (f : faults) (committed : Database) (k ikHash : string) (err : error)
    : res error (option Transaction) :=
  if bool_decide (k = EmptyString) || negb (is_unique_violation err) then Ok None
  else match f SRaceBegin with
       | Some code => Err (PgError code)
       | None => rmap fst (findByIdempotencyKey SRaceFind k ikHash f committed)
       end.

Definition appendLog_or_race (committed : Database) (t : Transaction) (alloc : allocation)
    (k ikHash : string) : Txn (option Transaction) := fun f d =>
  match appendLog t alloc k ikHash f d with
  | Ok (_, d') => Ok (None, d')
  | Err err =>
      match idempotencyRace f committed k ikHash err with
      | Ok (Some replayed) => Ok (Some replayed, d)
      | Err e => Err e
      | Ok None => Err err
      end
  end.

Definition apply_options (opts : CommitOptions) : applyOptions :=
  {| AOTimestamp := OTimestamp opts; AOReference := OReference opts;
     AOMetadata := default ∅ (OMetadata opts) |}.

(** From the locks to the end of the attempt, on the committed state [d0]. *)
Definition commit_body (E : Env) (d0 : Database) (p : Postings) (opts : CommitOptions)
    (ikHash : string) : Txn (outcome Transaction) :=
  do! ' (t, alloc) := applyTransaction (now E) (db_now E) p (apply_options opts) in
  do! replayed := appendLog_or_race d0 t alloc (OIdempotencyKey opts) ikHash in
  match replayed with
  | Some original => ret (RolledBack original)
  | None =>
      match beforeCommit E with
      | Some e => fail e
      | None => if ODryRun opts then ret (RolledBack t) else commit t
      end
  end.

Definition fast_path (f : faults) (opts : CommitOptions) (ikHash : string) (d : Database)
    : res error (option Transaction) :=
  if bool_decide (OIdempotencyKey opts = EmptyString) then Ok None
  else rmap fst (findByIdempotencyKey SFindKey (OIdempotencyKey opts) ikHash f d).

Definition commitOnce (E : Env) (p : Postings) (opts : CommitOptions) (ikHash : string)
    (d : Database) : res error Transaction * Database :=
  match fault E SBegin with
  | Some code => (Err (PgError code), d)
  | None =>
      match fast_path (fault E) opts ikHash d with
      | Err e => (Err e, d)
      | Ok (Some existing) => (Ok existing, d)
      | Ok None =>
          let d0 := landed E d in
          transact (fault E) (commit_body E d0 p opts ikHash) d0
      end
  end.

End codec.

(** ** The store *)

(** [Store]: its ledger's database, the two permanent facts it caches, the
    restarts counted, and what its observer was told. *)
Record Store := {
  db : Database;
  seen_assets : gset string;
  ledgerSeen : bool;
  retries : Z;
  observing : bool;
  events : list event;
}.

Definition with_db (d : Database) (s : Store) : Store :=
  {| db := d; seen_assets := seen_assets s; ledgerSeen := ledgerSeen s; retries := retries s;
     observing := observing s; events := events s |}.

Definition with_cache (seen : gset string) (b : bool) (s : Store) : Store :=
  {| db := db s; seen_assets := seen; ledgerSeen := b; retries := retries s;
     observing := observing s; events := events s |}.

Definition count_retry (s : Store) : Store :=
  {| db := db s; seen_assets := seen_assets s; ledgerSeen := ledgerSeen s; retries := retries s + 1;
     observing := observing s; events := events s |}.

(** Nothing is computed when nobody listens. *)
Definition emit (es : list event) (s : Store) : Store :=
  {| db := db s; seen_assets := seen_assets s; ledgerSeen := ledgerSeen s; retries := retries s;
     observing := observing s;
     events := if observing s then events s ++ es else events s |}.

Definition refuse {A} (e : error) (s : Store) : res error A * Store :=
  (Err e, emit (refusal_events e) s).

(** ** Assets *)

(** [assetWithCodeOf]: the registered asset sharing this one's code. *)
Definition assetWithCodeOf (d : Database) (a : Asset) : option Asset :=
  find_map (fun kv : string * Instant => if bool_decide (Code kv.1 = Code a) then Some kv.1 else None)
    (map_rows String.le (assets d)).

(** The assets of a request that the cache does not answer for, in order. *)
Definition unknown_assets (seen : gset string) (p : Postings) : list Asset :=
  filter (fun a => a ∉ seen) (first_seen ∅ (PAsset <$> p)).

Definition checkAssets (f : faults) (p : Postings) (s : Store) : res error unit * Store :=
  let asked := unknown_assets (seen_assets s) p in
  if bool_decide (asked = []) && ledgerSeen s then (Ok tt, s)
  else match f SCheckAssets with
  | Some code => (Err (PgError code), s)
  | None =>
      match ledger_row (db s) with
      | None => (Err ErrLedgerNotFound, s)
      | Some _ =>
          match find (fun a => negb (registered (db s) a)) asked with
          | None => (Ok tt, with_cache (list_to_set asked ∪ seen_assets s) true s)
          | Some missing =>
              let conflicting := match f SAssetWithCode with
                                 | Some _ => EmptyString
                                 | None => default EmptyString (assetWithCodeOf (db s) missing)
                                 end in
              (Err (UnknownAssetError missing conflicting), with_cache (seen_assets s) true s)
          end
      end
  end.

(** ** The retry loop *)

(** [1 << attempt] milliseconds. *)
Definition backoff_base (attempt : nat) : Z := Z.shiftl 1 (Z.of_nat attempt) * millisecond.

(** How long a retry waits, [rand] being [rand.Int64N]; or the context's error
    when the caller's context ends first. *)
Definition backoff (context_ended : bool) (rand : Z -> Z) (attempt : nat) : res error Z :=
  let base := backoff_base attempt in
  let d := base + rand base in
  if context_ended then Err ContextError else Ok d.

(** The whole call's surroundings: one [Env] per attempt, and whether the
    caller's context ends during a backoff. *)
Record Weather := {
  attempt_env : nat -> Env;
  check_faults : faults;
  cancelled : nat -> bool;
}.

Section codec.
Context {codec : Codec}.

Fixpoint commit_attempts (W : Weather) (fuel attempt : nat) (p : Postings) (opts : CommitOptions)
    (ikHash : string) (s : Store) : res error Transaction * Store :=
  match fuel with
  | O =>
      (Err (GivingUp maxAttempts),
       emit [Refused_event CauseContentionGiveUp EmptyString EmptyString] s)
  | S fuel =>
      let '(r, d) := commitOnce (attempt_env W attempt) p opts ikHash (db s) in
      let s := with_db d s in
      match r with
      | Ok t => (Ok t, emit [observeCommitted p (S attempt)] s)
      | Err e =>
          if retryable e then
            let s := emit [Contended_event attempt] (count_retry s) in
            if cancelled W attempt then (Err ContextError, s)
            else commit_attempts W fuel (S attempt) p opts ikHash s
          else refuse e s
      end
  end.

Definition CommitTransaction (W : Weather) (p : Postings) (opts : CommitOptions) (s : Store)
    : res error Transaction * Store :=
  if bool_decide (p = []) then refuse ErrNoPostings s
  else match Validate p with
  | Some (i, e) => refuse (PostingError i (LedgerError e)) s
  | None =>
      match checkAssets (check_faults W) p s with
      | (Err e, s) => refuse e s
      | (Ok _, s) =>
          match idempotencyHash p opts with
          | Err e => (Err e, s)
          | Ok ikHash => commit_attempts W maxAttempts 0 p opts ikHash s
          end
      end
  end.

End codec.
