(* ===== verification/Committed.v ===== *)
(** * What a committed transaction did to the tables

    One statement about [applyTransaction] that every theorem on commits,
    reversals and batches starts from: each table afterwards, as a function of
    the tables before. *)

From S2P Require Import Prelude Identifiers Text Posting Volumes Sha256 GoTime Transaction Codec Errors Schema Txn Locking Guards Moves History Log Observer Commit.

Definition volume_at (d : Database) (k : key) : Volumes :=
  from_option volumes_of NewVolumes (volumes d !! k).

(** The row the next deltas will meet: the stored one, or a zero row. *)
Definition row_at (d : Database) (k : key) : VolumeRow := default (zero_row k) (volumes d !! k).

Definition locked_at_commit (d : Database) (k : key) : locked := locked_row d k (row_at d k).

(** The transaction, its allocation and the volume updates behind a successful
    [applyTransaction] from [d] to [d']. *)
Record applied (now db_now : Instant) (p : Postings) (opts : applyOptions)
    (us : list VolumeUpdate) (t : Transaction) (alloc : allocation) (d d' : Database) : Prop := {
  applied_updates : updates_of (TPostings t) us;
  applied_touched : forall k, touched (TPostings t) k <-> touched p k;
  applied_length : length (TPostings t) = length p;
  applied_exact : HasUpTo p = false -> TPostings t = p;
  applied_settled : HasUpTo p = true ->
    forall i x, p !! i = Some x ->
      TPostings t !! i = Some (settled x (Balance (volume_at d (source_key x)) +
                                          flow (take i (TPostings t)) (source_key x)));
  applied_open : forall u, u ∈ us -> is_closed d (Account u) = false;
  applied_guarded : forall u, u ∈ us -> check_balance (locked_at_commit d (update_key u)) u = Ok tt;
  applied_rows : forall k, volumes d' !! k =
    if decide (k ∈ update_key <$> us) then Some (delta_row us k (row_at d k)) else volumes d !! k;
  applied_pending : forall a, a ∈ pending d' <-> a ∈ pending d \/ a ∈ UAsset <$> us;
  applied_registered : forall k, k ∈ update_key <$> us -> volumes d !! k = None -> registered d k.2 = true;
  applied_ledger : exists l, ledger_row d = Some l /\ ledger_row d' = Some (bump 1 1 l) /\
    alloc = {| transactionID := last_tx_id l + 1; logID := last_log_id l + 1;
               previousHash := last_log_hash l |} /\
    TxID t = last_tx_id l + 1 /\ last_tx_id l + 1 <= max_int64 /\ last_log_id l + 1 <= max_int64;
  applied_fields : Timestamp t = effective_timestamp now (AOTimestamp opts) /\
    InsertedAt t = db_now /\ RevertedAt t = None /\ Reference t = AOReference opts /\
    TMetadata t = AOMetadata opts;
  applied_transaction : transactions d !! TxID t = None /\
    exists m, stored_metadata (TMetadata t) = Ok m /\
      transactions d' = <[TxID t := row_of t db_now m]> (transactions d);
  applied_reference : Reference t <> EmptyString ->
    pg_text (Reference t) = true /\ reference_taken d (Reference t) = false;
  applied_moves : exists before effb,
    (forall k, k ∈ update_key <$> us -> default NewVolumes (before !! k) = volume_at d k) /\
    (forall k, k ∈ update_key <$> us -> default NewVolumes (effb !! k) = volumes_at (moves d) (Timestamp t) k) /\
    moves d' = (shift_all us (Timestamp t) <$>
                  moves d ++ new_moves t (next_seq d) before effb (halves (TPostings t))) /\
    next_seq d' = next_seq d + Z.of_nat (length (halves (TPostings t)));
  applied_pcv : TPostCommitVolumes t =
    foldl (fun out u => PostCommitVolumes_Set out (Account u) (UAsset u)
                          (vadd (volume_at d (update_key u))
                             {| Input := UInput u; Output := UOutput u |})) ∅ us;
  applied_rest : logs d' = logs d /\ assets d' = assets d;
  applied_accounts : accounts d' = used_rows (distinct_accounts us None) (Timestamp t) db_now (accounts d);
  applied_closed : forall a, is_closed d' a = is_closed d a;
  applied_sweeps : forall x, x ∈ p -> UpTo x = true -> allow_negative (row_at d (source_key x)) = false;
}.

Lemma volume_at_row d k : volumes_of (row_at d k) = volume_at d k.
Proof. unfold volume_at, row_at. by destruct (volumes d !! k). Qed.

Lemma ledger_res_Ok {A} (m : res ledger_error A) a : ledger_res m = Ok a <-> m = Ok a.
Proof. destruct m; naive_solver. Qed.

(** What [resolve] leaves: deltas of the postings that will be recorded. *)
Lemma resolve_Ok p us0 before q us :
  VolumeUpdates p = Ok us0 -> resolve p us0 before = Ok (q, us) ->
  updates_of q us /\ (forall k, touched q k <-> touched p k) /\ length q = length p /\
  (HasUpTo p = false -> q = p) /\
  (HasUpTo p = true -> resolveUpTo p before = Ok q) /\ update_key <$> us = update_key <$> us0.
Proof.
  intros Hv. pose proof (volume_updates_Ok _ _ Hv) as Hu0. unfold resolve.
  destruct (HasUpTo p) eqn:Hup.
  - intros (q' & Hr & H)%rbind_Ok. apply rbind_Ok in H as (us' & Hus & [= <- <-]).
    apply ledger_res_Ok, volume_updates_Ok in Hus.
    pose proof (resolveUpTo_Ok _ _ _ Hr) as (? & _ & _ & _ & Ht).
    split_and!; try done. by eapply updates_keys_unique.
  - intros [= <- <-]. split_and!; done.
Qed.

Lemma locked_lookup (us0 : list VolumeUpdate) (d d1 : Database) (before : gmap key locked) k :
  (forall k, before !! k = if decide (k ∈ update_key <$> us0)
                           then locked_row d k <$> volumes d1 !! k else None) ->
  materialised (update_key <$> us0) d d1 ->
  k ∈ update_key <$> us0 -> before !! k = Some (locked_at_commit d k).
Proof.
  intros Hb [_ Hv] Hk. rewrite Hb, decide_True, Hv by done.
  unfold locked_at_commit, row_at. destruct (volumes d !! k); [done|]. by rewrite decide_True.
Qed.

Lemma allocate_row_Ok tx log d a d' :
  allocate_row tx log d = Ok (a, d') ->
  exists l, ledger_row d = Some l /\ d' = set_ledger_row (Some (bump tx log l)) d /\
    a = {| transactionID := if tx =? 0 then 0 else last_tx_id l + tx; logID := last_log_id l + log;
           previousHash := last_log_hash l |} /\
    last_tx_id l + tx <= max_int64 /\ last_log_id l + log <= max_int64.
Proof.
  unfold allocate_row, update_ledger. destruct (ledger_row d) as [l|]; [|done].
  intros H. inv_ok. exists l. split_and!; try done;
    match goal with H : (_ || _) = false |- _ => apply orb_false_iff in H as [?%Z.ltb_ge ?%Z.ltb_ge] end;
    done.
Qed.

(** A jsonb column returns well-formed text as it was written. *)
Lemma stored_metadata_text m m' : text_map_ok m -> stored_metadata m = Ok m' -> m' = m.
Proof.
  intros Hm. unfold stored_metadata. destruct (existsb _ _); [done|]. intros H. injection H as <-.
  rewrite (list_fmap_ext _ id), list_fmap_id.
  - apply map_eq. intros k. apply option_eq. intros v.
    rewrite <-elem_of_list_to_map, elem_of_reverse, elem_of_map_rows; [done|].
    rewrite reverse_Permutation. apply map_rows_NoDup.
  - intros i [k v] Hi. apply list_elem_of_lookup_2, elem_of_map_rows in Hi.
    destruct (Hm k v Hi) as [Hk Hv]. simpl. by rewrite !coerce_valid.
Qed.

Lemma insertTransaction_Ok db_now t f d t' d' :
  insertTransaction db_now t f d = Ok (t', d') ->
  exists m, stored_metadata (TMetadata t) = Ok m /\ transactions d !! TxID t = None /\
    (Reference t <> EmptyString -> pg_text (Reference t) = true /\ reference_taken d (Reference t) = false) /\
    d' = set_transactions (<[TxID t := row_of t db_now m]> (transactions d)) d /\
    t' = {| TxID := TxID t; TPostings := TPostings t; Timestamp := Timestamp t; InsertedAt := db_now;
            RevertedAt := RevertedAt t; Reference := Reference t; TMetadata := TMetadata t;
            TPostCommitVolumes := TPostCommitVolumes t |}.
Proof.
  unfold insertTransaction. intros H. inv_txn. inv_ok.
  match goal with H : stored_metadata _ = Ok ?m |- _ => exists m end.
  unfold insert_transaction_row in *. inv_ok.
  match goal with H : bool_decide (is_Some _) = false |- _ => apply bool_decide_eq_false in H; rename H into Hn end.
  split_and!; [done|by apply eq_None_not_Some| |done..].
  intros Hr. unfold row_of in *; simpl in *. rewrite bool_decide_false in * by done.
  split; [|done]. inv_ok. by apply negb_false_iff.
Qed.

Lemma balances_locked (us : list VolumeUpdate) (before : gmap key locked) (d : Database) :
  (forall k, k ∈ update_key <$> us -> before !! k = Some (locked_at_commit d k)) ->
  checkBalances before us = Ok tt ->
  forall u, u ∈ us -> check_balance (locked_at_commit d (update_key u)) u = Ok tt.
Proof.
  intros Hb Hc u Hu. pose proof (proj1 (checkBalances_Ok before us) Hc u Hu) as H.
  unfold locked_at in H. by rewrite Hb in H by (by apply list_elem_of_fmap_2).
Qed.

Lemma pcv_locked (us : list VolumeUpdate) (before : gmap key locked) (d : Database) :
  (forall k, k ∈ update_key <$> us -> before !! k = Some (locked_at_commit d k)) ->
  postCommitVolumes before us =
  foldl (fun out u => PostCommitVolumes_Set out (Account u) (UAsset u)
                        (vadd (volume_at d (update_key u)) {| Input := UInput u; Output := UOutput u |}))
    ∅ us.
Proof.
  intros Hb. unfold postCommitVolumes. generalize (∅ : PostCommitVolumes).
  revert Hb. induction us as [|u us IH]; intros Hb m; [done|]. csimpl in *.
  rewrite <-IH by (intros k Hk; apply Hb; set_solver). f_equal.
  unfold locked_at. rewrite Hb by set_solver. simpl. by rewrite volume_at_row.
Qed.

Lemma held_locked (us : list VolumeUpdate) (before : gmap key locked) (d : Database) x :
  (forall k, k ∈ update_key <$> us -> before !! k = Some (locked_at_commit d k)) ->
  source_key x ∈ update_key <$> us -> held before (source_key x) = Balance (volume_at d (source_key x)).
Proof. intros Hb Hx. unfold held. rewrite Hb by done. simpl. by rewrite volume_at_row. Qed.

Lemma lookup_by_update {A} (h : key -> A) (us : list VolumeUpdate) (k : key) :
  k ∈ update_key <$> us ->
  (list_to_map ((fun u => (update_key u, h (update_key u))) <$> us) : gmap key A) !! k = Some (h k).
Proof.
  induction us as [|u us IH]; csimpl; [set_solver|]. intros Hk. rewrite lookup_insert.
  case_decide as Hu; [by subst|]. apply IH. set_solver.
Qed.

Lemma applyTransaction_spec now db_now p opts f d t alloc d' :
  applyTransaction now db_now p opts f d = Ok ((t, alloc), d') ->
  exists us, applied now db_now p opts us t alloc d d'.
Proof.
  unfold applyTransaction. intros H. repeat (inv_txn; try match goal with p : _ * _ |- _ => destruct p end).
  match goal with H : ledger_res (VolumeUpdates p) = Ok ?us |- _ =>
    apply ledger_res_Ok in H as Hv0; rename us into us0 end.
  match goal with H : lockVolumes _ _ _ = Ok (?b, ?D) |- _ =>
    apply lockVolumes_spec in H as (Hmat & Hb0 & Hreg & Hpe1); rename b into before, D into d1 end.
  match goal with H : resolve _ _ _ = Ok (?Q, ?US) |- _ =>
    destruct (resolve_Ok _ _ _ _ _ Hv0 H) as (Hus & Ht & Hlen & Hq & Hup & Hkeys); rename Q into q, US into us end.
  rename x0 into d.
  assert (forall k, k ∈ update_key <$> us -> before !! k = Some (locked_at_commit d k)) as Hb
    by (intros k Hk; eapply locked_lookup; [done..|by rewrite <-Hkeys]).
  rewrite <-Hkeys in Hmat, Hreg, Hpe1. destruct Hmat as [Hov1 Hv1]. clear Hb0.
  match goal with H : effectiveVolumesAt _ _ _ _ = Ok _ |- _ => unfold effectiveVolumesAt in H; inv_txn end.
  match goal with H : allocate _ _ = Ok _ |- _ => unfold allocate in H; inv_txn end.
  match goal with H : applyVolumes us f d1 = Ok (_, ?D) |- _ =>
    apply apply_updates_spec in H as (Hov2 & Hv2 & _ & Hpe2); [|by eapply updates_NoDup];
    rename D into d2 end.
  match goal with H : allocate_row _ _ _ = Ok _ |- _ =>
    apply allocate_row_Ok in H as (l' & Hl & -> & -> & Hmax1 & Hmax2) end.
  match goal with H : insertTransaction _ _ _ _ = Ok _ |- _ =>
    apply insertTransaction_Ok in H as (m & Hm & Hnew & Href & -> & ->) end.
  match goal with H : run_batch _ _ _ _ = Ok _ |- _ =>
    apply run_writes in H as (Hd' & Hmoves & Hseq & Hacc & Hcl) end.
  cbn [TxID TPostings Timestamp InsertedAt RevertedAt Reference TMetadata TPostCommitVolumes
       transactionID logID] in *.
  assert (only_volumes d d2) as Hov by (etrans; eassumption).
  pose proof (updates_NoDup _ _ Hus) as Hnd. exists us. split; cbn [TxID TPostings Timestamp InsertedAt
    RevertedAt Reference TMetadata TPostCommitVolumes].
  - done.
  - done.
  - done.
  - done.
  - intros Hu i x Hi. apply Hup, resolveUpTo_Ok in Hu as (_ & _ & Hs & _ & _).
    rewrite (Hs i x Hi). do 3 f_equal. eapply held_locked; [done|].
    apply (updates_touched _ _ Hus), Ht. exists x. split; [by eapply list_elem_of_lookup_2|by left].
  - intros u Hu. match goal with H : checkClosed _ _ = Ok ?x |- _ => destruct x;
      pose proof (proj1 (checkClosed_Ok _ _) H u Hu) as Hopen end.
    unfold locked_at in Hopen. by rewrite Hb in Hopen by (by apply list_elem_of_fmap_2).
  - match goal with H : checkBalances _ _ = Ok ?x |- _ => destruct x; by apply (balances_locked _ _ _ Hb H) end.
  - intros k. rewrite Hd'. simpl. rewrite Hv2, Hv1. unfold row_at, delta_row.
    case_decide as Hk; [by destruct (volumes d !! k)|].
    destruct (volumes d !! k); simpl; [|done]. by rewrite find_update_None.
  - intros a. rewrite Hd'. simpl. rewrite Hpe2, Hpe1.
    split; [|naive_solver]. intros [[?|(k & Hk & _ & <-)]|?]; [by left| |by right].
    right. apply list_elem_of_fmap in Hk as (u & -> & Hu). by apply (list_elem_of_fmap_2 UAsset).
  - done.
  - exists l'. rewrite Hov in Hl. rewrite Hd'. simpl in *. split_and!; done.
  - done.
  - rewrite Hov in Hnew. split; [done|]. exists m. split; [done|]. rewrite Hd'. simpl. by rewrite Hov.
  - intros Hr. rewrite Hov in Href. by apply Href.
  - eexists (copyLocked before), _. split_and!; [| |rewrite Hmoves|rewrite Hseq].
    + intros k Hk. unfold copyLocked. rewrite lookup_fmap, Hb by done. simpl. apply volume_at_row.
    + intros k Hk. rewrite (lookup_by_update (volumes_at (moves d2)
        (effective_timestamp now (AOTimestamp opts)))) by done.
      simpl. by rewrite Hov.
    + simpl. by rewrite Hov.
    + simpl. by rewrite Hov.
  - by apply pcv_locked.
  - rewrite Hd'. simpl. by rewrite Hov.
  - rewrite Hacc. cbn [accounts set_transactions set_ledger_row]. by rewrite Hov.
  - intros a. rewrite Hcl. unfold is_closed. simpl. by rewrite Hov.
  - intros x Hx Hupx. assert (HasUpTo p = true) as Hu.
    { apply existsb_exists. exists x. split; [by apply list_elem_of_In|done]. }
    apply Hup, resolveUpTo_Ok in Hu as (_ & Hall & _ & _ & Htq).
    pose proof (proj1 (Forall_forall _ _) Hall x Hx) as Hb1. unfold unbounded in Hb1.
    rewrite Hupx, Hb in Hb1; [exact Hb1|]. apply (updates_touched _ _ Hus), Ht. exists x. split; [done|by left].
Qed.
