(* ===== verification/Book.v ===== *)
(** * The book

    The invariant of a ledger's tables that money depends on, and that a
    committed transaction keeps it. *)

From S2P Require Import Prelude Identifiers Text Posting Volumes GoTime Transaction Errors Schema Txn Locking Guards Moves History Log Observer Commit Committed.

(** Every asset's balances sum to zero; every row's asset is registered and its
    counters are non-negative; a row is exactly what the account's moves add up
    to; and every snapshot a move carries is what a replay says. *)
Record sound (d : Database) : Prop := {
  sound_conserved : forall a, drift d a = 0;
  sound_registered : forall k r, volumes d !! k = Some r -> registered d k.2 = true;
  sound_counters : forall k, 0 <= Input (volume_at d k) /\ 0 <= Output (volume_at d k);
  sound_moves : forall k, volume_at d k = total (moves d) k;
  sound_histories : histories_ok (moves d) (next_seq d);
}.

(** Outside a transaction no deferred check is pending. *)
Definition book_ok (d : Database) : Prop := sound d /\ pending d = [].

Definition nonneg (q : Postings) : Prop := Forall (fun x => 0 <= amount_of x) q.

(** What a stored transaction's postings are: real identifiers, real amounts,
    every ceiling resolved. *)
Definition recorded_posting (x : Posting) : Prop :=
  Address_Valid (Source x) = true /\ Address_Valid (Destination x) = true /\
  Asset_Valid (PAsset x) = true /\ UpTo x = false /\ exists a, Amount x = Some a /\ 0 <= a.

Definition recorded (q : Postings) : Prop := Forall recorded_posting q.

Lemma recorded_nonneg q : recorded q -> nonneg q.
Proof.
  intros Hq. eapply Forall_impl; [exact Hq|]. intros x (_ & _ & _ & _ & a & Ha & ?).
  unfold amount_of. by rewrite Ha.
Qed.

Lemma recorded_plain q : recorded q -> HasUpTo q = false.
Proof.
  intros Hq. apply not_true_iff_false. intros Hu. apply existsb_exists in Hu as (x & Hx & Hup).
  apply list_elem_of_In in Hx. destruct (proj1 (Forall_forall _ _) Hq x Hx) as (_ & _ & _ & Hn & _). congruence.
Qed.

(** ** What a transaction's rows become *)

Lemma find_update (us : list VolumeUpdate) u :
  NoDup (update_key <$> us) -> u ∈ us ->
  find (fun v => bool_decide (update_key v = update_key u)) us = Some u.
Proof.
  induction us as [|v us IH]; csimpl; [set_solver|]. intros [Hni Hnd]%NoDup_cons [->|Hu]%elem_of_cons.
  - by rewrite bool_decide_true.
  - rewrite bool_decide_false; [by apply IH|]. intros Hk. apply Hni. rewrite Hk. by apply list_elem_of_fmap_2.
Qed.

Lemma delta_nonneg q k : nonneg q -> 0 <= delta_in q k /\ 0 <= delta_out q k.
Proof.
  intros Hq. unfold delta_in, delta_out, moved.
  split; apply sumZ_nonneg; intros x Hx; case_decide; try done;
    by apply (proj1 (Forall_forall _ _) Hq).
Qed.

Section applied.
Context (now db_now : Instant) (p : Postings) (opts : applyOptions) (us : list VolumeUpdate)
  (t : Transaction) (alloc : allocation) (d d' : Database).
Hypothesis Happ : applied now db_now p opts us t alloc d d'.

Let q := TPostings t.

Lemma applied_volume_at k :
  volume_at d' k = vadd (volume_at d k) {| Input := delta_in q k; Output := delta_out q k |}.
Proof.
  pose proof (applied_updates _ _ _ _ _ _ _ _ _ Happ) as Hus.
  unfold volume_at at 1. rewrite (applied_rows _ _ _ _ _ _ _ _ _ Happ k).
  case_decide as Hk; simpl.
  - apply list_elem_of_fmap in Hk as (u & -> & Hu). unfold delta_row.
    rewrite find_update; [|by eapply updates_NoDup|done]. simpl. rewrite volume_at_row.
    by rewrite (updates_input _ _ Hus u Hu), (updates_output _ _ Hus u Hu).
  - change (from_option volumes_of NewVolumes (volumes d !! k)) with (volume_at d k).
    rewrite <-halves_total, <-(updates_delta_halves _ _ _ Hus).
    assert (updates_delta us k = NewVolumes) as ->; [|by rewrite vadd_zero_r].
    apply vsum_zero. intros u Hu. rewrite bool_decide_false; [done|]. intros <-.
    apply Hk. by apply list_elem_of_fmap_2.
Qed.

Lemma applied_drift a : drift d' a = drift d a.
Proof.
  pose proof (applied_updates _ _ _ _ _ _ _ _ _ Happ) as Hus.
  unfold drift. rewrite (map_sum_differ _ (volumes d) _ (update_key <$> us)).
  - rewrite sumZ_map, (sumZ_ext _ (fun u => asset_weight a (update_key u) * UInput u -
                                             asset_weight a (update_key u) * UOutput u)).
    + rewrite sumZ_minus.
      destruct (updates_totals (asset_weight a) _ _ (updates_of_unique _ _ Hus)) as [-> ->].
      unfold source_key, destination_key, asset_weight. simpl. lia.
    + intros u Hu. rewrite (applied_rows _ _ _ _ _ _ _ _ _ Happ), decide_True
        by (by apply list_elem_of_fmap_2).
      unfold delta_row. rewrite find_update; [|by eapply updates_NoDup|done].
      unfold row_at, asset_weight.
      destruct (volumes d !! update_key u) as [r|]; simpl; case_decide; unfold Balance; simpl; lia.
  - by eapply updates_NoDup.
  - intros k Hk. by rewrite (applied_rows _ _ _ _ _ _ _ _ _ Happ), decide_False.
Qed.

Lemma applied_assets : assets d' = assets d.
Proof. apply (applied_rest _ _ _ _ _ _ _ _ _ Happ). Qed.

Lemma applied_moves_ok :
  (forall k, volume_at d k = total (moves d) k) -> histories_ok (moves d) (next_seq d) ->
  histories_ok (moves d') (next_seq d') /\
  forall k, total (moves d') k = vadd (total (moves d) k) {| Input := delta_in q k; Output := delta_out q k |}.
Proof.
  intros Htot Hhist. pose proof (applied_updates _ _ _ _ _ _ _ _ _ Happ) as Hus.
  destruct (applied_moves _ _ _ _ _ _ _ _ _ Happ) as (before & effb & Hb & He & Hm & Hn).
  rewrite Hm, Hn. split.
  - apply histories_extend; [done|done| |].
    + intros k Hk. rewrite Hb, Htot; [done|]. by apply (updates_touched _ _ Hus).
    + intros k Hk. rewrite He by (by apply (updates_touched _ _ Hus)).
      by eapply volumes_at_total.
  - intros k. rewrite <-halves_total. by eapply total_extend.
Qed.

Lemma applied_sound : nonneg q -> sound d -> sound d'.
Proof.
  intros Hq [Hc Hr Hn Hm Hh]. destruct (applied_moves_ok Hm Hh) as [Hh' Ht']. split.
  - intros a. by rewrite applied_drift.
  - intros k r. rewrite (applied_rows _ _ _ _ _ _ _ _ _ Happ). unfold registered. rewrite applied_assets.
    fold (registered d k.2). case_decide as Hk; [|apply Hr]. intros _.
    destruct (volumes d !! k) as [r0|] eqn:Hrow; [by eapply Hr|].
    by apply (applied_registered _ _ _ _ _ _ _ _ _ Happ).
  - intros k. rewrite applied_volume_at. simpl. specialize (Hn k). pose proof (delta_nonneg q k Hq). lia.
  - intros k. by rewrite applied_volume_at, Ht', Hm.
  - done.
Qed.

(** The deferred conservation trigger has nothing to object to. *)
Lemma applied_commits : sound d -> giro_conservation d' = Ok tt.
Proof.
  intros Hs. unfold giro_conservation. apply when_Ok, not_true_iff_false.
  rewrite existsb_exists. intros (a & _ & Ha). rewrite applied_drift, (sound_conserved _ Hs) in Ha. done.
Qed.

(** A request that validates records real postings. *)
Lemma applied_recorded : Validate p = None -> recorded q.
Proof.
  intros Hv%validate_from_None. pose proof (proj1 (Forall_forall _ _) Hv) as Hp. clear Hv.
  apply Forall_forall. unfold q. destruct (HasUpTo p) eqn:Hup.
  - pose proof (applied_settled _ _ _ _ _ _ _ _ _ Happ Hup) as Hs. intros y [i Hy]%list_elem_of_lookup.
    destruct (p !! i) as [x|] eqn:Hx.
    + rewrite (Hs i x Hx) in Hy. injection Hy as <-.
      destruct (Hp x ltac:(by eapply list_elem_of_lookup_2)) as (? & ? & ? & Ha).
      unfold settled. destruct (UpTo x) eqn:Hux.
      * split_and!; [done..|]. eexists. split; [done|]. apply capped_bounds.
        intros c Hc. rewrite Hc in Ha. lia.
      * split_and!; [done..|]. destruct (Amount x) as [a|]; [|congruence]. exists a. split; [done|lia].
    + exfalso. apply lookup_lt_Some in Hy. apply lookup_ge_None in Hx.
      pose proof (applied_length _ _ _ _ _ _ _ _ _ Happ). lia.
  - rewrite (applied_exact _ _ _ _ _ _ _ _ _ Happ Hup). intros x Hx.
    destruct (Hp x Hx) as (? & ? & ? & Ha).
    assert (UpTo x = false) as Hux.
    { apply not_true_iff_false. intros Ht. assert (HasUpTo p = true); [|congruence].
      apply existsb_exists. exists x. split; [by apply list_elem_of_In|done]. }
    split_and!; [done..|]. destruct (Amount x) as [a|]; [|congruence]. exists a. split; [done|lia].
Qed.

(** Postings that are real already are recorded as they are. *)
Lemma applied_plain : recorded p -> recorded q.
Proof. intros Hp. unfold q. by rewrite (applied_exact _ _ _ _ _ _ _ _ _ Happ) by (by apply recorded_plain). Qed.

End applied.
