(* ===== verification/Chain.v ===== *)
(** * The hash chain

    That appending keeps the log verifiable, and what a verified log proves:
    [ledger.ChainHash], [insertLog], [VerifyLog]. *)

From S2P Require Import Prelude Identifiers Text Posting Volumes Sha256 GoTime Transaction Codec Errors Schema Txn Log.

Definition log_rows (d : Database) : list (Z * LogRow) := map_rows Z.le (logs d).

Definition next_id (rows : list (Z * LogRow)) (e : Z) : Z :=
  from_option (fun kv : Z * LogRow => kv.1 + 1) e (last rows).

Definition next_previous (rows : list (Z * LogRow)) (previous : option string) : option string :=
  from_option (fun kv : Z * LogRow => Some (hash kv.2)) previous (last rows).

Section codec.
Context {codec : Codec}.

(** The chain, its tip and the ids already issued. *)
Record chain_ok (d : Database) (l : LedgerRow) : Prop := {
  chain_verifies : VerifyLog d = (length (log_rows d), Ok tt);
  chain_tip_id : last_log_id l = next_id (log_rows d) 1 - 1;
  chain_tip_hash : last_log_hash l = next_previous (log_rows d) None;
  chain_ids : forall id, is_Some (logs d !! id) -> 1 <= id <= last_log_id l;
  chain_tx : 0 <= last_tx_id l;
  chain_tx_ids : forall id, is_Some (transactions d !! id) -> 1 <= id <= last_tx_id l;
}.

(** A ledger that was never created has no entry and no transaction. *)
Definition log_ok (d : Database) : Prop :=
  match ledger_row d with
  | None => logs d = ∅ /\ transactions d = ∅
  | Some l => chain_ok d l
  end.

Lemma verify_rows_snoc rows e previous c n id r :
  verify_rows rows e previous c = (n, Ok tt) ->
  verify_rows (rows ++ [(id, r)]) e previous c =
  match verify_entry (next_id rows e) (next_previous rows previous) id r with
  | Ok _ => (S n, Ok tt)
  | Err x => (n, Err x)
  end.
Proof.
  revert e previous c. induction rows as [|[id' r'] rows IH]; intros e previous c; simpl.
  - intros [= <-]. unfold next_id, next_previous. simpl. by destruct (verify_entry _ _ _ _) as [[]|].
  - destruct (verify_entry e previous id' r') as [u|x]; [|done].
    intros H. rewrite (IH _ _ _ H). unfold next_id, next_previous.
    destruct rows as [|x rows]; [done|]. rewrite !last_cons_cons.
    destruct (last (x :: rows)) as [y|] eqn:Hl; [done|]. by apply last_None in Hl.
Qed.

Lemma verify_entry_next e previous data_ r :
  hash r = ChainHash previous data_ -> data r = data_ -> verify_entry e previous e r = Ok tt.
Proof.
  intros Hh <-. unfold verify_entry. rewrite Z.eqb_refl. simpl. by rewrite bool_decide_true.
Qed.

Lemma next_id_snoc rows id r e : next_id (rows ++ [(id, r)]) e = id + 1.
Proof. unfold next_id. by rewrite last_snoc. Qed.

Lemma next_previous_snoc rows id r p : next_previous (rows ++ [(id, r)]) p = Some (hash r).
Proof. unfold next_previous. by rewrite last_snoc. Qed.

Lemma log_rows_insert d id r :
  (forall id', is_Some (logs d !! id') -> id' < id) ->
  map_rows Z.le (<[id := r]> (logs d)) = log_rows d ++ [(id, r)].
Proof.
  intros Hlt. apply map_rows_insert_last; try apply _. intros k Hk. specialize (Hlt k Hk). lia.
Qed.

(** Appending above the tip an entry that verifies keeps the chain. *)
Lemma chain_append d d' l l' id r :
  chain_ok d l -> last_log_id l < id ->
  logs d' = <[id := r]> (logs d) -> ledger_row d' = Some l' ->
  last_log_id l' = id -> last_log_hash l' = Some (hash r) ->
  verify_entry (last_log_id l + 1) (last_log_hash l) id r = Ok tt ->
  last_tx_id l <= last_tx_id l' ->
  (forall i, is_Some (transactions d' !! i) -> 1 <= i <= last_tx_id l') ->
  chain_ok d' l'.
Proof.
  intros [Hv Hid Hh Hids Htx Htxs] Hlt Hlogs Hl Hid' Hh' Hver Hmono Htxs'.
  assert (log_rows d' = log_rows d ++ [(id, r)]) as Hrows.
  { unfold log_rows at 1. rewrite Hlogs. apply log_rows_insert. intros i Hi%Hids. lia. }
  split.
  - unfold VerifyLog. fold (log_rows d'). rewrite Hrows.
    rewrite (verify_rows_snoc (log_rows d) _ _ _ _ _ _ Hv), length_app. simpl.
    change (map_rows Z.le (logs d)) with (log_rows d).
    rewrite Hid, Hh in Hver. replace (next_id (log_rows d) 1 - 1 + 1) with (next_id (log_rows d) 1) in Hver by lia.
    rewrite Hver. f_equal. lia.
  - rewrite Hrows, next_id_snoc. lia.
  - by rewrite Hrows, next_previous_snoc.
  - intros i. rewrite Hlogs, lookup_insert. case_decide; subst; [intros _|intros Hi%Hids; lia].
    assert (0 <= last_log_id l); [|lia]. rewrite Hid. unfold next_id.
    destruct (last (log_rows d)) as [[i r']|] eqn:Hlast; simpl; [|lia].
    apply last_Some in Hlast as [rows' Hrows'].
    assert ((i, r') ∈ log_rows d) as Hin by (rewrite Hrows'; set_solver).
    apply elem_of_map_rows in Hin. assert (1 <= i) by (apply Hids; by eexists). lia.
  - lia.
  - done.
Qed.

(** ** Statements of the log *)

Lemma insertLog_Ok id r f d u d' :
  insertLog id r f d = Ok (u, d') ->
  logs d !! id = None /\
  (forall k, idempotency_key r = Some k -> pg_text k = true /\ key_taken d k = false) /\
  d' = set_ledger_row (set_hash (hash r) <$> ledger_row d) (set_logs (<[id := r]> (logs d)) d).
Proof.
  unfold insertLog. intros H. inv_txn. inv_ok.
  match goal with H : insert_log_row _ _ _ = Ok _ |- _ => unfold insert_log_row in H; inv_ok end.
  match goal with H : bool_decide (is_Some _) = false |- _ => apply bool_decide_eq_false in H; rename H into Hn end.
  split_and!; [by apply eq_None_not_Some| |].
  - intros k Hk. rewrite Hk in *. split; [|done].
    match goal with H : pg_varchar _ _ = Ok _ |- _ => unfold pg_varchar in H; inv_ok end.
    by apply negb_false_iff.
  - simpl in *. destruct (ledger_row d) as [l|] eqn:Hl; simpl.
    + unfold update_ledger, counters_monotonic in *. simpl in *. rewrite Hl in *. inv_ok. done.
    + simplify_eq. rewrite <-Hl. destruct d; reflexivity.
Qed.

(** The row [appendLogEntry] writes for the bytes of a payload. *)
Definition entry_row (a : allocation) (p : payload) (dt : Instant) (key ikHash bytes : string) : LogRow :=
  {| log_type := log_type_of p; data := bytes; date := dt; hash := ChainHash (previousHash a) bytes;
     idempotency_key := if bool_decide (key = EmptyString) then None else Some key;
     idempotency_hash := if bool_decide (key = EmptyString) then None else Some ikHash |}.

(** What an appended entry did to the tables. *)
Definition entry_appended (a : allocation) (p : payload) (dt : Instant) (key ikHash : string)
    (d d' : Database) : Prop :=
  exists bytes, marshal p = Some bytes /\ logs d !! logID a = None /\
    let r := entry_row a p dt key ikHash bytes in
    (key <> EmptyString -> pg_text key = true /\ key_taken d key = false) /\
    d' = set_ledger_row (set_hash (hash r) <$> ledger_row d) (set_logs (<[logID a := r]> (logs d)) d).

Lemma appendLogEntry_Ok a p dt key ikHash f d u d' :
  appendLogEntry a p dt key ikHash f d = Ok (u, d') -> entry_appended a p dt key ikHash d d'.
Proof.
  unfold appendLogEntry. destruct (marshal p) as [bytes|] eqn:Hm; [|done].
  intros (Hn & Hk & ->)%insertLog_Ok. exists bytes. split; [done|]. split; [done|].
  intros r. split; [|reflexivity].
  intros Hne. simpl in Hk. rewrite bool_decide_false in Hk by done. by apply Hk.
Qed.

(** ** What a verified chain proves *)

(** The bytes whose hash entry [i] stores. *)
Definition preimage (rows : list (Z * LogRow)) (i : nat) : option string :=
  kv ← rows !! i;
  Some (String.append (default EmptyString (next_previous (take i rows) None)) (data kv.2)).

Definition entry_data (rows : list (Z * LogRow)) : list string := (fun kv => data kv.2) <$> rows.

Lemma verify_rows_hash rows e previous c n :
  verify_rows rows e previous c = (n, Ok tt) ->
  n = (c + length rows)%nat /\
  forall i kv, rows !! i = Some kv -> hash kv.2 = ChainHash (next_previous (take i rows) previous) (data kv.2).
Proof.
  revert e previous c. induction rows as [|[id r] rows IH]; intros e previous c; simpl.
  - intros [= ->]. split; [lia|done].
  - destruct (verify_entry e previous id r) as [u|x] eqn:Hv; [|done].
    intros [-> Hall]%IH. split; [lia|]. intros [|i] kv Hi; simplify_eq/=.
    + unfold verify_entry in Hv. inv_ok. apply negb_false_iff, bool_decide_eq_true in Hv.
      by rewrite <-Hv.
    + rewrite (Hall i kv Hi). f_equal. unfold next_previous.
      destruct (take i rows) as [|x l] eqn:Ht; [done|]. rewrite last_cons_cons.
      destruct (last (x :: l)) eqn:Hl; [done|]. by apply last_None in Hl.
Qed.

Definition hashes_chain (rows : list (Z * LogRow)) : Prop :=
  forall i kv, rows !! i = Some kv ->
    hash kv.2 = ChainHash (next_previous (take i rows) None) (data kv.2).

Lemma hashes_chain_snoc rows kv :
  hashes_chain (rows ++ [kv]) ->
  hashes_chain rows /\ hash kv.2 = ChainHash (next_previous rows None) (data kv.2).
Proof.
  intros Hall. split.
  - intros i kv' Hi. rewrite <-(take_app_le rows [kv]) by (apply lookup_lt_Some in Hi; lia).
    apply Hall. by apply lookup_app_l_Some.
  - rewrite (Hall (length rows) kv) by (by apply list_lookup_middle). by rewrite take_app_length.
Qed.

Lemma preimage_app rows kv i :
  (i < length rows)%nat -> preimage (rows ++ [kv]) i = preimage rows i.
Proof. intros Hi. unfold preimage. by rewrite lookup_app_l, take_app_le by lia. Qed.

Lemma preimage_last rows kv :
  preimage (rows ++ [kv]) (length rows) =
  Some (String.append (default EmptyString (next_previous rows None)) (data kv.2)).
Proof. unfold preimage. rewrite list_lookup_middle by done. simpl. by rewrite take_app_length. Qed.

(** The previous hash is empty or 32 bytes, so a preimage splits one way only. *)
Lemma previous_length rows :
  hashes_chain rows ->
  String.length (default EmptyString (next_previous rows None)) =
  if decide (rows = []) then 0%nat else 32%nat.
Proof.
  destruct rows as [|kv rows _] using rev_ind; [done|]. intros [_ Hkv]%hashes_chain_snoc.
  rewrite decide_False by (by destruct rows). unfold next_previous. rewrite last_snoc. simpl.
  rewrite Hkv. apply Sha256.sum256_length.
Qed.

Lemma chains_agree rows1 rows2 :
  hashes_chain rows1 -> hashes_chain rows2 -> length rows1 = length rows2 ->
  next_previous rows1 None = next_previous rows2 None ->
  entry_data rows1 = entry_data rows2 \/
  exists i s1 s2, preimage rows1 i = Some s1 /\ preimage rows2 i = Some s2 /\ s1 <> s2 /\
                  Sha256.sum256 s1 = Sha256.sum256 s2.
Proof.
  revert rows2. induction rows1 as [|kv1 rows1 IH] using rev_ind; intros rows2 H1 H2 Hlen Htip.
  { destruct rows2; [by left|done]. }
  destruct rows2 as [|kv2 rows2 _] using rev_ind; [rewrite length_app in Hlen; simpl in Hlen; lia|].
  rewrite !length_app in Hlen. simpl in Hlen.
  apply hashes_chain_snoc in H1 as [H1 Hh1], H2 as [H2 Hh2].
  unfold next_previous in Htip. rewrite !last_snoc in Htip. injection Htip as Htip.
  rewrite Hh1, Hh2 in Htip.
  set (s1 := String.append (default EmptyString (next_previous rows1 None)) (data kv1.2)).
  set (s2 := String.append (default EmptyString (next_previous rows2 None)) (data kv2.2)).
  destruct (decide (s1 = s2)) as [Heq|Hne].
  - apply append_inj_l in Heq as [Hprev Hdata].
    2:{ rewrite (previous_length _ H1), (previous_length _ H2).
        destruct rows1, rows2; simpl in Hlen; try lia; done. }
    destruct (IH rows2 H1 H2 ltac:(lia)) as [Hd|(i & a & b & Ha & Hb & ?)].
    + unfold next_previous in *. destruct (last rows1) as [x1|] eqn:L1, (last rows2) as [x2|] eqn:L2;
        simpl in *; try congruence; [apply last_Some in L1 as [? ->]|apply last_None in L1 as ->];
        [apply last_None in L2 as ->|apply last_Some in L2 as [? ->]];
        rewrite ?length_app in Hlen; simpl in Hlen; lia.
    + left. unfold entry_data in *. rewrite !fmap_app, Hd. simpl. by rewrite Hdata.
    + right. exists i, a, b.
      assert (i < length rows1)%nat.
      { unfold preimage in Ha. destruct (rows1 !! i) eqn:Hi; [|done]. by eapply lookup_lt_Some. }
      rewrite !preimage_app by lia. done.
  - right. exists (length rows1), s1, s2. split_and!; [apply preimage_last| |done|done].
    replace (length rows1) with (length rows2) by lia. apply preimage_last.
Qed.

(** C27: tamper evidence. Two logs that both verify, hold the same number of
    entries and end in the same hash record the same bytes, entry by entry --
    or some entry of the one and the same entry of the other are two different
    texts with the same SHA-256. So the tip ([CheckTip]'s length and hash)
    determines the whole history, up to a collision in that history. *)
Theorem verified_logs_agree (d1 d2 : Database) n :
  VerifyLog d1 = (n, Ok tt) -> VerifyLog d2 = (n, Ok tt) ->
  next_previous (log_rows d1) None = next_previous (log_rows d2) None ->
  entry_data (log_rows d1) = entry_data (log_rows d2) \/
  exists i s1 s2, preimage (log_rows d1) i = Some s1 /\ preimage (log_rows d2) i = Some s2 /\
                  s1 <> s2 /\ Sha256.sum256 s1 = Sha256.sum256 s2.
Proof.
  intros [Hn1 H1]%verify_rows_hash [Hn2 H2]%verify_rows_hash Htip.
  apply chains_agree; try done. unfold log_rows. lia.
Qed.

End codec.
