(* ===== verification/Sample.v ===== *)
(** * A small ledger to evaluate on

    A ledger just created with one asset, a calm service, and requests: the
    inputs at which the theorems' witnesses apply them. *)

From S2P Require Import Prelude Identifiers Text Posting Volumes Sha256 GoTime Transaction Codec Encoding Errors Schema Txn Locking Guards Moves History Log Observer Commit Committed Book Chain.

(** 2026-01-01T00:00:00Z *)
Definition new_year : Instant := 1767225600 * second.

Definition calm_env : Env :=
  {| now := new_year; db_now := new_year; fault := no_faults; beforeCommit := None;
     landed := fun d => d |}.

Definition calm : Weather :=
  {| attempt_env := fun _ => calm_env; check_faults := no_faults; cancelled := fun _ => false |}.

Definition new_ledger : Database :=
  set_assets {[ "USD/2" := new_year ]}
    (set_ledger_row (Some {| last_tx_id := 0; last_log_id := 0; last_log_hash := None;
                             added_at := new_year |}) empty_database).

Definition new_store : Store :=
  {| db := new_ledger; seen_assets := ∅; ledgerSeen := false; retries := 0; observing := false;
     events := [] |}.

Definition pay (from to : Address) (a : Z) : Posting :=
  {| Source := from; Destination := to; PAsset := "USD/2"; Amount := Some a; UpTo := false |}.

Definition sweep (from to : Address) : Posting :=
  {| Source := from; Destination := to; PAsset := "USD/2"; Amount := None; UpTo := true |}.

Definition no_options : CommitOptions :=
  {| OTimestamp := {| unix_nano := zero_instant; zone := 0 |}; OReference := ""; OMetadata := None;
     OIdempotencyKey := ""; ODryRun := false |}.

Definition with_key (k : string) : CommitOptions :=
  {| OTimestamp := {| unix_nano := zero_instant; zone := 0 |}; OReference := "invoice-7"; OMetadata := None;
     OIdempotencyKey := k; ODryRun := false |}.

Definition backdated : CommitOptions :=
  {| OTimestamp := {| unix_nano := new_year - 3600 * second; zone := 0 |}; OReference := "";
     OMetadata := None; OIdempotencyKey := ""; ODryRun := false |}.

Definition deposit : Postings := [pay "world" "users:alice" 100].

(** Alice's deposit, then a day's business through one account. *)
Definition funded_store : Store := (CommitTransaction calm deposit no_options new_store).2.

Lemma new_ledger_book : book_ok new_ledger.
Proof.
  split; [|done]. split.
  - intros a. unfold drift. simpl. by rewrite map_sum_empty.
  - done.
  - intros k. unfold volume_at. simpl. rewrite lookup_empty. done.
  - intros k. unfold volume_at. simpl. by rewrite lookup_empty.
  - split; intros m Hm; by apply not_elem_of_nil in Hm.
Qed.

Lemma new_ledger_log : log_ok new_ledger.
Proof.
  unfold log_ok. simpl.
  assert (log_rows new_ledger = []) as Hrows by (apply map_rows_empty; apply _).
  split; simpl; try lia.
  - unfold VerifyLog. fold (log_rows new_ledger). by rewrite Hrows.
  - by rewrite Hrows.
  - by rewrite Hrows.
  - intros id. rewrite lookup_empty. by intros [].
  - intros id. rewrite lookup_empty. by intros [].
Qed.

(** The model runs: the deposit lands, a second request sees its balance, a
    sweep moves what is left, and spending more is refused. *)
Example deposit_lands :
  is_ok (CommitTransaction calm deposit no_options new_store).1 = true.
Proof. vm_compute. reflexivity. Qed.

Example sweep_moves_the_rest :
  rmap (fun t => Amount <$> TPostings t)
    (CommitTransaction calm [pay "users:alice" "shop:till" 30; sweep "users:alice" "bank:vault"]
       backdated funded_store).1 = Ok [Some 30; Some 70].
Proof. vm_compute. reflexivity. Qed.

Example overdraft_refused :
  (CommitTransaction calm [pay "users:alice" "shop:till" 101] no_options funded_store).1 =
  Err (InsufficientFundsError "users:alice" "USD/2" 100 101).
Proof. vm_compute. reflexivity. Qed.

(** A log of one entry, as [insertLog] writes it. *)
Definition first_entry : LogRow :=
  {| log_type := LogSetMetadata; data := "{}"; date := new_year;
     hash := ChainHash None "{}"; idempotency_key := None; idempotency_hash := None |}.

Definition one_entry : Database := set_logs {[ 1 := first_entry ]} new_ledger.

Lemma one_entry_rows : log_rows one_entry = [(1, first_entry)].
Proof.
  unfold log_rows. apply map_rows_unique; [apply _..|repeat constructor|].
  unfold one_entry. cbn [logs set_logs]. by rewrite map_to_list_singleton.
Qed.

Lemma one_entry_verifies : VerifyLog one_entry = (1%nat, Ok tt).
Proof.
  unfold VerifyLog. fold (log_rows one_entry). rewrite one_entry_rows. cbn [verify_rows].
  by rewrite (verify_entry_next 1 None "{}" first_entry).
Qed.

Lemma verified_logs_agree_witness :
  entry_data (log_rows one_entry) = entry_data (log_rows one_entry) \/
  exists i s1 s2, preimage (log_rows one_entry) i = Some s1 /\ preimage (log_rows one_entry) i = Some s2 /\
                  s1 <> s2 /\ Sha256.sum256 s1 = Sha256.sum256 s2.
Proof.
  apply (verified_logs_agree one_entry one_entry 1%nat one_entry_verifies one_entry_verifies).
  reflexivity.
Defined.
