(* ===== verification/CommitSpec.v ===== *)
(** * What [CommitTransaction] guarantees

    Atomicity, the invariants, idempotency and the retry bound, for every
    behaviour of the service and of the other sessions. *)

From S2P Require Import Prelude Identifiers Text Posting Volumes Sha256 GoTime Transaction Codec Encoding Errors Schema Txn Locking Guards Moves History Log Observer Commit Committed Book Chain Sample.

Section codec.
Context {codec : Codec}.

(** The tables after transaction [t] committed on top of [d0]. *)
Record landed_commit (E : Env) (p : Postings) (opts : CommitOptions) (ikHash : string)
    (d0 : Database) (t : Transaction) (d' : Database) : Prop := {
  lc_apply : exists us alloc d1,
    applied (now E) (db_now E) p (apply_options opts) us t alloc d0 d1 /\
    exists bytes, marshal (PTransaction t) = Some bytes /\
      let k := OIdempotencyKey opts in
      let r := {| log_type := LogNewTransaction; data := bytes; date := db_now E;
                  hash := ChainHash (previousHash alloc) bytes;
                  idempotency_key := if bool_decide (k = EmptyString) then None else Some k;
                  idempotency_hash := if bool_decide (k = EmptyString) then None else Some ikHash |} in
      logs d0 !! logID alloc = None /\
      (k <> EmptyString -> pg_text k = true /\ key_taken d0 k = false) /\
      d' = set_pending [] (set_ledger_row (set_hash (hash r) <$> ledger_row d1)
                             (set_logs (<[logID alloc := r]> (logs d0)) d1));
  lc_real : ODryRun opts = false;
}.

Lemma idempotencyRace_Ok f d k h e t :
  idempotencyRace f d k h e = Ok (Some t) ->
  k <> EmptyString /\ is_unique_violation e = true /\ check_replay d k h = Ok (Some t).
Proof.
  unfold idempotencyRace. case_bool_decide; simpl; [done|].
  destruct (is_unique_violation e); simpl; [|done]. destruct (f SRaceBegin); [done|].
  unfold findByIdempotencyKey, stmt. destruct (f SRaceFind); simpl; [done|].
  destruct (check_replay d k h); simpl; [|done]. by intros [= ->].
Qed.

(** What a dry run did before it was rolled back: all of it. *)
Definition rehearsed (E : Env) (p : Postings) (opts : CommitOptions) (d0 : Database) (t : Transaction) : Prop :=
  exists us alloc d1, applied (now E) (db_now E) p (apply_options opts) us t alloc d0 d1 /\ is_Some (marshal (PTransaction t)).

(** How an attempt can end. *)
Inductive attempt_end (E : Env) (p : Postings) (opts : CommitOptions) (ikHash : string)
    (d : Database) : res error Transaction -> Database -> Prop :=
| end_failed e d' : d' = d \/ d' = landed E d -> attempt_end E p opts ikHash d (Err e) d'
| end_replayed t d' :
    OIdempotencyKey opts <> EmptyString -> d' = d \/ d' = landed E d ->
    check_replay d' (OIdempotencyKey opts) ikHash = Ok (Some t) ->
    attempt_end E p opts ikHash d (Ok t) d'
| end_dry t :
    ODryRun opts = true -> rehearsed E p opts (landed E d) t ->
    attempt_end E p opts ikHash d (Ok t) (landed E d)
| end_committed t d' :
    landed_commit E p opts ikHash (landed E d) t d' -> attempt_end E p opts ikHash d (Ok t) d'.

Lemma commit_body_cases E d0 p opts h f o d' :
  commit_body E d0 p opts h f d0 = Ok (o, d') ->
  match o with
  | Committed t => landed_commit E p opts h d0 t d'
  | RolledBack t =>
      (OIdempotencyKey opts <> EmptyString /\ check_replay d0 (OIdempotencyKey opts) h = Ok (Some t)) \/
      (ODryRun opts = true /\ rehearsed E p opts d0 t)
  end.
Proof.
  unfold commit_body. intros H. apply bind_Ok in H as ([t alloc] & d1 & Ha & H).
  apply applyTransaction_spec in Ha as [us Ha].
  apply bind_Ok in H as (replayed & d2 & Hl & H).
  unfold appendLog_or_race in Hl. destruct (appendLog t alloc (OIdempotencyKey opts) h f d1)
    as [[u d3]|err] eqn:Hlog.
  - injection Hl as <- <-. destruct (beforeCommit E); [done|]. destruct (ODryRun opts) eqn:Hdry.
    + inv_txn. right. split; [done|]. apply appendLogEntry_Ok in Hlog as (bytes & Hm & _). exists us, alloc, d1. eauto.
    + apply commit_Ok in H as (_ & _ & -> & ->).
      apply appendLogEntry_Ok in Hlog as (bytes & Hm & Hn & Hk & ->).
      destruct (applied_rest _ _ _ _ _ _ _ _ _ Ha) as [Hlogs _].
      destruct (applied_fields _ _ _ _ _ _ _ _ _ Ha) as (_ & Hins & _).
      rewrite Hlogs in *. split; [|done]. exists us, alloc, d1. split; [done|].
      exists bytes. split; [done|]. rewrite Hins in *. split_and!; [done| |done].
      intros Hne. specialize (Hk Hne). unfold key_taken in *. by rewrite Hlogs in Hk.
  - destruct (idempotencyRace f d0 (OIdempotencyKey opts) h err) as [[t'|]|] eqn:Hr; simplify_eq.
    apply idempotencyRace_Ok in Hr as (? & _ & ?). inv_txn. by left.
Qed.

Lemma commitOnce_cases E p opts h d r d' :
  commitOnce E p opts h d = (r, d') -> attempt_end E p opts h d r d'.
Proof.
  unfold commitOnce. destruct (fault E SBegin); [intros [= <- <-]; constructor; by left|].
  unfold fast_path. case_bool_decide as Hk.
  2: destruct (findByIdempotencyKey SFindKey (OIdempotencyKey opts) h (fault E) d)
       as [[[t|] d1]|e] eqn:Hf; simpl.
  - intros H. unfold transact in H.
    destruct (commit_body E (landed E d) p opts h (fault E) (landed E d)) as [[[t|t] d2]|e] eqn:Hb;
      simplify_eq; [..|constructor; by right]; apply commit_body_cases in Hb.
    + by apply end_committed.
    + destruct Hb as [[? ?]|[? ?]]; [done|]. by apply end_dry.
  - intros [= <- <-]. unfold findByIdempotencyKey in Hf. inv_txn. inv_ok. apply end_replayed; auto.
  - intros H. unfold transact in H.
    destruct (commit_body E (landed E d) p opts h (fault E) (landed E d)) as [[[t|t] d2]|e] eqn:Hb;
      simplify_eq; [..|constructor; by right]; apply commit_body_cases in Hb.
    + by apply end_committed.
    + destruct Hb as [[? ?]|[? ?]]; [apply end_replayed; auto|]. by apply end_dry.
  - intros [= <- <-]. constructor. by left.
Qed.

(** ** The retry loop *)

(** What the other sessions committed while this call waited. *)
Definition foreign (W : Weather) : relation Database :=
  rtc (fun a b => exists n, b = landed (attempt_env W n) a).

Lemma foreign_landed W n d : foreign W d (landed (attempt_env W n) d).
Proof. apply rtc_once. by exists n. Qed.

(** What a call left behind, whatever happened inside it. *)
Definition call_outcome (W : Weather) (p : Postings) (opts : CommitOptions) (h : string)
    (d : Database) (r : res error Transaction) (d' : Database) : Prop :=
  match r with
  | Err _ => foreign W d d'
  | Ok t =>
      (foreign W d d' /\ OIdempotencyKey opts <> EmptyString /\
         check_replay d' (OIdempotencyKey opts) h = Ok (Some t)) \/
      (foreign W d d' /\ ODryRun opts = true /\
         exists n d0, foreign W d d0 /\ rehearsed (attempt_env W n) p opts d0 t) \/
      (exists n d0, foreign W d d0 /\ landed_commit (attempt_env W n) p opts h d0 t d')
  end.

Lemma attempt_outcome W n p opts h d r d' :
  attempt_end (attempt_env W n) p opts h d r d' -> call_outcome W p opts h d r d'.
Proof.
  pose proof (foreign_landed W n d) as Hf.
  destruct 1 as [e d' Hd|t d' Hk Hd Hr|t Hdry Hr|t d' Hc]; simpl.
  - destruct Hd as [-> | ->]; [apply rtc_refl|done].
  - left. split; [|done]. destruct Hd as [-> | ->]; [apply rtc_refl|done].
  - right; left. eauto 6.
  - right; right. eauto.
Qed.

Lemma outcome_later W p opts h d d1 r d' :
  foreign W d d1 -> call_outcome W p opts h d1 r d' -> call_outcome W p opts h d r d'.
Proof.
  intros Hf. unfold call_outcome, foreign in *. destruct r as [t|e]; [|by etrans].
  intros [[H ?]|[(H & ? & n & d0 & H0 & ?)|(n & d0 & H & ?)]].
  - left. split; [by etrans|done].
  - right; left. split_and!; [by etrans|done|]. exists n, d0. split; [by etrans|done].
  - right; right. exists n, d0. split; [by etrans|done].
Qed.

Lemma commit_attempts_cases W fuel n p opts h s r s' :
  commit_attempts W fuel n p opts h s = (r, s') ->
  call_outcome W p opts h (db s) r (db s') /\
  retries s <= retries s' <= retries s + Z.of_nat fuel /\
  (seen_assets s', ledgerSeen s') = (seen_assets s, ledgerSeen s) /\
  (forall e, r = Err e -> retryable e = true -> False).
Proof.
  revert n s. induction fuel as [|fuel IH]; intros n s; cbn [commit_attempts].
  - intros [= <- <-]. simpl. split_and!; [apply rtc_refl|lia|lia|done|by intros ? [= <-]].
  - destruct (commitOnce (attempt_env W n) p opts h (db s)) as [r1 d1] eqn:Hc.
    apply commitOnce_cases, attempt_outcome in Hc.
    destruct r1 as [t|e].
    + intros [= <- <-]. simpl. split_and!; [done|lia|lia|done|done].
    + destruct (retryable e) eqn:Hr.
      * destruct (cancelled W n).
        -- intros [= <- <-]. simpl. split_and!; [done|lia|lia|done|by intros ? [= <-]].
        -- intros H. apply IH in H as (Ho & Hret & Hcache & He). simpl in *. split_and!; [|lia|lia|done|done].
           by eapply outcome_later.
      * intros [= <- <-]. simpl. split_and!; [done|lia|lia|done|]. intros ? [= <-]. congruence.
Qed.

Lemma checkAssets_db f p s r s' : checkAssets f p s = (r, s') -> db s' = db s /\ retries s' = retries s.
Proof. unfold checkAssets. intros H. repeat case_match; simplify_eq; done. Qed.

(** How a call ends: refused before it started, or as its attempts ended. *)
Lemma commit_ends (W : Weather) p opts s r s' :
  CommitTransaction W p opts s = (r, s') ->
  (exists e, r = Err e /\ db s' = db s) \/
  exists h, idempotencyHash p opts = Ok h /\ Validate p = None /\ call_outcome W p opts h (db s) r (db s').
Proof.
  unfold CommitTransaction, refuse. case_bool_decide; [intros [= <- <-]; left; eauto|].
  destruct (Validate p) as [[i e]|]; [intros [= <- <-]; left; eauto|].
  destruct (checkAssets (check_faults W) p s) as [[u|e] s1] eqn:Hca; apply checkAssets_db in Hca as [Hdb _];
    [|intros [= <- <-]; left; eauto].
  destruct (idempotencyHash p opts) as [h|e]; [|intros [= <- <-]; left; eauto].
  intros (Ho & _)%commit_attempts_cases. rewrite Hdb in Ho. right. eauto.
Qed.

(** What a call that succeeds answers: a transaction that was replayed from the
    log it leaves, or one it carried out, committed or rehearsed. *)
Lemma commit_told (W : Weather) p opts s t s' :
  CommitTransaction W p opts s = (Ok t, s') ->
  Validate p = None /\
  ((exists h, foreign W (db s) (db s') /\ check_replay (db s') (OIdempotencyKey opts) h = Ok (Some t)) \/
   exists n d0, foreign W (db s) d0 /\ rehearsed (attempt_env W n) p opts d0 t).
Proof.
  intros [(e & [=] & _)|(h & _ & Hv & Ho)]%commit_ends. split; [done|].
  destruct Ho as [(Hf & _ & Hr)|[(_ & _ & n & d0 & Hf & Hr)|(n & d0 & Hf & [(us & alloc & d1 & Ha & bytes & Hm & _) _])]];
    [by left; exists h|by right; exists n, d0|]. right. exists n, d0. split; [done|]. exists us, alloc, d1. eauto.
Qed.

(** C16: all or nothing. Whatever the service and the other sessions do, an
    error leaves exactly what the others committed. A call that succeeds had one
    of three reasons: its key was in the log it leaves, with this very request's
    fingerprint, the answer being what that entry records; or it was a dry run,
    the answer being a transaction carried out and undone; or -- and then only --
    it was neither, and it leaves what the others committed plus one whole
    transaction, its rows, its moves, its log entry, with nothing of a failed
    attempt left over. *)
Theorem commit_all_or_nothing (W : Weather) (p : Postings) (opts : CommitOptions) (s : Store) :
  let '(r, s') := CommitTransaction W p opts s in
  match r with
  | Err _ => foreign W (db s) (db s')
  | Ok t => exists h, idempotencyHash p opts = Ok h /\
      ((foreign W (db s) (db s') /\ OIdempotencyKey opts <> EmptyString /\
          check_replay (db s') (OIdempotencyKey opts) h = Ok (Some t)) \/
       (foreign W (db s) (db s') /\ ODryRun opts = true /\
          exists n d0, foreign W (db s) d0 /\ rehearsed (attempt_env W n) p opts d0 t) \/
       (ODryRun opts = false /\
          exists n d0, foreign W (db s) d0 /\ landed_commit (attempt_env W n) p opts h d0 t (db s')))
  end.
Proof.
  destruct (CommitTransaction W p opts s) as [r s'] eqn:Hc.
  apply commit_ends in Hc as [(e & -> & ->)|(h & Hh & _ & Ho)]; [apply rtc_refl|].
  destruct r as [t|e]; [|done]. exists h. split; [done|].
  destruct Ho as [Ho|[Ho|(n & d0 & Hf & Hl)]]; [by left|by right; left|]. right; right. split; [apply Hl|eauto].
Qed.

(** Contention is retried, bounded, and nothing else is. A call restarts
    at most ten times, and never answers with a deadlock or a serialization
    failure: those become another attempt, a cancelled context or giving up. *)
Theorem commit_retry_bound (W : Weather) (p : Postings) (opts : CommitOptions) (s : Store) :
  let '(r, s') := CommitTransaction W p opts s in
  retries s <= retries s' <= retries s + Z.of_nat maxAttempts /\
  forall e, r = Err e -> (forall code, check_faults W SCheckAssets = Some code ->
                            retryable (PgError code) = false) -> retryable e = false.
Proof.
  unfold CommitTransaction. case_bool_decide.
  { simpl. split; [lia|]. by intros e [= <-]. }
  destruct (Validate p) as [[i e]|].
  { simpl. split; [lia|]. by intros ? [= <-]. }
  destruct (checkAssets (check_faults W) p s) as [[u|e] s1] eqn:Hca.
  - apply checkAssets_db in Hca as [_ Hret].
    destruct (idempotencyHash p opts) as [h|e] eqn:Hh.
    + destruct (commit_attempts W maxAttempts 0 p opts h s1) as [r s'] eqn:Hc.
      apply commit_attempts_cases in Hc as (_ & Hb & _ & He). rewrite Hret in Hb. split; [done|].
      intros e He' _. apply not_true_iff_false. eauto.
    + split; [lia|]. intros ? [= <-] _. unfold idempotencyHash in Hh. by destruct (marshal_input _); simplify_eq.
  - pose proof (checkAssets_db _ _ _ _ _ Hca) as [_ Hret]. simpl. split; [lia|].
    intros ? [= <-] Hf. unfold checkAssets in Hca. repeat case_match; simplify_eq; try done. by apply Hf.
Qed.


(** ** The invariants *)

(** The invariant reads the volumes, the moves and the registry only. *)
Lemma sound_ext d d' :
  volumes d' = volumes d -> moves d' = moves d -> next_seq d' = next_seq d -> assets d' = assets d ->
  sound d -> sound d'.
Proof.
  intros Hv Hm Hn Ha [Hc Hr Hnn Ht Hh].
  assert (forall k, volume_at d' k = volume_at d k) as Hva by (intros k; unfold volume_at; by rewrite Hv).
  split.
  - intros a. unfold drift. rewrite Hv. apply Hc.
  - intros k r. rewrite Hv. unfold registered. rewrite Ha. apply Hr.
  - intros k. rewrite Hva. apply Hnn.
  - intros k. by rewrite Hva, Hm.
  - by rewrite Hm, Hn.
Qed.

Lemma landed_commit_book E p opts h d0 t d' :
  Validate p = None -> landed_commit E p opts h d0 t d' -> book_ok d0 -> book_ok d'.
Proof.
  intros Hv [(us & alloc & d1 & Ha & bytes & _ & _ & _ & ->) _] [Hs Hp]. split; [|done].
  pose proof (applied_sound _ _ _ _ _ _ _ _ _ Ha (recorded_nonneg _ (applied_recorded _ _ _ _ _ _ _ _ _ Ha Hv)) Hs) as Hs1.
  by apply (sound_ext d1).
Qed.

Lemma landed_commit_log E p opts h d0 t d' :
  landed_commit E p opts h d0 t d' -> log_ok d0 -> log_ok d'.
Proof.
  intros [(us & alloc & d1 & Ha & bytes & _ & Hn & _ & ->) _] Hok.
  destruct (applied_ledger _ _ _ _ _ _ _ _ _ Ha) as (l & Hl & Hl' & -> & Hid & _).
  destruct (applied_transaction _ _ _ _ _ _ _ _ _ Ha) as (_ & m & _ & Htx).
  unfold log_ok in *. rewrite Hl in Hok. simpl. rewrite Hl'. simpl. pose proof Hok as [_ Hid' _ _ Hpos Htxs].
  eapply chain_append; [done|..]; simpl; try done; try lia.
  - by apply verify_entry_next with bytes.
  - intros i. rewrite Htx, lookup_insert. case_decide as Hi; [intros _; lia|].
    intros Hs%Htxs. lia.
Qed.

Lemma foreign_keeps (I : Database -> Prop) W d d' :
  (forall n d, I d -> I (landed (attempt_env W n) d)) -> foreign W d d' -> I d -> I d'.
Proof. intros HW Hf. induction Hf as [|x y z (n & ->) _ IH]; eauto. Qed.

(** What a call keeps: an invariant the other sessions keep and one whole
    transaction on top of it keeps. *)
Lemma commit_keeps (I : Database -> Prop) (W : Weather) p opts s r s' :
  CommitTransaction W p opts s = (r, s') ->
  (forall n d, I d -> I (landed (attempt_env W n) d)) ->
  (forall n h d0 t d', Validate p = None -> idempotencyHash p opts = Ok h ->
     landed_commit (attempt_env W n) p opts h d0 t d' -> I d0 -> I d') ->
  I (db s) -> I (db s').
Proof.
  intros H HW Hkeep Hd. apply commit_ends in H as [(e & _ & ->)|(h & Hh & Hv & Ho)]; [done|].
  destruct r as [t|e]; simpl in Ho; [|by eapply foreign_keeps].
  destruct Ho as [[? _]|[[? _]|(n & d0 & Hf & Hc)]]; [by eapply foreign_keeps..|].
  eapply Hkeep; [done..|]. by eapply foreign_keeps.
Qed.

(** Money is conserved and every history is right. A commit keeps the
    book: per asset the balances sum to zero, every row is what its moves add
    up to, counters never go negative, and both snapshots of every move --
    frozen and effective, backdated inserts included -- equal a replay. *)
Theorem commit_keeps_book (W : Weather) (p : Postings) (opts : CommitOptions) (s : Store) :
  (forall n d, book_ok d -> book_ok (landed (attempt_env W n) d)) ->
  book_ok (db s) ->
  book_ok (db (CommitTransaction W p opts s).2).
Proof.
  intros HW Hb. destruct (CommitTransaction W p opts s) as [r s'] eqn:H.
  eapply commit_keeps; [done..| |done]. intros ????? Hv _ Hc. by eapply landed_commit_book.
Qed.

(** The log stays verifiable. A commit keeps the chain: [VerifyLog]
    passes over every entry, the ledgers row carries the last id and the last
    hash, and no transaction id lies above the counter. *)
Theorem commit_keeps_log (W : Weather) (p : Postings) (opts : CommitOptions) (s : Store) :
  (forall n d, log_ok d -> log_ok (landed (attempt_env W n) d)) ->
  log_ok (db s) ->
  log_ok (db (CommitTransaction W p opts s).2).
Proof.
  intros HW Hb. destruct (CommitTransaction W p opts s) as [r s'] eqn:H.
  eapply commit_keeps; [done..| |done]. intros ????? _ _ Hc. by eapply landed_commit_log.
Qed.

End codec.

Lemma commit_keeps_book_witness :
  book_ok (db (CommitTransaction calm deposit no_options new_store).2).
Proof. apply (commit_keeps_book calm); [done|]. apply new_ledger_book. Defined.

Lemma commit_keeps_log_witness :
  log_ok (db (CommitTransaction calm deposit no_options new_store).2).
Proof. apply (commit_keeps_log calm); [done|]. apply new_ledger_log. Defined.

(** ** Waiting between attempts *)

(** [rand.Int64N n] is at least zero and below [n]. *)
Definition within (rand : Z -> Z) : Prop := forall n, 0 < n -> 0 <= rand n < n.

(** The windows of the backoff are ordered: attempt [n] waits from [2^n] to
    below [2^(n+1)] milliseconds, so no retry waits less than the one before
    it, and the longest a call can spend waiting, over all its attempts, is
    under 2.046 seconds. *)
Theorem backoff_windows (rand : Z -> Z) (n : nat) (d : Z) :
  within rand -> backoff false rand n = Ok d ->
  backoff_base n <= d < backoff_base (S n) /\
  (forall rand' d', within rand' -> backoff false rand' (S n) = Ok d' -> d < d') /\
  sumZ (fun k => 2 * backoff_base k) (List.seq 0 maxAttempts) = 2046 * millisecond.
Proof.
  assert (forall k, backoff_base k = 2 ^ Z.of_nat k * millisecond) as Hbase.
  { intros k. unfold backoff_base. by rewrite Z.shiftl_1_l. }
  assert (forall k, 0 < backoff_base k) as Hpos.
  { intros k. rewrite Hbase. apply Z.mul_pos_pos; [by apply Z.pow_pos_nonneg; lia|done]. }
  assert (backoff_base (S n) = 2 * backoff_base n) as Hdouble.
  { rewrite !Hbase, Nat2Z.inj_succ, Z.pow_succ_r by lia. lia. }
  intros Hr [= <-]. pose proof (Hr _ (Hpos n)). split_and!; [lia|lia| |reflexivity].
  intros rand' d' Hr' [= <-]. pose proof (Hr' _ (Hpos (S n))). lia.
Qed.

Lemma backoff_windows_witness :
  backoff_base 3 <= 8 * millisecond < backoff_base 4.
Proof.
  assert (within (fun _ => 0)) as H by (intros n; lia).
  exact (proj1 (backoff_windows (fun _ => 0) 3 (8 * millisecond) H eq_refl)).
Defined.
