(* ===== verification/Tracing.v ===== *)
(** * What an observer and a tracer see of a commit

    [storage/observer.go] and its call sites in [storage/commit.go] and
    [storage/volumes.go], in the functions that have them, run with the marks
    they leave: the spans a [CommitTransaction] opens, the error each is closed
    with where the code closes it, and what the observer is told, in order. A
    span is open while what stands between its two marks happens.

    [traced_CommitTransaction] has Go's [outcome] as a variable of its own,
    which the returns assign and the deferred call reads, and Go's pair of
    results; [traced_lockVolumes] calls [endLock] where the code does. That
    they answer what [Commit.CommitTransaction] does is proved, not built in. *)

From S2P Require Import Prelude Identifiers Posting Volumes Sha256 GoTime Transaction Codec Encoding Errors Schema Txn Locking Guards Moves Log Observer Commit Sample CommitSpec.

Definition SpanCommit : string := "giro.commit".
Definition SpanAttempt : string := "giro.commit.attempt".
Definition SpanLock : string := "giro.lock".

Inductive mark :=
| Opened (name : string)
| Closed (name : string) (err : option error)
| Told (e : event)
| Waited (accounts : list Address).

#[export] Instance mark_eq_dec : EqDecision mark.
Proof. solve_decision. Defined.

(** ** Wiring *)

(** Whether the store has an observer, and a tracer. *)
Record wiring := { watched : bool; traced : bool }.

Definition unwired : wiring := {| watched := false; traced := false |}.

(** [Observe]: an observer, which may trace as well, or nil. *)
Definition Observe (o : option bool) (w : wiring) : wiring :=
  {| watched := bool_decide (is_Some o); traced := default false o || traced w |}.

(** [TraceWith]: a tracer, or nil. *)
Definition TraceWith (t : bool) (w : wiring) : wiring := {| watched := watched w; traced := t |}.

(** [start], and the function it returns. *)
Definition start (w : wiring) (name : string) : list mark := if traced w then [Opened name] else [].

Definition end_ (w : wiring) (name : string) (err : option error) : list mark :=
  if traced w then [Closed name err] else [].

(** [observeCommit], [observeRefusal], [observeContention] *)
Definition told (w : wiring) (es : list event) : list mark :=
  if watched w then Told <$> es else [].

Definition error_of {A} (r : res error A) : option error :=
  match r with Ok _ => None | Err e => Some e end.

(** ** Inside a transaction

    A body that leaves marks as it goes, until it fails. *)
Definition Traced (A : Type) : Type := faults -> Database -> list mark * res error (A * Database).

Definition quiet {A} (m : Txn A) : Traced A := fun f d => ([], m f d).

Definition leave (ms : list mark) : Traced unit := fun _ d => (ms, Ok (tt, d)).

(** A call whose error is looked at before it is returned. *)
Definition tried {A} (m : Txn A) : Traced (res error A) := fun f d =>
  ([], match m f d with Ok (a, d') => Ok (Ok a, d') | Err e => Ok (Err e, d) end).

Definition tbind {A B} (m : Traced A) (k : A -> Traced B) : Traced B := fun f d =>
  let '(ms, r) := m f d in
  match r with
  | Ok (a, d') => let '(ms', r') := k a f d' in (ms ++ ms', r')
  | Err e => (ms, Err e)
  end.

Notation "'tr!' x ':=' m 'in' k" := (tbind m (fun x => k))
  (at level 10, x name, m at level 100, k at level 200) : giro_scope.
Notation "'tr!' ' p ':=' m 'in' k" := (tbind m (fun p => k))
  (at level 10, p strict pattern, m at level 100, k at level 200) : giro_scope.

(** [lockVolumes]. The batch is pipelined, so whether a failed select is
    reported by [results.Query] or only when its rows have been read is the
    driver's: [late]. *)
Definition traced_lockVolumes (w : wiring) (late : bool) (updates : list VolumeUpdate) : Traced (gmap key locked) :=
  tr! _ := leave (start w SpanLock) in
  tr! made := tried (exec SMaterialise (insert_zero_rows (update_key <$> updates))) in
  match made with
  | Err e => tr! _ := leave (end_ w SpanLock (Some e)) in quiet (fail e)
  | Ok _ =>
      tr! selected := tried (query SLockRows (select_locked (update_key <$> updates))) in
      let err := if late then None else error_of selected in
      tr! _ := leave (end_ w SpanLock err) in
      match err with
      | Some e => quiet (fail e)
      | None =>
          tr! _ := leave (if watched w then [Waited (Account <$> updates)] else []) in
          tr! rows := quiet (lift selected) in
          let current := foldl fill_in rows updates in
          tr! closed := quiet (query SReadClosed (scanClosed (Account <$> updates))) in
          quiet (ret (map_imap (mark_closed closed) current))
      end
  end.

(** [applyTransaction] after its locks. *)
Definition apply_locked (now db_now : Instant) (p : Postings) (opts : applyOptions) (updates : list VolumeUpdate)
    (before : gmap key locked) : Txn (Transaction * allocation) :=
  do! ' (p, updates) := lift (resolve p updates before) in
  do! _ := lift (checkClosed before updates) in
  do! _ := lift (checkBalances before updates) in
  do! _ := applyVolumes updates in
  let ts := effective_timestamp now (AOTimestamp opts) in
  do! effectiveBefore := effectiveVolumesAt updates ts in
  do! alloc := allocate in
  do! t := insertTransaction db_now
             {| TxID := transactionID alloc; TPostings := p; Timestamp := ts; InsertedAt := 0;
                RevertedAt := None; Reference := AOReference opts; TMetadata := AOMetadata opts;
                TPostCommitVolumes := postCommitVolumes before updates |} in
  do! _ := run_batch 0 (queueAccounts updates ts db_now ++
                        queueMoves t before effectiveBefore updates) in
  ret (t, alloc).

Definition traced_applyTransaction (w : wiring) (late : bool) (now db_now : Instant) (p : Postings) (opts : applyOptions)
    : Traced (Transaction * allocation) :=
  tr! updates := quiet (lift (ledger_res (VolumeUpdates p))) in
  tr! before := traced_lockVolumes w late updates in
  quiet (apply_locked now db_now p opts updates before).

(** [defer func() { end(err) }()] on a named result: it reads what is returned. *)
Definition spanned {A} (w : wiring) (name : string) (run : list mark * (res error A * Database))
    : list mark * (res error A * Database) :=
  (start w name ++ run.1 ++ end_ w name (error_of run.2.1), run.2).

Section codec.
Context {codec : Codec}.

(** From the locks to the end of the attempt. *)
Definition traced_body (w : wiring) (late : bool) (E : Env) (d0 : Database) (p : Postings) (opts : CommitOptions)
    (ikHash : string) : Traced (Txn.outcome Transaction) :=
  tr! ' (t, alloc) := traced_applyTransaction w late (now E) (db_now E) p (apply_options opts) in
  quiet (
    do! replayed := appendLog_or_race d0 t alloc (OIdempotencyKey opts) ikHash in
    match replayed with
    | Some original => ret (RolledBack original)
    | None =>
        match beforeCommit E with
        | Some e => fail e
        | None => if ODryRun opts then ret (RolledBack t) else commit t
        end
    end).

Definition traced_commitOnce (w : wiring) (late : bool) (E : Env) (p : Postings) (opts : CommitOptions) (ikHash : string)
    (d : Database) : list mark * (res error Transaction * Database) :=
  spanned w SpanAttempt
    match fault E SBegin with
    | Some code => ([], (Err (PgError code), d))
    | None =>
        match fast_path (fault E) opts ikHash d with
        | Err e => ([], (Err e, d))
        | Ok (Some existing) => ([], (Ok existing, d))
        | Ok None =>
            let d0 := landed E d in
            let '(ms, r) := traced_body w late E d0 p opts ikHash (fault E) d0 in
            (ms, transact (fault E) (fun _ _ => r) d0)
        end
    end.

(** ** The call

    [CommitTransaction]'s frame: the marks left so far, the variable [outcome]
    that the deferred [endCommit] reads, and the store. It returns Go's pair. *)
Record frame := { trail : list mark; outcome : option error; store : Store }.

Definition answer : Type := option Transaction * option error.

Definition go_pair (r : res error Transaction) : answer :=
  match r with Ok t => (Some t, None) | Err e => (None, Some e) end.

(** [outcome = e] *)
Definition assign (e : error) (fr : frame) : frame :=
  {| trail := trail fr; outcome := Some e; store := store fr |}.

Definition report (w : wiring) (es : list event) (fr : frame) : frame :=
  {| trail := trail fr ++ told w es; outcome := outcome fr; store := emit es (store fr) |}.

Definition on_store (f : Store -> Store) (fr : frame) : frame :=
  {| trail := trail fr; outcome := outcome fr; store := f (store fr) |}.

Definition leaving (ms : list mark) (fr : frame) : frame :=
  {| trail := trail fr ++ ms; outcome := outcome fr; store := store fr |}.

(** [refuse], which returns its error. *)
Definition traced_refuse (w : wiring) (e : error) (fr : frame) : error * frame :=
  (e, report w (refusal_events e) fr).

(** [return nil, outcome] *)
Definition return_outcome (fr : frame) : answer * frame := ((None, outcome fr), fr).

Fixpoint traced_attempts (w : wiring) (late : nat -> bool) (W : Weather) (fuel attempt : nat) (p : Postings)
    (opts : CommitOptions) (ikHash : string) (fr : frame) : answer * frame :=
  match fuel with
  | O =>
      let fr := report w [Refused_event CauseContentionGiveUp EmptyString EmptyString] fr in
      return_outcome (assign (GivingUp maxAttempts) fr)
  | S fuel =>
      let '(ms, (r, d)) := traced_commitOnce w (late attempt) (attempt_env W attempt) p opts ikHash (db (store fr)) in
      let fr := on_store (with_db d) (leaving ms fr) in
      match r with
      | Ok t => ((Some t, None), report w [observeCommitted p (S attempt)] fr)
      | Err e =>
          if retryable e then
            let fr := report w [Contended_event attempt] (on_store count_retry fr) in
            if cancelled W attempt then return_outcome (assign ContextError fr)
            else traced_attempts w late W fuel (S attempt) p opts ikHash fr
          else
            let '(e, fr) := traced_refuse w e fr in
            return_outcome (assign e fr)
      end
  end.

Definition traced_call (w : wiring) (late : nat -> bool) (W : Weather) (p : Postings) (opts : CommitOptions) (fr : frame)
    : answer * frame :=
  if bool_decide (p = []) then
    let '(e, fr) := traced_refuse w ErrNoPostings fr in return_outcome (assign e fr)
  else match Validate p with
  | Some (i, e) =>
      let '(e, fr) := traced_refuse w (PostingError i (LedgerError e)) fr in return_outcome (assign e fr)
  | None =>
      let '(r, s) := checkAssets (check_faults W) p (store fr) in
      let fr := on_store (fun _ => s) fr in
      match r with
      | Err e => let '(e, fr) := traced_refuse w e fr in return_outcome (assign e fr)
      | Ok _ =>
          match idempotencyHash p opts with
          | Err e => return_outcome (assign e fr)
          | Ok ikHash => traced_attempts w late W maxAttempts 0 p opts ikHash fr
          end
      end
  end.

(** [var outcome error], and [defer func() { endCommit(outcome) }()]. *)
Definition traced_CommitTransaction (w : wiring) (late : nat -> bool) (W : Weather) (p : Postings) (opts : CommitOptions)
    (s : Store) : list mark * (answer * Store) :=
  let '(returned, fr) := traced_call w late W p opts {| trail := start w SpanCommit; outcome := None; store := s |} in
  (trail fr ++ end_ w SpanCommit (outcome fr), (returned, store fr)).

End codec.

(** ** Reading them back *)

(** A commit is not inside a span of the engine, an attempt is inside the
    commit, the lock inside the attempt. *)
Definition opens_in (name : string) (open : list string) : bool :=
  bool_decide ((name, open) ∈ [(SpanCommit, []); (SpanAttempt, [SpanCommit]); (SpanLock, [SpanAttempt; SpanCommit])]).

(** The spans still open after the marks, innermost first; [None] when a span
    is opened out of place or closed out of turn. *)
Fixpoint nest (open : list string) (ms : list mark) : option (list string) :=
  match ms with
  | [] => Some open
  | Opened name :: ms => if opens_in name open then nest (name :: open) ms else None
  | Closed name _ :: ms =>
      match open with
      | top :: open => if decide (top = name) then nest open ms else None
      | [] => None
      end
  | Told _ :: ms | Waited _ :: ms => nest open ms
  end.

Definition told_event (m : mark) : option event := match m with Told e => Some e | _ => None end.

Definition attempts_of (ms : list mark) : nat := length (filter (fun m => m = Opened SpanAttempt) ms).


(** How each lock ended: with an error, which is then the attempt's; or taken,
    and the observer told of the wait. *)
Definition lock_followed (w : wiring) (err : option error) (rest : list mark) : bool :=
  match err, rest with
  | Some e, Closed name err' :: _ => bool_decide (name = SpanAttempt) && bool_decide (err' = Some e)
  | None, Waited _ :: _ => true
  | None, _ => negb (watched w)
  | _, _ => false
  end.

Fixpoint locks_told (w : wiring) (ms : list mark) : bool :=
  match ms with
  | [] => true
  | Closed name err :: ms => (if decide (name = SpanLock) then lock_followed w err ms else true) && locks_told w ms
  | _ :: ms => locks_told w ms
  end.

Lemma nest_app open ms ms' : nest open (ms ++ ms') = nest open ms ≫= fun o => nest o ms'.
Proof.
  revert open. induction ms as [|[n|n e|e|a] ms IH]; intros open; simpl; [done|..|done|done].
  - destruct (opens_in n open); [done|done].
  - destruct open as [|top open]; [done|]. destruct (decide (top = n)); [done|done].
Qed.

Lemma attempts_app ms ms' : attempts_of (ms ++ ms') = (attempts_of ms + attempts_of ms')%nat.
Proof. unfold attempts_of. by rewrite filter_app, length_app. Qed.

Lemma locks_told_app w ms ms' : locks_told w ms = true -> locks_told w ms' = true -> locks_told w (ms ++ ms') = true.
Proof.
  intros H Hms'. induction ms as [|[n|n e|e|a] ms IH]; simpl in *; [done|auto|..|auto|auto].
  apply andb_prop in H as [Hn H]. rewrite (IH H), andb_true_r. destruct (decide (n = SpanLock)); [|done].
  destruct ms as [|m ms]; [|done]. destruct e; [done|]. simpl in *. by destruct ms' as [|[]].
Qed.

(** ** What a part of a call leaves

    Inside the spans [open], from the events [es], having started [n] attempts. *)
Record leaves (w : wiring) (open : list string) (ms : list mark) (es : list event) (n : nat) : Prop := {
  lv_nest : nest open ms = Some open;
  lv_told : watched w = true -> omap told_event ms = es;
  lv_attempts : attempts_of ms = n;
  lv_locks : locks_told w ms = true;
}.

Lemma leaves_nothing w open : leaves w open [] [] 0.
Proof. done. Qed.

Lemma leaves_app w open ms ms' es es' n n' :
  leaves w open ms es n -> leaves w open ms' es' n' -> leaves w open (ms ++ ms') (es ++ es') (n + n').
Proof.
  intros [Hn Ht Ha Hl] [Hn' Ht' Ha' Hl']. split.
  - by rewrite nest_app, Hn.
  - intros Hw. by rewrite omap_app, Ht, Ht'.
  - by rewrite attempts_app, Ha, Ha'.
  - by apply locks_told_app.
Qed.

Lemma leaves_told w open es : leaves w open (told w es) es 0.
Proof.
  split; unfold told; destruct (watched w) eqn:Hw; try done; try (by induction es).
  intros _. induction es as [|e es IH]; [done|]. csimpl. by rewrite IH.
Qed.

(** ** One attempt *)

(** The marks of an attempt between its own two. *)
Inductive lock_trail (w : wiring) : list mark -> option error -> Prop :=
| no_lock err : lock_trail w [] err
| lock_failed e : lock_trail w [Opened SpanLock; Closed SpanLock (Some e)] (Some e)
| lock_taken accounts err :
    lock_trail w ([Opened SpanLock; Closed SpanLock None] ++ (if watched w then [Waited accounts] else [])) err.

Lemma trail_quiet {A} w (m : Txn A) f d : lock_trail w (quiet m f d).1 (error_of (quiet m f d).2).
Proof. constructor. Qed.

Lemma trail_before {A B} w (m : Txn A) (k : A -> Traced B) f d :
  (forall a d', lock_trail w (k a f d').1 (error_of (k a f d').2)) ->
  lock_trail w (tbind (quiet m) k f d).1 (error_of (tbind (quiet m) k f d).2).
Proof.
  intros Hk. unfold tbind, quiet. destruct (m f d) as [[a d']|e]; [|constructor].
  specialize (Hk a d'). by destruct (k a f d') as [ms' r'].
Qed.

Lemma trail_after {A B} w (m : Traced A) (k : A -> Traced B) f d :
  lock_trail w (m f d).1 (error_of (m f d).2) -> (forall a d', (k a f d').1 = []) ->
  lock_trail w (tbind m k f d).1 (error_of (tbind m k f d).2).
Proof.
  unfold tbind. destruct (m f d) as [ms [[a d']|e]]; simpl; [|done]. intros H Hk. specialize (Hk a d').
  destruct (k a f d') as [ms' r']. simpl in *. subst. rewrite app_nil_r. inversion H; subst; constructor.
Qed.

Lemma trail_lock w late us f d :
  traced w = true ->
  lock_trail w (traced_lockVolumes w late us f d).1 (error_of (traced_lockVolumes w late us f d).2).
Proof.
  intros Ht. unfold traced_lockVolumes, start, end_, leave, tried, tbind, quiet, lift, fail. rewrite Ht.
  destruct (exec _ _ f d) as [[u d1]|e]; [|constructor]. simpl.
  destruct (query SLockRows _ f d1) as [[rows d2]|e]; destruct late; simpl; [..|constructor];
    try destruct (query SReadClosed _ f d2) as [[c d3]|e']; destruct (watched w) eqn:Hw; simpl;
    [pose proof (lock_taken w (Account <$> us)) as H; rewrite Hw in H; apply H..].
Qed.

Section codec.
Context {codec : Codec}.

Lemma trail_body w late E d0 p opts h f d :
  traced w = true ->
  lock_trail w (traced_body w late E d0 p opts h f d).1 (error_of (traced_body w late E d0 p opts h f d).2).
Proof.
  intros Ht. unfold traced_body. apply trail_after; [|by intros []]. unfold traced_applyTransaction.
  apply trail_before. intros us d'. apply trail_after; [by apply trail_lock|done].
Qed.

Lemma attempt_leaves w late E p opts h d :
  traced w = true -> leaves w [SpanCommit] (traced_commitOnce w late E p opts h d).1 [] 1.
Proof.
  intros Ht. unfold traced_commitOnce, spanned, start, end_. rewrite Ht.
  assert (forall ms err, lock_trail w ms err -> leaves w [SpanCommit] ([Opened SpanAttempt] ++ ms ++ [Closed SpanAttempt err]) [] 1)
    as Hlv.
  { intros ms err [e|e|accounts e]; [by split| |].
    - split; try done. simpl. by rewrite bool_decide_true.
    - split; destruct (watched w) eqn:Hw; try done; simpl; by rewrite Hw. }
  simpl. apply Hlv. destruct (fault E SBegin); [constructor|].
  destruct (fast_path (fault E) opts h d) as [[t|]|e]; [constructor| |constructor].
  pose proof (trail_body w late E (landed E d) p opts h (fault E) (landed E d) Ht) as H.
  destruct (traced_body _ _ _ _ _ _ _ _ _) as [ms r]. simpl in *. unfold transact.
  destruct r as [[[t|t] d']|e]; exact H.
Qed.

(** ** Marks change nothing *)

Definition erases {A} (m : Traced A) (m' : Txn A) : Prop := forall f d, (m f d).2 = m' f d.

Lemma erases_quiet {A} (m : Txn A) : erases (quiet m) m.
Proof. done. Qed.

Lemma erases_bind {A B} (m : Traced A) m' (k : A -> Traced B) k' :
  erases m m' -> (forall a, erases (k a) (k' a)) -> erases (tbind m k) (bind m' k').
Proof.
  intros Hm Hk f d. unfold tbind, bind. rewrite <-(Hm f d). destruct (m f d) as [ms [[a d']|e]]; simpl; [|done].
  rewrite <-(Hk a f d'). by destruct (k a f d').
Qed.

Lemma erases_lock w late us : erases (traced_lockVolumes w late us) (lockVolumes us).
Proof.
  intros f d. unfold traced_lockVolumes, lockVolumes, leave, tried, tbind, bind, quiet, lift, fail.
  destruct (exec _ _ f d) as [[u d1]|e]; simpl; [|done].
  destruct (query SLockRows _ f d1) as [[rows d2]|e]; destruct late; simpl; [..|done];
    by repeat case_match; simplify_eq/=.
Qed.

Lemma erases_body w late E d0 p opts h : erases (traced_body w late E d0 p opts h) (commit_body E d0 p opts h).
Proof.
  unfold traced_body, commit_body. apply erases_bind; [|by intros []]. unfold traced_applyTransaction, applyTransaction.
  apply erases_bind; [done|]. intros us. apply erases_bind; [apply erases_lock|done].
Qed.

Lemma erases_attempt w late E p opts h d : (traced_commitOnce w late E p opts h d).2 = commitOnce E p opts h d.
Proof.
  unfold traced_commitOnce, commitOnce, spanned. simpl. destruct (fault E SBegin); [done|].
  destruct (fast_path (fault E) opts h d) as [[t|]|e]; [done| |done].
  pose proof (erases_body w late E (landed E d) p opts h (fault E) (landed E d)) as H.
  destruct (traced_body _ _ _ _ _ _ _ _ _) as [ms r]. simpl in *. unfold transact. by rewrite H.
Qed.

(** ** The retry loop *)

(** What [traced] leaves on the frame, beside what [plain] did to the store: the
    answer is Go's pair of it, [outcome] its error, and the marks are [ms]. *)
Record follows (w : wiring) (fr : frame) (ran : answer * frame) (plain : res error Transaction * Store) : Prop := {
  fo_answer : ran.1 = go_pair plain.1;
  fo_store : store ran.2 = plain.2;
  fo_outcome : outcome fr = None -> outcome ran.2 = error_of plain.1;
  fo_trail : traced w = true -> exists ms n es, trail ran.2 = trail fr ++ ms /\ leaves w [SpanCommit] ms es n /\
    (observing (store fr) = true -> events plain.2 = events (store fr) ++ es) /\
    retries plain.2 - retries (store fr) <= Z.of_nat n <= retries plain.2 - retries (store fr) + 1;
}.
(** A frame reports events, [n] attempts having gone before. *)
Lemma reported w open ms n es : leaves w open ms [] n -> leaves w open (ms ++ told w es) es n.
Proof. intros H. rewrite (plus_n_O n). exact (leaves_app _ _ _ _ _ _ _ _ H (leaves_told w open es)). Qed.

Lemma ends_here w fr ms n es ran plain :
  (traced w = true -> leaves w [SpanCommit] ms [] n) ->
  ran.1 = go_pair plain.1 -> store ran.2 = plain.2 -> (outcome fr = None -> outcome ran.2 = error_of plain.1) ->
  trail ran.2 = (trail fr ++ ms) ++ told w es -> (observing (store fr) = true -> events plain.2 = events (store fr) ++ es) ->
  retries plain.2 - retries (store fr) <= Z.of_nat n <= retries plain.2 - retries (store fr) + 1 ->
  follows w fr ran plain.
Proof.
  intros Hl Ha Hs Ho Ht He Hr. split; [done..|]. intros Htr. exists (ms ++ told w es), n, es.
  split; [by rewrite Ht, app_assoc|]. split; [by apply reported, Hl|done].
Qed.

Lemma attempts_follow w late W fuel n p opts h fr :
  follows w fr (traced_attempts w late W fuel n p opts h fr) (commit_attempts W fuel n p opts h (store fr)).
Proof.
  revert n fr. induction fuel as [|fuel IH]; intros n fr; cbn [traced_attempts commit_attempts].
  { eapply (ends_here w fr [] 0); simpl; [intros _; apply leaves_nothing|done..| |by intros ->|lia]. by rewrite app_nil_r. }
  pose proof (attempt_leaves w (late n) (attempt_env W n) p opts h (db (store fr))) as Hl.
  pose proof (erases_attempt w (late n) (attempt_env W n) p opts h (db (store fr))) as He.
  destruct (traced_commitOnce _ _ _ _ _ _ _) as [ms [r d]]. rewrite <-He. clear He. cbn [fst snd] in *.
  destruct r as [t|e]; [eapply (ends_here w fr ms 1); simpl; [exact Hl|done..|by intros ->|lia]|].
  destruct (retryable e); [|eapply (ends_here w fr ms 1); simpl; [exact Hl|done..|by intros ->|lia]].
  destruct (cancelled W n); [eapply (ends_here w fr ms 1); simpl; [exact Hl|done..|by intros ->|lia]|].
  set (fr1 := report w [Contended_event n] (on_store count_retry (on_store (with_db d) (leaving ms fr)))).
  destruct (IH (S n) fr1) as [Ha Hs Ho Htr]. split; [exact Ha|exact Hs|exact Ho|].
  intros Ht. destruct (Htr Ht) as (ms' & k & es & Heq & Hlv & Hev & Hre).
  exists ((ms ++ told w [Contended_event n]) ++ ms'), (1 + k)%nat, ([Contended_event n] ++ es). split_and!.
  - rewrite Heq. simpl. by rewrite !app_assoc.
  - apply leaves_app; [by apply reported, Hl|done].
  - intros Hob. etrans; [exact (Hev Hob)|]. simpl. by rewrite Hob, <-app_assoc.
  - simpl in Hre. lia.
  - simpl in Hre. lia.
Qed.

Lemma checkAssets_quiet f p s r s' :
  checkAssets f p s = (r, s') -> events s' = events s /\ observing s' = observing s /\ retries s' = retries s.
Proof. unfold checkAssets. intros H. repeat case_match; simplify_eq; done. Qed.

(** A call that reports [es] and returns [e]. *)
Lemma refusal_follows w fr e s0 :
  events s0 = events (store fr) -> observing s0 = observing (store fr) -> retries s0 = retries (store fr) ->
  follows w fr (return_outcome (assign e (report w (refusal_events e) (on_store (fun _ => s0) fr)))) (refuse e s0).
Proof.
  intros He Ho Hr. eapply (ends_here w fr [] 0 (refusal_events e)); simpl; rewrite ?He, ?Ho, ?Hr;
    [intros _; apply leaves_nothing|done..| |by intros ->|lia]. by rewrite app_nil_r.
Qed.

Lemma follows_from w fr s0 ran plain :
  events s0 = events (store fr) -> observing s0 = observing (store fr) -> retries s0 = retries (store fr) ->
  follows w (on_store (fun _ => s0) fr) ran plain -> follows w fr ran plain.
Proof. intros He Ho Hr [? ? ? Htr]. split; [done..|]. simpl in Htr. by rewrite He, Ho, Hr in Htr. Qed.

Lemma call_follows w late W p opts fr :
  follows w fr (traced_call w late W p opts fr) (CommitTransaction W p opts (store fr)).
Proof.
  unfold traced_call, CommitTransaction. case_bool_decide; [by apply (refusal_follows w fr _ (store fr))|].
  destruct (Validate p) as [[i e]|]; [by apply (refusal_follows w fr _ (store fr))|].
  destruct (checkAssets (check_faults W) p (store fr)) as [r s1] eqn:Hca. apply checkAssets_quiet in Hca as (Hev & Hob & Hre).
  destruct r as [u|e]; [|by apply (refusal_follows w fr _ s1)].
  destruct (idempotencyHash p opts) as [h|e].
  - apply (follows_from w fr s1); [done..|]. apply attempts_follow.
  - split; [done..|]. intros _. exists [], 0%nat, []. rewrite !app_nil_r. split; [done|]. split; [apply leaves_nothing|].
    simpl. split; [done|lia].
Qed.

(** For those who listen: the call traced is the call, and what it told is in its marks. *)
Lemma traced_told w late W p opts s :
  traced w = true -> watched w = true -> observing s = true ->
  let '(ms, (_, s')) := traced_CommitTransaction w late W p opts s in
  s' = (CommitTransaction W p opts s).2 /\ events s' = events s ++ omap told_event ms.
Proof.
  intros Ht Hw Hob. unfold traced_CommitTransaction, start, end_. rewrite Ht.
  destruct (call_follows w late W p opts {| trail := [Opened SpanCommit]; outcome := None; store := s |}) as [_ Hs _ Htr].
  destruct (Htr Ht) as (ms & n & es & Heq & Hlv & Hev & _). destruct (traced_call _ _ _ _ _ _) as [ret fr]. simpl in *.
  split; [done|]. rewrite Hs, (Hev Hob), Heq. csimpl. rewrite omap_app. csimpl. by rewrite app_nil_r, (lv_told _ _ _ _ _ Hlv Hw).
Qed.

(** C38: Tracing a commit changes nothing of it, and its spans can be read
    back. Whatever fails, and wherever the driver reports it, the call answers and
    leaves behind what it does untraced. Its marks are one [giro.commit] span,
    closed with the error the call returns and with none where it succeeds; spans
    open only where they belong and close in turn, none twice and none left open;
    a lock that failed closes with the error its attempt closes with, and one that
    was taken is told as a wait; what else the observer was told is in the marks,
    in order; and there is one attempt for each restart, and one more unless the
    call ended before the first or after the last. *)
Theorem commit_is_traced (w : wiring) (late : nat -> bool) (W : Weather) (p : Postings) (opts : CommitOptions) (s : Store) :
  traced w = true -> watched w = observing s ->
  let '(r, s') := CommitTransaction W p opts s in
  let '(ms, ran) := traced_CommitTransaction w late W p opts s in
  ran = (go_pair r, s') /\
  (exists body, ms = Opened SpanCommit :: body ++ [Closed SpanCommit (error_of r)]) /\
  nest [] ms = Some [] /\ locks_told w ms = true /\
  (observing s = true -> events s' = events s ++ omap told_event ms) /\
  retries s' - retries s <= Z.of_nat (attempts_of ms) <= retries s' - retries s + 1.
Proof.
  intros Ht Hw. unfold traced_CommitTransaction, start, end_. rewrite Ht.
  destruct (call_follows w late W p opts {| trail := [Opened SpanCommit]; outcome := None; store := s |}) as [Ha Hs Ho Htr].
  destruct (traced_call _ _ _ _ _ _) as [ret fr]. cbn [store outcome fst snd] in *.
  destruct (CommitTransaction W p opts s) as [r s']. simpl in *. subst. rewrite (Ho eq_refl).
  destruct (Htr Ht) as (ms & n & es & -> & [Hn Hto Hat Hl] & Hev & Hre).
  assert (attempts_of (([Opened SpanCommit] ++ ms) ++ [Closed SpanCommit (error_of r)]) = n) as Han.
  { rewrite !attempts_app, Hat. apply Nat.add_0_r. }
  change (Opened SpanCommit :: ms) with ([Opened SpanCommit] ++ ms) in *.
  replace (attempts_of _) with n by (symmetry; exact Han). simpl. split_and!; [done|by exists ms|by rewrite nest_app, Hn|by apply locks_told_app| |lia..].
  intros Hob. csimpl. rewrite omap_app. csimpl. rewrite app_nil_r, Hto by congruence. by apply Hev.
Qed.

End codec.

(** ** One restart *)

(** The first attempt loses a deadlock at its locks. *)
Definition loses_once : Weather :=
  {| attempt_env := fun n =>
       {| now := now calm_env; db_now := db_now calm_env;
          fault := fun st => match n, st with 0%nat, SLockRows => Some deadlockDetected | _, _ => None end;
          beforeCommit := None; landed := fun d => d |};
     check_faults := no_faults; cancelled := fun _ => false |}.

Definition watched_store : Store :=
  {| db := new_ledger; seen_assets := ∅; ledgerSeen := false; retries := 0; observing := true; events := [] |}.

(** An observer that traces as well is wired once. *)
Definition both_wired : wiring := Observe (Some true) unwired.

Example restart_marks :
  (traced_CommitTransaction both_wired (fun _ => false) loses_once deposit no_options watched_store).1 =
  [Opened SpanCommit;
   Opened SpanAttempt;
   Opened SpanLock; Closed SpanLock (Some (PgError deadlockDetected));
   Closed SpanAttempt (Some (PgError deadlockDetected));
   Told (Contended_event 0);
   Opened SpanAttempt;
   Opened SpanLock; Closed SpanLock None; Waited ["users:alice"; "world"];
   Closed SpanAttempt None;
   Told (Committed_event ["USD/2"] 1 2 2 ["world"; "users:alice"]);
   Closed SpanCommit None].
Proof. vm_compute. reflexivity. Qed.

(** The same deadlock, reported by the driver only with the rows: the lock is
    closed without an error and the wait told, and the attempt has the error. *)
Example late_marks :
  take 6 (traced_CommitTransaction both_wired (fun _ => true) loses_once deposit no_options watched_store).1 =
  [Opened SpanCommit;
   Opened SpanAttempt;
   Opened SpanLock; Closed SpanLock None; Waited ["users:alice"; "world"];
   Closed SpanAttempt (Some (PgError deadlockDetected))].
Proof. vm_compute. reflexivity. Qed.

Lemma commit_is_traced_witness :
  let ms := (traced_CommitTransaction both_wired (fun _ => true) loses_once deposit no_options watched_store).1 in
  nest [] ms = Some [] /\ locks_told both_wired ms = true.
Proof.
  pose proof (commit_is_traced both_wired (fun _ => true) loses_once deposit no_options watched_store eq_refl eq_refl) as H.
  destruct (CommitTransaction loses_once deposit no_options watched_store) as [r s'].
  destruct (traced_CommitTransaction both_wired (fun _ => true) loses_once deposit no_options watched_store) as [ms ran].
  exact (conj (proj1 (proj2 (proj2 H))) (proj1 (proj2 (proj2 (proj2 H))))).
Defined.
