(* ===== verification/Replay.v ===== *)
(** * Idempotency

    What the entry of a keyed request answers later: [findByIdempotencyKey],
    [idempotencyHash], [idempotencyRace], and the fast path of [commitOnce]. *)

From S2P Require Import Prelude Identifiers Text Posting Volumes Sha256 GoTime Transaction Codec Encoding Errors Schema Txn Locking Guards Moves History Log Observer Commit Committed Book Chain Sample CommitSpec.

Section codec.
Context {codec : Codec}.

(** The unique index [logs_idempotency_key]. *)
Definition keys_unique (d : Database) : Prop :=
  forall i j r r' k, logs d !! i = Some r -> logs d !! j = Some r' ->
    idempotency_key r = Some k -> idempotency_key r' = Some k -> i = j.

(** Entry [id] of the log answers key [k] for requests that hash to [h]. *)
Definition answers (d : Database) (id : Z) (k h : string) (t : Transaction) : Prop :=
  exists r, logs d !! id = Some r /\ idempotency_key r = Some k /\
    idempotency_hash r = Some h /\ unmarshal_transaction (data r) = Some t.

Lemma find_key_unique (d : Database) id r k :
  keys_unique d -> logs d !! id = Some r -> idempotency_key r = Some k -> find_key d k = Some r.
Proof.
  intros Hu Hr Hk. unfold find_key. destruct (find_map _ _) as [r'|] eqn:Hf.
  - apply find_map_Some in Hf as (l1 & [j x] & l2 & Hl & Hx & _). simpl in Hx.
    case_bool_decide as Hxk; [|done]. injection Hx as ->.
    assert ((j, r') ∈ map_rows Z.le (logs d)) as Hin by (rewrite Hl; set_solver).
    apply elem_of_map_rows in Hin. assert (j = id) as -> by by eapply Hu. congruence.
  - pose proof (proj1 (find_map_None _ _) Hf (id, r)) as Hn. simpl in Hn.
    rewrite bool_decide_true in Hn by done. discriminate Hn. by apply elem_of_map_rows.
Qed.

Lemma answers_replay (d : Database) id k h t h' :
  keys_unique d -> pg_text k = true -> answers d id k h t ->
  check_replay d k h' = if bool_decide (h = h') then Ok (Some t) else Err ErrIdempotencyMismatch.
Proof.
  intros Hu Hk (r & Hr & Hrk & Hh & Hd). unfold check_replay, when. rewrite Hk. simpl.
  rewrite (find_key_unique d id r k) by done. rewrite Hh, Hd.
  repeat case_bool_decide; congruence.
Qed.

Lemma answers_later (d d' : Database) id k h t :
  logs d ⊆ logs d' -> answers d id k h t -> answers d' id k h t.
Proof. intros Hs (r & Hr & ?). exists r. split; [by eapply lookup_weaken|done]. Qed.

(** A free key stays unique when a row takes it. *)
Lemma key_taken_false (d : Database) k :
  key_taken d k = false <-> forall id r, logs d !! id = Some r -> idempotency_key r <> Some k.
Proof.
  unfold key_taken. rewrite <-not_true_iff_false, existsb_exists. split.
  - intros Hn id r Hr Hk. apply Hn. exists (id, r). simpl. rewrite bool_decide_true by done.
    split; [|done]. by apply list_elem_of_In, elem_of_map_to_list.
  - intros Hall ([id r] & Hin & Hk). apply list_elem_of_In, elem_of_map_to_list in Hin.
    apply bool_decide_eq_true in Hk. by eapply Hall.
Qed.

Lemma keys_unique_insert (d d' : Database) id r :
  logs d' = <[id := r]> (logs d) -> keys_unique d ->
  (forall k, idempotency_key r = Some k -> key_taken d k = false) -> keys_unique d'.
Proof.
  intros Hl Hu Hk i j ri rj k. rewrite Hl, !lookup_insert.
  repeat case_decide; intros; simplify_eq; try done.
  - exfalso. eapply (proj1 (key_taken_false d k)); eauto.
  - exfalso. eapply (proj1 (key_taken_false d k)); eauto.
  - by eapply Hu.
Qed.

(** ** What is stored decodes to what was returned *)

Lemma touched_utf8 (q : Postings) k :
  recorded q -> touched q k -> utf8_valid k.1 = true /\ utf8_valid k.2 = true.
Proof.
  intros Hq (x & Hx & Hk). destruct (proj1 (Forall_forall _ _) Hq x Hx) as (?&?&?&_).
  destruct Hk as [<-|<-]; simpl; split; first [by apply address_utf8 | by apply asset_utf8].
Qed.

Lemma pcv_set_text (m : gmap string (gmap string Volumes)) k v :
  pcv_text_ok m -> utf8_valid k.1 = true -> utf8_valid k.2 = true ->
  pcv_text_ok (PostCommitVolumes_Set m k.1 k.2 v).
Proof.
  intros Hm H1 H2 a ms. unfold PostCommitVolumes_Set. rewrite lookup_insert.
  case_decide as Ha; [|apply Hm]. intros [= <-]. subst a. split; [done|].
  intros s w. rewrite lookup_insert. case_decide; [by subst|].
  destruct (m !! k.1) as [ms|] eqn:Hms; simpl; [|by rewrite lookup_empty].
  intros Hs. by apply (proj2 (Hm _ _ Hms) s w).
Qed.

Lemma pcv_fold_text (f : VolumeUpdate -> Volumes) (us : list VolumeUpdate) m :
  (forall u, u ∈ us -> utf8_valid (Account u) = true /\ utf8_valid (UAsset u) = true) ->
  pcv_text_ok m ->
  pcv_text_ok (foldl (fun out u => PostCommitVolumes_Set out (Account u) (UAsset u) (f u)) m us).
Proof.
  revert m. induction us as [|u us IH]; intros m Hus Hm; cbn [foldl]; [done|].
  destruct (Hus u ltac:(set_solver)). apply IH; [set_solver|]. by apply (pcv_set_text m (update_key u)).
Qed.

Lemma applied_storable now_ db_now_ p opts us t alloc d d' :
  applied now_ db_now_ p opts us t alloc d d' -> recorded (TPostings t) -> text_map_ok (AOMetadata opts) ->
  log_ok d -> storable t.
Proof.
  intros Ha Hv Hm Hlog.
  pose proof (applied_updates _ _ _ _ _ _ _ _ _ Ha) as Hus.
  assert (forall k, touched (TPostings t) k -> utf8_valid k.1 = true /\ utf8_valid k.2 = true) as Ht
    by (intros k; by apply touched_utf8).
  destruct (applied_ledger _ _ _ _ _ _ _ _ _ Ha) as (l & Hl & _ & _ & Hid & Hmax & _).
  destruct (applied_fields _ _ _ _ _ _ _ _ _ Ha) as (_ & _ & _ & Href & Hmeta).
  split.
  - unfold log_ok in Hlog. rewrite Hl in Hlog. pose proof (chain_tx _ _ Hlog).
    unfold int64_ok, max_int64 in *. lia.
  - apply Forall_forall. intros x Hx.
    destruct (Ht (source_key x)) as [? ?]; [exists x; auto|].
    destruct (Ht (destination_key x)) as [? _]; [exists x; auto|]. done.
  - destruct (decide (Reference t = EmptyString)) as [->|Hne]; [done|].
    apply pg_text_utf8. by apply (applied_reference _ _ _ _ _ _ _ _ _ Ha).
  - by rewrite Hmeta.
  - rewrite (applied_pcv _ _ _ _ _ _ _ _ _ Ha).
    apply (pcv_fold_text (fun u => vadd (volume_at d (update_key u)) {| Input := UInput u; Output := UOutput u |}));
      [|done].
    intros u Hu. apply (Ht (update_key u)), (updates_touched _ _ Hus). by apply list_elem_of_fmap_2.
Qed.

Lemma landed_commit_answers E p opts h d0 t d' :
  landed_commit E p opts h d0 t d' -> Validate p = None -> log_ok d0 ->
  text_map_ok (default ∅ (OMetadata opts)) -> OIdempotencyKey opts <> EmptyString ->
  exists id, answers d' id (OIdempotencyKey opts) h t.
Proof.
  intros [(us & alloc & d1 & Ha & bytes & Hm & _ & _ & ->) _] Hv Hlog Hmeta Hk.
  exists (logID alloc). eexists. split; [simpl; apply lookup_insert_eq|]. simpl.
  rewrite !bool_decide_false by done. split_and!; [done..|].
  eapply unmarshal_marshal_transaction; [|done].
  eapply applied_storable; [done| |done|done]. by eapply applied_recorded.
Qed.

Lemma landed_commit_keys E p opts h d0 t d' :
  landed_commit E p opts h d0 t d' -> keys_unique d0 -> keys_unique d'.
Proof.
  intros [(us & alloc & d1 & Ha & bytes & Hm & _ & Hk & ->) _] Hu.
  eapply keys_unique_insert; [simpl; reflexivity|done|]. simpl. intros k. case_bool_decide; [done|].
  intros [= <-]. by apply Hk.
Qed.

Lemma answers_text E p opts h d0 t d' :
  landed_commit E p opts h d0 t d' -> OIdempotencyKey opts <> EmptyString ->
  pg_text (OIdempotencyKey opts) = true.
Proof. intros [(us & alloc & d1 & _ & bytes & _ & _ & Hk & _) _] Hne. by apply Hk. Qed.

(** ** A second request under the key *)

(** The service answers the reads a replayed request makes. *)
Definition reads_answered (W : Weather) : Prop :=
  check_faults W SCheckAssets = None /\
  fault (attempt_env W 0) SBegin = None /\ fault (attempt_env W 0) SFindKey = None.

(** The request passes what comes before the retry loop. *)
Definition reaches_key (d : Database) (p : Postings) (opts : CommitOptions) (h : string) : Prop :=
  p <> [] /\ Validate p = None /\ idempotencyHash p opts = Ok h /\ is_Some (ledger_row d) /\
  forall x, x ∈ p -> registered d (PAsset x) = true.

Lemma first_seen_subset seen (l : list string) a : a ∈ first_seen seen l -> a ∈ l.
Proof.
  revert seen. induction l as [|x l IH]; intros seen; simpl; [done|].
  repeat case_match; intros; set_solver.
Qed.

Lemma checkAssets_passes f p s :
  f SCheckAssets = None -> is_Some (ledger_row (db s)) ->
  (forall x, x ∈ p -> registered (db s) (PAsset x) = true) ->
  exists s', checkAssets f p s = (Ok tt, s') /\ db s' = db s.
Proof.
  intros Hf [l Hl] Hreg. unfold checkAssets.
  destruct (_ && _); [by eexists|]. rewrite Hf, Hl.
  destruct (find _ _) as [a|] eqn:Ha; [|by eexists].
  apply find_some in Ha as [Hin Hn]. exfalso. apply list_elem_of_In in Hin.
  unfold unknown_assets in Hin. apply list_elem_of_filter in Hin as [_ Hin%first_seen_subset].
  apply list_elem_of_fmap in Hin as (x & -> & Hx). rewrite Hreg in Hn; done.
Qed.

Lemma second_call (W : Weather) p opts h (s : Store) r :
  reads_answered W -> reaches_key (db s) p opts h -> OIdempotencyKey opts <> EmptyString ->
  check_replay (db s) (OIdempotencyKey opts) h = r ->
  (exists t, r = Ok (Some t)) \/ r = Err ErrIdempotencyMismatch ->
  exists s', CommitTransaction W p opts s =
    (match r with Ok (Some t) => Ok t | Ok None => Err ContextError | Err e => Err e end, s') /\
    db s' = db s.
Proof.
  intros (Hc & Hb & Hf) (Hne & Hv & Hh & Hl & Hreg) Hk Hr Hcase.
  destruct (checkAssets_passes _ p s Hc Hl Hreg) as (s1 & Hs1 & Hdb).
  unfold CommitTransaction. rewrite bool_decide_false, Hv, Hs1, Hh by done.
  unfold maxAttempts. cbn [commit_attempts]. unfold commitOnce. rewrite Hb.
  unfold fast_path. rewrite bool_decide_false by done. unfold findByIdempotencyKey, stmt.
  rewrite Hf, Hdb, Hr. destruct Hcase as [[t ->]| ->]; simpl; by eexists.
Qed.

(** What a successful keyed call left in the log. *)
Lemma commit_answers (W : Weather) p opts (s s' : Store) t :
  CommitTransaction W p opts s = (Ok t, s') ->
  (forall n d, log_ok d /\ keys_unique d ->
     log_ok (landed (attempt_env W n) d) /\ keys_unique (landed (attempt_env W n) d)) ->
  log_ok (db s) -> keys_unique (db s) ->
  OIdempotencyKey opts <> EmptyString -> ODryRun opts = false ->
  text_map_ok (default ∅ (OMetadata opts)) ->
  exists h, idempotencyHash p opts = Ok h /\ pg_text (OIdempotencyKey opts) = true /\
    exists id, answers (db s') id (OIdempotencyKey opts) h t.
Proof.
  intros H HW Hlog Hu Hk Hdry Hmeta. unfold CommitTransaction, refuse in H.
  case_bool_decide; [done|]. destruct (Validate p) as [[i e]|] eqn:Hv; [done|].
  destruct (checkAssets (check_faults W) p s) as [[u|e] s1] eqn:Hca; [|done].
  apply checkAssets_db in Hca as [Hdb _].
  destruct (idempotencyHash p opts) as [h|e] eqn:Hh; [|done]. exists h. split; [done|].
  apply commit_attempts_cases in H as (Ho & _). rewrite Hdb in Ho. simpl in Ho.
  destruct Ho as [(_ & _ & Hr)|[(_ & ? & _)|(n & d0 & Hf & Hc)]]; [|congruence|].
  - unfold check_replay in Hr. inv_ok. split; [by apply negb_false_iff|].
    destruct (find_key _ _) as [r|] eqn:Hfk; [|done]. case_bool_decide as Hih; [|done].
    destruct (unmarshal_transaction (data r)) as [t'|] eqn:Hun; [|done]. simplify_eq.
    unfold find_key in Hfk. apply find_map_Some in Hfk as (l1 & [id x] & l2 & Hl & Hx & _). simpl in Hx.
    case_bool_decide; [|done]. injection Hx as ->. exists id, r.
    assert ((id, r) ∈ map_rows Z.le (logs (db s'))) as Hin by (rewrite Hl; set_solver).
    apply elem_of_map_rows in Hin. done.
  - pose proof (foreign_keeps (fun d => log_ok d /\ keys_unique d) W (db s) d0 HW Hf (conj Hlog Hu)) as [Hlog0 _].
    split; [by eapply answers_text|]. by eapply landed_commit_answers.
Qed.

Lemma commit_keeps_keys (W : Weather) p opts (s : Store) :
  (forall n d, keys_unique d -> keys_unique (landed (attempt_env W n) d)) ->
  keys_unique (db s) -> keys_unique (db (CommitTransaction W p opts s).2).
Proof.
  intros HW Hs. destruct (CommitTransaction W p opts s) as [r s'] eqn:H.
  eapply commit_keeps; [done..| |done]. intros ????? _ _ Hc. by eapply landed_commit_keys.
Qed.

(** C21: idempotency. Once a keyed request succeeded, the same request -- at any
    later time, against any later state of this ledger that still holds the log
    it found -- answers with the very same transaction, decoded from the log
    entry to the value first returned, and changes nothing. *)
Theorem replay_returns_original (W W2 : Weather) (p : Postings) (opts : CommitOptions)
    (s s' s2 : Store) (t : Transaction) :
  CommitTransaction W p opts s = (Ok t, s') ->
  (forall n d, log_ok d /\ keys_unique d ->
     log_ok (landed (attempt_env W n) d) /\ keys_unique (landed (attempt_env W n) d)) ->
  log_ok (db s) -> keys_unique (db s) ->
  OIdempotencyKey opts <> EmptyString -> ODryRun opts = false ->
  text_map_ok (default ∅ (OMetadata opts)) ->
  logs (db s') ⊆ logs (db s2) -> keys_unique (db s2) ->
  (forall h, idempotencyHash p opts = Ok h -> reaches_key (db s2) p opts h) -> reads_answered W2 ->
  (CommitTransaction W2 p opts s2).1 = Ok t /\ db (CommitTransaction W2 p opts s2).2 = db s2.
Proof.
  intros H HW Hlog Hu Hk Hdry Hmeta Hsub Hu2 Hreach HW2.
  destruct (commit_answers _ _ _ _ _ _ H HW Hlog Hu Hk Hdry Hmeta) as (h & Hh & Hpg & id & Ha).
  pose proof (answers_replay _ _ _ _ _ h Hu2 Hpg (answers_later _ _ _ _ _ _ Hsub Ha)) as Hr.
  rewrite bool_decide_true in Hr by done.
  destruct (second_call W2 p opts h s2 _ HW2 (Hreach h Hh) Hk Hr) as (s3 & Hs3 & Hdb3).
  - left. exists t. reflexivity.
  - rewrite Hs3. split; [reflexivity|exact Hdb3].
Qed.

(** A key belongs to one request. Under a key that a request has taken, any
    other request -- other postings, timestamp, reference or metadata -- is
    refused with [ErrIdempotencyMismatch] and changes nothing, unless the two
    requests' serialisations are a SHA-256 collision. *)
Theorem key_reuse_refused (W W2 : Weather) (p p2 : Postings) (opts opts2 : CommitOptions)
    (s s' s2 : Store) (t : Transaction) :
  CommitTransaction W p opts s = (Ok t, s') ->
  (forall n d, log_ok d /\ keys_unique d ->
     log_ok (landed (attempt_env W n) d) /\ keys_unique (landed (attempt_env W n) d)) ->
  log_ok (db s) -> keys_unique (db s) ->
  OIdempotencyKey opts <> EmptyString -> ODryRun opts = false ->
  text_map_ok (default ∅ (OMetadata opts)) ->
  logs (db s') ⊆ logs (db s2) -> keys_unique (db s2) ->
  OIdempotencyKey opts2 = OIdempotencyKey opts ->
  storable_input (input_of p opts) -> storable_input (input_of p2 opts2) ->
  input_of p2 opts2 <> input_of p opts ->
  (forall h, idempotencyHash p2 opts2 = Ok h -> reaches_key (db s2) p2 opts2 h) ->
  is_ok (idempotencyHash p2 opts2) = true -> reads_answered W2 ->
  ((CommitTransaction W2 p2 opts2 s2).1 = Err ErrIdempotencyMismatch /\
   db (CommitTransaction W2 p2 opts2 s2).2 = db s2) \/
  exists b b2, marshal_input (input_of p opts) = Some b /\ marshal_input (input_of p2 opts2) = Some b2 /\
    b <> b2 /\ Sha256.sum256 b = Sha256.sum256 b2.
Proof.
  intros H HW Hlog Hu Hk Hdry Hmeta Hsub Hu2 Hsame Hs1 Hs2 Hdiff Hreach Hok HW2.
  destruct (commit_answers _ _ _ _ _ _ H HW Hlog Hu Hk Hdry Hmeta) as (h & Hh & Hpg & id & Ha).
  destruct (idempotencyHash p2 opts2) as [h2|] eqn:Hh2; [|done]. specialize (Hreach h2 eq_refl).
  destruct (decide (h = h2)) as [<-|Hne].
  - right. unfold idempotencyHash in Hh, Hh2.
    destruct (marshal_input (input_of p opts)) as [b|] eqn:Hb; [|done].
    destruct (marshal_input (input_of p2 opts2)) as [b2|] eqn:Hb2; [|done].
    injection Hh as Hh. injection Hh2 as Hh2. exists b, b2.
    split; [reflexivity|]. split; [reflexivity|]. split.
    + intros ->. apply Hdiff. exact (marshal_input_inj _ _ b2 Hs2 Hs1 Hb2 Hb).
    + apply hex_encode_inj. exact (eq_trans Hh (eq_sym Hh2)).
  - left. pose proof (answers_replay _ _ _ _ _ h2 Hu2 Hpg (answers_later _ _ _ _ _ _ Hsub Ha)) as Hr.
    rewrite bool_decide_false, <-Hsame in Hr by done. rewrite <-Hsame in Hk.
    destruct (second_call W2 p2 opts2 h2 s2 _ HW2 Hreach Hk Hr) as (s3 & Hs3 & Hdb3).
    + right. reflexivity.
    + rewrite Hs3. split; [reflexivity|exact Hdb3].
Qed.

End codec.

(** ** At a concrete ledger *)

Definition first_call : res error Transaction * Store :=
  CommitTransaction calm deposit (with_key "order-7") new_store.

Lemma first_call_lands : exists t, first_call = (Ok t, first_call.2).
Proof.
  destruct first_call as [[t|e] s'] eqn:H; [by exists t|].
  assert (is_ok first_call.1 = true) as Hok by (vm_compute; reflexivity).
  rewrite H in Hok. discriminate Hok.
Qed.

Lemma calm_keeps (P : Database -> Prop) n d : P d -> P (landed (attempt_env calm n) d).
Proof. done. Qed.

Lemma new_ledger_keys : keys_unique new_ledger.
Proof. intros i j r r' k Hi. simpl in Hi. by rewrite lookup_empty in Hi. Qed.

Lemma first_call_keys : keys_unique (db first_call.2).
Proof. apply commit_keeps_keys; [done|apply new_ledger_keys]. Qed.

Lemma first_call_reached p opts h :
  p <> [] -> Validate p = None -> (forall x, x ∈ p -> PAsset x = "USD/2"%string) ->
  idempotencyHash p opts = Ok h -> reaches_key (db first_call.2) p opts h.
Proof.
  intros Hne Hv Hp Hh.
  assert ((bool_decide (is_Some (ledger_row (db first_call.2))) && registered (db first_call.2) "USD/2") = true)
    as [Hl Hr]%andb_prop by (vm_compute; reflexivity).
  split_and!; [done..|by apply bool_decide_eq_true in Hl|]. intros x Hx. by rewrite Hp.
Qed.

Lemma replay_returns_original_witness :
  exists t, (CommitTransaction calm deposit (with_key "order-7") first_call.2).1 = Ok t /\
            db (CommitTransaction calm deposit (with_key "order-7") first_call.2).2 = db first_call.2.
Proof.
  destruct first_call_lands as [t H]. exists t.
  apply (replay_returns_original calm calm deposit (with_key "order-7") new_store first_call.2 first_call.2 t);
    [exact H|intros n d Hd; exact Hd|apply new_ledger_log|apply new_ledger_keys|discriminate|reflexivity
    |apply map_Forall_empty|reflexivity|apply first_call_keys| |repeat split].
  intros h Hh. apply first_call_reached; [done|reflexivity| |done].
  intros x [-> |[]%not_elem_of_nil]%elem_of_cons. done.
Defined.

Lemma key_reuse_refused_witness :
  let p2 := [pay "world" "users:alice" 7] in
  (CommitTransaction calm p2 (with_key "order-7") first_call.2).1 = Err ErrIdempotencyMismatch /\
  db (CommitTransaction calm p2 (with_key "order-7") first_call.2).2 = db first_call.2 \/
  exists b b2, marshal_input (input_of deposit (with_key "order-7")) = Some b /\
    marshal_input (input_of p2 (with_key "order-7")) = Some b2 /\ b <> b2 /\
    Sha256.sum256 b = Sha256.sum256 b2.
Proof.
  intros p2. destruct first_call_lands as [t H].
  apply (key_reuse_refused calm calm deposit p2 (with_key "order-7") (with_key "order-7")
           new_store first_call.2 first_call.2 t);
    [exact H|intros n d Hd; exact Hd|apply new_ledger_log|apply new_ledger_keys|discriminate|reflexivity
    |apply map_Forall_empty|reflexivity|apply first_call_keys|reflexivity| | |discriminate|
    |vm_compute; reflexivity|repeat split].
  - split; [repeat constructor|done..].
  - split; [repeat constructor|done..].
  - intros h Hh. apply first_call_reached; [done|reflexivity| |done].
    intros x [-> |[]%not_elem_of_nil]%elem_of_cons. done.
Defined.
