(* ===== verification/Effective.v ===== *)
(** * Balances as of a date

    [storage/effective.go]: the reads of the maintained snapshots, and the slow
    recomputation that checks them. *)

From S2P Require Import Prelude Identifiers Text Posting Volumes GoTime Transaction Errors Schema Txn Locking Guards Moves History.

(** ** Reading the snapshots *)

(** The assets [distinct on (asset)] finds a row for. *)
Definition assets_at (l : list MoveRow) (address : Address) (at_ : Instant) : list Asset :=
  remove_dups ((fun m => (move_key m).2) <$>
    filter (fun m => (move_key m).1 = address /\ effective_date m <= at_) l).

Definition effective_rows (d : Database) (address : Address) (at_ : Instant) : list (Asset * Volumes) :=
  omap (fun a => (fun m => (a, pcev m)) <$> latest_at (moves d) (address, a) at_)
    (merge_sort String.le (assets_at (moves d) address at_)).

Definition GetEffectiveVolumesAt (d : Database) (address : Address) (at_ : Instant) : gmap string Volumes :=
  list_to_map (effective_rows d address at_).

Definition GetBalancesAt (d : Database) (address : Address) (at_ : Instant) : gmap string Z :=
  list_to_map ((fun row => (row.1, Balance row.2)) <$> effective_rows d address at_).

(** ** Recomputing them *)

Record EffectiveVolumesMismatch := {
  EMSeq : Z;
  EMAccount : Address;
  EMAsset : Asset;
  EMStored : Volumes;
  EMWant : Volumes;
}.

(** [order by address, asset, effective_date, seq] *)
Definition move_le : relation MoveRow := fun a b =>
  key_le (move_key a) (move_key b) /\
  (move_key a = move_key b -> effective_le (effective_date a) (seq a) (effective_date b) (seq b) = true).

#[export] Instance move_le_dec : RelDecision move_le.
Proof. intros a b. unfold move_le. apply _. Defined.

Fixpoint verify_moves (rows : list MoveRow) (running : gmap key Volumes) (checked : nat)
    : nat * res EffectiveVolumesMismatch unit :=
  match rows with
  | [] => (checked, Ok tt)
  | m :: rows =>
      let running := Moves.apply running (move_key m) (amount m) (is_source m) in
      let want := default NewVolumes (running !! move_key m) in
      if negb (Input (pcev m) =? Input want) || negb (Output (pcev m) =? Output want)
      then (checked, Err {| EMSeq := seq m; EMAccount := (move_key m).1; EMAsset := (move_key m).2;
                            EMStored := pcev m; EMWant := want |})
      else verify_moves rows running (S checked)
  end.

Definition VerifyEffectiveVolumes (d : Database) : nat * res EffectiveVolumesMismatch unit :=
  verify_moves (merge_sort move_le (moves d)) ∅ 0.

(** ** The reads *)

Lemma elem_of_assets_at l address at_ a :
  a ∈ assets_at l address at_ <->
  exists m, m ∈ l /\ move_key m = (address, a) /\ effective_date m <= at_.
Proof.
  unfold assets_at. rewrite elem_of_remove_dups, list_elem_of_fmap. split.
  - intros (m & -> & [[Ha Ht] Hm]%list_elem_of_filter). exists m. split_and!; [done| |done].
    by rewrite <-Ha, <-surjective_pairing.
  - intros (m & Hm & Hk & Ht). exists m. rewrite list_elem_of_filter, Hk. done.
Qed.

Lemma latest_at_None l k at_ :
  latest_at l k at_ = None <-> forall m, m ∈ l -> move_key m = k -> at_ < effective_date m.
Proof.
  pose proof (latest_at_spec l k at_) as Hs. destruct (latest_at l k at_) as [m|]; [|done].
  split; [done|]. destruct Hs as (Hm & Hk & Ht & _). intros Hall. specialize (Hall m Hm Hk). lia.
Qed.

Lemma effective_rows_keys d address at_ :
  (effective_rows d address at_).*1 = merge_sort String.le (assets_at (moves d) address at_).
Proof.
  unfold effective_rows.
  assert (forall a, a ∈ merge_sort String.le (assets_at (moves d) address at_) ->
                    is_Some (latest_at (moves d) (address, a) at_)) as Hall.
  { intros a Ha. rewrite merge_sort_Permutation, elem_of_assets_at in Ha.
    destruct Ha as (m & Hm & Hk & Ht). apply not_eq_None_Some.
    intros Hn. pose proof (proj1 (latest_at_None _ _ _) Hn m Hm Hk). lia. }
  induction (merge_sort String.le (assets_at (moves d) address at_)) as [|a l IH]; [done|]. simpl.
  destruct (Hall a ltac:(set_solver)) as [m Hm]. rewrite Hm. simpl. f_equal. apply IH. set_solver.
Qed.

Lemma effective_row_lookup d address at_ a v :
  (a, v) ∈ effective_rows d address at_ <-> pcev <$> latest_at (moves d) (address, a) at_ = Some v.
Proof.
  unfold effective_rows. rewrite list_elem_of_omap. split.
  - intros (b & _ & Hb). destruct (latest_at (moves d) (address, b) at_) as [m|] eqn:Hm; [|done].
    simpl in Hb. injection Hb as -> <-. by rewrite Hm.
  - intros Hv. exists a. destruct (latest_at (moves d) (address, a) at_) as [m|] eqn:Hm; [|done].
    simpl in *. split; [|congruence]. rewrite merge_sort_Permutation. apply elem_of_assets_at.
    pose proof (latest_at_spec (moves d) (address, a) at_) as Hs. rewrite Hm in Hs. naive_solver.
Qed.

Lemma effective_rows_NoDup d address at_ : NoDup (effective_rows d address at_).*1.
Proof. rewrite effective_rows_keys, merge_sort_Permutation. apply NoDup_remove_dups. Qed.

(** C25: balances as of a date. For every account, asset and date, what
    [GetEffectiveVolumesAt] and [GetBalancesAt] read from one stored snapshot is
    the sum of the account's moves dated up to then -- and an asset with no such
    move is absent from both maps. *)
Theorem balances_at_exact (d : Database) (address : Address) (at_ : Instant) (a : Asset) :
  histories_ok (moves d) (next_seq d) ->
  let moved := existsb (fun m => bool_decide (move_key m = (address, a)) && (effective_date m <=? at_)) (moves d) in
  let expected := total_at (moves d) at_ (address, a) in
  GetEffectiveVolumesAt d address at_ !! a = (if moved then Some expected else None) /\
  GetBalancesAt d address at_ !! a = (if moved then Some (Balance expected) else None).
Proof.
  intros Hok moved expected.
  assert (pcev <$> latest_at (moves d) (address, a) at_ = if moved then Some expected else None) as Hl.
  { pose proof (volumes_at_total _ _ at_ (address, a) Hok) as Ht. unfold volumes_at in Ht.
    pose proof (latest_at_spec (moves d) (address, a) at_) as Hs.
    destruct (latest_at (moves d) (address, a) at_) as [m|] eqn:Hm; simpl in *.
    - assert (moved = true) as ->; [|by rewrite Ht]. apply existsb_exists. exists m.
      destruct Hs as (Hin & Hk & Hd & _). split; [by apply list_elem_of_In|].
      rewrite bool_decide_true by done. simpl. lia.
    - assert (moved = false) as ->; [|done]. apply not_true_iff_false. intros Hmv.
      apply existsb_exists in Hmv as (m & Hin & Hb). apply andb_prop in Hb as [Hk%bool_decide_eq_true Hd].
      apply list_elem_of_In in Hin. pose proof (proj1 (latest_at_None _ _ _) Hm m Hin Hk). lia. }
  assert (GetEffectiveVolumesAt d address at_ !! a = if moved then Some expected else None) as Hg.
  { apply option_eq. intros v. unfold GetEffectiveVolumesAt.
    rewrite <-elem_of_list_to_map by apply effective_rows_NoDup. by rewrite effective_row_lookup, Hl. }
  split; [done|]. unfold GetBalancesAt.
  assert (forall l : list (string * Volumes), list_to_map ((fun row => (row.1, Balance row.2)) <$> l)
                     = Balance <$> (list_to_map l : gmap string Volumes)) as ->.
  { induction l as [|[x v] l IH]; cbn [list_to_map foldr fmap list_fmap].
    - symmetry. apply fmap_empty.
    - simpl. by rewrite IH, fmap_insert. }
  rewrite lookup_fmap. fold (GetEffectiveVolumesAt d address at_). rewrite Hg. by destruct moved.
Qed.

(** ** The recomputation *)

Definition disagrees (l : list MoveRow) (m : MoveRow) : Prop :=
  pcev m <> replay l (move_key m) (effective_date m) (seq m).

Definition mismatch_of (l : list MoveRow) (m : MoveRow) : EffectiveVolumesMismatch :=
  {| EMSeq := seq m; EMAccount := (move_key m).1; EMAsset := (move_key m).2; EMStored := pcev m;
     EMWant := replay l (move_key m) (effective_date m) (seq m) |}.

Lemma apply_move (R : gmap key Volumes) m k :
  default NewVolumes (Moves.apply R (move_key m) (amount m) (is_source m) !! k) =
  vadd (default NewVolumes (R !! k)) (total [m] k).
Proof.
  rewrite apply_lookup. f_equal. unfold half_at, total, sum_where, move_volume. rewrite vsum_cons, vsum_nil.
  simpl. rewrite andb_true_r. case_decide as Hk; [rewrite bool_decide_true by done|rewrite bool_decide_false by done];
    by rewrite vadd_zero_r.
Qed.

Lemma total_app l1 l2 k : total (l1 ++ l2) k = vadd (total l1 k) (total l2 k).
Proof. apply sum_where_app. Qed.

Lemma volumes_neqb v w : negb (Input v =? Input w) || negb (Output v =? Output w) = negb (bool_decide (v = w)).
Proof.
  destruct v as [i o], w as [i' o']; simpl. case_bool_decide as Hv; simpl.
  - injection Hv as -> ->. by rewrite !Z.eqb_refl.
  - destruct (Z.eqb_spec i i') as [->|], (Z.eqb_spec o o') as [->|]; done.
Qed.

Lemma verify_moves_prefix (rows pre : list MoveRow) (R : gmap key Volumes) (c : nat) :
  (forall k, default NewVolumes (R !! k) = total pre k) ->
  match verify_moves rows R c with
  | (n, Ok _) => n = (c + length rows)%nat /\
      forall r1 m r2, rows = r1 ++ m :: r2 -> pcev m = total (pre ++ r1 ++ [m]) (move_key m)
  | (n, Err e) => exists r1 m r2, rows = r1 ++ m :: r2 /\ n = (c + length r1)%nat /\
      pcev m <> total (pre ++ r1 ++ [m]) (move_key m) /\
      e = {| EMSeq := seq m; EMAccount := (move_key m).1; EMAsset := (move_key m).2; EMStored := pcev m;
             EMWant := total (pre ++ r1 ++ [m]) (move_key m) |}
  end.
Proof.
  revert pre R c. induction rows as [|m rows IH]; intros pre R c HR; cbn [verify_moves].
  { split; [simpl; lia|]. intros [|? ?] ? ? ?; discriminate. }
  assert (default NewVolumes (Moves.apply R (move_key m) (amount m) (is_source m) !! move_key m) =
          total (pre ++ [m]) (move_key m)) as Hw by by rewrite apply_move, HR, total_app.
  cbv zeta. rewrite Hw, volumes_neqb. case_bool_decide as Heq; simpl.
  - specialize (IH (pre ++ [m]) (Moves.apply R (move_key m) (amount m) (is_source m)) (S c)).
    assert (forall k, default NewVolumes (Moves.apply R (move_key m) (amount m) (is_source m) !! k) =
                      total (pre ++ [m]) k) as HR' by (intros k; by rewrite apply_move, HR, total_app).
    specialize (IH HR'). destruct (verify_moves rows _ (S c)) as [n [u|e]].
    + destruct IH as [-> IH]. split; [lia|]. intros [|x r1] m' r2 Hl; simplify_eq/=; [done|].
      rewrite (IH r1 m' r2 eq_refl). by rewrite <-!app_assoc.
    + destruct IH as (r1 & m' & r2 & -> & -> & Hne & ->). exists (m :: r1), m', r2.
      rewrite <-!app_assoc in *. simpl in *. split_and!; [done|lia|done..].
  - exists [], m, rows. split_and!; [done|simpl; lia|done..].
Qed.

(** The rows before a row of the sorted listing, and itself, are its history. *)
Lemma sorted_prefix_replay r1 m r2 :
  StronglySorted move_le (r1 ++ m :: r2) -> NoDup (seq <$> r1 ++ m :: r2) ->
  total (r1 ++ [m]) (move_key m) = replay (r1 ++ m :: r2) (move_key m) (effective_date m) (seq m).
Proof.
  intros Hs Hnd. unfold replay. rewrite (cons_middle m r1 r2), app_assoc, sum_where_app.
  assert (forall x, x ∈ r1 -> move_le x m) as Hbefore.
  { intros x Hx. by eapply (StronglySorted_app_1_elem_of move_le r1 (m :: r2)); [done..|left]. }
  assert (forall x, x ∈ r2 -> move_le m x /\ seq x <> seq m) as Hafter.
  { intros x Hx. apply StronglySorted_app_1_r in Hs. apply StronglySorted_inv in Hs as [_ Hm].
    split; [by apply (proj1 (Forall_forall _ _) Hm)|]. rewrite fmap_app in Hnd. apply NoDup_app in Hnd as (_ & _ & Hnd).
    rewrite fmap_cons in Hnd. apply NoDup_cons in Hnd as [Hni _]. intros Heq. apply Hni. rewrite <-Heq.
    by apply list_elem_of_fmap_2. }
  unfold sum_where. rewrite (vsum_zero _ r2), vadd_zero_r.
  - apply vsum_ext. intros x Hx. case_bool_decide as Hk; simpl; [|done].
    apply elem_of_app in Hx as [Hx| ->%list_elem_of_singleton].
    + destruct (Hbefore x Hx) as [_ Hle]. by rewrite Hle.
    + assert (effective_le (effective_date m) (seq m) (effective_date m) (seq m) = true) as ->; [|done].
      unfold effective_le. lia.
  - intros x [[Hk Hle] Hne]%Hafter. case_bool_decide as Hx; simpl; [|done]. specialize (Hle (eq_sym Hx)).
    destruct (effective_le (effective_date x) (seq x) _ _) eqn:He; [|done]. unfold effective_le in *. lia.
Qed.

#[export] Instance move_le_trans : Transitive move_le.
Proof.
  intros a b c [Hab Lab] [Hbc Lbc]. split; [by etrans|]. intros Hac.
  assert (move_key a = move_key b) as Heq.
  { apply (anti_symm key_le); [done|]. by rewrite Hac. }
  assert (move_key b = move_key c) as Heq' by congruence.
  specialize (Lab Heq). specialize (Lbc Heq'). unfold effective_le in *. lia.
Qed.

#[export] Instance move_le_total : Total move_le.
Proof.
  intros a b. unfold move_le. destruct (stdpp.base.total key_le (move_key a) (move_key b)) as [H|H];
    destruct (decide (move_key a = move_key b)) as [Heq|Hne]; try (by left; naive_solver);
    try (by right; split; [done|intros ?; congruence]).
  all: destruct (effective_le (effective_date a) (seq a) (effective_date b) (seq b)) eqn:He;
    [left; rewrite Heq; done|right; rewrite Heq; split; [done|intros _; unfold effective_le in *; lia]].
Qed.

Lemma replay_permutation l l' k t s : l ≡ₚ l' -> replay l k t s = replay l' k t s.
Proof. intros Hp. by apply vsum_permutation. Qed.

Lemma verify_effective_spec (d : Database) :
  NoDup (seq <$> moves d) ->
  match VerifyEffectiveVolumes d with
  | (n, Ok _) => n = length (moves d) /\ forall m, m ∈ moves d -> ~ disagrees (moves d) m
  | (n, Err e) => (n < length (moves d))%nat /\
      exists m, m ∈ moves d /\ disagrees (moves d) m /\ e = mismatch_of (moves d) m
  end.
Proof.
  intros Hnd. unfold VerifyEffectiveVolumes.
  pose proof (merge_sort_Permutation move_le (moves d)) as Hp.
  assert (StronglySorted move_le (merge_sort move_le (moves d))) as Hs by (apply StronglySorted_merge_sort; apply _).
  set (l := merge_sort move_le (moves d)) in *. clearbody l.
  assert (NoDup (seq <$> l)) as Hnd' by by rewrite Hp.
  pose proof (verify_moves_prefix l [] ∅ 0 (fun k => eq_trans (f_equal _ (lookup_empty k)) eq_refl)) as H.
  assert (forall r1 m r2, l = r1 ++ m :: r2 ->
            total ([] ++ r1 ++ [m]) (move_key m) = replay (moves d) (move_key m) (effective_date m) (seq m)) as Hreplay.
  { intros r1 m r2 ->. rewrite app_nil_l, (sorted_prefix_replay r1 m r2) by done.
    by apply replay_permutation. }
  destruct (verify_moves l ∅ 0) as [n [u|e]].
  - destruct H as [-> H]. rewrite <-Hp. split; [done|]. intros m Hm Hd. rewrite <-Hp in Hm.
    apply list_elem_of_split in Hm as (r1 & r2 & Hl). apply Hd. rewrite (H r1 m r2 Hl). by eapply Hreplay.
  - destruct H as (r1 & m & r2 & Hl & -> & Hne & ->). rewrite (Hreplay r1 m r2 Hl) in *.
    split; [rewrite <-Hp, Hl, length_app; simpl; lia|]. exists m. split_and!; [|done..].
    rewrite <-Hp, Hl. set_solver.
Qed.

(** The check of the effective volumes is sound and complete. It passes,
    having examined every move, exactly when every stored snapshot equals a
    replay of the account's history in effective date order; otherwise it names
    a move that disagrees, with what is stored and what the replay says. *)
Theorem verify_effective_decides (d : Database) :
  NoDup (seq <$> moves d) ->
  match VerifyEffectiveVolumes d with
  | (n, Ok _) => n = length (moves d) /\ forall m, m ∈ moves d -> ~ disagrees (moves d) m
  | (n, Err e) => (n < length (moves d))%nat /\
      exists m, m ∈ moves d /\ disagrees (moves d) m /\ e = mismatch_of (moves d) m
  end.
Proof. apply verify_effective_spec. Qed.

Lemma balances_at_exact_witness :
  GetBalancesAt empty_database "users:alice" 0 !! ("USD/2" : string) = None.
Proof. apply (balances_at_exact empty_database "users:alice" 0 "USD/2"). split; simpl; set_solver. Defined.

(** One move whose snapshot is wrong is found. *)
Definition wrong_move : MoveRow :=
  {| seq := 1; tx_id := 1; move_key := ("users:alice", "USD/2"); amount := 5; is_source := false;
     effective_date := 0; move_inserted := 0; pcv := {| Input := 5; Output := 0 |};
     pcev := {| Input := 6; Output := 0 |} |}.

Lemma verify_effective_decides_witness :
  exists m, m ∈ [wrong_move] /\ disagrees [wrong_move] m /\
    VerifyEffectiveVolumes (set_moves [wrong_move] 2 empty_database) = (0%nat, Err (mismatch_of [wrong_move] m)).
Proof.
  pose proof (verify_effective_decides (set_moves [wrong_move] 2 empty_database) ltac:(repeat constructor; set_solver)) as H.
  destruct (VerifyEffectiveVolumes _) as [n [u|e]] eqn:Hv.
  - exfalso. vm_compute in Hv. discriminate Hv.
  - destruct H as [Hn (m & Hm & Hd & ->)]. exists m. split_and!; [done..|].
    simpl in Hn. by replace n with 0%nat by lia.
Defined.
