(* ===== verification/Read.v ===== *)
(** * Reading the ledger

    [storage/read.go] (single values), [storage/stale.go], [ledger/account.go].
    A read is one statement outside any transaction; its answer is a function
    of the committed tables. *)

From S2P Require Import Prelude Identifiers Text Posting Volumes GoTime Transaction Errors Schema Txn Locking Guards Moves History Log Observer Commit Committed Book Effective.

(** ** Transactions *)

(** [hydrateTransaction]: the row's columns, decoded. *)
Definition hydrateTransaction (id : Z) (r : TransactionRow) : Transaction :=
  {| TxID := id; TPostings := postings r; Timestamp := timestamp r; InsertedAt := inserted_at r;
     RevertedAt := reverted_at r; Reference := default EmptyString (reference r);
     TMetadata := tx_metadata r; TPostCommitVolumes := pc_volumes r |}.

Definition GetTransaction (d : Database) (id : Z) : res error Transaction :=
  match transactions d !! id with
  | None => Err ErrNotFound
  | Some r => Ok (hydrateTransaction id r)
  end.

(** ** Current balances *)

(** An argument that is not text is refused on the wire. *)
Definition text_arg (s : string) : res error unit := when (negb (pg_text s)) (PgError invalidText).

Definition rows_of (d : Database) (address : Address) : list (Asset * VolumeRow) :=
  omap (fun kv : key * VolumeRow => if bool_decide (kv.1.1 = address) then Some (kv.1.2, kv.2) else None)
    (map_rows key_le (volumes d)).

Definition GetVolumes (d : Database) (address : Address) : gmap string Volumes :=
  list_to_map ((fun ar => (ar.1, volumes_of ar.2)) <$> rows_of d address).

Definition GetBalances (d : Database) (address : Address) : gmap string Z :=
  list_to_map ((fun ar => (ar.1, Balance (volumes_of ar.2))) <$> rows_of d address).

(** ** [like] *)

(** PostgreSQL's [like] with its default escape, on the characters of an
    address, which are bytes. *)
Fixpoint like (pattern : string) (s : string) : bool :=
  match pattern with
  | EmptyString => match s with EmptyString => true | _ => false end
  | String c pattern' =>
      if Ascii.eqb c "%"%char then
        (fix any (s : string) : bool :=
           like pattern' s || match s with EmptyString => false | String _ s => any s end) s
      else if Ascii.eqb c "_"%char then
        match s with EmptyString => false | String _ s => like pattern' s end
      else if Ascii.eqb c "\"%char then
        match pattern' with
        | EmptyString => false
        | String e pattern'' =>
            match s with
            | EmptyString => false
            | String x s => Ascii.eqb e x && like pattern'' s
            end
        end
      else match s with EmptyString => false | String x s => Ascii.eqb c x && like pattern' s end
  end.

(** [$2 = '' or address like $2 || '%'] *)
Definition under (prefix address : string) : bool :=
  bool_decide (prefix = EmptyString) || like (String.append prefix "%") address.

Definition rows_under (d : Database) (prefix : string) : list (key * VolumeRow) :=
  filter (fun kv : key * VolumeRow => under prefix kv.1.1 = true) (map_to_list (volumes d)).

(** [sum(input), sum(output) ... group by asset], subtracted *)
Definition group_balance (rows : list (key * VolumeRow)) (a : Asset) : Z :=
  let group := filter (fun kv : key * VolumeRow => kv.1.2 = a) rows in
  sumZ (fun kv => Input (volumes_of kv.2)) group - sumZ (fun kv => Output (volumes_of kv.2)) group.

Definition AggregateBalances (d : Database) (prefix : string) : res error (gmap string Z) :=
  let! _ := text_arg prefix in
  let rows := rows_under d prefix in
  Ok (list_to_map ((fun a => (a, group_balance rows a)) <$> remove_dups ((fun kv => kv.1.2) <$> rows))).

(** ** Accounts *)

Record Account := {
  AAddress : Address;
  AMetadata : Metadata;
  FirstUsage : Instant;
  InsertionDate : Instant;
  UpdatedAt : Instant;
  AVolumes : option (gmap string Volumes);
  AEffectiveVolumes : option (gmap string Volumes);
}.

(** [accountOptions], as [WithVolumes] and [WithEffectiveVolumes] set them. *)
Record accountOptions := {
  with_volumes : bool;
  with_effective : option Time;
}.

Definition GetAccount (now : Instant) (d : Database) (address : Address) (o : accountOptions) : res error Account :=
  let! _ := text_arg address in
  match accounts d !! address with
  | None => Err ErrNotFound
  | Some r =>
      Ok {| AAddress := address; AMetadata := metadata r; FirstUsage := first_usage r;
            InsertionDate := insertion_date r; UpdatedAt := updated_at r;
            AVolumes := if with_volumes o then Some (GetVolumes d address) else None;
            AEffectiveVolumes :=
              at_ ← with_effective o;
              Some (GetEffectiveVolumesAt d address (if IsZero at_ then now else UTC at_)) |}
  end.

(** ** Money that is sitting still *)

Record StaleBalance := {
  SBAccount : Address;
  SBAsset : Asset;
  SBBalance : Z;
  LastMove : Instant;
}.

(** [max(insertion_date)] of the pair's moves; no move, null. *)
Definition last_move (l : list MoveRow) (k : key) : option Instant :=
  foldr (fun m best => if bool_decide (move_key m = k)
                       then Some (from_option (Z.max (move_inserted m)) (move_inserted m) best) else best) None l.

Definition stale_le : relation StaleBalance := fun a b =>
  LastMove a < LastMove b \/
  (LastMove a = LastMove b /\ key_le (SBAccount a, SBAsset a) (SBAccount b, SBAsset b)).

#[export] Instance stale_le_dec : RelDecision stale_le.
Proof. intros a b. unfold stale_le. apply _. Defined.

Definition stale_row (d : Database) (prefix : string) (cutoff : Instant) (kv : key * VolumeRow)
    : option StaleBalance :=
  if under prefix kv.1.1 && negb (Input (volumes_of kv.2) =? Output (volumes_of kv.2)) then
    match last_move (moves d) kv.1 with
    | Some last => if last <? cutoff
                   then Some {| SBAccount := kv.1.1; SBAsset := kv.1.2; SBBalance := Balance (volumes_of kv.2);
                                LastMove := last |}
                   else None
    | None => None
    end
  else None.

Definition StaleBalances (now : Instant) (d : Database) (prefix : string) (olderThan : Z)
    : res error (list StaleBalance) :=
  let! _ := when (olderThan <? 0) (PlainError "olderThan is negative") in
  let! _ := when (negb (pg_text prefix)) (PgError invalidText) in
  Ok (merge_sort stale_le (omap (stale_row d prefix (now - olderThan)) (map_to_list (volumes d)))).

(** ** What the prefix reads cover *)

(** A prefix with none of [like]'s three special characters. *)
Definition plain_char (c : ascii) : bool :=
  negb (Ascii.eqb c "%"%char) && negb (Ascii.eqb c "_"%char) && negb (Ascii.eqb c "\"%char).

Lemma like_any s : like "%" s = true.
Proof. induction s as [|c s IH]; [done|]. exact IH. Qed.

Lemma like_plain (p s : string) :
  forall_char plain_char p = true -> like (String.append p "%") s = String.prefix p s.
Proof.
  revert s. induction p as [|c p IH]; intros s Hp.
  { change (like "%" s = String.prefix "" s). rewrite like_any. by destruct s. }
  cbn [forall_char] in Hp. apply andb_prop in Hp as [Hc Hp].
  unfold plain_char in Hc. apply andb_prop in Hc as [[H1 H2]%andb_prop H3].
  apply negb_true_iff in H1, H2, H3. cbn [String.append like]. rewrite H1, H2, H3.
  destruct s as [|x s]; [done|]. cbn [String.prefix]. rewrite IH by done.
  destruct (Ascii.eqb_spec c x) as [->|Hne]; destruct (ascii_dec _ _); done || congruence.
Qed.

Lemma under_plain (p s : string) :
  forall_char plain_char p = true -> under p s = String.prefix p s.
Proof.
  intros Hp. unfold under. case_bool_decide as H; simpl; [|by apply like_plain].
  subst p. by destruct s.
Qed.

Definition in_group (prefix : string) (a : Asset) (k : key) : bool :=
  String.prefix prefix k.1 && bool_decide (k.2 = a).

Lemma map_sum_filter (P : key -> bool) (f : VolumeRow -> Z) (m : gmap key VolumeRow) :
  sumZ (fun kv => f kv.2) (filter (fun kv : key * VolumeRow => P kv.1 = true) (map_to_list m)) =
  map_sum (fun k r => if P k then f r else 0) m.
Proof.
  unfold map_sum. induction (map_to_list m) as [|[k r] l IH]; [done|].
  rewrite filter_cons. simpl. case_decide as HP; simpl.
  - rewrite HP, IH. done.
  - apply not_true_is_false in HP. by rewrite HP, IH.
Qed.

Lemma grouped_keys (f : string -> Z) (l : list string) : ((fun a => (a, f a)) <$> l).*1 = l.
Proof. induction l as [|a l IH]; [done|]. csimpl. by f_equal. Qed.

Lemma lookup_grouped (f : string -> Z) (l : list string) a :
  NoDup l ->
  (list_to_map ((fun a => (a, f a)) <$> l) : gmap string Z) !! a = if decide (a ∈ l) then Some (f a) else None.
Proof.
  intros Hnd. case_decide as Ha.
  - apply elem_of_list_to_map; [by rewrite grouped_keys|].
    by apply (list_elem_of_fmap_2 (fun a => (a, f a))).
  - apply not_elem_of_list_to_map. by rewrite grouped_keys.
Qed.

(** What a prefix sums. For a prefix free of [like]'s wildcards,
    [AggregateBalances] gives each asset the exact sum of the balances of the
    accounts whose address starts with the prefix, and lists exactly the assets
    those accounts have rows in; over the whole ledger every sum is zero
    whenever value is conserved. *)
Theorem aggregate_exact (d : Database) (prefix : string) :
  pg_text prefix = true -> forall_char plain_char prefix = true ->
  exists m, AggregateBalances d prefix = Ok m /\
    (forall a b, m !! a = Some b <->
       (exists k r, volumes d !! k = Some r /\ in_group prefix a k = true) /\
       b = map_sum (fun k r => if in_group prefix a k then Balance (volumes_of r) else 0) (volumes d)) /\
    (prefix = EmptyString -> (forall a, drift d a = 0) -> forall a b, m !! a = Some b -> b = 0).
Proof.
  intros Hpg Hplain. unfold AggregateBalances, text_arg, when. rewrite Hpg. simpl.
  set (rows := rows_under d prefix). set (sums := group_balance rows). set (assets_ := remove_dups _).
  assert (forall kv, kv ∈ rows <-> String.prefix prefix kv.1.1 = true /\ volumes d !! kv.1 = Some kv.2) as Hrows.
  { intros [k r]. unfold rows, rows_under. rewrite list_elem_of_filter, elem_of_map_to_list. simpl.
    by rewrite under_plain. }
  assert (forall a, a ∈ assets_ <-> exists k r, volumes d !! k = Some r /\ in_group prefix a k = true) as Hassets.
  { intros a. unfold assets_. rewrite elem_of_remove_dups, list_elem_of_fmap. unfold in_group. split.
    - intros ([k r] & -> & [Hp Hr]%Hrows). exists k, r. simpl in *. rewrite Hp, bool_decide_true; done.
    - intros (k & r & Hr & [Hp Ha]%andb_prop). apply bool_decide_eq_true in Ha. exists (k, r).
      split; [done|]. by apply Hrows. }
  assert (forall a, sums a = map_sum (fun k r => if in_group prefix a k then Balance (volumes_of r) else 0) (volumes d)) as Hsums.
  { intros a. unfold sums, group_balance, rows, rows_under, Balance. rewrite list_filter_filter.
    rewrite !(list_filter_iff _ (fun kv : key * VolumeRow => in_group prefix a kv.1 = true)).
    - rewrite (map_sum_filter (in_group prefix a) (fun r => Input (volumes_of r))).
      rewrite (map_sum_filter (in_group prefix a) (fun r => Output (volumes_of r))).
      rewrite <-map_sum_minus. apply map_sum_ext. intros k r _. destruct (in_group prefix a k); lia.
    - intros [k r]. unfold in_group. simpl. rewrite under_plain, andb_true_iff, bool_decide_eq_true by done. naive_solver. }
  eexists. split; [reflexivity|].
  assert (forall a b, (list_to_map ((fun a => (a, sums a)) <$> assets_) : gmap string Z) !! a = Some b <->
            a ∈ assets_ /\ b = sums a) as Hm.
  { intros a b. rewrite lookup_grouped by apply NoDup_remove_dups. case_decide; naive_solver. }
  split.
  - intros a b. by rewrite Hm, Hassets, Hsums.
  - intros -> Hc a b [_ ->]%Hm. rewrite Hsums. transitivity (drift d a); [|apply Hc].
    unfold drift. apply map_sum_ext.
    intros k r _. unfold in_group. destruct k as [x y]. simpl. destruct x; simpl; case_bool_decide; case_decide; done.
Qed.

Lemma aggregate_exact_witness :
  exists m, AggregateBalances empty_database "users:" = Ok m /\ forall a b, m !! a = Some b -> b = 0.
Proof.
  destruct (aggregate_exact empty_database "users:" eq_refl eq_refl) as (m & Hm & Hall & _).
  exists m. split; [exact Hm|]. intros a b [_ ->]%Hall. reflexivity.
Defined.

(** An underscore is a legal character of an address and a wildcard of [like]:
    the prefix "fees_eu:" also covers the account "feesXeu:a". *)
Lemma prefix_wildcard :
  Address_Valid "feesXeu:a" = true /\ String.prefix "fees_eu:" "feesXeu:a" = false /\
  under "fees_eu:" "feesXeu:a" = true.
Proof. vm_compute. done. Qed.
