(* ===== verification/Verify.v ===== *)
(** * Checking the projection against the log

    [storage/verify.go] and the conservation check of [storage/verify_runs.go]:
    replaying the log, comparing it with the stored volumes and transactions. *)

From S2P Require Import Prelude Identifiers Text Posting Volumes Sha256 GoTime Transaction Codec Encoding Errors Schema Txn Locking Guards Moves History Log Observer Commit Committed Book Chain Sample CommitSpec Replay.

Record ProjectionMismatch := {
  PMAccount : Address;
  PMAsset : Asset;
  PMStored : option Volumes;
  PMWant : option Volumes;
}.

(** Why [VerifyProjection] returned an error. A nil amount in a log entry would
    be a nil pointer dereference, which is a failure here too. *)
Inductive projection_failure :=
| Unreadable (e : error)
| NilAmount (id : Z)
| Mismatch (m : ProjectionMismatch)
| NeverLogged (id : Z)
| CountDiffers (logged held : nat).

(** ** Replaying the log *)

(** [apply] over the two sides of every posting. *)
Definition replay_posting (v : gmap key Volumes) (p : Posting) : gmap key Volumes :=
  Moves.apply (Moves.apply v (source_key p) (amount_of p) true) (destination_key p) (amount_of p) false.

Definition has_nil_amount (p : Postings) : bool :=
  existsb (fun x => bool_decide (Amount x = None)) p.

Section codec.
Context {codec : Codec}.

(** The transaction an entry carries, if it is of a kind that moves value. *)
Definition logged_transaction (id : Z) (r : LogRow) : res projection_failure (option Transaction) :=
  match log_type r with
  | LogNewTransaction =>
      match unmarshal_transaction (data r) with
      | Some t => Ok (Some t)
      | None => Err (Unreadable DecodeError)
      end
  | LogRevertedTransaction =>
      match unmarshal_reverted (data r) with
      | Some (_, Some t) => Ok (Some t)
      | Some (_, None) => Err (Unreadable (PlainError "log entry carries no transaction"))
      | None => Err (Unreadable DecodeError)
      end
  | LogSetMetadata | LogDeleteMetadata | LogRecovery => Ok None
  end.

Definition replay_entry (acc : gmap key Volumes * gset Z) (id : Z) (r : LogRow)
    : res projection_failure (gmap key Volumes * gset Z) :=
  let! t := logged_transaction id r in
  match t with
  | None => Ok acc
  | Some t =>
      let! _ := when (has_nil_amount (TPostings t)) (NilAmount id) in
      Ok (foldl replay_posting acc.1 (TPostings t), {[ TxID t ]} ∪ acc.2)
  end.

Fixpoint replay_rows (rows : list (Z * LogRow)) (acc : gmap key Volumes * gset Z)
    : res projection_failure (gmap key Volumes * gset Z) :=
  match rows with
  | [] => Ok acc
  | (id, r) :: rows => let! acc := replay_entry acc id r in replay_rows rows acc
  end.

Definition replayLog (d : Database) : res projection_failure (gmap key Volumes * gset Z) :=
  replay_rows (map_rows Z.le (logs d)) (∅, ∅).

Definition storedVolumes (d : Database) : gmap key Volumes := volumes_of <$> volumes d.

(** ** Comparing *)

Definition check_projection (want stored : gmap key Volumes) (k : key) : option ProjectionMismatch :=
  match want !! k, stored !! k with
  | Some w, None => Some {| PMAccount := k.1; PMAsset := k.2; PMStored := None; PMWant := Some w |}
  | None, Some v =>
      if negb (Balance v =? 0) || negb (Input v =? 0)
      then Some {| PMAccount := k.1; PMAsset := k.2; PMStored := Some v; PMWant := None |} else None
  | Some w, Some v =>
      if negb (Input v =? Input w) || negb (Output v =? Output w)
      then Some {| PMAccount := k.1; PMAsset := k.2; PMStored := Some v; PMWant := Some w |} else None
  | None, None => None
  end.

Fixpoint check_keys (want stored : gmap key Volumes) (ks : list key) (checked : nat)
    : nat * res projection_failure unit :=
  match ks with
  | [] => (checked, Ok tt)
  | k :: ks =>
      match check_projection want stored k with
      | Some m => (checked, Err (Mismatch m))
      | None => check_keys want stored ks (S checked)
      end
  end.

Definition projection_keys (want stored : gmap key Volumes) : list key :=
  merge_sort key_le (elements (dom want ∪ dom stored)).

Definition verifyTransactionsMatchLog (d : Database) (logged : gset Z) : res projection_failure unit :=
  let ids := (map_rows Z.le (transactions d)).*1 in
  let! _ := match find (fun id => negb (bool_decide (id ∈ logged))) ids with
            | Some id => Err (NeverLogged id)
            | None => Ok tt
            end in
  when (negb (length ids =? size logged)%nat) (CountDiffers (size logged) (length ids)).

Definition VerifyProjection (d : Database) : nat * res projection_failure unit :=
  match replayLog d with
  | Err e => (0%nat, Err e)
  | Ok (want, seen) =>
      let stored := storedVolumes d in
      match check_keys want stored (projection_keys want stored) 0 with
      | (checked, Err e) => (checked, Err e)
      | (checked, Ok _) => (checked, verifyTransactionsMatchLog d seen)
      end
  end.

End codec.

(** ** Conservation, per asset *)

Definition volume_assets (d : Database) : list Asset :=
  merge_sort String.le (remove_dups ((fun kv => kv.1.2) <$> map_to_list (volumes d))).

(** [sum(input) - sum(output), count] of one asset's rows *)
Definition conservation_row (d : Database) (a : Asset) : Z * nat :=
  let rows := filter (fun kv : key * VolumeRow => kv.1.2 = a) (map_to_list (volumes d)) in
  (sumZ (fun kv => Input (volumes_of kv.2)) rows - sumZ (fun kv => Output (volumes_of kv.2)) rows, length rows).

(** The assets that drifted; none is a nil error. *)
Definition VerifyConservation (d : Database) : nat * list (Asset * Z) :=
  let rows := (fun a => (a, conservation_row d a)) <$> volume_assets d in
  (foldr (fun r n => (r.2.2 + n)%nat) 0%nat rows,
   omap (fun r => if r.2.1 =? 0 then None else Some (r.1, r.2.1)) rows).

(** ** What the replay is *)

Section codec.
Context {codec : Codec}.

Lemma replay_rows_app rows1 rows2 acc :
  replay_rows (rows1 ++ rows2) acc = let! acc := replay_rows rows1 acc in replay_rows rows2 acc.
Proof.
  revert acc. induction rows1 as [|[id r] rows1 IH]; intros acc; [done|]. simpl.
  destruct (replay_entry acc id r); simpl; [apply IH|done].
Qed.

Lemma replay_posting_lookup (v : gmap key Volumes) p k :
  default NewVolumes (replay_posting v p !! k) =
  vadd (default NewVolumes (v !! k)) {| Input := delta_in [p] k; Output := delta_out [p] k |}.
Proof.
  unfold replay_posting. rewrite !apply_lookup, <-vadd_assoc. f_equal.
  rewrite <-halves_total, halves_cons, !vsum_cons.
  change (vsum (half_at k) (halves [])) with NewVolumes. by rewrite vadd_zero_r.
Qed.

Lemma replay_posting_dom (v : gmap key Volumes) p k :
  is_Some (replay_posting v p !! k) <-> is_Some (v !! k) \/ source_key p = k \/ destination_key p = k.
Proof.
  unfold replay_posting, Moves.apply. rewrite !lookup_insert_is_Some.
  destruct (decide (destination_key p = k)), (decide (source_key p = k)); naive_solver.
Qed.

Lemma replay_postings_lookup (q : Postings) (v : gmap key Volumes) k :
  default NewVolumes (foldl replay_posting v q !! k) =
  vadd (default NewVolumes (v !! k)) {| Input := delta_in q k; Output := delta_out q k |}.
Proof.
  revert v. induction q as [|p q IH]; intros v; simpl.
  - by rewrite vadd_zero_r.
  - rewrite IH, replay_posting_lookup, <-vadd_assoc. f_equal.
    unfold delta_in, delta_out. volumes.
Qed.

Lemma replay_postings_dom (q : Postings) (v : gmap key Volumes) k :
  is_Some (foldl replay_posting v q !! k) <-> is_Some (v !! k) \/ touched q k.
Proof.
  revert v. induction q as [|p q IH]; intros v; cbn [foldl].
  - unfold touched. set_solver.
  - rewrite IH, replay_posting_dom. unfold touched. setoid_rewrite elem_of_cons. naive_solver.
Qed.

(** ** The projection, as an invariant *)

(** Replaying the log gives every stored volume and every transaction. *)
Record projected (d : Database) (want : gmap key Volumes) (seen : gset Z) : Prop := {
  projected_replay : replayLog d = Ok (want, seen);
  projected_volumes : forall k, default NewVolumes (want !! k) = volume_at d k;
  projected_rows : forall k, is_Some (want !! k) -> is_Some (volumes d !! k);
  projected_transactions : forall id, id ∈ seen <-> is_Some (transactions d !! id);
}.

Definition projection_ok (d : Database) : Prop := exists want seen, projected d want seen.

Lemma check_keys_Ok want stored ks c n :
  check_keys want stored ks c = (n, Ok tt) <->
  n = (c + length ks)%nat /\ forall k, k ∈ ks -> check_projection want stored k = None.
Proof.
  revert c. induction ks as [|k ks IH]; intros c; simpl.
  - split; [intros [= ->]; split; [lia|set_solver]|]. intros [-> _]. f_equal. lia.
  - destruct (check_projection want stored k) eqn:Hk.
    + split; [done|]. intros [_ Hall]. rewrite (Hall k) in Hk; [done|left].
    + rewrite IH. setoid_rewrite elem_of_cons. split.
      * intros [-> ?]. split; [lia|]. naive_solver.
      * intros [-> ?]. split; [lia|]. naive_solver.
Qed.

Lemma check_projection_None want stored k :
  check_projection want stored k = None <->
  default NewVolumes (want !! k) = default NewVolumes (stored !! k) /\
  (is_Some (want !! k) -> is_Some (stored !! k)).
Proof.
  unfold check_projection. destruct (want !! k) as [[wi wo]|], (stored !! k) as [[i o]|]; simpl.
  - destruct (Z.eqb_spec i wi) as [->|Hi]; simpl; [destruct (Z.eqb_spec o wo) as [->|Ho]; simpl|].
    + naive_solver.
    + split; [done|]. intros [[= ?] _]. congruence.
    + split; [done|]. intros [[= ? ?] _]. congruence.
  - split; [done|]. intros [_ H]. destruct (H ltac:(done)). done.
  - unfold Balance, NewVolumes; simpl. destruct (Z.eqb_spec (i - o) 0); simpl;
      [destruct (Z.eqb_spec i 0); simpl|]; split; try done.
    + intros _. split; [f_equal; lia|]. by intros [].
    + intros [[= ? ?] _]. lia.
    + intros [[= ? ?] _]. lia.
  - split; [|done]. intros _. split; [done|]. by intros [].
Qed.

Lemma stored_volume_at d k : default NewVolumes (storedVolumes d !! k) = volume_at d k.
Proof. unfold storedVolumes, volume_at. rewrite lookup_fmap. by destruct (volumes d !! k). Qed.

Lemma match_log_Ok d (seen : gset Z) :
  verifyTransactionsMatchLog d seen = Ok tt <->
  forall id, id ∈ seen <-> is_Some (transactions d !! id).
Proof.
  unfold verifyTransactionsMatchLog. set (ids := (map_rows Z.le (transactions d)).*1).
  assert (forall id, id ∈ ids <-> is_Some (transactions d !! id)) as Hids.
  { intros id. unfold ids. rewrite list_elem_of_fmap. split.
    - intros ([i r] & -> & Hin%elem_of_map_rows). by eexists.
    - intros [r Hr]. exists (id, r). split; [done|]. by apply elem_of_map_rows. }
  assert (NoDup ids) as Hnd by apply map_rows_NoDup.
  assert (size (list_to_set ids : gset Z) = length ids) as Hsz by by apply size_list_to_set.
  destruct (find _ ids) as [id|] eqn:Hf; simpl.
  - apply find_some in Hf as [Hin Hn]. apply list_elem_of_In, Hids in Hin.
    apply negb_true_iff, bool_decide_eq_false in Hn. split; [done|]. intros Hall. by apply Hall in Hin.
  - assert (forall id, id ∈ ids -> id ∈ seen) as Hsub.
    { intros id Hin. apply list_elem_of_In in Hin. pose proof (find_none _ _ Hf id Hin) as Hn.
      apply negb_false_iff, bool_decide_eq_true in Hn. done. }
    rewrite when_Ok, negb_false_iff, Nat.eqb_eq. split.
    + intros Hlen id. split; [|by intros Hs; apply Hsub, Hids].
      intros Hin. apply Hids. assert (list_to_set ids = seen) as <-; [|by apply elem_of_list_to_set in Hin].
      apply set_eq, set_subseteq_size_equiv; [set_solver|lia].
    + intros Hall. rewrite <-Hsz. f_equal. apply set_eq. intros id. rewrite elem_of_list_to_set, Hids.
      symmetry. apply Hall.
Qed.

Lemma verify_projection_iff d n :
  VerifyProjection d = (n, Ok tt) <->
  exists want seen, projected d want seen /\ n = size (dom want ∪ dom (volumes d)).
Proof.
  unfold VerifyProjection. split.
  - destruct (replayLog d) as [[want seen]|] eqn:Hr; [|done].
    destruct (check_keys _ _ _ 0) as [c [[]|]] eqn:Hc; [|done]. intros [= <- Hm]. pose proof (proj1 (match_log_Ok d seen) Hm) as Hm'.
    apply check_keys_Ok in Hc as [-> Hall]. exists want, seen.
    assert (forall k, check_projection want (storedVolumes d) k = None) as Hk.
    { intros k. destruct (decide (k ∈ dom want ∪ dom (storedVolumes d))) as [Hin|Hn].
      - apply Hall. unfold projection_keys. by rewrite merge_sort_Permutation, elem_of_elements.
      - apply not_elem_of_union in Hn as [Hw%not_elem_of_dom Hs%not_elem_of_dom].
        unfold check_projection. by rewrite Hw, Hs. }
    split.
    + split; [done|..|done].
      * intros k. rewrite <-stored_volume_at. by apply check_projection_None.
      * intros k Hw. destruct (proj1 (check_projection_None _ _ _) (Hk k)) as [_ Hs].
        specialize (Hs Hw). unfold storedVolumes in Hs. rewrite lookup_fmap in Hs. by apply fmap_is_Some in Hs.
    + unfold projection_keys. rewrite merge_sort_Permutation. unfold storedVolumes. by rewrite dom_fmap_L.
  - intros (want & seen & [-> Hv Hrows Ht] & ->).
    assert (check_keys want (storedVolumes d) (projection_keys want (storedVolumes d)) 0 =
            (size (dom want ∪ dom (volumes d)), Ok tt)) as ->.
    { apply check_keys_Ok. split.
      - unfold projection_keys. rewrite merge_sort_Permutation. unfold storedVolumes. by rewrite dom_fmap_L.
      - intros k _. apply check_projection_None. rewrite stored_volume_at. split; [done|].
        intros Hw. unfold storedVolumes. rewrite lookup_fmap. by apply fmap_is_Some, Hrows. }
    f_equal. by apply match_log_Ok.
Qed.

Lemma verify_projection_passes d : (VerifyProjection d).2 = Ok tt <-> projection_ok d.
Proof.
  destruct (VerifyProjection d) as [n r] eqn:Hv. simpl. split.
  - intros ->. apply verify_projection_iff in Hv as (want & seen & ? & _). by exists want, seen.
  - intros (want & seen & Hp).
    pose proof (proj2 (verify_projection_iff d _) (ex_intro _ want (ex_intro _ seen (conj Hp eq_refl)))) as H.
    congruence.
Qed.

(** ** What the log says

    Entry by entry, without replaying: the transactions the entries carry, and
    what their postings add up to. *)

(** The transaction an entry tells of: the one committed, or the one that
    reversed another. *)
Definition told_by (r : LogRow) : option Transaction :=
  match log_type r with
  | LogNewTransaction => unmarshal_transaction (data r)
  | LogRevertedTransaction => unmarshal_reverted (data r) ≫= snd
  | LogSetMetadata | LogDeleteMetadata | LogRecovery => None
  end.

Definition told_in (d : Database) : list Transaction := omap (fun kv : Z * LogRow => told_by kv.2) (map_rows Z.le (logs d)).

(** An entry of the two kinds that move value can be read, amounts and all. *)
Definition legible (r : LogRow) : Prop :=
  log_type r = LogNewTransaction \/ log_type r = LogRevertedTransaction ->
  exists t, told_by r = Some t /\ Forall (fun x => is_Some (Amount x)) (TPostings t).

(** The pairs a list of postings touches. *)
Definition sides (p : Postings) : list key := flat_map (fun x => [source_key x; destination_key x]) p.

(** The log and the two tables tell the same: every counter is the sum of what
    the postings told of put there, every pair they touch has a row, and the
    transactions held are, by id, the ones told of. *)
Record tells (d : Database) : Prop := {
  tells_legible : map_Forall (fun _ r => legible r) (logs d);
  tells_volumes : forall k, volume_at d k =
    {| Input := sumZ (fun t => delta_in (TPostings t) k) (told_in d); Output := sumZ (fun t => delta_out (TPostings t) k) (told_in d) |};
  tells_rows : forall t k, t ∈ told_in d -> k ∈ sides (TPostings t) -> is_Some (volumes d !! k);
  tells_transactions : forall id, is_Some (transactions d !! id) <-> exists t, t ∈ told_in d /\ TxID t = id;
}.

Lemma elem_of_sides p k : k ∈ sides p <-> touched p k.
Proof.
  unfold sides, touched. induction p as [|x p IH]; cbn [flat_map]; [set_solver|].
  rewrite elem_of_app, IH. setoid_rewrite elem_of_cons. set_solver.
Qed.

Lemma nil_amounts p : has_nil_amount p = false <-> Forall (fun x => is_Some (Amount x)) p.
Proof.
  unfold has_nil_amount. induction p as [|x p IH]; cbn [existsb]; [by split|].
  rewrite orb_false_iff, Forall_cons, IH, bool_decide_eq_false, <-not_eq_None_Some. done.
Qed.

(** One step of the replay, by what its entry tells. *)
Lemma replay_entry_told acc id r acc' :
  replay_entry acc id r = Ok acc' <->
  legible r /\ acc' = from_option (fun t => (foldl replay_posting acc.1 (TPostings t), {[ TxID t ]} ∪ acc.2)) acc (told_by r).
Proof.
  unfold replay_entry, logged_transaction, legible, told_by.
  assert (forall t : Transaction, (let! _ := when (has_nil_amount (TPostings t)) (NilAmount id) in
      Ok (foldl replay_posting acc.1 (TPostings t), {[ TxID t ]} ∪ acc.2)) = Ok acc' <->
    Forall (fun x => is_Some (Amount x)) (TPostings t) /\ acc' = (foldl replay_posting acc.1 (TPostings t), {[ TxID t ]} ∪ acc.2)) as Ht.
  { intros t. rewrite rbind_Ok, <-nil_amounts. split.
    - by intros ([] & ?%when_Ok & [= <-]).
    - intros [? ->]. exists tt. by rewrite when_Ok. }
  destruct (log_type r); cbn [rbind from_option].
  - destruct (unmarshal_transaction (data r)) as [t|]; cbn [rbind from_option]; [rewrite Ht|]; naive_solver.
  - destruct (unmarshal_reverted (data r)) as [[i [t|]]|]; cbn [rbind from_option mbind option_bind snd]; [rewrite Ht|..]; naive_solver.
  - naive_solver.
  - naive_solver.
  - naive_solver.
Qed.

(** A whole replay, by what its entries tell. *)
Lemma replay_rows_told rows acc acc' :
  replay_rows rows acc = Ok acc' <->
  Forall (fun kv : Z * LogRow => legible kv.2) rows /\
  acc' = foldl (fun acc t => (foldl replay_posting acc.1 (TPostings t), {[ TxID t ]} ∪ acc.2)) acc
           (omap (fun kv : Z * LogRow => told_by kv.2) rows).
Proof.
  revert acc. induction rows as [|[id r] rows IH]; intros acc; cbn [replay_rows omap list_omap snd].
  { split; [intros [= <-]; by split|by intros [_ ->]]. }
  rewrite rbind_Ok, Forall_cons. setoid_rewrite replay_entry_told. setoid_rewrite IH. cbn [snd].
  destruct (told_by r) as [t|]; cbn [from_option foldl]; naive_solver.
Qed.

Lemma fold_told (ts : list Transaction) (acc : gmap key Volumes * gset Z) :
  let acc' := foldl (fun acc t => (foldl replay_posting acc.1 (TPostings t), {[ TxID t ]} ∪ acc.2)) acc ts in
  (forall k, default NewVolumes (acc'.1 !! k) = vadd (default NewVolumes (acc.1 !! k))
     {| Input := sumZ (fun t => delta_in (TPostings t) k) ts; Output := sumZ (fun t => delta_out (TPostings t) k) ts |}) /\
  (forall k, is_Some (acc'.1 !! k) <-> is_Some (acc.1 !! k) \/ exists t, t ∈ ts /\ k ∈ sides (TPostings t)) /\
  (forall id, id ∈ acc'.2 <-> id ∈ acc.2 \/ exists t, t ∈ ts /\ TxID t = id).
Proof.
  revert acc. induction ts as [|t ts IH]; intros acc; cbn [foldl].
  { split_and!; [intros k; by rewrite vadd_zero_r|set_solver..]. }
  destruct (IH (foldl replay_posting acc.1 (TPostings t), {[ TxID t ]} ∪ acc.2)) as (Hv & Hk & Hi). cbn [fst snd] in *.
  split_and!.
  - intros k. rewrite Hv, replay_postings_lookup, <-vadd_assoc. by f_equal.
  - intros k. rewrite Hk, replay_postings_dom. setoid_rewrite elem_of_sides. setoid_rewrite elem_of_cons. naive_solver.
  - intros id. rewrite Hi, elem_of_union, elem_of_singleton. setoid_rewrite elem_of_cons. naive_solver.
Qed.

(** The replay gives what the log tells. *)
Lemma replay_tells d want seen :
  replayLog d = Ok (want, seen) <->
  map_Forall (fun _ r => legible r) (logs d) /\
  (want, seen) = foldl (fun acc t => (foldl replay_posting acc.1 (TPostings t), {[ TxID t ]} ∪ acc.2)) (∅, ∅) (told_in d).
Proof.
  unfold replayLog. rewrite replay_rows_told. apply and_iff_compat_r. rewrite Forall_forall, map_Forall_lookup. split.
  - intros H id r Hr. apply (H (id, r)). by apply elem_of_map_rows.
  - intros H [id r] Hin%elem_of_map_rows. by eapply H.
Qed.

Lemma projected_tells d want seen : projected d want seen -> tells d /\ forall k, is_Some (want !! k) <-> exists t, t ∈ told_in d /\ k ∈ sides (TPostings t).
Proof.
  intros [[Hl Heq]%replay_tells Hv Hr Ht]. destruct (fold_told (told_in d) (∅, ∅)) as (Hvol & Hdom & Hids).
  rewrite <-Heq in Hvol, Hdom, Hids. cbn [fst snd] in *.
  assert (forall k, is_Some (want !! k) <-> exists t, t ∈ told_in d /\ k ∈ sides (TPostings t)) as Hw.
  { intros k. rewrite Hdom, lookup_empty. split; [intros [[? [=]]|?]; done|by right]. }
  split; [split|exact Hw].
  - exact Hl.
  - intros k. rewrite <-Hv, Hvol, lookup_empty. apply vadd_zero_l.
  - intros t k Hin Hk. apply Hr, Hw. eauto.
  - intros id. rewrite <-Ht, Hids. set_solver.
Qed.

Lemma tells_projection d : tells d -> projection_ok d.
Proof.
  intros [Hl Hv Hr Ht]. destruct (fold_told (told_in d) (∅, ∅)) as (Hvol & Hdom & Hids).
  destruct (foldl _ (∅, ∅) (told_in d)) as [want seen] eqn:Heq. cbn [fst snd] in *. exists want, seen. split.
  - by apply replay_tells.
  - intros k. rewrite Hvol, lookup_empty, Hv. apply vadd_zero_l.
  - intros k [[? [=]]|(t & Hin & Hk)]%Hdom. by eapply Hr.
  - intros id. rewrite Ht, Hids. set_solver.
Qed.

(** C26: the projection check is sound and complete. [VerifyProjection] passes
    exactly when the volumes and the transactions' ids are what the log tells:
    every entry that moves value can be read, every counter of every account is
    the sum of what the postings of those entries -- commits and reversals --
    put there, no pair they touch lacks its row, and the ids in the table are
    theirs; and it has then examined every pair of either side. Of a transaction
    nothing but its id is looked at ([altered_postings_pass]). *)
Theorem verify_projection_decides (d : Database) :
  ((VerifyProjection d).2 = Ok tt <-> tells d) /\
  ((VerifyProjection d).2 = Ok tt ->
     (VerifyProjection d).1 = size (list_to_set (told_in d ≫= fun t => sides (TPostings t)) ∪ dom (volumes d))).
Proof.
  rewrite verify_projection_passes. split; [split|].
  - intros (want & seen & Hp). by apply (projected_tells d want seen).
  - apply tells_projection.
  - intros (want & seen & Hp). rewrite (proj2 (verify_projection_iff d _) (ex_intro _ want (ex_intro _ seen (conj Hp eq_refl)))).
    cbn [fst]. apply projected_tells in Hp as [_ Hw]. f_equal. f_equal. apply set_eq. intros k.
    rewrite elem_of_dom, Hw, elem_of_list_to_set, list_elem_of_bind. naive_solver.
Qed.

(** ** Extending the log *)

(** An entry above every other that carries no transaction. *)
Lemma projection_extend_other d d' id r :
  (forall i, is_Some (logs d !! i) -> i < id) -> logs d' = <[id := r]> (logs d) ->
  logged_transaction id r = Ok None ->
  (forall k, volume_at d' k = volume_at d k) ->
  (forall k, is_Some (volumes d !! k) -> is_Some (volumes d' !! k)) ->
  (forall i, is_Some (transactions d' !! i) <-> is_Some (transactions d !! i)) ->
  projection_ok d -> projection_ok d'.
Proof.
  intros Hlt Hlogs Hnone Hv Hrows Ht (want & seen & [Hr Hvol Hwr Htx]). exists want, seen. split.
  - unfold replayLog in *. rewrite Hlogs, (log_rows_insert d id r Hlt), replay_rows_app.
    unfold log_rows. rewrite Hr. simpl. unfold replay_entry. by rewrite Hnone.
  - intros k. by rewrite Hv.
  - intros k Hk. by apply Hrows, Hwr.
  - intros i. by rewrite Ht.
Qed.

(** An entry above every other that carries the transaction just written. *)
Lemma projection_extend d d' id r t :
  (forall i, is_Some (logs d !! i) -> i < id) -> logs d' = <[id := r]> (logs d) ->
  logged_transaction id r = Ok (Some t) -> has_nil_amount (TPostings t) = false ->
  (forall k, volume_at d' k = vadd (volume_at d k)
                                {| Input := delta_in (TPostings t) k; Output := delta_out (TPostings t) k |}) ->
  (forall k, is_Some (volumes d !! k) \/ touched (TPostings t) k -> is_Some (volumes d' !! k)) ->
  (forall i, is_Some (transactions d' !! i) <-> i = TxID t \/ is_Some (transactions d !! i)) ->
  projection_ok d -> projection_ok d'.
Proof.
  intros Hlt Hlogs Hsome Hnil Hv Hrows Ht (want & seen & [Hr Hvol Hwr Htx]).
  exists (foldl replay_posting want (TPostings t)), ({[ TxID t ]} ∪ seen). split.
  - unfold replayLog in *. rewrite Hlogs, (log_rows_insert d id r Hlt), replay_rows_app.
    unfold log_rows. rewrite Hr. simpl. unfold replay_entry. rewrite Hsome. simpl. by rewrite Hnil.
  - intros k. by rewrite Hv, replay_postings_lookup, Hvol.
  - intros k [Hk|Hk]%replay_postings_dom; apply Hrows; [left; by apply Hwr|by right].
  - intros i. rewrite Ht, elem_of_union, elem_of_singleton, Htx. done.
Qed.

(** ** A commit keeps it *)

Lemma recorded_amounts (q : Postings) : recorded q -> has_nil_amount q = false.
Proof.
  intros Hq. apply not_true_iff_false. intros Hn. apply existsb_exists in Hn as (x & Hx & Hn).
  apply list_elem_of_In in Hx. apply bool_decide_eq_true in Hn.
  destruct (proj1 (Forall_forall _ _) Hq x Hx) as (_ & _ & _ & _ & a & Ha & _). congruence.
Qed.

Lemma applied_rows_kept now_ db_now_ p opts us t alloc d d' k :
  applied now_ db_now_ p opts us t alloc d d' ->
  is_Some (volumes d !! k) \/ touched (TPostings t) k -> is_Some (volumes d' !! k).
Proof.
  intros Ha Hk. rewrite (applied_rows _ _ _ _ _ _ _ _ _ Ha). case_decide as Hin; [by eexists|].
  destruct Hk as [?|Ht]; [done|]. by apply (updates_touched _ _ (applied_updates _ _ _ _ _ _ _ _ _ Ha)) in Ht.
Qed.

Lemma applied_transactions now_ db_now_ p opts us t alloc d d' i :
  applied now_ db_now_ p opts us t alloc d d' ->
  is_Some (transactions d' !! i) <-> i = TxID t \/ is_Some (transactions d !! i).
Proof.
  intros Ha. destruct (applied_transaction _ _ _ _ _ _ _ _ _ Ha) as (_ & m & _ & ->).
  rewrite lookup_insert_is_Some. destruct (decide (TxID t = i)) as [->|]; naive_solver.
Qed.

Lemma log_ids_below d : log_ok d ->
  forall i, is_Some (logs d !! i) -> exists l, ledger_row d = Some l /\ i <= last_log_id l.
Proof.
  unfold log_ok. intros Hok i Hi. destruct (ledger_row d) as [l|].
  - exists l. split; [done|]. by apply (chain_ids _ _ Hok).
  - destruct Hok as [He _]. rewrite He, lookup_empty in Hi. by destruct Hi.
Qed.

Lemma landed_commit_projection E p opts h d0 t d' :
  landed_commit E p opts h d0 t d' -> Validate p = None -> text_map_ok (default ∅ (OMetadata opts)) ->
  log_ok d0 -> projection_ok d0 -> projection_ok d'.
Proof.
  intros [(us & alloc & d1 & Ha & bytes & Hm & _ & _ & ->) _] Hv Hmeta Hlog Hp.
  destruct (applied_ledger _ _ _ _ _ _ _ _ _ Ha) as (l & Hl & _ & Halloc & _).
  pose proof (applied_recorded _ _ _ _ _ _ _ _ _ Ha Hv) as Hrec.
  eapply (projection_extend d0 _ (logID alloc)); [|simpl; reflexivity|..]; cbn [volumes transactions set_pending
    set_ledger_row set_logs volume_at]; [|..|exact Hp].
  - intros i Hi. destruct (log_ids_below _ Hlog i Hi) as (l' & Hl' & Hle).
    rewrite Halloc. simpl. replace l' with l in Hle by congruence. lia.
  - unfold logged_transaction. simpl.
    rewrite (unmarshal_marshal_transaction t bytes); [done| |done]. by eapply applied_storable.
  - by apply recorded_amounts.
  - intros k. apply (applied_volume_at _ _ _ _ _ _ _ _ _ Ha).
  - intros k. by eapply applied_rows_kept.
  - intros i. by eapply applied_transactions.
Qed.

(** The log is the source of truth. A commit keeps the tables the
    projection of the log: if [VerifyProjection] passes before, it passes after,
    whatever the service and the other sessions did, provided they keep it too. *)
Theorem commit_keeps_projection (W : Weather) (p : Postings) (opts : CommitOptions) (s : Store) :
  (forall n d, log_ok d /\ (VerifyProjection d).2 = Ok tt ->
     log_ok (landed (attempt_env W n) d) /\ (VerifyProjection (landed (attempt_env W n) d)).2 = Ok tt) ->
  text_map_ok (default ∅ (OMetadata opts)) ->
  log_ok (db s) -> (VerifyProjection (db s)).2 = Ok tt ->
  (VerifyProjection (db (CommitTransaction W p opts s).2)).2 = Ok tt.
Proof.
  intros HW Hmeta Hlog Hp. destruct (CommitTransaction W p opts s) as [r s'] eqn:H.
  apply (commit_keeps (fun d => log_ok d /\ (VerifyProjection d).2 = Ok tt) W p opts s r s' H HW);
    [|by split].
  intros n h d0 t d' Hv _ Hc [Hl0 Hp0]. split; [by eapply landed_commit_log|].
  apply verify_projection_passes. apply verify_projection_passes in Hp0. by eapply landed_commit_projection.
Qed.

End codec.

Lemma new_ledger_projection : (VerifyProjection new_ledger).2 = Ok tt.
Proof. vm_compute. reflexivity. Qed.

Lemma commit_keeps_projection_witness :
  (VerifyProjection (db (CommitTransaction calm deposit no_options new_store).2)).2 = Ok tt.
Proof.
  apply (commit_keeps_projection calm); [done|apply map_Forall_empty|apply new_ledger_log
    |apply new_ledger_projection].
Defined.

(** One deposit. *)
Lemma verify_projection_decides_witness :
  tells (db funded_store) /\ length (told_in (db funded_store)) = 1%nat /\ (VerifyProjection (db funded_store)).1 = 2%nat.
Proof.
  assert ((VerifyProjection (db funded_store)).2 = Ok tt) as H by (vm_compute; reflexivity).
  split; [exact (proj1 (proj1 (verify_projection_decides (db funded_store))) H)|].
  assert (length (told_in (db funded_store)) = 1%nat) as Hlen by (vm_compute; reflexivity). split; [exact Hlen|].
  rewrite (proj2 (verify_projection_decides (db funded_store)) H). vm_compute. reflexivity.
Defined.

(** The same deposit, with the postings of its row rewritten: the log, the
    volumes and the ids still agree. *)
Definition altered : Database :=
  let forged (r : TransactionRow) :=
    {| timestamp := timestamp r; inserted_at := inserted_at r; reverted_at := reverted_at r; reference := reference r;
       postings := [pay "world" "users:mallory" 1]; tx_metadata := tx_metadata r; sources := sources r;
       destinations := destinations r; pc_volumes := pc_volumes r |} in
  set_transactions (forged <$> transactions (db funded_store)) (db funded_store).

Example altered_postings_pass :
  (postings <$> transactions altered !! 1) = Some [pay "world" "users:mallory" 1] /\
  (VerifyProjection altered).2 = Ok tt /\ (VerifyLog altered).2 = Ok tt /\ (VerifyConservation altered).2 = [].
Proof. vm_compute. done. Qed.
