(* ===== verification/Invariant.v ===== *)
(** * The invariant of a ledger

    Everything the checks look for, as one invariant of the tables, and the
    steps that keep it: one transaction with its log entry, one log entry of
    any other kind. Every operation of package storage is made of these. *)

From S2P Require Import Prelude Identifiers Text Posting Volumes Sha256 GoTime Transaction Codec Encoding Errors Schema Txn Locking Guards Moves History Log Observer Commit Committed Book Chain Sample CommitSpec Replay Verify.

(** Stored transactions have real postings. *)
Definition stored_ok (d : Database) : Prop :=
  map_Forall (fun _ r => recorded (postings r)) (transactions d).

Section codec.
Context {codec : Codec}.

Record ledger_ok (d : Database) : Prop := {
  lo_sound : sound d;
  lo_log : log_ok d;
  lo_keys : keys_unique d;
  lo_projection : projection_ok d;
  lo_stored : stored_ok d;
}.

(** Outside a transaction. *)
Definition settled_ok (d : Database) : Prop := ledger_ok d /\ pending d = [].

(** ** One transaction and its entry *)

(** What a reversal adds between the two: a mark on the original's row. *)
Definition marked (at_ : Instant) (r : TransactionRow) : TransactionRow :=
  {| timestamp := timestamp r; inserted_at := inserted_at r; reverted_at := Some at_;
     reference := reference r; postings := postings r; tx_metadata := tx_metadata r;
     sources := sources r; destinations := destinations r; pc_volumes := pc_volumes r |}.

(** Rows may have been annotated, none added or removed, no posting changed. *)
Definition annotated (d d' : Database) : Prop :=
  d' = set_transactions (transactions d') d /\
  forall id, postings <$> transactions d' !! id = postings <$> transactions d !! id.

Lemma annotated_refl d : annotated d d.
Proof. split; [by destruct d|done]. Qed.

Lemma annotated_is_Some d d' id :
  annotated d d' -> is_Some (transactions d' !! id) <-> is_Some (transactions d !! id).
Proof.
  intros [_ H]. specialize (H id).
  destruct (transactions d' !! id), (transactions d !! id); simpl in H; naive_solver.
Qed.

Lemma annotated_stored d d' : annotated d d' -> stored_ok d -> stored_ok d'.
Proof.
  intros [_ Ha] Hs id r Hr. specialize (Ha id). rewrite Hr in Ha. simpl in Ha.
  destruct (transactions d !! id) as [r0|] eqn:Hr0; simpl in Ha; [|done]. injection Ha as ->.
  by apply (Hs id).
Qed.

(** One transaction landed: its rows, the annotations, its log entry. *)
Record transaction_step (d d' : Database) (t : Transaction) : Prop := {
  ts_parts : exists now db_now p opts us alloc d1 d2 pl dt key h,
    applied now db_now p opts us t alloc d d1 /\ recorded (TPostings t) /\ text_map_ok (AOMetadata opts) /\
    annotated d1 d2 /\ entry_appended alloc pl dt key h d2 d' /\
    (pl = PTransaction t \/ exists id, int64_ok id /\ pl = PReverted id t);
}.

Lemma logged_of_entry a pl dt key h bytes id t :
  storable t -> marshal pl = Some bytes ->
  (pl = PTransaction t \/ exists i, int64_ok i /\ pl = PReverted i t) ->
  logged_transaction id (entry_row a pl dt key h bytes) = Ok (Some t).
Proof.
  intros Hst Hm [-> |(i & Hi & ->)]; unfold logged_transaction; simpl.
  - by rewrite (unmarshal_marshal_transaction t bytes).
  - by rewrite (unmarshal_marshal_reverted i t bytes).
Qed.

Lemma entry_keys (d d' : Database) a pl dt key h :
  entry_appended a pl dt key h d d' -> keys_unique d -> keys_unique d'.
Proof.
  intros (bytes & _ & _ & Hk & ->) Hu. eapply keys_unique_insert; [simpl; reflexivity|done|].
  simpl. intros k. case_bool_decide; [done|]. intros [= <-]. by apply Hk.
Qed.

Lemma transaction_step_log d d' t : transaction_step d d' t -> log_ok d -> log_ok d'.
Proof.
  intros [(now & db_now & p & opts & us & alloc & d1 & d2 & pl & dt & key & h & Ha & _ & _ & Han & He & _)] Hok.
  destruct He as (bytes & _ & _ & _ & ->).
  destruct (applied_ledger _ _ _ _ _ _ _ _ _ Ha) as (l & Hl & Hl' & Halloc & Hid & _).
  destruct (applied_rest _ _ _ _ _ _ _ _ _ Ha) as [Hlogs _].
  destruct Han as [Hd2 Hpost].
  assert (ledger_row d2 = Some (bump 1 1 l)) as Hl2 by by rewrite Hd2.
  assert (logs d2 = logs d) as Hlogs2 by by rewrite Hd2.
  unfold log_ok in *. rewrite Hl in Hok. cbn [ledger_row set_ledger_row set_logs]. rewrite Hl2. simpl.
  pose proof Hok as [_ Hid' _ _ Hpos Htxs].
  eapply (chain_append d _ l _ (last_log_id l + 1) (entry_row alloc pl dt key h bytes)); subst alloc;
    [exact Hok|lia| |reflexivity|reflexivity|reflexivity| |simpl; lia|].
  - simpl. by rewrite Hlogs2.
  - apply verify_entry_next with bytes; reflexivity.
  - simpl. intros i Hi. apply (annotated_is_Some d1 d2) in Hi; [|by split].
    apply (applied_transactions _ _ _ _ _ _ _ _ _ _ Ha) in Hi as [-> |Hi%Htxs]; lia.
Qed.

Lemma transaction_step_ok d d' t : transaction_step d d' t -> ledger_ok d -> ledger_ok d'.
Proof.
  intros Hstep [Hs Hlog Hk Hp Hst]. pose proof (transaction_step_log _ _ _ Hstep Hlog) as Hlog'.
  destruct Hstep as [(now & db_now & p & opts & us & alloc & d1 & d2 & pl & dt & key & h & Ha & Hrec & Hmeta & Han & He & Hpl)].
  destruct (applied_rest _ _ _ _ _ _ _ _ _ Ha) as [Hlogs Hassets].
  destruct (applied_ledger _ _ _ _ _ _ _ _ _ Ha) as (l & Hl & _ & Halloc & _).
  pose proof Han as [Hd2 Hpost]. assert (logs d2 = logs d) as Hlogs2 by by rewrite Hd2.
  assert (keys_unique d2) as Hk2 by (intros i j r r' k; rewrite Hlogs2; apply Hk).
  pose proof (entry_keys _ _ _ _ _ _ _ He Hk2) as Hk'.
  destruct He as (bytes & Hm & _ & _ & ->).
  assert (storable t) as Hstt by by eapply applied_storable.
  assert (stored_ok d2) as Hst2.
  { eapply annotated_stored; [done|]. destruct (applied_transaction _ _ _ _ _ _ _ _ _ Ha) as (_ & m & _ & Ht).
    unfold stored_ok. rewrite Ht. by apply map_Forall_insert_2. }
  split; [|done|done| |done].
  - pose proof (applied_sound _ _ _ _ _ _ _ _ _ Ha (recorded_nonneg _ Hrec) Hs) as Hs1.
    apply (sound_ext d1); [simpl; by rewrite Hd2..|done].
  - eapply (projection_extend d _ (logID alloc) _ t); [| | | | | | |exact Hp].
    + intros i Hi. destruct (log_ids_below _ Hlog i Hi) as (l' & Hl' & Hle).
      rewrite Halloc. simpl. replace l' with l in Hle by congruence. lia.
    + cbn [logs set_ledger_row set_logs]. by rewrite Hlogs2.
    + by apply logged_of_entry.
    + by apply recorded_amounts.
    + intros k. rewrite <-(applied_volume_at _ _ _ _ _ _ _ _ _ Ha k). unfold volume_at. simpl. by rewrite Hd2.
    + intros k Hrow. apply (applied_rows_kept _ _ _ _ _ _ _ _ _ k Ha) in Hrow. simpl. by rewrite Hd2.
    + intros i. rewrite <-(applied_transactions _ _ _ _ _ _ _ _ _ i Ha). simpl. by apply annotated_is_Some.
Qed.

(** ** Changes that touch neither money nor the log *)

Record benign (d d' : Database) : Prop := {
  be_volumes : volumes d' = volumes d;
  be_moves : moves d' = moves d;
  be_seq : next_seq d' = next_seq d;
  be_ledger : ledger_row d' = ledger_row d;
  be_logs : logs d' = logs d;
  be_pending : pending d' = pending d;
  be_assets : assets d ⊆ assets d';
  be_transactions : forall id, postings <$> transactions d' !! id = postings <$> transactions d !! id;
}.

Lemma benign_refl d : benign d d.
Proof. by split. Qed.

Lemma registered_mono d d' a : assets d ⊆ assets d' -> registered d a = true -> registered d' a = true.
Proof.
  unfold registered. intros Hsub Ha%bool_decide_eq_true. apply bool_decide_eq_true.
  destruct Ha as [x Hx]. exists x. by eapply lookup_weaken.
Qed.

Lemma same_postings_Some d d' id :
  (forall id, postings <$> transactions d' !! id = postings <$> transactions d !! id) ->
  is_Some (transactions d' !! id) <-> is_Some (transactions d !! id).
Proof.
  intros H. specialize (H id).
  destruct (transactions d' !! id), (transactions d !! id); simpl in H; naive_solver.
Qed.

Lemma stored_same d d' :
  (forall id, postings <$> transactions d' !! id = postings <$> transactions d !! id) ->
  stored_ok d -> stored_ok d'.
Proof.
  intros Ha Hs id r Hr. specialize (Ha id). rewrite Hr in Ha. simpl in Ha.
  destruct (transactions d !! id) as [r0|] eqn:Hr0; simpl in Ha; [|done]. injection Ha as ->.
  by apply (Hs id).
Qed.

Lemma log_ok_ext d d' :
  ledger_row d' = ledger_row d -> logs d' = logs d ->
  (forall id, is_Some (transactions d' !! id) <-> is_Some (transactions d !! id)) ->
  log_ok d -> log_ok d'.
Proof.
  intros Hl Hlogs Ht. unfold log_ok. rewrite Hl. destruct (ledger_row d) as [l|].
  - intros [Hv Hid Hh Hids Hpos Htx].
    assert (log_rows d' = log_rows d) as Hrows by (unfold log_rows; by rewrite Hlogs).
    split; rewrite ?Hrows; [|done..| | |].
    + unfold VerifyLog in *. by rewrite Hlogs.
    + by rewrite Hlogs.
    + done.
    + intros id Hi%Ht. by apply Htx.
  - intros [H1 H2]. rewrite Hlogs. split; [done|]. apply map_eq. intros id. rewrite lookup_empty.
    apply eq_None_not_Some. intros Hi%Ht. rewrite H2, lookup_empty in Hi. by destruct Hi.
Qed.

Lemma projection_ext d d' :
  logs d' = logs d -> (forall k, volume_at d' k = volume_at d k) ->
  (forall k, is_Some (volumes d !! k) -> is_Some (volumes d' !! k)) ->
  (forall id, is_Some (transactions d' !! id) <-> is_Some (transactions d !! id)) ->
  projection_ok d -> projection_ok d'.
Proof.
  intros Hlogs Hv Hrows Ht (want & seen & [Hr Hvol Hwr Htx]). exists want, seen. split.
  - unfold replayLog in *. by rewrite Hlogs.
  - intros k. by rewrite Hv.
  - intros k Hk. by apply Hrows, Hwr.
  - intros id. by rewrite Ht.
Qed.

Lemma benign_ok d d' : benign d d' -> ledger_ok d -> ledger_ok d'.
Proof.
  intros [Hv Hm Hn Hl Hlogs Hp Ha Ht] [Hs Hlog Hk Hpr Hst].
  assert (forall k, volume_at d' k = volume_at d k) as Hva by (intros k; unfold volume_at; by rewrite Hv).
  split.
  - destruct Hs as [Hc Hr Hnn Hmv Hh]. split.
    + intros a. unfold drift. rewrite Hv. apply Hc.
    + intros k r. rewrite Hv. intros Hrow. by apply (registered_mono d d'), (Hr k r).
    + intros k. rewrite Hva. apply Hnn.
    + intros k. by rewrite Hva, Hm.
    + by rewrite Hm, Hn.
  - eapply log_ok_ext; [done..| |done]. intros id. by apply same_postings_Some.
  - intros i j r r' k. rewrite Hlogs. apply Hk.
  - eapply projection_ext; [done|done| | |done].
    + intros k. by rewrite Hv.
    + intros id. by apply same_postings_Some.
  - by eapply stored_same.
Qed.

(** ** Rows that appear without moving money *)

(** Zero rows materialised under locks, permissions flipped: every counter of
    every pair reads the same. *)
Record same_money (d d' : Database) : Prop := {
  sm_volumes : forall k, volume_at d' k = volume_at d k;
  sm_rows : forall k, is_Some (volumes d !! k) -> is_Some (volumes d' !! k);
  sm_registered : forall k, is_Some (volumes d' !! k) -> is_Some (volumes d !! k) \/ registered d k.2 = true;
  sm_moves : moves d' = moves d;
  sm_seq : next_seq d' = next_seq d;
  sm_ledger : ledger_row d' = ledger_row d;
  sm_logs : logs d' = logs d;
  sm_assets : assets d' = assets d;
  sm_transactions : transactions d' = transactions d;
}.

Lemma drift_volume_at d d' a : (forall k, volume_at d' k = volume_at d k) -> drift d' a = drift d a.
Proof.
  intros Hv. unfold drift.
  rewrite (map_sum_differ _ (volumes d) (volumes d') (elements (dom (volumes d) ∪ dom (volumes d')))).
  - rewrite sumZ_zero; [lia|]. intros k _.
    assert (forall m : gmap key VolumeRow, from_option (fun r => if decide (k.2 = a) then Balance (volumes_of r) else 0) 0 (m !! k) =
              if decide (k.2 = a) then Balance (from_option volumes_of NewVolumes (m !! k)) else 0) as Hm.
    { intros m. destruct (m !! k); simpl; [done|]. by case_decide. }
    rewrite !Hm. specialize (Hv k). unfold volume_at in Hv. rewrite Hv. lia.
  - apply NoDup_elements.
  - intros k Hk. rewrite elem_of_elements, not_elem_of_union, !not_elem_of_dom in Hk.
    destruct Hk as [-> ->]. done.
Qed.

Lemma same_money_ok d d' : same_money d d' -> ledger_ok d -> ledger_ok d'.
Proof.
  intros [Hv Hrows Hreg Hm Hn Hl Hlogs Ha Ht] [Hs Hlog Hk Hp Hst].
  assert (forall id, is_Some (transactions d' !! id) <-> is_Some (transactions d !! id)) as Hti by by rewrite Ht.
  split.
  - destruct Hs as [Hc Hr Hnn Hmv Hh]. split.
    + intros a. by rewrite (drift_volume_at d d').
    + intros k r Hrow. unfold registered. rewrite Ha. fold (registered d k.2).
      destruct (Hreg k) as [[r0 Hr0]|?]; [by eexists|by apply (Hr k r0)|done].
    + intros k. rewrite Hv. apply Hnn.
    + intros k. by rewrite Hv, Hm.
    + by rewrite Hm, Hn.
  - by apply (log_ok_ext d).
  - intros i j r r' k. rewrite Hlogs. apply Hk.
  - by apply (projection_ext d).
  - unfold stored_ok. by rewrite Ht.
Qed.

Lemma lockVolumes_same_money us f d before d' : lockVolumes us f d = Ok (before, d') -> same_money d d'.
Proof.
  intros ([Hov Hv] & _ & Hreg & _)%lockVolumes_spec. split; try (by rewrite Hov).
  - intros k. unfold volume_at. rewrite Hv. destruct (volumes d !! k); [done|]. by case_decide.
  - intros k [r Hr]. rewrite Hv, Hr. by eexists.
  - intros k. rewrite Hv. destruct (volumes d !! k) as [r|] eqn:Hr; [left; by eexists|].
    case_decide as Hin; [right; by apply Hreg|by intros []].
Qed.

(** ** One entry of another kind *)

Definition moves_nothing (pl : payload) : Prop :=
  match pl with PTransaction _ | PReverted _ _ => False | _ => True end.

(** A freshly allocated log id, no transaction id, and an entry that carries no
    transaction. *)
Lemma other_entry_ok d d1 d' a pl dt :
  allocate_row 0 1 d = Ok (a, d1) -> entry_appended a pl dt EmptyString EmptyString d1 d' ->
  moves_nothing pl -> ledger_ok d -> ledger_ok d'.
Proof.
  intros (l & Hl & -> & -> & _ & _)%allocate_row_Ok He Hpl [Hs Hlog Hk Hp Hst].
  pose proof (entry_keys _ _ _ _ _ _ _ He Hk) as Hk'.
  destruct He as (bytes & Hm & _ & _ & ->). simpl in *.
  unfold log_ok in Hlog. rewrite Hl in Hlog. pose proof (chain_ids _ _ Hlog) as Hids.
  split; [by apply (sound_ext d)| |done| |done].
  - unfold log_ok. simpl.
    eapply (chain_append d _ l _ (last_log_id l + 1)); [exact Hlog|lia|reflexivity|reflexivity|reflexivity
      |reflexivity| |simpl; lia|].
    + apply verify_entry_next with bytes; reflexivity.
    + simpl. intros i Hi. rewrite Z.add_0_r. by apply (chain_tx_ids _ _ Hlog).
  - eapply projection_extend_other; [|simpl; reflexivity|..|exact Hp]; [| |done..].
    + intros i Hi%Hids. lia.
    + unfold logged_transaction. simpl. by destruct pl.
Qed.

(** The queue of deferred checks is no part of it. *)
Lemma pending_ok l d : ledger_ok d -> ledger_ok (set_pending l d).
Proof.
  intros [Hs Hlog Hk Hp Hst]. split; [by apply (sound_ext d)| | | |].
  - by apply (log_ok_ext d).
  - exact Hk.
  - by apply (projection_ext d).
  - exact Hst.
Qed.

(** A commit is one transaction step. *)
Lemma landed_commit_parts E p opts h d0 t d' :
  landed_commit E p opts h d0 t d' ->
  exists us alloc d1 d2, applied (now E) (db_now E) p (apply_options opts) us t alloc d0 d1 /\
    entry_appended alloc (PTransaction t) (db_now E) (OIdempotencyKey opts) h d1 d2 /\ d' = set_pending [] d2.
Proof.
  intros [(us & alloc & d1 & Ha & bytes & Hm & Hn & Hk & ->) _].
  destruct (applied_rest _ _ _ _ _ _ _ _ _ Ha) as [Hlogs _].
  exists us, alloc, d1. eexists. split; [exact Ha|]. split; [|reflexivity].
  exists bytes. rewrite Hlogs. split_and!; [done|done|]. intros r. split; [|done].
  intros Hne. destruct (Hk Hne) as [Hpg Hfree]. split; [done|]. unfold key_taken. by rewrite Hlogs.
Qed.

Lemma landed_commit_step E p opts h d0 t d' :
  landed_commit E p opts h d0 t d' -> Validate p = None -> text_map_ok (default ∅ (OMetadata opts)) ->
  exists d2, transaction_step d0 d2 t /\ d' = set_pending [] d2.
Proof.
  intros (us & alloc & d1 & d2 & Ha & He & ->)%landed_commit_parts Hv Hmeta. exists d2. split; [|reflexivity]. split.
  do 12 eexists. split_and!; [exact Ha|by eapply applied_recorded|exact Hmeta|apply annotated_refl|exact He|by left].
Qed.

Lemma commit_keeps_ledger (W : Weather) (p : Postings) (opts : CommitOptions) (s : Store) :
  text_map_ok (default ∅ (OMetadata opts)) ->
  (forall n d, settled_ok d -> settled_ok (landed (attempt_env W n) d)) ->
  settled_ok (db s) -> settled_ok (db (CommitTransaction W p opts s).2).
Proof.
  intros Hmeta HW Hs. destruct (CommitTransaction W p opts s) as [r s'] eqn:H.
  apply (commit_keeps settled_ok W p opts s r s' H HW); [|done].
  intros n h d0 t d' Hv _ Hc [Hok _]. destruct (landed_commit_step _ _ _ _ _ _ _ Hc Hv Hmeta) as (d2 & Hst & ->).
  split; [|done]. by eapply pending_ok, transaction_step_ok.
Qed.

(** Ids are issued one after the other. *)
Lemma step_ledger now_ db_now_ p opts us t alloc d d1 d2 d' pl dt key h :
  applied now_ db_now_ p opts us t alloc d d1 -> annotated d1 d2 -> entry_appended alloc pl dt key h d2 d' ->
  exists l l', ledger_row d = Some l /\ TxID t = last_tx_id l + 1 /\ logID alloc = last_log_id l + 1 /\
    ledger_row d' = Some l' /\ last_tx_id l' = last_tx_id l + 1 /\ last_log_id l' = last_log_id l + 1.
Proof.
  intros Ha [Hd2 _] (bytes & _ & _ & _ & ->).
  destruct (applied_ledger _ _ _ _ _ _ _ _ _ Ha) as (l & Hl & Hl' & Halloc & Hid & _).
  exists l, (set_hash (hash (entry_row alloc pl dt key h bytes)) (bump 1 1 l)).
  split_and!; [done|done|by rewrite Halloc| |reflexivity|reflexivity].
  simpl. rewrite Hd2. simpl. by rewrite Hl'.
Qed.

End codec.
