(* ===== verification/Revert.v ===== *)
(** * Reverting a transaction

    [storage/revert.go]: the inverse committed as an ordinary transaction, and
    the mark that makes it happen once. *)

From S2P Require Import Prelude Identifiers Text Decimal Posting Volumes Sha256 GoTime Transaction Codec Encoding Errors Schema Txn Locking Guards Moves History Log Observer Commit Committed Book Chain Sample CommitSpec Replay Effective Read Verify Invariant.

Record RevertOptions := { AtEffectiveDate : bool }.

Record Reversal := { Original : Transaction; TReversal : Transaction }.

(** [select ... for update] *)
Definition lockTransaction (id : Z) : Txn Transaction :=
  stmt SLockTransaction (fun d =>
    match transactions d !! id with
    | None => Err ErrNotFound
    | Some r => Ok (hydrateTransaction id r, d)
    end).

(** [update transactions set reverted_at = $3] *)
Definition mark_row (id : Z) (at_ : Instant) (d : Database) : Database :=
  set_transactions (alter (marked at_) id (transactions d)) d.

Definition with_reverted_at (at_ : Instant) (t : Transaction) : Transaction :=
  {| TxID := TxID t; TPostings := TPostings t; Timestamp := Timestamp t; InsertedAt := InsertedAt t;
     RevertedAt := Some at_; Reference := Reference t; TMetadata := TMetadata t;
     TPostCommitVolumes := TPostCommitVolumes t |}.

(** [ledger.Metadata{ledger.RevertsKey: strconv.FormatInt(id, 10)}] *)
Definition reverts_metadata (id : Z) : Metadata := {[ RevertsKey := print_Z id ]}.

Section codec.
Context {codec : Codec}.

Definition revert_body (E : Env) (id : Z) (opts : RevertOptions) : Txn (outcome Reversal) :=
  do! original := lockTransaction id in
  do! _ := lift (when (bool_decide (is_Some (RevertedAt original))) ErrAlreadyReverted) in
  let at_ := if AtEffectiveDate opts then Timestamp original else now E in
  do! inverse := lift (ledger_res (Reverse (TPostings original))) in
  do! ' (reversal, alloc) :=
    applyTransaction (now E) (db_now E) inverse
      {| AOTimestamp := {| unix_nano := at_; zone := 0 |}; AOReference := EmptyString;
         AOMetadata := reverts_metadata id |} in
  do! _ := exec SMarkReverted (fun d => Ok (mark_row id (Timestamp reversal) d)) in
  do! _ := appendLogEntry alloc (PReverted id reversal) (InsertedAt reversal) EmptyString EmptyString in
  commit {| Original := with_reverted_at (Timestamp reversal) original; TReversal := reversal |}.

Definition revertOnce (E : Env) (id : Z) (opts : RevertOptions) (d : Database)
    : res error Reversal * Database :=
  match fault E SBegin with
  | Some code => (Err (PgError code), d)
  | None => transact (fault E) (revert_body E id opts) (landed E d)
  end.

Fixpoint revert_attempts (W : Weather) (fuel attempt : nat) (id : Z) (opts : RevertOptions) (s : Store)
    : res error Reversal * Store :=
  match fuel with
  | O => (Err (GivingUp maxAttempts), s)
  | S fuel =>
      let '(r, d) := revertOnce (attempt_env W attempt) id opts (db s) in
      let s := with_db d s in
      match r with
      | Ok rev => (Ok rev, s)
      | Err e =>
          if retryable e then
            let s := count_retry s in
            if cancelled W attempt then (Err ContextError, s)
            else revert_attempts W fuel (S attempt) id opts s
          else (Err e, s)
      end
  end.

Definition RevertTransaction (W : Weather) (id : Z) (opts : RevertOptions) (s : Store)
    : res error Reversal * Store :=
  revert_attempts W maxAttempts 0 id opts s.

(** ** What a reversal did *)

Record landed_revert (E : Env) (id : Z) (opts : RevertOptions) (d0 : Database) (rev : Reversal)
    (d' : Database) : Prop := {
  lr_parts : exists row us alloc d1 d2,
    transactions d0 !! id = Some row /\ reverted_at row = None /\
    Original rev = with_reverted_at (Timestamp (TReversal rev)) (hydrateTransaction id row) /\
    (exists inverse, Reverse (postings row) = Ok inverse /\
       applied (now E) (db_now E) inverse
         {| AOTimestamp := {| unix_nano := if AtEffectiveDate opts then timestamp row else now E; zone := 0 |};
            AOReference := EmptyString; AOMetadata := reverts_metadata id |}
         us (TReversal rev) alloc d0 d1) /\
    entry_appended alloc (PReverted id (TReversal rev)) (InsertedAt (TReversal rev)) EmptyString EmptyString
      (mark_row id (Timestamp (TReversal rev)) d1) d2 /\
    d' = set_pending [] d2;
}.

Lemma revert_body_cases E id opts f d0 o d' :
  revert_body E id opts f d0 = Ok (o, d') ->
  exists rev, o = Committed rev /\ landed_revert E id opts d0 rev d'.
Proof.
  unfold revert_body. intros H. apply bind_Ok in H as (original & d & Ho & H).
  unfold lockTransaction in Ho. apply stmt_Ok in Ho as [_ Ho].
  destruct (transactions d0 !! id) as [row|] eqn:Hrow; [|done]. injection Ho as <- <-.
  apply bind_Ok in H as (u & d & Hw & H). apply lift_Ok in Hw as [Hw <-]. destruct u. apply when_Ok in Hw.
  apply bool_decide_eq_false in Hw. simpl in Hw.
  apply bind_Ok in H as (inverse & d & Hi & H). apply lift_Ok in Hi as [Hi <-]. apply ledger_res_Ok in Hi.
  apply bind_Ok in H as ([reversal alloc] & d1 & Ha & H). apply applyTransaction_spec in Ha as [us Ha].
  apply bind_Ok in H as (u & d2 & Hmark & H). apply exec_Ok in Hmark as [_ [= <-]].
  apply bind_Ok in H as (u' & d3 & He & H). apply appendLogEntry_Ok in He.
  apply commit_Ok in H as (_ & _ & -> & ->). eexists. split; [done|]. split. simpl.
  exists row, us, alloc, d1, d3. split_and!; [done| |done| |done|done].
  - by destruct (reverted_at row); [destruct Hw; eexists|].
  - exists inverse. done.
Qed.

Inductive revert_end (E : Env) (id : Z) (opts : RevertOptions) (d : Database)
    : res error Reversal -> Database -> Prop :=
| revert_failed e d' : d' = d \/ d' = landed E d -> revert_end E id opts d (Err e) d'
| revert_landed rev d' :
    landed_revert E id opts (landed E d) rev d' -> revert_end E id opts d (Ok rev) d'.

Lemma revertOnce_cases E id opts d r d' :
  revertOnce E id opts d = (r, d') -> revert_end E id opts d r d'.
Proof.
  unfold revertOnce. destruct (fault E SBegin); [intros [= <- <-]; constructor; by left|].
  unfold transact. destruct (revert_body E id opts (fault E) (landed E d)) as [[o d2]|e] eqn:Hb.
  - apply revert_body_cases in Hb as (rev & -> & Hl). intros [= <- <-]. by constructor.
  - intros [= <- <-]. constructor. by right.
Qed.

Lemma revert_attempts_cases W fuel n id opts s r s' :
  revert_attempts W fuel n id opts s = (r, s') ->
  (forall e, r = Err e -> foreign W (db s) (db s')) /\
  (forall rev, r = Ok rev -> exists n d0, foreign W (db s) d0 /\
     landed_revert (attempt_env W n) id opts d0 rev (db s')).
Proof.
  revert n s. induction fuel as [|fuel IH]; intros n s; cbn [revert_attempts].
  - intros [= <- <-]. split; [intros; apply rtc_refl|done].
  - destruct (revertOnce (attempt_env W n) id opts (db s)) as [r1 d1] eqn:Hc. apply revertOnce_cases in Hc.
    pose proof (foreign_landed W n (db s)) as Hf.
    inversion Hc as [e d' Hd|rev d' Hl]; subst.
    + assert (foreign W (db s) d1) as Hfd by (destruct Hd as [-> | ->]; [apply rtc_refl|done]).
      destruct (retryable e); [destruct (cancelled W n)|].
      * intros [= <- <-]. split; [done|]. done.
      * intros H. apply IH in H as [He Hr]. simpl in *. split.
        -- intros e' He'. unfold foreign in *. etrans; [exact Hfd|by eapply He].
        -- intros rev (m & d0 & Hf0 & Hl)%Hr. exists m, d0. split; [unfold foreign in *; by etrans|done].
      * intros [= <- <-]. split; [done|]. done.
    + intros [= <- <-]. split; [done|]. intros ? [= <-]. exists n, (landed (attempt_env W n) (db s)). done.
Qed.

(** ** Reversed postings *)

Lemma reversed_delta p r k :
  Reverse p = Ok r -> delta_in r k = delta_out p k /\ delta_out r k = delta_in p k.
Proof.
  intros [Hall ->]%reverse_Ok.
  assert (forall x, moved (reverse_posting x (amount_of x)) = moved x) as Hm.
  { intros x. unfold moved, amount_of. simpl. by destruct (Amount x). }
  split.
  - unfold delta_in, delta_out. rewrite (sumZ_permutation _ _ _ (reverse_Permutation _)), sumZ_map.
    apply sumZ_ext. intros x _. rewrite Hm. done.
  - unfold delta_in, delta_out. rewrite (sumZ_permutation _ _ _ (reverse_Permutation _)), sumZ_map.
    apply sumZ_ext. intros x _. rewrite Hm. done.
Qed.

Lemma reversed_recorded p r : Reverse p = Ok r -> recorded p -> recorded r.
Proof.
  intros [Hall ->]%reverse_Ok Hp. apply Forall_reverse, Forall_fmap. eapply Forall_impl; [exact Hp|].
  intros x (? & ? & ? & ? & a & Ha & Hpos). split_and!; [done..|]. simpl. unfold amount_of. rewrite Ha. eauto.
Qed.

Lemma annotated_mark id at_ d : annotated d (mark_row id at_ d).
Proof.
  split; [by destruct d|]. intros i. simpl. rewrite lookup_alter. case_decide; [subst|done].
  by destruct (transactions d !! i).
Qed.

Lemma reverts_metadata_text id : text_map_ok (reverts_metadata id).
Proof.
  unfold reverts_metadata. intros k v [<- <-]%lookup_singleton_Some. split; [done|]. apply basic_utf8, print_Z_basic.
Qed.

Lemma landed_revert_step E id opts d0 rev d' :
  landed_revert E id opts d0 rev d' -> ledger_ok d0 -> int64_ok id ->
  exists d2, transaction_step d0 d2 (TReversal rev) /\ d' = set_pending [] d2.
Proof.
  intros [(row & us & alloc & d1 & d2 & Hrow & _ & _ & (inverse & Hi & Ha) & He & ->)] Hok Hid.
  exists d2. split; [|done]. split.
  pose proof (lo_stored _ Hok id row Hrow) as Hrec. simpl in Hrec.
  do 12 eexists. split_and!; [exact Ha| | |apply annotated_mark|exact He|by right; exists id].
  - eapply applied_plain; [exact Ha|]. by eapply reversed_recorded.
  - apply reverts_metadata_text.
Qed.

(** The state [landed_revert] leaves, read off its parts. *)
Lemma landed_revert_effect E id opts d0 rev d' row :
  landed_revert E id opts d0 rev d' -> transactions d0 !! id = Some row ->
  let at_ := Timestamp (TReversal rev) in
  reverted_at row = None /\ Original rev = with_reverted_at at_ (hydrateTransaction id row) /\
  transactions d' !! id = Some (marked at_ row) /\
  (recorded (postings row) -> Reverse (postings row) = Ok (TPostings (TReversal rev))) /\
  (recorded (postings row) -> forall k,
     volume_at d' k = vadd (volume_at d0 k)
       {| Input := delta_out (postings row) k; Output := delta_in (postings row) k |}).
Proof.
  intros [(row' & us & alloc & d1 & d2 & Hrow & Hn & Ho & (inverse & Hi & Ha) & He & ->)] Hrow'.
  replace row' with row in * by congruence. clear row' Hrow'. intros at_.
  destruct He as (bytes & _ & _ & _ & ->).
  destruct (applied_transaction _ _ _ _ _ _ _ _ _ Ha) as (Hnew & m & _ & Htx).
  assert (recorded (postings row) -> TPostings (TReversal rev) = inverse) as Hq.
  { intros Hrec. apply (applied_exact _ _ _ _ _ _ _ _ _ Ha), recorded_plain. by eapply reversed_recorded. }
  split_and!; [done|done| |intros Hrec; by rewrite Hq|].
  - simpl. rewrite lookup_alter, decide_True by done. rewrite Htx, lookup_insert_ne by congruence.
    by rewrite Hrow.
  - intros Hrec k. destruct (reversed_delta _ _ k Hi) as [<- <-]. rewrite <-Hq by done.
    apply (applied_volume_at _ _ _ _ _ _ _ _ _ Ha).
Qed.

(** C22: a reversal undoes exactly what the original moved. When
    [RevertTransaction] succeeds, the original was stored and not reverted;
    every account's balance in every asset changes by the opposite of what the
    original moved, its counters only growing; the original keeps its postings
    and gains the mark; and the new transaction's postings are the original's,
    swapped and in reverse order. *)
Theorem revert_undoes (W : Weather) (id : Z) (opts : RevertOptions) (s s' : Store) (rev : Reversal) :
  RevertTransaction W id opts s = (Ok rev, s') ->
  (forall n d, settled_ok d -> settled_ok (landed (attempt_env W n) d)) -> settled_ok (db s) ->
  exists d0 row, foreign W (db s) d0 /\ transactions d0 !! id = Some row /\ reverted_at row = None /\
    let at_ := Timestamp (TReversal rev) in
    Original rev = with_reverted_at at_ (hydrateTransaction id row) /\
    Reverse (postings row) = Ok (TPostings (TReversal rev)) /\
    transactions (db s') !! id = Some (marked at_ row) /\
    forall k, volume_at (db s') k = vadd (volume_at d0 k)
                {| Input := delta_out (postings row) k; Output := delta_in (postings row) k |} /\
      Balance (volume_at (db s') k) = Balance (volume_at d0 k) - flow (postings row) k.
Proof.
  intros H HW Hok. apply revert_attempts_cases in H as [_ H].
  destruct (H rev eq_refl) as (n & d0 & Hf & Hl).
  destruct (foreign_keeps settled_ok W (db s) d0 HW Hf Hok) as [Hok0 _].
  assert (exists row, transactions d0 !! id = Some row) as [row Hrow]
    by (destruct Hl as [(row & ? & ? & ? & ? & ? & _)]; eauto).
  pose proof (lo_stored _ Hok0 id row Hrow) as Hrec. simpl in Hrec.
  destruct (landed_revert_effect _ _ _ _ _ _ _ Hl Hrow) as (Hn & Ho & Hm & Hr & Hv).
  exists d0, row. split; [done|]. split; [done|]. split; [done|]. intros at_.
  split_and!; [done|by apply Hr|done|].
  intros k. split; [by apply Hv|]. rewrite Hv by done. unfold Balance, flow. simpl. lia.
Qed.

(** What a reversal leaves carries the mark. *)
Lemma reverted_marked (W : Weather) (id : Z) (opts : RevertOptions) (s s' : Store) (rev : Reversal) :
  RevertTransaction W id opts s = (Ok rev, s') ->
  exists row, transactions (db s') !! id = Some row /\ is_Some (reverted_at row).
Proof.
  intros H. apply revert_attempts_cases in H as [_ H]. destruct (H rev eq_refl) as (n & d0 & Hf & Hl).
  assert (exists row, transactions d0 !! id = Some row) as [row Hrow] by (destruct Hl as [(row & ? & ? & ? & ? & ? & _)]; eauto).
  destruct (landed_revert_effect _ _ _ _ _ _ _ Hl Hrow) as (_ & _ & Hm & _ & _). eexists. split; [exact Hm|]. by eexists.
Qed.

(** A marked row is refused by whoever reads it. *)
Lemma marked_refused (E : Env) (id : Z) (opts : RevertOptions) (d : Database) row :
  transactions (landed E d) !! id = Some row -> is_Some (reverted_at row) ->
  fault E SBegin = None -> fault E SLockTransaction = None ->
  revertOnce E id opts d = (Err ErrAlreadyReverted, landed E d).
Proof.
  intros Hrow [at_ Hm] Hb Hlock. unfold revertOnce. rewrite Hb.
  unfold transact, revert_body, bind, lockTransaction, stmt. rewrite Hlock, Hrow. simpl. by rewrite Hm.
Qed.

(** Whatever happens, the invariant survives. *)
(** What a reversal keeps, as for a commit. *)
Lemma revert_keeps_any (I : Database -> Prop) (W : Weather) (id : Z) (opts : RevertOptions) (s : Store) :
  (forall n d, I d -> I (landed (attempt_env W n) d)) ->
  (forall n d0 rev d', landed_revert (attempt_env W n) id opts d0 rev d' -> I d0 -> I d') ->
  I (db s) -> I (db (RevertTransaction W id opts s).2).
Proof.
  intros HW Hkeep Hok. destruct (RevertTransaction W id opts s) as [r s'] eqn:H.
  apply revert_attempts_cases in H as [He Hr]. destruct r as [rev|e].
  - destruct (Hr rev eq_refl) as (n & d0 & Hf & Hl). eapply Hkeep; [exact Hl|].
    exact (foreign_keeps I W (db s) d0 HW Hf Hok).
  - exact (foreign_keeps I W (db s) (db s') HW (He e eq_refl) Hok).
Qed.

Lemma revert_keeps (W : Weather) (id : Z) (opts : RevertOptions) (s : Store) :
  int64_ok id -> (forall n d, settled_ok d -> settled_ok (landed (attempt_env W n) d)) ->
  settled_ok (db s) -> settled_ok (db (RevertTransaction W id opts s).2).
Proof.
  intros Hid HW. apply revert_keeps_any; [done|]. intros n d0 rev d' Hl [Hok0 _].
  destruct (landed_revert_step _ _ _ _ _ _ Hl Hok0 Hid) as (d2 & Hs & ->). split; [|done].
  by eapply pending_ok, transaction_step_ok.
Qed.

End codec.

(** ** At a concrete ledger *)

Lemma new_ledger_settled : settled_ok new_ledger.
Proof.
  split; [|done]. split.
  - apply new_ledger_book.
  - apply new_ledger_log.
  - apply new_ledger_keys.
  - apply verify_projection_passes, new_ledger_projection.
  - apply map_Forall_empty.
Qed.

Lemma funded_settled : settled_ok (db funded_store).
Proof.
  apply commit_keeps_ledger; [apply map_Forall_empty|done|apply new_ledger_settled].
Qed.

Definition reverted_deposit : res error Reversal * Store :=
  RevertTransaction calm 1 {| AtEffectiveDate := false |} funded_store.

Lemma reverted_deposit_lands :
  exists rev, RevertTransaction calm 1 {| AtEffectiveDate := false |} funded_store = (Ok rev, reverted_deposit.2).
Proof.
  fold reverted_deposit. destruct reverted_deposit as [[rev|e] s'] eqn:H; [by exists rev|].
  assert (is_ok reverted_deposit.1 = true) as Hok by (vm_compute; reflexivity).
  rewrite H in Hok. discriminate Hok.
Qed.

Lemma revert_undoes_witness :
  exists d0 row, transactions d0 !! 1 = Some row /\
    forall k, Balance (volume_at (db reverted_deposit.2) k) = Balance (volume_at d0 k) - flow (postings row) k.
Proof.
  destruct reverted_deposit_lands as [rev H].
  destruct (revert_undoes calm 1 {| AtEffectiveDate := false |} funded_store reverted_deposit.2 rev H
              (fun n d Hd => Hd) funded_settled) as (d0 & row & _ & Hrow & _ & _ & _ & _ & Hk).
  exists d0, row. split; [exact Hrow|]. intros k. exact (proj2 (Hk k)).
Defined.
