(* ===== verification/Bulk.v ===== *)
(** * Committing a batch

    [storage/bulk.go]: several transactions as one business event, all or none
    of them, with every lock taken before the first item runs. *)

From S2P Require Import Prelude Identifiers Text Posting Volumes Sha256 GoTime Transaction Codec Encoding Errors Schema Txn Locking Guards Moves History Log Observer Commit Committed Book Chain Sample CommitSpec Replay Effective Read Verify Invariant.

Definition MaxBatchSize : nat := 100.

Record BatchItem := {
  BPostings : Postings;
  BTimestamp : Time;
  BReference : string;
  BMetadata : option Metadata;
}.

Definition withBatchTag (m : Metadata) (hash : string) : Metadata := <[BatchKey := hash]> m.

(** ** Locking the whole batch first *)

Definition update_le : relation VolumeUpdate := fun a b => key_le (update_key a) (update_key b).

#[export] Instance update_le_dec : RelDecision update_le.
Proof. intros a b. unfold update_le. apply _. Defined.

(** The updates of one item whose pair no earlier one touches. *)
Definition fresh_updates (seen : gset key) (us : list VolumeUpdate) : list VolumeUpdate :=
  filter (fun u => update_key u ∉ seen) us.

Fixpoint batch_updates (i : nat) (seen : gset key) (items : list BatchItem) : res error (list VolumeUpdate) :=
  match items with
  | [] => Ok []
  | it :: items =>
      match VolumeUpdates (BPostings it) with
      | Err e => Err (BatchItemError i (LedgerError e))
      | Ok us =>
          let! rest := batch_updates (S i) (list_to_set (update_key <$> us) ∪ seen) items in
          Ok (fresh_updates seen us ++ rest)
      end
  end.

Definition lockBatch (items : list BatchItem) : Txn unit :=
  do! all := lift (batch_updates 0 ∅ items) in
  do! _ := lockVolumes (merge_sort update_le all) in
  ret tt.

Section codec.
Context {codec : Codec}.

(** ** Idempotency of a batch *)

Definition batch_input (it : BatchItem) : idempotencyInput :=
  {| IPostings := BPostings it; ITimestamp := BTimestamp it; IReference := BReference it;
     IMetadata := BMetadata it |}.

Definition batchIdempotencyHash (items : list BatchItem) (opts : CommitOptions) : res error string :=
  if bool_decide (OIdempotencyKey opts = EmptyString) then Ok EmptyString
  else match marshal_inputs (batch_input <$> items) with
       | None => Err MarshalError
       | Some bytes => Ok (hex_encode (Sha256.sum256 bytes))
       end.

(** [metadata->>'giro/batch' = $3 order by id]; an empty answer is a nil slice. *)
Definition tagged (d : Database) (h : string) : list Transaction :=
  omap (fun kv : Z * TransactionRow =>
          if bool_decide (tx_metadata kv.2 !! BatchKey = Some h) then Some (hydrateTransaction kv.1 kv.2) else None)
    (map_rows Z.le (transactions d)).

(** Whether the key is taken; by another request is an error. *)
Definition check_batch_key (d : Database) (k wantHash : string) : res error bool :=
  let! _ := when (negb (pg_text k)) (PgError invalidText) in
  match find_key d k with
  | None => Ok false
  | Some r => if bool_decide (idempotency_hash r = Some wantHash) then Ok true else Err ErrIdempotencyMismatch
  end.

Definition findBatchByIdempotencyKey (s1 s2 : statement) (k wantHash : string) : Txn (list Transaction) :=
  do! found := stmt s1 (fun d => let! b := check_batch_key d k wantHash in Ok (b, d)) in
  if found then query s2 (fun d => tagged d wantHash) else ret [].

Definition batchIdempotencyRace (f : faults) (committed : Database) (k ikHash : string) (err : error)
    : res error (list Transaction) :=
  if bool_decide (k = EmptyString) || negb (is_unique_violation err) then Ok []
  else match f SRaceBegin with
       | Some code => Err (PgError code)
       | None => rmap fst (findBatchByIdempotencyKey SRaceFind SFindBatch k ikHash f committed)
       end.

(** The append of item [i], or the batch of whoever won the key. *)
Definition append_or_batch_race (committed : Database) (i : nat) (t : Transaction) (alloc : allocation)
    (opts : CommitOptions) (ikHash : string) : Txn (list Transaction) := fun f d =>
  let k := if (i =? 0)%nat then OIdempotencyKey opts else EmptyString in
  let h := if (i =? 0)%nat then ikHash else EmptyString in
  match appendLog t alloc k h f d with
  | Ok (_, d') => Ok ([], d')
  | Err err =>
      match batchIdempotencyRace f committed (OIdempotencyKey opts) ikHash err with
      | Err e => Err e
      | Ok [] => Err (BatchItemError i err)
      | Ok replayed => Ok (replayed, d)
      end
  end.

(** ** One attempt *)

Definition item_options (opts : CommitOptions) (ikHash : string) (it : BatchItem) : applyOptions :=
  let m := default ∅ (BMetadata it) in
  {| AOTimestamp := BTimestamp it; AOReference := BReference it;
     AOMetadata := if bool_decide (OIdempotencyKey opts = EmptyString) then m else withBatchTag m ikHash |}.

(** [inl]: another request won the key and its batch is the answer. *)
Fixpoint batch_items (E : Env) (d0 : Database) (opts : CommitOptions) (ikHash : string) (i : nat)
    (items : list BatchItem) : Txn (list Transaction + list Transaction) :=
  match items with
  | [] => ret (inr [])
  | it :: items =>
      do! ' (t, alloc) := map_err (BatchItemError i)
        (item i (applyTransaction (now E) (db_now E) (BPostings it) (item_options opts ikHash it))) in
      do! replayed := item i (append_or_batch_race d0 i t alloc opts ikHash) in
      match replayed with
      | [] =>
          do! rest := batch_items E d0 opts ikHash (S i) items in
          ret (match rest with inl r => inl r | inr out => inr (t :: out) end)
      | _ => ret (inl replayed)
      end
  end.

Definition batch_body (E : Env) (d0 : Database) (items : list BatchItem) (opts : CommitOptions)
    (ikHash : string) : Txn (outcome (list Transaction)) :=
  do! _ := lockBatch items in
  do! out := batch_items E d0 opts ikHash 0 items in
  match out with
  | inl replayed => ret (RolledBack replayed)
  | inr out =>
      match beforeCommit E with
      | Some e => fail e
      | None => if ODryRun opts then ret (RolledBack out) else commit out
      end
  end.

Definition batch_fast_path (f : faults) (opts : CommitOptions) (ikHash : string) (d : Database)
    : res error (list Transaction) :=
  if bool_decide (OIdempotencyKey opts = EmptyString) then Ok []
  else rmap fst (findBatchByIdempotencyKey SFindKey SFindBatch (OIdempotencyKey opts) ikHash f d).

Definition commitBatchOnce (E : Env) (items : list BatchItem) (opts : CommitOptions) (ikHash : string)
    (d : Database) : res error (list Transaction) * Database :=
  match fault E SBegin with
  | Some code => (Err (PgError code), d)
  | None =>
      match batch_fast_path (fault E) opts ikHash d with
      | Err e => (Err e, d)
      | Ok [] => let d0 := landed E d in transact (fault E) (batch_body E d0 items opts ikHash) d0
      | Ok existing => (Ok existing, d)
      end
  end.

(** ** The whole call *)

Fixpoint check_items (f : faults) (i : nat) (items : list BatchItem) (s : Store) : res error unit * Store :=
  match items with
  | [] => (Ok tt, s)
  | it :: items =>
      if bool_decide (BPostings it = []) then (Err (BatchItemError i ErrNoPostings), s)
      else match Validate (BPostings it) with
      | Some (j, e) => (Err (BatchItemError i (PostingError j (LedgerError e))), s)
      | None =>
          match checkAssets (fun st => f (SItem i st)) (BPostings it) s with
          | (Err e, s) => (Err (BatchItemError i e), s)
          | (Ok _, s) => check_items f (S i) items s
          end
      end
  end.

Fixpoint batch_attempts (W : Weather) (fuel attempt : nat) (items : list BatchItem) (opts : CommitOptions)
    (ikHash : string) (s : Store) : res error (list Transaction) * Store :=
  match fuel with
  | O => (Err (GivingUp maxAttempts), s)
  | S fuel =>
      let '(r, d) := commitBatchOnce (attempt_env W attempt) items opts ikHash (db s) in
      let s := with_db d s in
      match r with
      | Ok ts => (Ok ts, s)
      | Err e =>
          if retryable e then
            let s := count_retry s in
            if cancelled W attempt then (Err ContextError, s)
            else batch_attempts W fuel (S attempt) items opts ikHash s
          else (Err e, s)
      end
  end.

Definition CommitBatch (W : Weather) (items : list BatchItem) (opts : CommitOptions) (s : Store)
    : res error (list Transaction) * Store :=
  if bool_decide (items = []) then (Err ErrNoPostings, s)
  else if (MaxBatchSize <? length items)%nat then (Err ErrBatchTooLarge, s)
  else match check_items (check_faults W) 0 items s with
  | (Err e, s) => (Err e, s)
  | (Ok _, s) =>
      match batchIdempotencyHash items opts with
      | Err e => (Err e, s)
      | Ok ikHash => batch_attempts W maxAttempts 0 items opts ikHash s
      end
  end.

(** ** What a landed batch did *)

(** The items' transactions, one after the other, each with its entry. *)
Inductive batch_chain (E : Env) (opts : CommitOptions) (ikHash : string)
    : nat -> Database -> list BatchItem -> list Transaction -> Database -> Prop :=
| chain_nil i d : batch_chain E opts ikHash i d [] [] d
| chain_cons i d d1 d2 d' it items t ts us alloc :
    applied (now E) (db_now E) (BPostings it) (item_options opts ikHash it) us t alloc d d1 ->
    entry_appended alloc (PTransaction t) (InsertedAt t)
      (if (i =? 0)%nat then OIdempotencyKey opts else EmptyString)
      (if (i =? 0)%nat then ikHash else EmptyString) d1 d2 ->
    batch_chain E opts ikHash (S i) d2 items ts d' ->
    batch_chain E opts ikHash i d (it :: items) (t :: ts) d'.

Record landed_batch (E : Env) (items : list BatchItem) (opts : CommitOptions) (ikHash : string)
    (d0 : Database) (ts : list Transaction) (d' : Database) : Prop := {
  lb_parts : exists d1 d2, (same_money d0 d1 /\ exists ks, materialised ks d0 d1) /\ batch_chain E opts ikHash 0 d1 items ts d2 /\
                           d' = set_pending [] d2;
  lb_real : ODryRun opts = false;
}.

(** A key that is found answers with the transactions under its hash. *)
Lemma findBatch_Ok s1 s2 k h f d l d' :
  findBatchByIdempotencyKey s1 s2 k h f d = Ok (l, d') -> d' = d /\ (l = [] \/ l = tagged d h).
Proof.
  unfold findBatchByIdempotencyKey. intros H. apply bind_Ok in H as (found & d1 & Hf & H).
  apply stmt_Ok in Hf as [_ Hf]. inv_ok. destruct found.
  - unfold query in H. apply stmt_Ok in H as [_ [= <- <-]]. auto.
  - apply ret_Ok in H as [<- <-]. auto.
Qed.

Lemma batch_items_spec E d0 opts h i items f d r d' :
  batch_items E d0 opts h i items f d = Ok (r, d') ->
  match r with
  | inr ts => batch_chain E opts h i d items ts d'
  | inl ts => OIdempotencyKey opts <> EmptyString /\ ts = tagged d0 h
  end.
Proof.
  revert i d r d'. induction items as [|it items IH]; intros i d r d'; cbn [batch_items].
  - intros H. inv_txn. constructor.
  - intros H. apply bind_Ok in H as ([t alloc] & d1 & Ha & H). apply map_err_Ok in Ha. unfold item in Ha.
    apply applyTransaction_spec in Ha as [us Ha].
    apply bind_Ok in H as (replayed & d2 & He & H). unfold item, append_or_batch_race in He.
    destruct (appendLog _ _ _ _ _ d1) as [[u d3]|err] eqn:Hlog.
    + injection He as <- <-. apply appendLogEntry_Ok in Hlog.
      apply bind_Ok in H as (rest & d4 & Hrest & H). apply IH in Hrest. inv_txn.
      destruct rest as [?|ts]; [done|]. by econstructor.
    + unfold batchIdempotencyRace in He. destruct (bool_decide (OIdempotencyKey opts = EmptyString)) eqn:Hk;
        simpl in He; [done|]. apply bool_decide_eq_false in Hk.
      destruct (is_unique_violation err); [|done]. simpl in He. destruct (f (SItem i SRaceBegin)); [done|].
      destruct (findBatchByIdempotencyKey _ _ _ _ _ d0) as [[l d3]|e] eqn:Hfind; [|done]. simpl in He.
      apply findBatch_Ok in Hfind as [_ [-> | ->]]; [done|].
      destruct (tagged d0 h) as [|x l] eqn:Ht; [done|]. injection He as <- <-. inv_txn. done.
Qed.

(** Every item carried out under the locks of the whole. *)
Definition batch_rehearsed (E : Env) (items : list BatchItem) (opts : CommitOptions) (ikHash : string)
    (d0 : Database) (ts : list Transaction) (d2 : Database) : Prop :=
  exists d1, (same_money d0 d1 /\ exists ks, materialised ks d0 d1) /\ batch_chain E opts ikHash 0 d1 items ts d2.

Lemma batch_body_cases E d0 items opts h f o d' :
  batch_body E d0 items opts h f d0 = Ok (o, d') ->
  match o with
  | Committed ts => landed_batch E items opts h d0 ts d'
  | RolledBack ts => (ODryRun opts = true /\ exists d2, batch_rehearsed E items opts h d0 ts d2) \/
                     (OIdempotencyKey opts <> EmptyString /\ ts = tagged d0 h)
  end.
Proof.
  unfold batch_body, lockBatch. intros H. apply bind_Ok in H as (u & d1 & Hl & H).
  apply bind_Ok in Hl as (all & d2 & Hall & Hl). apply lift_Ok in Hall as [_ <-].
  apply bind_Ok in Hl as (before & d3 & Hl & Hr). apply ret_Ok in Hr as [_ <-].
  pose proof (lockVolumes_same_money _ _ _ _ _ Hl) as Hsm. apply lockVolumes_spec in Hl as [Hmat _].
  apply bind_Ok in H as (out & d4 & Hi & H). apply batch_items_spec in Hi. destruct out as [replayed|ts].
  - apply ret_Ok in H as [<- _]. by right.
  - destruct (beforeCommit E); [done|]. destruct (ODryRun opts) eqn:Hdry.
    + apply ret_Ok in H as [<- _]. left. split; [done|]. exists d4, d3. eauto.
    + apply commit_Ok in H as (_ & _ & -> & ->). split; [|done]. eauto 8.
Qed.

Definition batch_outcome (W : Weather) (items : list BatchItem) (opts : CommitOptions) (h : string)
    (d : Database) (r : res error (list Transaction)) (d' : Database) : Prop :=
  (foreign W d d' /\ forall ts, r = Ok ts ->
     (ODryRun opts = true /\ exists n d0 d2, foreign W d d0 /\ batch_rehearsed (attempt_env W n) items opts h d0 ts d2) \/
     (OIdempotencyKey opts <> EmptyString /\ exists d0, foreign W d d0 /\ ts = tagged d0 h)) \/
  exists ts n d0, r = Ok ts /\ foreign W d d0 /\ landed_batch (attempt_env W n) items opts h d0 ts d'.

Lemma commitBatchOnce_cases W n items opts h d r d' :
  commitBatchOnce (attempt_env W n) items opts h d = (r, d') -> batch_outcome W items opts h d r d'.
Proof.
  unfold commitBatchOnce. pose proof (foreign_landed W n d) as Hf.
  destruct (fault (attempt_env W n) SBegin); [intros [= <- <-]; left; split; [apply rtc_refl|done]|].
  destruct (batch_fast_path _ opts h d) as [[|x l]|e] eqn:Hfp.
  2:{ intros [= <- <-]. left. split; [apply rtc_refl|]. intros ts [= <-]. right. unfold batch_fast_path in Hfp.
      case_bool_decide as Hk; [done|]. split; [done|]. exists d. split; [apply rtc_refl|].
      destruct (findBatchByIdempotencyKey _ _ _ _ _ d) as [[l' d']|e] eqn:Hfind; [|done]. injection Hfp as ->.
      by apply findBatch_Ok in Hfind as [_ [?| ->]]. }
  2:{ intros [= <- <-]. left. split; [apply rtc_refl|done]. }
  unfold transact. destruct (batch_body _ _ items opts h _ _) as [[o d2]|e] eqn:Hb;
    [|intros [= <- <-]; by left].
  apply batch_body_cases in Hb. destruct o as [ts|ts]; intros [= <- <-].
  2:{ left. split; [done|]. intros ts' [= <-]. destruct Hb as [(Hdry & d3 & Hr)|[Hk ->]]; [left|right].
      - split; [done|]. by exists n, (landed (attempt_env W n) d), d3.
      - split; [done|]. by exists (landed (attempt_env W n) d). }
  right. exists ts, n, (landed (attempt_env W n) d). done.
Qed.

Lemma batch_attempts_cases W fuel n items opts h s r s' :
  batch_attempts W fuel n items opts h s = (r, s') -> batch_outcome W items opts h (db s) r (db s').
Proof.
  revert n s. induction fuel as [|fuel IH]; intros n s; cbn [batch_attempts].
  - intros [= <- <-]. left. split; [apply rtc_refl|done].
  - destruct (commitBatchOnce (attempt_env W n) items opts h (db s)) as [r1 d1] eqn:Hc.
    apply commitBatchOnce_cases in Hc. destruct r1 as [ts|e]; [by intros [= <- <-]|].
    assert (foreign W (db s) d1) as Hf by (destruct Hc as [[? _]|(? & ? & ? & ? & _)]; done).
    destruct (retryable e); [destruct (cancelled W n)|].
    + intros [= <- <-]. left. by split.
    + intros [[H Hr]|(ts & m & d0 & -> & H & Hl)]%IH; simpl in H; unfold batch_outcome, foreign in *.
      * left. split; [by etrans|]. intros ts Hts. destruct (Hr ts Hts) as [(Hd & m & d0 & d2 & H0 & Hreh)|(Hk & d0 & H0 & Ht)].
        -- left. split; [done|]. exists m, d0, d2. split; [by etrans|done].
        -- right. split; [done|]. exists d0. split; [by etrans|done].
      * right. exists ts, m, d0. split_and!; [done|by etrans|done].
    + intros [= <- <-]. left. by split.
Qed.

Lemma check_items_db f i items s r s' :
  check_items f i items s = (r, s') ->
  db s' = db s /\ (r = Ok tt -> Forall (fun it => Validate (BPostings it) = None) items).
Proof.
  revert i s. induction items as [|it items IH]; intros i s; cbn [check_items].
  - intros [= <- <-]. split; [done|]. constructor.
  - case_bool_decide; [by intros [= <- <-]|]. destruct (Validate (BPostings it)) as [[j e]|] eqn:Hv;
      [by intros [= <- <-]|].
    destruct (checkAssets _ (BPostings it) s) as [[u|e] s1] eqn:Hc; apply checkAssets_db in Hc as [Hdb _].
    + intros [H1 H2]%IH. split; [congruence|]. intros Hr. constructor; [done|by apply H2].
    + by intros [= <- <-].
Qed.

(** How a call ends: refused before it started, or as its attempts ended. *)
Lemma batch_ends W items opts s r s' :
  CommitBatch W items opts s = (r, s') ->
  (exists e, r = Err e /\ foreign W (db s) (db s')) \/
  exists h, batchIdempotencyHash items opts = Ok h /\ Forall (fun it => Validate (BPostings it) = None) items /\
    batch_outcome W items opts h (db s) r (db s').
Proof.
  unfold CommitBatch. case_bool_decide; [intros [= <- <-]; left; eexists; split; [done|apply rtc_refl]|].
  destruct (MaxBatchSize <? length items)%nat; [intros [= <- <-]; left; eexists; split; [done|apply rtc_refl]|].
  destruct (check_items (check_faults W) 0 items s) as [[u|e] s1] eqn:Hc; apply check_items_db in Hc as [Hdb Hval].
  2:{ intros [= <- <-]. left. rewrite Hdb. eexists. split; [done|apply rtc_refl]. }
  destruct (batchIdempotencyHash items opts) as [h|e].
  2:{ intros [= <- <-]. left. rewrite Hdb. eexists. split; [done|apply rtc_refl]. }
  destruct u. intros Ha%batch_attempts_cases. rewrite Hdb in Ha. right. exists h. auto.
Qed.

(** The ids, the order and the inputs of a landed batch. *)
Lemma batch_chain_order E opts h i d items ts d' :
  batch_chain E opts h i d items ts d' ->
  length ts = length items /\
  forall j it t, items !! j = Some it -> ts !! j = Some t ->
    (exists l, ledger_row d = Some l /\ TxID t = last_tx_id l + 1 + Z.of_nat j) /\
    Reference t = BReference it /\ (HasUpTo (BPostings it) = false -> TPostings t = BPostings it).
Proof.
  induction 1 as [i d|i d d1 d2 d' it items t ts us alloc Ha He _ [Hlen IH]]; [done|].
  destruct (step_ledger _ _ _ _ _ _ _ _ _ _ _ _ _ _ _ Ha (annotated_refl d1) He)
    as (l & l' & Hl & Hid & _ & Hl' & Hnext & _).
  destruct (applied_fields _ _ _ _ _ _ _ _ _ Ha) as (_ & _ & _ & Href & _).
  split; [simpl; lia|]. intros [|j] it' t' Hit Ht; simpl in Hit, Ht.
  - injection Hit as <-. injection Ht as <-. split_and!; [|done|apply (applied_exact _ _ _ _ _ _ _ _ _ Ha)].
    exists l. split; [done|]. simpl. lia.
  - destruct (IH j it' t' Hit Ht) as [(l2 & Hl2 & Hid2) Hrest]. split; [|done].
    exists l. split; [done|]. replace l2 with l' in Hid2 by congruence. lia.
Qed.


(** ** The invariant *)

Lemma batch_chain_ok E opts h i d items ts d' :
  batch_chain E opts h i d items ts d' ->
  Forall (fun it => Validate (BPostings it) = None /\ text_map_ok (AOMetadata (item_options opts h it))) items ->
  ledger_ok d -> ledger_ok d'.
Proof.
  induction 1 as [|i d d1 d2 d' it items t ts us alloc Ha He _ IH]; [done|].
  intros [[Hv Hm] Hall]%Forall_cons Hok. apply IH; [done|]. eapply (transaction_step_ok d d2 t); [|done].
  split. do 12 eexists. split_and!; [exact Ha|by eapply applied_recorded|exact Hm|apply annotated_refl|exact He|by left].
Qed.

(** What a batch keeps, as for a commit. *)
Lemma batch_keeps_any (I : Database -> Prop) (W : Weather) (items : list BatchItem) (opts : CommitOptions) (s : Store) :
  (forall n d, I d -> I (landed (attempt_env W n) d)) ->
  (forall n h d0 ts d', Forall (fun it => Validate (BPostings it) = None) items ->
     batchIdempotencyHash items opts = Ok h ->
     landed_batch (attempt_env W n) items opts h d0 ts d' -> I d0 -> I d') ->
  I (db s) -> I (db (CommitBatch W items opts s).2).
Proof.
  intros HW Hkeep Hok. destruct (CommitBatch W items opts s) as [r s'] eqn:H.
  apply batch_ends in H as [(e & _ & Hf)|(h & Hh & Hval & [[Hf _]|(ts & n & d0 & -> & Hf & Hl)])].
  - exact (foreign_keeps I W (db s) _ HW Hf Hok).
  - exact (foreign_keeps I W (db s) _ HW Hf Hok).
  - eapply Hkeep; [exact Hval|exact Hh|exact Hl|]. exact (foreign_keeps I W (db s) d0 HW Hf Hok).
Qed.

Lemma batch_keeps (W : Weather) (items : list BatchItem) (opts : CommitOptions) (s : Store) :
  (forall h, batchIdempotencyHash items opts = Ok h ->
     Forall (fun it => text_map_ok (AOMetadata (item_options opts h it))) items) ->
  (forall n d, settled_ok d -> settled_ok (landed (attempt_env W n) d)) ->
  settled_ok (db s) -> settled_ok (db (CommitBatch W items opts s).2).
Proof.
  intros Hmeta HW. apply batch_keeps_any; [done|].
  intros n h d0 ts d' Hval Hh [(d1 & d2 & [Hsm _] & Hch & ->) _] [Hok _]. split; [|done]. apply pending_ok.
  eapply batch_chain_ok; [exact Hch| |by eapply same_money_ok].
  apply Forall_and. split; [done|by apply Hmeta].
Qed.

End codec.

(** ** At a concrete ledger *)

Definition two_items : list BatchItem :=
  [ {| BPostings := [pay "world" "users:alice" 5]; BTimestamp := OTimestamp no_options; BReference := "";
       BMetadata := None |};
    {| BPostings := [pay "users:alice" "users:bob" 3]; BTimestamp := OTimestamp no_options; BReference := "";
       BMetadata := None |} ].

Definition keyed (k : string) : CommitOptions :=
  {| OTimestamp := OTimestamp no_options; OReference := ""; OMetadata := None; OIdempotencyKey := k;
     ODryRun := false |}.

(** The members of a batch are found again by the hash of the request, not by
    its key. The same batch sent under two keys is two batches, and replaying
    either key answers with the transactions of both. *)
Lemma batch_replay_mixes_keys :
  let s1 := (CommitBatch calm two_items (keyed "k1") new_store).2 in
  let s2 := (CommitBatch calm two_items (keyed "k2") s1).2 in
  rmap length (CommitBatch calm two_items (keyed "k1") s1).1 = Ok 2%nat /\
  rmap length (CommitBatch calm two_items (keyed "k1") s2).1 = Ok 4%nat.
Proof. vm_compute. done. Qed.
