(* ===== verification/MetadataOps.v ===== *)
(** * Metadata

    [storage/metadata.go]: merging and deleting keys on a transaction's or an
    account's row, recorded in the log when something changed. *)

From S2P Require Import Prelude Identifiers Text Decimal Posting Volumes Sha256 GoTime Transaction Codec Encoding Errors Schema Txn Locking Guards Moves History Log Observer Commit Committed Book Chain Sample CommitSpec Replay Effective Read Verify Invariant Revert.

Definition validateMetadata (m : Metadata) : res error unit :=
  if bool_decide (m = ∅) then Err ErrEmptyMetadata
  else match Metadata_Validate m with
       | Some e => Err (LedgerError e)
       | None => Ok tt
       end.

(** ** The rows *)

Definition with_metadata (m : Metadata) (r : TransactionRow) : TransactionRow :=
  {| timestamp := timestamp r; inserted_at := inserted_at r; reverted_at := reverted_at r;
     reference := reference r; postings := postings r; tx_metadata := m;
     sources := sources r; destinations := destinations r; pc_volumes := pc_volumes r |}.

Definition with_account_metadata (m : Metadata) (at_ : Instant) (r : AccountRow) : AccountRow :=
  {| address_array := address_array r; metadata := m; first_usage := first_usage r;
     insertion_date := insertion_date r; updated_at := at_; closed := closed r |}.

(** [select true ... for update] *)
Definition lockTarget (found : Database -> res error bool) : Txn unit :=
  stmt SLockTarget (fun d => let! b := found d in if b then Ok (tt, d) else Err ErrNotFound).

Definition transaction_exists (id : Z) (d : Database) : res error bool :=
  Ok (bool_decide (is_Some (transactions d !! id))).

Definition account_exists (a : Address) (d : Database) : res error bool :=
  let! _ := when (negb (pg_text a)) (PgError invalidText) in
  Ok (bool_decide (is_Some (accounts d !! a))).

(** [metadata || $3 where not (metadata @> $3)]: on objects of strings,
    containment is inclusion and the right-hand side wins a merge. *)
Definition merge_transaction (id : Z) (raw : Metadata) (d : Database) : bool * Database :=
  match transactions d !! id with
  | Some r =>
      if bool_decide (raw ⊆ tx_metadata r) then (false, d)
      else (true, set_transactions (<[id := with_metadata (raw ∪ tx_metadata r) r]> (transactions d)) d)
  | None => (false, d)
  end.

(** [metadata - $3 where jsonb_exists(metadata, $3)] *)
Definition drop_transaction_key (id : Z) (k : string) (d : Database) : bool * Database :=
  match transactions d !! id with
  | Some r =>
      if bool_decide (is_Some (tx_metadata r !! k))
      then (true, set_transactions (<[id := with_metadata (delete k (tx_metadata r)) r]> (transactions d)) d)
      else (false, d)
  | None => (false, d)
  end.

Definition drop_account_key (a : Address) (k : string) (db_now : Instant) (d : Database) : bool * Database :=
  match accounts d !! a with
  | Some r =>
      if bool_decide (is_Some (metadata r !! k))
      then (true, set_accounts (<[a := with_account_metadata (delete k (metadata r)) db_now r]> (accounts d)) d)
      else (false, d)
  | None => (false, d)
  end.

(** The upsert of [SetAccountMetadata]. *)
Definition upsert_account_metadata (a : Address) (raw : Metadata) (now : Instant) (d : Database) : bool * Database :=
  match accounts d !! a with
  | None =>
      (true, set_accounts (<[a := {| address_array := Segments a; metadata := raw; first_usage := now;
                                     insertion_date := now; updated_at := now; closed := false |}]> (accounts d)) d)
  | Some r =>
      if bool_decide (raw ⊆ metadata r) then (false, d)
      else (true, set_accounts (<[a := with_account_metadata (raw ∪ metadata r) now r]> (accounts d)) d)
  end.

Definition affected (run : Database -> bool * Database) : Database -> res error (bool * Database) :=
  fun d => Ok (run d).

Definition lockAndMerge (id : Z) (m : Metadata) : Txn bool :=
  do! _ := lockTarget (transaction_exists id) in
  stmt SMetadata (fun d => let! raw := stored_metadata m in affected (merge_transaction id raw) d).

Definition lockAndDeleteKey (found : Database -> res error bool) (k : string)
    (drop : Database -> bool * Database) : Txn bool :=
  do! _ := lockTarget found in
  stmt SMetadata (fun d =>
    let! _ := when (negb (pg_text k)) (PgError invalidText) in affected drop d).

Section codec.
Context {codec : Codec}.

(** ** The shape every change shares *)

Definition mutate_body (E : Env) (apply : Txn bool) (p : payload) : Txn (outcome bool) :=
  do! changed := apply in
  do! _ := if changed : bool then
             do! a := allocateLogID in
             appendLogEntry a p (Truncate (now E) microsecond) EmptyString EmptyString
           else ret tt in
  commit changed.

Definition mutateMetadata (E : Env) (apply : Txn bool) (p : payload) (d : Database) : res error bool * Database :=
  match fault E SBegin with
  | Some code => (Err (PgError code), d)
  | None => transact (fault E) (mutate_body E apply p) (landed E d)
  end.

Definition then_read {A} (r : res error bool * Database) (read : Database -> res error A) : res error A * Database :=
  match r with
  | (Err e, d) => (Err e, d)
  | (Ok _, d) => (read d, d)
  end.

Definition SetTransactionMetadata (E : Env) (id : Z) (m : Metadata) (d : Database) : res error Transaction * Database :=
  match validateMetadata m with
  | Err e => (Err e, d)
  | Ok _ =>
      then_read (mutateMetadata E (lockAndMerge id m) (PSetMetadata TargetTransaction (print_Z id) m) d)
        (fun d => GetTransaction d id)
  end.

Definition DeleteTransactionMetadataKey (E : Env) (id : Z) (k : string) (d : Database)
    : res error Transaction * Database :=
  if bool_decide (k = EmptyString) then (Err (LedgerError ErrEmptyMetadataKey), d)
  else then_read
         (mutateMetadata E (lockAndDeleteKey (transaction_exists id) k (drop_transaction_key id k))
            (PDeleteMetadata TargetTransaction (print_Z id) k) d)
         (fun d => GetTransaction d id).

Definition no_volumes : accountOptions := {| with_volumes := false; with_effective := None |}.

Definition SetAccountMetadata (E : Env) (a : Address) (m : Metadata) (d : Database) : res error Account * Database :=
  if negb (Address_Valid a) then (Err (LedgerError ErrInvalidSourceAddress), d)
  else match validateMetadata m with
  | Err e => (Err e, d)
  | Ok _ =>
      then_read
        (mutateMetadata E
           (stmt SMetadata (fun d => let! raw := stored_metadata m in
                                     affected (upsert_account_metadata a raw (Truncate (now E) microsecond)) d))
           (PSetMetadata TargetAccount a m) d)
        (fun d => GetAccount (now E) d a no_volumes)
  end.

Definition DeleteAccountMetadataKey (E : Env) (a : Address) (k : string) (d : Database)
    : res error Account * Database :=
  if bool_decide (k = EmptyString) then (Err (LedgerError ErrEmptyMetadataKey), d)
  else then_read
         (mutateMetadata E (lockAndDeleteKey (account_exists a) k (drop_account_key a k (db_now E)))
            (PDeleteMetadata TargetAccount a k) d)
         (fun d => GetAccount (now E) d a no_volumes).

(** ** How a mutation ends *)

Lemma mutate_body_cases E apply p f d o d' :
  mutate_body E apply p f d = Ok (o, d') ->
  exists changed d1 d2, apply f d = Ok (changed, d1) /\ o = Committed changed /\ d' = set_pending [] d2 /\
    if changed : bool then
      exists a d3, allocate_row 0 1 d1 = Ok (a, d3) /\
        entry_appended a p (Truncate (now E) microsecond) EmptyString EmptyString d3 d2
    else d2 = d1.
Proof.
  unfold mutate_body. intros H. apply bind_Ok in H as (changed & d1 & Ha & H).
  apply bind_Ok in H as (u & d2 & Hl & H). apply commit_Ok in H as (_ & _ & -> & ->).
  exists changed, d1, d2. split_and!; [done..|]. destruct changed.
  - apply bind_Ok in Hl as (a & d3 & Hal & He). unfold allocateLogID in Hal. apply stmt_Ok in Hal as [_ Hal].
    apply appendLogEntry_Ok in He. eauto.
  - by apply ret_Ok in Hl as [_ <-].
Qed.

(** Refused without a trace, or landed. *)
Lemma mutate_cases E apply p d r d' :
  mutateMetadata E apply p d = (r, d') ->
  (exists e, r = Err e /\ (d' = d \/ d' = landed E d)) \/
  (exists changed d1 d2, r = Ok changed /\ apply (fault E) (landed E d) = Ok (changed, d1) /\
     d' = set_pending [] d2 /\
     if changed : bool then
       exists a d3, allocate_row 0 1 d1 = Ok (a, d3) /\
         entry_appended a p (Truncate (now E) microsecond) EmptyString EmptyString d3 d2
     else d2 = d1).
Proof.
  unfold mutateMetadata. destruct (fault E SBegin); [intros [= <- <-]; left; eauto|].
  unfold transact. destruct (mutate_body E apply p (fault E) (landed E d)) as [[o d2]|e] eqn:Hb.
  - apply mutate_body_cases in Hb as (changed & d1 & d3 & Ha & -> & -> & Hc). intros [= <- <-].
    right. exists changed, d1, d3. done.
  - intros [= <- <-]. left. eauto.
Qed.

Lemma mutate_keeps E apply p d :
  (forall f d0 b d1, apply f d0 = Ok (b, d1) -> benign d0 d1) -> moves_nothing p ->
  settled_ok d -> settled_ok (landed E d) -> settled_ok (mutateMetadata E apply p d).2.
Proof.
  intros Happ Hp Hd [Hl Hpe]. destruct (mutateMetadata E apply p d) as [r d'] eqn:H. simpl.
  apply mutate_cases in H as [(e & -> & [-> | ->])|(changed & d1 & d2 & -> & Ha & -> & Hc)]; [done..|].
  pose proof (benign_ok _ _ (Happ _ _ _ _ Ha) Hl) as Hok1. split; [|done]. apply pending_ok.
  destruct changed; [|by subst]. destruct Hc as (a & d3 & Hal & He). by eapply other_entry_ok.
Qed.

Lemma then_read_db {A} (r : res error bool * Database) (read : Database -> res error A) : (then_read r read).2 = r.2.
Proof. by destruct r as [[b|e] d]. Qed.

Lemma benign_accounts d m : benign d (set_accounts m d).
Proof. by split. Qed.

Lemma benign_transaction d id r m :
  transactions d !! id = Some r -> benign d (set_transactions (<[id := with_metadata m r]> (transactions d)) d).
Proof.
  intros Hr. split; try done. intros i. simpl. rewrite lookup_insert. case_decide; [|done]. subst. by rewrite Hr.
Qed.

Lemma lockTarget_benign found f d u d1 : lockTarget found f d = Ok (u, d1) -> d1 = d /\ found d = Ok true.
Proof.
  unfold lockTarget. intros [_ H]%stmt_Ok. destruct (found d) as [[]|]; simpl in H; by simplify_eq.
Qed.

Lemma merge_benign id m f d b d1 : lockAndMerge id m f d = Ok (b, d1) -> benign d d1.
Proof.
  unfold lockAndMerge. intros H. apply bind_Ok in H as (u & d2 & [-> _]%lockTarget_benign & H).
  apply stmt_Ok in H as [_ H]. apply rbind_Ok in H as (raw & _ & H). unfold affected, merge_transaction in H.
  destruct (transactions d !! id) as [r|] eqn:Hr; [case_bool_decide|]; simplify_eq; try apply benign_refl.
  by apply benign_transaction.
Qed.

Lemma drop_benign found k drop f d b d1 :
  (forall d b d1, drop d = (b, d1) -> benign d d1) -> lockAndDeleteKey found k drop f d = Ok (b, d1) -> benign d d1.
Proof.
  intros Hdrop H. unfold lockAndDeleteKey in H. apply bind_Ok in H as (u & d2 & [-> _]%lockTarget_benign & H).
  apply stmt_Ok in H as [_ H]. apply rbind_Ok in H as (u' & _ & H). unfold affected in H. injection H as H.
  by eapply Hdrop.
Qed.

Lemma drop_transaction_benign id k d b d1 : drop_transaction_key id k d = (b, d1) -> benign d d1.
Proof.
  unfold drop_transaction_key. intros H. destruct (transactions d !! id) as [r|] eqn:Hr; [case_bool_decide|];
    simplify_eq; try apply benign_refl. by apply benign_transaction.
Qed.

Lemma drop_account_benign a k at_ d b d1 : drop_account_key a k at_ d = (b, d1) -> benign d d1.
Proof.
  unfold drop_account_key. intros H. repeat case_match; simplify_eq; try apply benign_refl. apply benign_accounts.
Qed.

Lemma upsert_benign (a : Address) (m : Metadata) (at_ : Instant) f d b d1 :
  stmt SMetadata (fun d => let! raw := stored_metadata m in affected (upsert_account_metadata a raw at_) d) f d =
    Ok (b, d1) -> benign d d1.
Proof.
  intros [_ H]%stmt_Ok. apply rbind_Ok in H as (raw & _ & H). unfold affected, upsert_account_metadata in H.
  repeat case_match; simplify_eq; try apply benign_refl; apply benign_accounts.
Qed.

Lemma metadata_settled (E : Env) (id : Z) (a : Address) (m : Metadata) (k : string) (d : Database) :
  settled_ok d -> settled_ok (landed E d) ->
  settled_ok (SetTransactionMetadata E id m d).2 /\ settled_ok (DeleteTransactionMetadataKey E id k d).2 /\
  settled_ok (SetAccountMetadata E a m d).2 /\ settled_ok (DeleteAccountMetadataKey E a k d).2.
Proof.
  intros Hd Hl. split_and!.
  - unfold SetTransactionMetadata. destruct (validateMetadata m); [|done]. rewrite then_read_db.
    apply mutate_keeps; [|done..]. intros *. apply merge_benign.
  - unfold DeleteTransactionMetadataKey. case_bool_decide; [done|]. rewrite then_read_db.
    apply mutate_keeps; [|done..]. intros *. apply drop_benign. apply drop_transaction_benign.
  - unfold SetAccountMetadata. destruct (negb _); [done|]. destruct (validateMetadata m); [|done]. rewrite then_read_db.
    apply mutate_keeps; [|done..]. intros *. apply upsert_benign.
  - unfold DeleteAccountMetadataKey. case_bool_decide; [done|]. rewrite then_read_db.
    apply mutate_keeps; [|done..]. intros *. apply drop_benign. apply drop_account_benign.
Qed.

(** Metadata leaves money alone and a trail behind. All four metadata
    operations keep the ledger's invariant -- the book, both histories, the
    chain, the projection -- whatever fails. *)
Theorem metadata_keeps_ledger (E : Env) (id : Z) (a : Address) (m : Metadata) (k : string) (d : Database) :
  settled_ok d -> settled_ok (landed E d) ->
  settled_ok (SetTransactionMetadata E id m d).2 /\ settled_ok (DeleteTransactionMetadataKey E id k d).2 /\
  settled_ok (SetAccountMetadata E a m d).2 /\ settled_ok (DeleteAccountMetadataKey E a k d).2.
Proof. apply metadata_settled. Qed.

(** What setting metadata does. On success the transaction existed; when
    the row already holds every pair, nothing is written at all -- the log
    records changes, not attempts; otherwise the new pairs win over the old,
    exactly one entry is appended under the next log id, no transaction id is
    used, and no balance or move changes. The answer is the row afterwards. *)
Theorem set_metadata_exact (E : Env) (id : Z) (m : Metadata) (d d' : Database) (t : Transaction) :
  SetTransactionMetadata E id m d = (Ok t, d') -> pending (landed E d) = [] ->
  let d0 := landed E d in
  exists r raw, transactions d0 !! id = Some r /\ stored_metadata m = Ok raw /\ m <> ∅ /\
    if bool_decide (raw ⊆ tx_metadata r) then d' = d0 /\ t = hydrateTransaction id r
    else let r' := with_metadata (raw ∪ tx_metadata r) r in
      t = hydrateTransaction id r' /\
      transactions d' = <[id := r']> (transactions d0) /\ volumes d' = volumes d0 /\ moves d' = moves d0 /\
      exists l l' row, ledger_row d0 = Some l /\ ledger_row d' = Some l' /\
        last_tx_id l' = last_tx_id l /\ last_log_id l' = last_log_id l + 1 /\
        log_type row = LogSetMetadata /\ marshal (PSetMetadata TargetTransaction (print_Z id) m) = Some (data row) /\
        logs d' = <[last_log_id l + 1 := row]> (logs d0).
Proof.
  intros H Hpe d0. unfold SetTransactionMetadata in H.
  destruct (validateMetadata m) as [u|e] eqn:Hv; [|done].
  assert (m <> ∅) as Hne by (intros ->; discriminate Hv).
  destruct (mutateMetadata E (lockAndMerge id m) _ d) as [[changed|e] d1] eqn:Hm; [|done].
  simpl in H. injection H as Ht <-.
  apply mutate_cases in Hm as [(? & ? & _)|(c & d2 & d3 & Hc & Ha & -> & Hcase)]; [done|].
  injection Hc as <-. fold d0 in Ha, Hpe. clearbody d0. unfold lockAndMerge in Ha.
  apply bind_Ok in Ha as (u' & d4 & [-> Hex]%lockTarget_benign & Ha). apply stmt_Ok in Ha as [_ Ha].
  apply rbind_Ok in Ha as (raw & Hraw & Ha). unfold affected, merge_transaction in Ha.
  destruct (transactions d0 !! id) as [r|] eqn:Hr.
  2:{ unfold transaction_exists in Hex. rewrite Hr in Hex. done. }
  exists r, raw. split_and!; [done..|]. destruct (bool_decide (raw ⊆ tx_metadata r)); injection Ha as <- <-.
  - rewrite Hcase in *. assert (set_pending [] d0 = d0) as Hd0 by (rewrite <-Hpe; by destruct d0).
    rewrite Hd0 in *. split; [done|]. unfold GetTransaction in Ht. rewrite Hr in Ht. congruence.
  - destruct Hcase as (a & d5 & Hal & bytes & Hbytes & _ & _ & ->).
    apply allocate_row_Ok in Hal as (l & Hl & -> & -> & _ & _). simpl in *.
    unfold GetTransaction in Ht. simpl in Ht. rewrite lookup_insert_eq in Ht.
    split; [congruence|]. split_and!; [done..|]. rewrite Hl in *. do 3 eexists.
    split_and!; [done|reflexivity|simpl; lia|reflexivity| | |reflexivity]; done.
Qed.

End codec.

(** The caps bound one request, not a row: two requests of 32 keys leave 64. *)
Definition many_keys (prefix : string) : Metadata :=
  list_to_map ((fun n => (String.append prefix (print_Z (Z.of_nat n)), ""%string)) <$> List.seq 0 32).

Lemma merge_exceeds_caps :
  match transactions (SetTransactionMetadata calm_env 1 (many_keys "b")
                        (SetTransactionMetadata calm_env 1 (many_keys "a") (db funded_store)).2).2 !! 1 with
  | Some r => size (tx_metadata r) = 64%nat /\ Metadata_Validate (tx_metadata r) = Some ErrTooManyMetadataKeys
  | None => False
  end.
Proof. vm_compute. done. Qed.

Lemma metadata_keeps_ledger_witness :
  settled_ok (SetTransactionMetadata calm_env 1 {[ "k" := "v" ]} (db funded_store)).2.
Proof.
  exact (proj1 (metadata_keeps_ledger calm_env 1 "world" {[ "k" := "v" ]} "k" (db funded_store)
                  funded_settled funded_settled)).
Defined.

Definition tagged_deposit : res error Transaction * Database :=
  SetTransactionMetadata calm_env 1 {[ "k" := "v" ]} (db funded_store).

Lemma tagged_deposit_ok : is_ok tagged_deposit.1 = true.
Proof. vm_compute. reflexivity. Qed.

Lemma set_metadata_exact_witness :
  exists r raw, transactions (db funded_store) !! 1 = Some r /\ stored_metadata {[ "k" := "v" ]} = Ok raw.
Proof.
  destruct (ran _ tagged_deposit_ok) as [t H]. unfold tagged_deposit at 1 in H.
  destruct (set_metadata_exact calm_env 1 {[ "k" := "v" ]} (db funded_store) tagged_deposit.2 t H
              (proj2 funded_settled)) as (r & raw & Hr & Hraw & _).
  exists r, raw. split; [exact Hr|exact Hraw].
Defined.
