(* ===== verification/Policy.v ===== *)
(** * Which accounts may cross zero

    [storage/policy.go]: the permissions of one account in one asset, and the
    check that finds a balance outside a bound it may not cross. The invariant
    [bounded] is what the check looks for; everything that moves money keeps
    it, and only a permission revoked afterwards can break it. *)

From S2P Require Import Prelude Identifiers Text Posting Volumes Sha256 GoTime Transaction Codec Encoding Errors Schema Txn Locking Guards Moves History Log Observer Commit Committed Book Chain Sample CommitSpec Replay Effective Read Verify Invariant Revert Bulk.

(** ** Setting a permission *)

Definition permit_negative (allow : bool) (r : VolumeRow) : VolumeRow :=
  {| volumes_of := volumes_of r; allow_negative := allow; allow_positive := allow_positive r |}.

Definition permit_positive (allow : bool) (r : VolumeRow) : VolumeRow :=
  {| volumes_of := volumes_of r; allow_negative := allow_negative r; allow_positive := allow |}.

(** The column defaults of accounts_volumes. *)
Definition default_row : VolumeRow :=
  {| volumes_of := NewVolumes; allow_negative := false; allow_positive := true |}.

(** [insert ... on conflict do update set] one permission *)
Definition upsert_permission (flip : VolumeRow -> VolumeRow) (k : key) (d : Database) : res error Database :=
  match volumes d !! k with
  | None => insert_volume k (flip default_row) d
  | Some r => update_volume k r (flip r) d
  end.

Definition policy_target (address : Address) (asset : Asset) (allow : bool) : res error unit :=
  let! _ := when (negb (Address_Valid address)) (PlainError "invalid account address") in
  let! _ := when (negb (Asset_Valid asset)) (PlainError "invalid asset") in
  when (is_world address && negb allow) ErrWorldMustAllowNegative.

Definition SetAllowNegative (f : faults) (address : Address) (asset : Asset) (allow : bool) (d : Database)
    : res error unit * Database :=
  match policy_target address asset allow with
  | Err e => (Err e, d)
  | Ok _ => autocommit f (exec SExec (upsert_permission (permit_negative allow) (address, asset))) d
  end.

Definition SetAllowPositive (f : faults) (address : Address) (asset : Asset) (allow : bool) (d : Database)
    : res error unit * Database :=
  match policy_target address asset allow with
  | Err e => (Err e, d)
  | Ok _ => autocommit f (exec SExec (upsert_permission (permit_positive allow) (address, asset))) d
  end.

(** ** Reading it back *)

Definition AllowsNegative (d : Database) (address : Address) (asset : Asset) : res error bool :=
  let! _ := when (negb (pg_text address && pg_text asset)) (PgError invalidText) in
  Ok (match volumes d !! (address, asset) with
      | None => is_world address
      | Some r => allow_negative r
      end).

Record AssetPolicy := {
  APAsset : Asset;
  APBalance : Z;
  AllowNegative : bool;
  AllowPositive : bool;
}.

Definition policy_row (ar : Asset * VolumeRow) : AssetPolicy :=
  {| APAsset := ar.1; APBalance := Balance (volumes_of ar.2);
     AllowNegative := allow_negative ar.2; AllowPositive := allow_positive ar.2 |}.

Definition Policy (d : Database) (address : Address) : res error (list AssetPolicy) :=
  let! _ := when (negb (Address_Valid address)) (PlainError "invalid account address") in
  Ok (policy_row <$> rows_of d address).

(** ** Looking for a balance out of bounds *)

Record UnpermittedNegative := { UNAccount : Address; UNAsset : Asset; UNBalance : Z }.

(** [(not allow_negative and input < output) or (not allow_positive and input > output)] *)
Definition out_of_bounds (r : VolumeRow) : bool :=
  (negb (allow_negative r) && (Input (volumes_of r) <? Output (volumes_of r)))
  || (negb (allow_positive r) && (Output (volumes_of r) <? Input (volumes_of r))).

Definition unpermitted (kv : key * VolumeRow) : option UnpermittedNegative :=
  if out_of_bounds kv.2
  then Some {| UNAccount := kv.1.1; UNAsset := kv.1.2; UNBalance := Balance (volumes_of kv.2) |}
  else None.

(** Rows examined, and what [errors.Join] joins: nothing is a nil error. *)
Definition VerifyBalancePermissions (d : Database) : nat * list UnpermittedNegative :=
  (size (volumes d), omap unpermitted (map_rows key_le (volumes d))).

(** No balance is beyond a bound its account may not cross. *)
Definition bounded (d : Database) : Prop := map_Forall (fun _ r => out_of_bounds r = false) (volumes d).

Lemma permissions_silent d : bounded d -> (VerifyBalancePermissions d).2 = [].
Proof.
  intros Hb. apply elem_of_nil_inv. simpl. intros e ([k r] & Hk%elem_of_map_rows & He)%list_elem_of_omap.
  unfold unpermitted in He. simpl in He. by rewrite (Hb k r Hk) in He.
Qed.

(** The permission check is sound and complete. It looks at every row, and
    reports exactly the pairs whose balance is on a side its permissions refuse,
    with that balance; so it is silent exactly on a bounded book. *)
Theorem verify_permissions_decides (d : Database) :
  (VerifyBalancePermissions d).1 = size (volumes d) /\
  ((VerifyBalancePermissions d).2 = [] <-> bounded d) /\
  forall a c b, {| UNAccount := a; UNAsset := c; UNBalance := b |} ∈ (VerifyBalancePermissions d).2 <->
    exists r, volumes d !! (a, c) = Some r /\ b = Balance (volumes_of r) /\
      ((allow_negative r = false /\ b < 0) \/ (allow_positive r = false /\ 0 < b)).
Proof.
  assert (forall r, out_of_bounds r = true <->
            (allow_negative r = false /\ Balance (volumes_of r) < 0) \/
            (allow_positive r = false /\ 0 < Balance (volumes_of r))) as Hout.
  { intros r. unfold out_of_bounds, Balance. destruct (allow_negative r), (allow_positive r); simpl; lia. }
  assert (forall e, e ∈ (VerifyBalancePermissions d).2 <->
            exists k r, volumes d !! k = Some r /\ unpermitted (k, r) = Some e) as Hin.
  { intros e. simpl. rewrite list_elem_of_omap. split.
    - intros ([k r] & Hk%elem_of_map_rows & He). eauto.
    - intros (k & r & Hk & He). exists (k, r). by rewrite elem_of_map_rows. }
  unfold unpermitted in Hin. split_and!; [done|split|].
  - intros Hnil k r Hk. apply not_true_is_false. intros Hr. rewrite Hnil in Hin.
    assert (({| UNAccount := k.1; UNAsset := k.2; UNBalance := Balance (volumes_of r) |} : UnpermittedNegative)
              ∈ @nil UnpermittedNegative) as Hn; [|by apply not_elem_of_nil in Hn].
    apply Hin. exists k, r. simpl. by rewrite Hr.
  - intros Hb. apply elem_of_nil_inv. intros e (k & r & Hk & He)%Hin. simpl in He. by rewrite (Hb k r Hk) in He.
  - intros a c b. rewrite Hin. split.
    + intros ([a' c'] & r & Hk & He). simpl in He. destruct (out_of_bounds r) eqn:Hr; [|done].
      injection He as <- <- <-. exists r. by rewrite <-Hout.
    + intros (r & Hk & -> & Hr%Hout). exists (a, c), r. simpl. by rewrite Hr.
Qed.

(** ** What setting a permission does *)

(** One row appears or changes a flag; nothing is said about money. *)
Lemma upsert_permission_Ok flip k d d' :
  (forall r, volumes_of (flip r) = volumes_of r) ->
  upsert_permission flip k d = Ok d' ->
  (volumes d !! k = None -> registered d k.2 = true) /\
  d' = set_pending (k.2 :: pending d)
         (set_volumes (<[k := flip (default default_row (volumes d !! k))]> (volumes d)) d).
Proof.
  intros Hf. unfold upsert_permission. destruct (volumes d !! k) as [r|] eqn:Hk; simpl.
  - unfold update_volume. intros H. inv_ok. done.
  - intros (_ & ? & ->)%insert_volume_Ok. done.
Qed.

(** With the flags untouched by a change of zero, the guards always pass. *)
Lemma upsert_permission_total flip k d :
  (forall r, volumes_of (flip r) = volumes_of r) -> registered d k.2 = true ->
  upsert_permission flip k d = Ok (set_pending (k.2 :: pending d)
    (set_volumes (<[k := flip (default default_row (volumes d !! k))]> (volumes d)) d)).
Proof.
  intros Hf Hreg. unfold upsert_permission. destruct (volumes d !! k) as [r|] eqn:Hk; simpl.
  - unfold update_volume, volumes_monotonic, no_unpermitted_overdraw. rewrite Hf, !Z.ltb_irrefl. simpl.
    by rewrite bool_decide_true.
  - apply insert_volume_Ok. split_and!; [|done|done]. unfold no_unpermitted_overdraw. by rewrite Hf.
Qed.

Lemma upsert_permission_same_money flip k d d' :
  (forall r, volumes_of (flip r) = volumes_of r) ->
  upsert_permission flip k d = Ok d' -> same_money d d'.
Proof.
  intros Hf [Hreg ->]%upsert_permission_Ok; [|done]. split; simpl; try done.
  - intros k'. unfold volume_at. simpl. destruct (decide (k = k')) as [->|].
    + rewrite lookup_insert_eq. simpl. rewrite Hf. by destruct (volumes d !! k').
    + by rewrite lookup_insert_ne.
  - intros k' ?. rewrite lookup_insert. by case_decide.
  - intros k'. rewrite lookup_insert. case_decide; [subst|by left].
    destruct (volumes d !! k') eqn:Hk; [left; by eexists|right; by apply Hreg].
Qed.

(** ** Money never moves past a bound *)

Lemma out_of_bounds_false r :
  out_of_bounds r = false <->
  (allow_negative r = true \/ Output (volumes_of r) <= Input (volumes_of r)) /\
  (allow_positive r = true \/ Input (volumes_of r) <= Output (volumes_of r)).
Proof. unfold out_of_bounds. destruct (allow_negative r), (allow_positive r); simpl; lia. Qed.

Lemma zero_row_bounded k : out_of_bounds (zero_row k) = false.
Proof. unfold out_of_bounds. simpl. by rewrite !andb_false_r. Qed.

Lemma applied_bounded now db_now p opts us t alloc d d' :
  applied now db_now p opts us t alloc d d' -> bounded d -> bounded d'.
Proof.
  intros Ha Hb k r. rewrite (applied_rows _ _ _ _ _ _ _ _ _ Ha). case_decide as Hin; [|apply Hb].
  intros [= <-]. apply list_elem_of_fmap in Hin as (u & -> & Hu).
  pose proof (updates_NoDup _ _ (applied_updates _ _ _ _ _ _ _ _ _ Ha)) as Hnd.
  unfold delta_row. rewrite (find_update us u Hnd Hu). apply out_of_bounds_false. simpl.
  exact (proj1 (check_balance_Ok _ u) (applied_guarded _ _ _ _ _ _ _ _ _ Ha u Hu)).
Qed.

Lemma materialised_bounded ks d d' : materialised ks d d' -> bounded d -> bounded d'.
Proof.
  intros [_ Hv] Hb k r. rewrite Hv. destruct (volumes d !! k) as [r0|] eqn:Hr0.
  - intros [= <-]. by apply (Hb k).
  - case_decide; [|done]. intros [= <-]. apply zero_row_bounded.
Qed.

Lemma bounded_ext d d' : volumes d' = volumes d -> bounded d -> bounded d'.
Proof. unfold bounded. by intros ->. Qed.

Section codec.
Context {codec : Codec}.

Lemma entry_volumes a pl dt k h d d' : entry_appended a pl dt k h d d' -> volumes d' = volumes d.
Proof. by intros (bytes & _ & _ & _ & ->). Qed.

Lemma batch_chain_bounded E opts h i d items ts d' :
  batch_chain E opts h i d items ts d' -> bounded d -> bounded d'.
Proof.
  induction 1 as [|i d d1 d2 d' it items t ts us alloc Ha He _ IH]; [done|]. intros Hb. apply IH.
  eapply bounded_ext; [by eapply entry_volumes|]. by eapply applied_bounded.
Qed.

(** C30: nobody spends money they do not have. On a book where no balance is
    beyond a bound its account may not cross, a commit, a reversal and a batch
    all end on such a book, sweeps and every interleaving of other sessions
    included. *)
Theorem no_overdraft (W : Weather) (s : Store) :
  (forall n d, bounded d -> bounded (landed (attempt_env W n) d)) ->
  bounded (db s) ->
  (forall p opts, bounded (db (CommitTransaction W p opts s).2)) /\
  (forall id opts, bounded (db (RevertTransaction W id opts s).2)) /\
  (forall items opts, bounded (db (CommitBatch W items opts s).2)).
Proof.
  intros HW Hs. split_and!.
  - intros p opts. destruct (CommitTransaction W p opts s) as [r s'] eqn:H.
    apply (commit_keeps bounded W p opts s r s' H HW); [|done].
    intros n h d0 t d' _ _ [(us & alloc & d1 & Ha & bytes & _ & _ & _ & ->) _] Hb.
    apply (bounded_ext d1); [done|]. by eapply applied_bounded.
  - intros id opts. apply revert_keeps_any; [done| |done].
    intros n d0 rev d' [(row & us & alloc & d1 & d2 & _ & _ & _ & (inv & _ & Ha) & He & ->)] Hb.
    apply (bounded_ext d1); [|by eapply applied_bounded]. simpl. by apply entry_volumes in He.
  - intros items opts. apply batch_keeps_any; [done| |done].
    intros n h d0 ts d' _ _ [(d1 & d2 & [_ [ks Hm]] & Hc & ->) _] Hb.
    apply (bounded_ext d2); [done|]. eapply batch_chain_bounded; [done|]. by eapply materialised_bounded.
Qed.

Lemma autocommit_settled {A} f (m : Txn A) (d : Database) :
  keeps ledger_ok m -> settled_ok d -> settled_ok (autocommit f m d).2.
Proof.
  intros Hk [Hok Hp]. unfold autocommit, transact.
  destruct (bind m (fun a => commit a) f d) as [[o d']|e] eqn:Hb; [|by split].
  apply bind_Ok in Hb as (a & d1 & Hm & Hc). apply commit_Ok in Hc as (_ & _ & -> & ->). simpl.
  split; [|done]. apply pending_ok. by eapply Hk.
Qed.

(** Neither permission touches what the other checks verify. *)
Lemma policy_keeps_ledger f a c allow (d : Database) :
  settled_ok d ->
  settled_ok (SetAllowNegative f a c allow d).2 /\ settled_ok (SetAllowPositive f a c allow d).2.
Proof.
  intros Hd. assert (forall flip, (forall r, volumes_of (flip r) = volumes_of r) ->
    keeps ledger_ok (exec SExec (upsert_permission flip (a, c)))) as Hk.
  { intros flip Hf. apply keeps_exec. intros d1 d2 H. eapply same_money_ok, upsert_permission_same_money; done. }
  unfold SetAllowNegative, SetAllowPositive.
  destruct (policy_target a c allow); split; first [done|apply autocommit_settled; [by apply Hk|done]].
Qed.

End codec.

Lemma new_ledger_bounded : bounded new_ledger.
Proof. apply map_Forall_empty. Qed.

Lemma no_overdraft_witness : bounded (db (CommitTransaction calm deposit no_options new_store).2).
Proof.
  exact (proj1 (no_overdraft calm new_store (fun _ _ H => H) new_ledger_bounded) deposit no_options).
Defined.

(** A permission is set where it was asked for and nowhere else. On a
    conserved ledger whose service works, permitting or refusing a negative
    balance of a registered asset succeeds unless the account is world and the
    answer is no; then the permission reads back as set, and no balance, no
    other permission and no other table has changed -- even if the account is
    already below zero. *)
Theorem set_allow_negative_exact (a : Address) (c : Asset) (allow : bool) (d : Database) :
  Address_Valid a = true -> Asset_Valid c = true -> registered d c = true ->
  drift d c = 0 -> pending d = [] ->
  let '(r, d') := SetAllowNegative no_faults a c allow d in
  (r = Err ErrWorldMustAllowNegative /\ d' = d /\ a = WorldAccount /\ allow = false) \/
  (r = Ok tt /\ allow_negative (row_at d' (a, c)) = allow /\
   allow_positive (row_at d' (a, c)) = allow_positive (row_at d (a, c)) /\
   (forall k, volume_at d' k = volume_at d k) /\
   (forall k, k <> (a, c) -> volumes d' !! k = volumes d !! k) /\
   d' = set_volumes (volumes d') d).
Proof.
  intros Ha Hc Hreg Hdrift Hpend. unfold SetAllowNegative, policy_target. rewrite Ha, Hc. simpl.
  destruct (is_world a && negb allow) eqn:Hw; simpl.
  { left. apply andb_true_iff in Hw as [Hw Hal]. unfold is_world in Hw. apply bool_decide_eq_true in Hw.
    by destruct allow. }
  pose proof (upsert_permission_total (permit_negative allow) (a, c) d (fun _ => eq_refl) Hreg) as Hup.
  rewrite Hpend in Hup. change ((a, c).2) with c in Hup.
  pose proof (upsert_permission_same_money (permit_negative allow) _ _ _ (fun _ => eq_refl) Hup) as Hsm.
  unfold autocommit, transact, bind, exec, commit, stmt, giro_conservation, no_faults. rewrite Hup. cbn [rbind existsb pending set_pending].
  rewrite (drift_volume_at d _ c (sm_volumes _ _ Hsm)), Hdrift. simpl. right.
  split_and!; [done|..].
  - unfold row_at. simpl. by rewrite lookup_insert_eq.
  - unfold row_at. simpl. rewrite lookup_insert_eq. by destruct (volumes d !! (a, c)).
  - intros k. rewrite <-(sm_volumes _ _ Hsm k). done.
  - intros k Hk. by rewrite lookup_insert_ne.
  - unfold set_volumes, set_pending. simpl. by rewrite Hpend.
Qed.

Lemma set_allow_negative_exact_witness :
  let '(r, d') := SetAllowNegative no_faults "cost:peg" "USD/2" true new_ledger in
  r = Ok tt /\ allow_negative (row_at d' ("cost:peg", "USD/2")) = true.
Proof.
  pose proof (set_allow_negative_exact "cost:peg" "USD/2" true new_ledger
    eq_refl eq_refl eq_refl eq_refl eq_refl) as H.
  destruct (SetAllowNegative no_faults "cost:peg" "USD/2" true new_ledger) as [r d'].
  destruct H as [(_ & _ & H & _)|(Hr & Ha & _)]; [discriminate H|by split].
Defined.

(** Granting world the positive side before anything has moved in an asset
    creates its row with the column's default on the other side: world may then
    not go below zero, and the first deposit is refused for overdrawing it. *)
Lemma world_loses_its_permission :
  let '(r, d') := SetAllowPositive no_faults "world" "USD/2" true new_ledger in
  r = Ok tt /\ AllowsNegative new_ledger "world" "USD/2" = Ok true /\
  AllowsNegative d' "world" "USD/2" = Ok false /\
  (CommitTransaction calm deposit no_options
     {| db := d'; seen_assets := ∅; ledgerSeen := false; retries := 0; observing := false; events := [] |}).1
  = Err (InsufficientFundsError "world" "USD/2" 0 100).
Proof. vm_compute. done. Qed.
