(* ===== verification/Closure.v ===== *)
(** * Closing accounts

    [storage/closure.go]: an account is closed once it holds nothing, refuses
    every posting until it is reopened, and a check looks for closed accounts
    that hold something. The race the source documents is in the model: what
    other sessions commit between the closure's read of the balances and its
    write is a parameter, [race], because the locks of that read hold no row of
    an empty account. *)

From S2P Require Import Prelude Identifiers Text Posting Volumes Sha256 GoTime Transaction Codec Encoding Errors Schema Txn Locking Guards Moves History Log Observer Commit Committed Book Chain Sample CommitSpec Replay Effective Read Verify Invariant Revert Bulk Policy.

(** ** Closing and reopening *)

(** [select asset, input - output ... where input <> output for update] *)
Definition held (d : Database) (address : Address) : list (Asset * Z) :=
  (fun ar => (ar.1, Balance (volumes_of ar.2))) <$>
    filter (fun ar : Asset * VolumeRow => Input (volumes_of ar.2) <> Output (volumes_of ar.2)) (rows_of d address).

(** [insert into accounts ... on conflict do update set closed = true] *)
Definition close_row (address : Address) (now : Instant) (r : option AccountRow) : AccountRow :=
  match r with
  | None => {| address_array := Segments address; metadata := ∅; first_usage := now;
               insertion_date := now; updated_at := now; closed := true |}
  | Some r => {| address_array := address_array r; metadata := metadata r; first_usage := first_usage r;
                 insertion_date := insertion_date r; updated_at := now; closed := true |}
  end.

Definition mark_account_closed (address : Address) (now : Instant) (d : Database) : Database :=
  set_accounts (<[address := close_row address now (accounts d !! address)]> (accounts d)) d.

(** After the balances read as zero. *)
Definition close_body (db_now : Instant) (address : Address) : Txn (outcome unit) :=
  do! _ := exec SExec (fun d => Ok (mark_account_closed address db_now d)) in
  commit tt.

Definition CloseAccount (E : Env) (race : Database -> Database) (address : Address) (d : Database)
    : res error unit * Database :=
  if negb (Address_Valid address) then (Err (PlainError "invalid account address"), d)
  else if is_world address then (Err ErrAccountClosureRefused, d)
  else match fault E SBegin with
       | Some code => (Err (PgError code), d)
       | None =>
           let d0 := landed E d in
           match query SLockRows (fun d => held d address) (fault E) d0 with
           | Err e => (Err e, d0)
           | Ok (_ :: _, _) => (Err ErrAccountNotEmpty, d0)
           | Ok ([], _) => transact (fault E) (close_body (db_now E) address) (race d0)
           end
       end.

Definition open_row (now : Instant) (r : AccountRow) : AccountRow :=
  {| address_array := address_array r; metadata := metadata r; first_usage := first_usage r;
     insertion_date := insertion_date r; updated_at := now; closed := false |}.

(** [update accounts set closed = false ... and closed]: the rows affected. *)
Definition reopen_row (address : Address) (now : Instant) (d : Database) : nat * Database :=
  match accounts d !! address with
  | Some r => if closed r then (1%nat, set_accounts (<[address := open_row now r]> (accounts d)) d) else (0%nat, d)
  | None => (0%nat, d)
  end.

Definition ReopenAccount (E : Env) (address : Address) (d : Database) : res error unit * Database :=
  if negb (Address_Valid address) then (Err (PlainError "invalid account address"), d)
  else match autocommit (fault E) (stmt SExec (fun d => Ok (reopen_row address (db_now E) d))) d with
       | (Err e, d) => (Err e, d)
       | (Ok 0%nat, d) => (Err (PlainError "not closed"), d)
       | (Ok _, d) => (Ok tt, d)
       end.

Definition IsClosed (d : Database) (address : Address) : res error bool :=
  let! _ := when (negb (pg_text address)) (PgError invalidText) in
  Ok (is_closed d address).

(** ** Looking for closed accounts that hold something *)

Record ClosedAccountHoldsBalance := { CAAccount : Address; CAAsset : Asset; CABalance : Z }.

Definition closed_holding (d : Database) (kv : key * VolumeRow) : option ClosedAccountHoldsBalance :=
  if is_closed d kv.1.1 && negb (Input (volumes_of kv.2) =? Output (volumes_of kv.2))
  then Some {| CAAccount := kv.1.1; CAAsset := kv.1.2; CABalance := Balance (volumes_of kv.2) |}
  else None.

Definition VerifyClosedAccounts (d : Database) : nat * list ClosedAccountHoldsBalance :=
  (size (filter (fun ar : Address * AccountRow => closed ar.2 = true) (accounts d)),
   omap (closed_holding d) (map_rows key_le (volumes d))).

(** No closed account holds anything. *)
Definition closed_empty (d : Database) : Prop :=
  forall a c, is_closed d a = true -> Balance (volume_at d (a, c)) = 0.

Lemma closed_holding_Some d k r e :
  closed_holding d (k, r) = Some e <->
  e = {| CAAccount := k.1; CAAsset := k.2; CABalance := Balance (volumes_of r) |} /\
  is_closed d k.1 = true /\ Balance (volumes_of r) <> 0.
Proof.
  unfold closed_holding, Balance. simpl. destruct (is_closed d k.1); simpl; [|naive_solver].
  destruct (Z.eqb_spec (Input (volumes_of r)) (Output (volumes_of r))); simpl; split;
    [done|intros (_ & _ & ?); lia|intros [= <-]; split_and!; [done|done|lia]|by intros (-> & _)].
Qed.

Lemma volume_at_Some d k r : volumes d !! k = Some r -> volume_at d k = volumes_of r.
Proof. unfold volume_at. by intros ->. Qed.

Lemma elem_of_held d a c b :
  (c, b) ∈ held d a <-> b = Balance (volume_at d (a, c)) /\ b <> 0.
Proof.
  assert (forall c r, (c, r) ∈ rows_of d a <-> volumes d !! (a, c) = Some r) as Hrows.
  { intros c' r. unfold rows_of. rewrite list_elem_of_omap. split.
    - intros ([[a' c''] r'] & Hk%elem_of_map_rows & H). simpl in H. case_bool_decide; simplify_eq/=. done.
    - intros H. exists ((a, c'), r). rewrite elem_of_map_rows. simpl. by rewrite bool_decide_true. }
  unfold held. rewrite list_elem_of_fmap. setoid_rewrite list_elem_of_filter. split.
  - intros ([c' r] & [= -> ->] & Hne & Hin%Hrows). rewrite (volume_at_Some _ _ _ Hin).
    split; [done|]. unfold Balance. simpl in *. lia.
  - intros [-> Hne]. destruct (volumes d !! (a, c)) as [r|] eqn:Hr.
    + rewrite (volume_at_Some _ _ _ Hr) in *. exists (c, r). split_and!; [done| |by apply Hrows].
      unfold Balance in Hne. simpl in *. lia.
    + unfold volume_at in Hne. by rewrite Hr in Hne.
Qed.

Lemma held_nil d a : held d a = [] <-> forall c, Balance (volume_at d (a, c)) = 0.
Proof.
  split.
  - intros Hnil c. destruct (Z.eq_dec (Balance (volume_at d (a, c))) 0) as [|Hne]; [done|].
    pose proof (proj2 (elem_of_held d a c _) (conj eq_refl Hne)) as Hin. rewrite Hnil in Hin.
    by apply not_elem_of_nil in Hin.
  - intros Hb. apply elem_of_nil_inv. intros [c b] [-> Hne]%elem_of_held. by apply Hne.
Qed.

(** With nothing queued, COMMIT has nothing to refuse. *)
Lemma commit_settled {A} (a : A) d :
  pending d = [] -> commit a no_faults d = Ok (Committed a, d).
Proof.
  intros Hp. unfold commit, stmt, giro_conservation. simpl. rewrite Hp. simpl.
  destruct d; simpl in *; by subst.
Qed.

Lemma reopen_exact E a d :
  Address_Valid a = true -> fault E = no_faults -> pending d = [] ->
  (ReopenAccount E a d).1 = Ok tt <-> is_closed d a = true.
Proof.
  intros Hv Hf Hp. unfold ReopenAccount, autocommit, transact. rewrite Hv, Hf. cbn [negb].
  unfold bind, stmt, no_faults at 1. cbn [rbind]. unfold reopen_row, is_closed.
  destruct (accounts d !! a) as [r|]; [destruct (closed r)|]; (rewrite commit_settled; [done|done]).
Qed.

(** ** A closed account does not move *)

(** Closed, holding exactly [v] in every asset. *)
Definition frozen (a : Address) (v : Asset -> Volumes) (d : Database) : Prop :=
  is_closed d a = true /\ forall c, volume_at d (a, c) = v c.

Lemma applied_frozen now db_now p opts us t alloc d d' a v :
  applied now db_now p opts us t alloc d d' -> frozen a v d -> frozen a v d'.
Proof.
  intros Ha [Hc Hv]. split; [by rewrite (applied_closed _ _ _ _ _ _ _ _ _ Ha)|].
  intros c. unfold volume_at. rewrite (applied_rows _ _ _ _ _ _ _ _ _ Ha).
  case_decide as Hin; [|apply Hv]. apply list_elem_of_fmap in Hin as (u & Hu & Hin).
  apply (applied_open _ _ _ _ _ _ _ _ _ Ha) in Hin. unfold update_key in Hu. injection Hu as Hu _. congruence.
Qed.

Lemma frozen_ext a v d d' :
  accounts d' = accounts d -> volumes d' = volumes d -> frozen a v d -> frozen a v d'.
Proof. unfold frozen, is_closed, volume_at. by intros -> ->. Qed.

Lemma materialised_frozen ks a v d d' : materialised ks d d' -> frozen a v d -> frozen a v d'.
Proof.
  intros [Hov Hv] [Hc Hb]. split.
  - unfold is_closed. rewrite Hov. exact Hc.
  - intros c. rewrite <-Hb. unfold volume_at. rewrite Hv. destruct (volumes d !! (a, c)); [done|]. by case_decide.
Qed.

Section codec.
Context {codec : Codec}.

Lemma entry_frozen al pl dt k h d d' a v :
  entry_appended al pl dt k h d d' -> frozen a v d -> frozen a v d'.
Proof. intros (bytes & _ & _ & _ & ->). by apply frozen_ext. Qed.

Lemma batch_chain_frozen E opts h i d items ts d' a v :
  batch_chain E opts h i d items ts d' -> frozen a v d -> frozen a v d'.
Proof.
  induction 1 as [|i d d1 d2 d' it items t ts us alloc Ha He _ IH]; [done|]. intros Hf. apply IH.
  eapply entry_frozen; [done|]. by eapply applied_frozen.
Qed.

(** C31: closed means closed. As long as the other sessions leave it alone, no
    commit, no reversal of an old transaction and no batch moves a closed
    account in any asset, in either direction, or opens it. *)
Theorem closed_account_frozen (W : Weather) (s : Store) (a : Address) (v : Asset -> Volumes) :
  (forall n d, frozen a v d -> frozen a v (landed (attempt_env W n) d)) ->
  frozen a v (db s) ->
  (forall p opts, frozen a v (db (CommitTransaction W p opts s).2)) /\
  (forall id opts, frozen a v (db (RevertTransaction W id opts s).2)) /\
  (forall items opts, frozen a v (db (CommitBatch W items opts s).2)).
Proof.
  intros HW Hs. split_and!.
  - intros p opts. destruct (CommitTransaction W p opts s) as [r s'] eqn:H.
    apply (commit_keeps (frozen a v) W p opts s r s' H HW); [|done].
    intros n h d0 t d' _ _ [(us & alloc & d1 & Ha & bytes & _ & _ & _ & ->) _] Hb.
    apply (frozen_ext _ _ d1); [done..|]. by eapply applied_frozen.
  - intros id opts. apply revert_keeps_any; [done| |done].
    intros n d0 rev d' [(row & us & alloc & d1 & d2 & _ & _ & _ & (inv & _ & Ha) & He & ->)] Hb.
    apply (frozen_ext _ _ d2); [done..|]. eapply entry_frozen; [done|].
    apply (frozen_ext _ _ d1); [done..|]. by eapply applied_frozen.
  - intros items opts. apply batch_keeps_any; [done| |done].
    intros n h d0 ts d' _ _ [(d1 & d2 & [_ [ks Hm]] & Hc & ->) _] Hb.
    apply (frozen_ext _ _ d2); [done..|]. eapply batch_chain_frozen; [done|]. by eapply materialised_frozen.
Qed.

(** Neither operation touches what the checks of the log verify. *)
Lemma accounts_ledger_ok m (d : Database) : ledger_ok d -> ledger_ok (set_accounts m d).
Proof. apply benign_ok. by split. Qed.

Lemma close_race_settled E race a (d : Database) :
  settled_ok d -> settled_ok (landed E d) -> settled_ok (race (landed E d)) -> settled_ok (CloseAccount E race a d).2.
Proof.
  intros Hd HE Hrace. unfold CloseAccount. destruct (negb (Address_Valid a)), (is_world a); try done.
  destruct (fault E SBegin); [done|]. unfold query, stmt. destruct (fault E SLockRows); [done|].
  destruct (held (landed E d) a); [|done]. unfold transact.
  destruct (close_body (db_now E) a (fault E) (race (landed E d))) as [[o d']|e] eqn:Hb; [|done].
  destruct Hrace as [Hok _]. unfold close_body in Hb. apply bind_Ok in Hb as (u & d1 & He & Hb).
  apply exec_Ok in He as [_ [= <-]]. apply commit_Ok in Hb as (_ & _ & -> & ->). simpl.
  split; [|done]. by apply pending_ok, accounts_ledger_ok.
Qed.

Lemma close_settled E a (d : Database) :
  settled_ok d -> settled_ok (landed E d) -> settled_ok (CloseAccount E id a d).2.
Proof. intros Hd HE. by apply close_race_settled. Qed.

Lemma reopen_settled E a (d : Database) : settled_ok d -> settled_ok (ReopenAccount E a d).2.
Proof.
  intros Hd. unfold ReopenAccount. destruct (negb (Address_Valid a)); [done|].
  assert (keeps ledger_ok (stmt SExec (fun d => Ok (reopen_row a (db_now E) d)))) as Hk.
  { apply keeps_stmt. intros d1 n d2 [= H]. unfold reopen_row in H. repeat case_match; simplify_eq;
      auto using accounts_ledger_ok. }
  pose proof (autocommit_settled (fault E) _ d Hk Hd) as Hr. by repeat case_match.
Qed.

End codec.

(** An account can be closed exactly when it holds nothing. With a service
    that works, closing a valid address other than world succeeds if its balance
    reads as zero in every asset, and then marks that account alone; otherwise
    it is refused for holding a balance and changes nothing. If no other session
    moved the account in between, no closed account holds anything afterwards
    that did not before. Reopening succeeds exactly on a closed account. *)
Theorem close_account_exact (E : Env) (race : Database -> Database) (a : Address) (d : Database) :
  Address_Valid a = true -> a <> WorldAccount -> fault E = no_faults ->
  pending (landed E d) = [] -> pending (race (landed E d)) = [] ->
  let '(r, d') := CloseAccount E race a d in
  let d0 := landed E d in
  ((r = Ok tt /\ (forall c, Balance (volume_at d0 (a, c)) = 0) /\
    d' = mark_account_closed a (db_now E) (race d0) /\
    (forall b, is_closed d' b = (bool_decide (a = b) || is_closed (race d0) b)) /\
    ((forall c, volume_at (race d0) (a, c) = volume_at d0 (a, c)) -> closed_empty (race d0) -> closed_empty d')) \/
   (r = Err ErrAccountNotEmpty /\ (exists c, Balance (volume_at d0 (a, c)) <> 0) /\ d' = d0)) /\
  ((ReopenAccount E a d').1 = Ok tt <-> is_closed d' a = true).
Proof.
  intros Hv Hw Hf Hp Hp'. unfold CloseAccount. rewrite Hv, Hf. cbn [negb]. unfold is_world.
  rewrite bool_decide_false by done. cbn [no_faults]. set (d0 := landed E d) in *.
  unfold query, stmt, no_faults at 1. destruct (held d0 a) as [|[c b] l] eqn:Hh.
  - unfold transact, close_body, bind, exec, stmt, no_faults at 1. cbn [rbind].
    rewrite commit_settled by done. split; [left|by apply reopen_exact].
    assert (forall b, is_closed (mark_account_closed a (db_now E) (race d0)) b =
                      (bool_decide (a = b) || is_closed (race d0) b)) as Hcl.
    { intros b. unfold is_closed. simpl. destruct (decide (a = b)) as [->|].
      + rewrite lookup_insert_eq, bool_decide_true by done. by destruct (accounts (race d0) !! b).
      + by rewrite lookup_insert_ne, bool_decide_false. }
    pose proof (proj1 (held_nil d0 a) Hh) as Hz.
    split_and!; [done|done|done|done|]. intros Hquiet He b c Hb. rewrite Hcl in Hb.
    change (Balance (volume_at (race d0) (b, c)) = 0).
    apply orb_true_iff in Hb as [<-%bool_decide_eq_true|Hb]; [by rewrite Hquiet|by apply He].
  - split; [right|by apply reopen_exact]. split_and!; [done| |done].
    exists c. destruct (proj1 (elem_of_held d0 a c b)) as [-> Hne]; [rewrite Hh; left|done].
Qed.

Definition empty_account : Address := "users:alice".

Lemma close_account_exact_witness :
  is_closed (CloseAccount calm_env id empty_account new_ledger).2 empty_account = true.
Proof.
  pose proof (close_account_exact calm_env id empty_account new_ledger eq_refl ltac:(discriminate)
                eq_refl eq_refl eq_refl) as H.
  destruct (CloseAccount calm_env id empty_account new_ledger) as [r d'] eqn:Hr.
  destruct H as [[(_ & _ & _ & H & _)|(_ & (c & H) & _)] _]; [exact (H empty_account)|].
  exfalso. apply H. reflexivity.
Defined.

(** The race, which only the check notices. *)
Example closure_race :
  let deposited d := db (CommitTransaction calm deposit no_options (with_db d new_store)).2 in
  let '(r, d) := CloseAccount calm_env deposited empty_account new_ledger in
  r = Ok tt /\ VerifyClosedAccounts d =
    (1%nat, [{| CAAccount := empty_account; CAAsset := "USD/2"; CABalance := 100 |}]).
Proof. vm_compute. done. Qed.

Definition closed_ledger : Database := (CloseAccount calm_env id empty_account new_ledger).2.

Lemma closed_account_frozen_witness :
  frozen empty_account (fun _ => NewVolumes)
    (db (CommitTransaction calm deposit no_options
       {| db := closed_ledger; seen_assets := ∅; ledgerSeen := false; retries := 0; observing := false;
          events := [] |}).2).
Proof.
  refine (proj1 (closed_account_frozen calm {| db := closed_ledger; seen_assets := ∅; ledgerSeen := false;
    retries := 0; observing := false; events := [] |} empty_account (fun _ => NewVolumes) (fun _ _ H => H) _)
    deposit no_options).
  split; reflexivity.
Defined.

Lemma closed_silent d : closed_empty d -> (VerifyClosedAccounts d).2 = [].
Proof.
  intros He. apply elem_of_nil_inv. simpl. intros e ([[a c] r] & Hk%elem_of_map_rows & Hc)%list_elem_of_omap.
  apply closed_holding_Some in Hc as (_ & Hc & Hne). cbn [fst snd] in *. rewrite <-(volume_at_Some _ _ _ Hk) in Hne.
  by apply Hne, He.
Qed.

(** The closure check is sound and complete: it is silent exactly when no
    closed account holds anything, and otherwise names each closed account,
    asset and balance. *)
Theorem verify_closed_decides (d : Database) :
  ((VerifyClosedAccounts d).2 = [] <-> closed_empty d) /\
  forall a c b, {| CAAccount := a; CAAsset := c; CABalance := b |} ∈ (VerifyClosedAccounts d).2 <->
    is_closed d a = true /\ b = Balance (volume_at d (a, c)) /\ b <> 0.
Proof.
  assert (forall a c b, {| CAAccount := a; CAAsset := c; CABalance := b |} ∈ (VerifyClosedAccounts d).2 <->
    is_closed d a = true /\ b = Balance (volume_at d (a, c)) /\ b <> 0) as Hin.
  { intros a c b. simpl. rewrite list_elem_of_omap. split.
    - intros ([k r] & Hk%elem_of_map_rows & [[= -> -> ->] [Hc Hb]]%closed_holding_Some). destruct k as [a c].
      cbn [fst snd] in *. by rewrite (volume_at_Some _ _ _ Hk).
    - intros (Hc & -> & Hne). destruct (volumes d !! (a, c)) as [r|] eqn:Hr.
      + exists ((a, c), r). rewrite elem_of_map_rows, closed_holding_Some.
        rewrite (volume_at_Some _ _ _ Hr) in *. done.
      + unfold volume_at in Hne. by rewrite Hr in Hne. }
  split; [|done]. split.
  - intros Hnil a c Hc. destruct (Z.eq_dec (Balance (volume_at d (a, c))) 0) as [|Hne]; [done|].
    pose proof (proj2 (Hin a c _) (conj Hc (conj eq_refl Hne))) as H. rewrite Hnil in H. by apply not_elem_of_nil in H.
  - intros He. apply elem_of_nil_inv. intros [a c b] (Hc & -> & Hne)%Hin. by apply Hne, He.
Qed.
