(* ===== verification/Registry.v ===== *)
(** * The registry of assets, and the ledger's own row

    [storage/assets.go] (registration), [storage/ledgers.go]: one scale per
    currency code, registration permanent, and the row whose counters allocate
    every id. *)

From S2P Require Import Prelude Identifiers Text Posting Volumes Sha256 GoTime Transaction Codec Encoding Errors Schema Txn Locking Guards Moves History Log Observer Commit Committed Book Chain Sample CommitSpec Replay Effective Read Verify Invariant Revert Bulk Policy Closure.

(** ** Assets *)

(** [on conflict (ledger, asset) do nothing]; the index on the code is another
    constraint. *)
Definition insert_asset (a : Asset) (db_now : Instant) (d : Database) : res error Database :=
  if registered d a then Ok d
  else
    let! _ := when (bool_decide (is_Some (assetWithCodeOf d a))) (PgError uniqueViolation) in
    Ok (set_assets (<[a := db_now]> (assets d)) d).

Definition RegisterAsset (E : Env) (a : Asset) (d : Database) : res error unit * Database :=
  if negb (Asset_Valid a) then (Err (PlainError "invalid asset"), d)
  else match autocommit (fault E) (exec SExec (insert_asset a (db_now E))) d with
       | (Ok _, d) => (Ok tt, d)
       | (Err e, d) =>
           match fault E SAssetWithCode, assetWithCodeOf d a with
           | None, Some _ => (Err (PlainError "cannot register: one scale per currency"), d)
           | _, _ => (Err e, d)
           end
       end.

(** [order by registered_at, asset] *)
Definition asset_le : relation (string * Instant) := fun x y =>
  x.2 < y.2 \/ (x.2 = y.2 /\ String.le x.1 y.1).

#[export] Instance asset_le_dec : RelDecision asset_le.
Proof. intros x y. unfold asset_le. apply _. Defined.

Definition Assets (d : Database) : list Asset := (merge_sort asset_le (map_to_list (assets d))).*1.

(** ** The ledger row *)

Record LedgerInfo := { LIName : string; LIAddedAt : Instant }.

Definition fresh_ledger_row (db_now : Instant) : LedgerRow :=
  {| last_tx_id := 0; last_log_id := 0; last_log_hash := None; added_at := db_now |}.

Definition insert_ledger (name : string) (db_now : Instant) (d : Database) : res error (LedgerInfo * Database) :=
  let! _ := when (negb (pg_text name)) (PgError invalidText) in
  match ledger_row d with
  | Some _ => Err (PgError uniqueViolation)
  | None => Ok ({| LIName := name; LIAddedAt := db_now |}, set_ledger_row (Some (fresh_ledger_row db_now)) d)
  end.

Definition CreateLedger (E : Env) (name : string) (d : Database) : res error LedgerInfo * Database :=
  match autocommit (fault E) (stmt SExec (insert_ledger name (db_now E))) d with
  | (Ok l, d) => (Ok l, d)
  | (Err e, d) => (Err (if is_unique_violation e then ErrLedgerExists else e), d)
  end.

Definition GetLedger (name : string) (d : Database) : res error LedgerInfo :=
  let! _ := text_arg name in
  match ledger_row d with
  | None => Err ErrNotFound
  | Some l => Ok {| LIName := name; LIAddedAt := added_at l |}
  end.

(** ** One scale per code *)

Definition one_scale (d : Database) : Prop :=
  forall a b, is_Some (assets d !! a) -> is_Some (assets d !! b) -> Code a = Code b -> a = b.

Lemma find_map_Some_iff {A B} (g : A -> option B) l :
  is_Some (find_map g l) <-> exists x, x ∈ l /\ is_Some (g x).
Proof.
  induction l as [|x l IH]; simpl.
  - split; [by intros []|]. by intros (? & ?%not_elem_of_nil & _).
  - destruct (g x) eqn:Hx.
    + split; [intros _; exists x; split; [left|by rewrite Hx]|done].
    + rewrite IH. setoid_rewrite elem_of_cons. split; [naive_solver|].
      intros (y & [-> |Hy] & Hs); [rewrite Hx in Hs; by destruct Hs|eauto].
Qed.

Lemma assetWithCodeOf_is_Some d a :
  is_Some (assetWithCodeOf d a) <-> exists b, is_Some (assets d !! b) /\ Code b = Code a.
Proof.
  unfold assetWithCodeOf. rewrite find_map_Some_iff. split.
  - intros ([b at_] & Hin%elem_of_map_rows & H). simpl in H. case_bool_decide as Hc; [|by destruct H].
    exists b. split; [by eexists|done].
  - intros (b & [at_ Hb] & Hc). exists (b, at_). rewrite elem_of_map_rows. simpl.
    by rewrite bool_decide_true.
Qed.

Lemma registered_is_Some d a : registered d a = true <-> is_Some (assets d !! a).
Proof. unfold registered. apply bool_decide_eq_true. Qed.

Lemma insert_asset_Ok a now d d' :
  insert_asset a now d = Ok d' ->
  (registered d a = true /\ d' = d) \/
  (registered d a = false /\ (forall b, is_Some (assets d !! b) -> Code b <> Code a) /\
   d' = set_assets (<[a := now]> (assets d)) d).
Proof.
  unfold insert_asset. destruct (registered d a); [intros [= <-]; by left|]. intros H. right. inv_ok.
  split_and!; [done| |done]. apply bool_decide_eq_false in H0. intros b Hb Hc. apply H0, assetWithCodeOf_is_Some. eauto.
Qed.

Lemma insert_asset_one_scale a now d d' :
  insert_asset a now d = Ok d' -> one_scale d -> one_scale d' /\ assets d ⊆ assets d' /\ registered d' a = true.
Proof.
  intros [[Hr ->]|(Hr & Hn & ->)]%insert_asset_Ok Hs; [by split|]. split_and!.
  - intros x y. simpl. rewrite !lookup_insert. repeat case_decide; subst; intros Hx Hy Hc; [done|..].
    + by destruct (Hn y Hy).
    + by destruct (Hn x Hx).
    + by apply Hs.
  - simpl. apply insert_subseteq. apply eq_None_not_Some. by rewrite <-registered_is_Some, Hr.
  - apply registered_is_Some. simpl. rewrite lookup_insert_eq. by eexists.
Qed.

(** One scale per currency, for good. Registering keeps at most one asset
    per code and forgets none; with a service that works, a valid asset is
    refused exactly when another scale of its code is registered, and an asset
    that is already there is accepted again and changes nothing. *)
Theorem register_asset_exact (E : Env) (a : Asset) (d : Database) :
  Asset_Valid a = true -> fault E = no_faults -> pending d = [] -> one_scale d ->
  let '(r, d') := RegisterAsset E a d in
  one_scale d' /\ assets d ⊆ assets d' /\
  (r = Ok tt <-> forall b, registered d b = true -> Code b = Code a -> b = a) /\
  (r = Ok tt -> registered d' a = true) /\
  (registered d a = true -> d' = d).
Proof.
  intros Hv Hf Hp Hs. unfold RegisterAsset, autocommit, transact, bind, exec, stmt. rewrite Hv, Hf.
  cbn [negb no_faults]. destruct (insert_asset a (db_now E) d) as [d1|e] eqn:Hi; cbn [rbind].
  - pose proof (insert_asset_one_scale _ _ _ _ Hi Hs) as (Hs' & Hsub & Hreg).
    assert (pending d1 = []) as Hp1 by (destruct (insert_asset_Ok _ _ _ _ Hi) as [[_ ->]|(_ & _ & ->)]; done).
    rewrite (commit_settled tt d1 Hp1). split_and!; [done|done| |done|].
    + split; [|done]. intros _ b Hb%registered_is_Some Hc. apply Hs'; [by apply (lookup_weaken_is_Some (assets d))| |done].
      by apply registered_is_Some.
    + intros Hr. destruct (insert_asset_Ok _ _ _ _ Hi) as [[_ ->]|(Hn & _)]; [done|congruence].
  - unfold insert_asset in Hi. destruct (registered d a) eqn:Hr; [done|].
    destruct (assetWithCodeOf d a) as [b|] eqn:Hb; [|done].
    assert (exists b, is_Some (assets d !! b) /\ Code b = Code a) as (c & Hc & Hcode)
      by (apply assetWithCodeOf_is_Some; by rewrite Hb).
    split_and!; [done|done| |done|done]. split; [done|]. intros Hall. exfalso.
    apply registered_is_Some in Hc as Hc'. pose proof (Hall c Hc' Hcode) as ->. congruence.
Qed.

(** Registering is no business of the other checks. *)
Lemma register_keeps_ledger `{Codec} E a (d : Database) : settled_ok d -> settled_ok (RegisterAsset E a d).2.
Proof.
  intros Hd. unfold RegisterAsset. destruct (negb (Asset_Valid a)); [done|].
  assert (keeps ledger_ok (exec SExec (insert_asset a (db_now E)))) as Hk.
  { apply keeps_exec. intros d1 d2 [[_ ->]|(Hr & _ & ->)]%insert_asset_Ok Hok; [done|].
    apply (benign_ok d1); [|done]. split; try done. simpl. apply insert_subseteq.
    apply eq_None_not_Some. by rewrite <-registered_is_Some, Hr. }
  pose proof (autocommit_settled (fault E) _ d Hk Hd) as Hs. by repeat case_match.
Qed.

(** A created ledger is the empty book every invariant starts from. *)
Lemma create_ledger_settled `{Codec} E name :
  fault E = no_faults -> pg_text name = true ->
  exists info, CreateLedger E name empty_database = (Ok info, set_ledger_row (Some (fresh_ledger_row (db_now E))) empty_database).
Proof.
  intros Hf Hn. unfold CreateLedger, autocommit, transact, bind, stmt, insert_ledger. rewrite Hf, Hn. simpl.
  by eexists.
Qed.

Lemma new_ledger_one_scale : one_scale new_ledger.
Proof.
  intros a b. simpl. rewrite !lookup_singleton_is_Some. by intros <- <-.
Qed.

Lemma register_asset_exact_witness :
  (RegisterAsset calm_env "USD/6" new_ledger).1 <> Ok tt /\ (RegisterAsset calm_env "USD/2" new_ledger).2 = new_ledger.
Proof.
  pose proof (register_asset_exact calm_env "USD/6" new_ledger eq_refl eq_refl eq_refl new_ledger_one_scale) as H6.
  pose proof (register_asset_exact calm_env "USD/2" new_ledger eq_refl eq_refl eq_refl new_ledger_one_scale) as H2.
  destruct (RegisterAsset calm_env "USD/6" new_ledger) as [r6 d6].
  destruct (RegisterAsset calm_env "USD/2" new_ledger) as [r2 d2].
  destruct H6 as (_ & _ & H6 & _), H2 as (_ & _ & _ & _ & H2). split; [|by apply H2].
  intros Hr. pose proof (proj1 H6 Hr "USD/2" eq_refl eq_refl) as Hbad. discriminate Hbad.
Defined.
