(* ===== verification/Base64.v ===== *)
(** * Unpadded, URL-safe base64

    [base64.RawURLEncoding], which tips and page cursors are written in. The
    decoder skips line breaks and, not being strict, ignores the bits a short
    last group leaves over. *)

From S2P Require Import Prelude Identifiers Text.

Definition char_of (z : Z) : ascii := ascii_of_N (Z.to_N z).

Definition b64_char (n : Z) : ascii :=
  char_of (if n <? 26 then 65 + n
           else if n <? 52 then 71 + n
           else if n <? 62 then n - 4
           else if n =? 62 then 45 else 95).

Definition b64_value (c : ascii) : option Z :=
  let b := byte_of c in
  if (65 <=? b) && (b <=? 90) then Some (b - 65)
  else if (97 <=? b) && (b <=? 122) then Some (b - 71)
  else if (48 <=? b) && (b <=? 57) then Some (b + 4)
  else if b =? 45 then Some 62
  else if b =? 95 then Some 63
  else None.

(** Six bits at a time out of bytes [a], [b], [c]. *)
Definition six1 (a : Z) : Z := a / 4.
Definition six2 (a b : Z) : Z := (a mod 4) * 16 + b / 16.
Definition six3 (b c : Z) : Z := (b mod 16) * 4 + c / 64.
Definition six4 (c : Z) : Z := c mod 64.

Fixpoint EncodeToString (s : string) : string :=
  match s with
  | EmptyString => EmptyString
  | String a EmptyString =>
      String (b64_char (six1 (byte_of a))) (String (b64_char (six2 (byte_of a) 0)) EmptyString)
  | String a (String b EmptyString) =>
      String (b64_char (six1 (byte_of a))) (String (b64_char (six2 (byte_of a) (byte_of b)))
        (String (b64_char (six3 (byte_of b) 0)) EmptyString))
  | String a (String b (String c s)) =>
      String (b64_char (six1 (byte_of a))) (String (b64_char (six2 (byte_of a) (byte_of b)))
        (String (b64_char (six3 (byte_of b) (byte_of c))) (String (b64_char (six4 (byte_of c)))
          (EncodeToString s))))
  end.

(** And bytes out of six bits. *)
Definition byte1 (v1 v2 : Z) : ascii := char_of (v1 * 4 + v2 / 16).
Definition byte2 (v2 v3 : Z) : ascii := char_of ((v2 mod 16) * 16 + v3 / 4).
Definition byte3 (v3 v4 : Z) : ascii := char_of ((v3 mod 4) * 64 + v4).

Fixpoint decode_quanta (s : string) : option string :=
  match s with
  | EmptyString => Some EmptyString
  | String _ EmptyString => None
  | String c1 (String c2 EmptyString) =>
      v1 ← b64_value c1; v2 ← b64_value c2; Some (String (byte1 v1 v2) EmptyString)
  | String c1 (String c2 (String c3 EmptyString)) =>
      v1 ← b64_value c1; v2 ← b64_value c2; v3 ← b64_value c3;
      Some (String (byte1 v1 v2) (String (byte2 v2 v3) EmptyString))
  | String c1 (String c2 (String c3 (String c4 s))) =>
      v1 ← b64_value c1; v2 ← b64_value c2; v3 ← b64_value c3; v4 ← b64_value c4;
      rest ← decode_quanta s;
      Some (String (byte1 v1 v2) (String (byte2 v2 v3) (String (byte3 v3 v4) rest)))
  end.

Fixpoint skip_newlines (s : string) : string :=
  match s with
  | EmptyString => EmptyString
  | String c s =>
      if (byte_of c =? 10) || (byte_of c =? 13) then skip_newlines s else String c (skip_newlines s)
  end.

Definition DecodeString (s : string) : option string := decode_quanta (skip_newlines s).

(** ** Round trip *)

Lemma b64_alphabet n :
  0 <= n < 64 -> b64_value (b64_char n) = Some n /\ byte_of (b64_char n) <> 10 /\ byte_of (b64_char n) <> 13 /\
  b64_char n <> ":"%char.
Proof.
  intros Hn.
  assert (forallb (fun n => bool_decide (b64_value (b64_char n) = Some n) && negb (byte_of (b64_char n) =? 10) &&
            negb (byte_of (b64_char n) =? 13) && negb (bool_decide (b64_char n = ":"%char)))
            (Z.of_nat <$> List.seq 0 64) = true) as H by reflexivity.
  rewrite forallb_forall in H. specialize (H n). rewrite <-list_elem_of_In, list_elem_of_fmap in H.
  specialize (H ltac:(exists (Z.to_nat n); rewrite elem_of_seq; lia)).
  apply andb_true_iff in H as [[[H1%bool_decide_eq_true H2]%andb_true_iff H3]%andb_true_iff H4].
  apply negb_true_iff in H2, H3, H4. apply Z.eqb_neq in H2, H3. apply bool_decide_eq_false in H4. done.
Qed.

Lemma b64_value_char n : 0 <= n < 64 -> b64_value (b64_char n) = Some n.
Proof. intros Hn. by apply b64_alphabet. Qed.

Lemma byte_of_range c : 0 <= byte_of c < 256.
Proof. unfold byte_of. pose proof (N_ascii_bounded c). lia. Qed.

Lemma char_of_byte c : char_of (byte_of c) = c.
Proof. unfold char_of, byte_of. by rewrite N2Z.id, ascii_N_embedding. Qed.

Lemma six_range a b :
  0 <= a < 256 -> 0 <= b < 256 ->
  0 <= six1 a < 64 /\ 0 <= six2 a b < 64 /\ 0 <= six3 a b < 64 /\ 0 <= six4 a < 64.
Proof. unfold six1, six2, six3, six4. intros. Z.to_euclidean_division_equations. lia. Qed.

Lemma bytes_six a b c :
  0 <= a < 256 -> 0 <= b < 256 -> 0 <= c < 256 ->
  byte1 (six1 a) (six2 a b) = char_of a /\ byte2 (six2 a b) (six3 b c) = char_of b /\
  byte3 (six3 b c) (six4 c) = char_of c.
Proof.
  unfold byte1, byte2, byte3, six1, six2, six3, six4. intros.
  split_and!; f_equal; Z.to_euclidean_division_equations; lia.
Qed.

(** Induction three characters at a time. *)
Lemma string_ind3 (P : string -> Prop) :
  P EmptyString -> (forall a, P (String a EmptyString)) -> (forall a b, P (String a (String b EmptyString))) ->
  (forall a b c s, P s -> P (String a (String b (String c s)))) -> forall s, P s.
Proof.
  intros H0 H1 H2 H3. fix IH 1. intros [|a [|b [|c s]]]; [done..|]. apply H3, IH.
Qed.

Ltac b64_ranges :=
  repeat match goal with
  | c : ascii |- _ =>
      lazymatch goal with
      | H : 0 <= byte_of c < 256 |- _ => fail
      | _ => pose proof (byte_of_range c)
      end
  end.

Lemma decode_encode s : decode_quanta (EncodeToString s) = Some s.
Proof.
  induction s as [|a|a b|a b c s IH] using string_ind3; cbn [EncodeToString decode_quanta]; [done|..]; b64_ranges.
  - rewrite !b64_value_char by (apply (six_range _ 0); lia). cbn [mbind option_bind].
    destruct (bytes_six (byte_of a) 0 0) as (-> & _); [lia..|]. by rewrite char_of_byte.
  - rewrite !b64_value_char by (first [apply (six_range (byte_of a) (byte_of b)); lia|apply (six_range (byte_of b) 0); lia]).
    cbn [mbind option_bind].
    destruct (bytes_six (byte_of a) (byte_of b) 0) as (-> & -> & _); [lia..|]. by rewrite !char_of_byte.
  - rewrite !b64_value_char by (first [apply (six_range (byte_of a) (byte_of b)); lia
      |apply (six_range (byte_of b) (byte_of c)); lia|apply (six_range (byte_of c) 0); lia]).
    cbn [mbind option_bind]. rewrite IH. cbn [mbind option_bind].
    destruct (bytes_six (byte_of a) (byte_of b) (byte_of c)) as (-> & -> & ->); [lia..|]. by rewrite !char_of_byte.
Qed.

(** What the encoder writes. *)
Definition b64_text (s : string) : bool :=
  forall_char (fun c => negb (byte_of c =? 10) && negb (byte_of c =? 13) && negb (bool_decide (c = ":"%char))) s.

Lemma encode_text s : b64_text (EncodeToString s) = true.
Proof.
  assert (forall n, 0 <= n < 64 -> negb (byte_of (b64_char n) =? 10) && negb (byte_of (b64_char n) =? 13) &&
            negb (bool_decide (b64_char n = ":"%char)) = true) as Hc.
  { intros n Hn. destruct (b64_alphabet n Hn) as (_ & H1 & H2 & H3). apply Z.eqb_neq in H1, H2.
    by rewrite H1, H2, bool_decide_false. }
  unfold b64_text.
  induction s as [|a|a b|a b c s IH] using string_ind3; cbn [EncodeToString forall_char]; [done|..]; b64_ranges;
    rewrite ?Hc by (first [apply (six_range (byte_of a) 0); lia|apply (six_range (byte_of a) (byte_of b)); lia
      |apply (six_range (byte_of b) 0); lia|apply (six_range (byte_of b) (byte_of c)); lia|apply (six_range (byte_of c) 0); lia]);
    done.
Qed.

Lemma skip_newlines_text s : b64_text s = true -> skip_newlines s = s.
Proof.
  unfold b64_text. induction s as [|c s IH]; simpl; [done|]. intros [[[H1 H2]%andb_true_iff _]%andb_true_iff H]%andb_true_iff.
  apply negb_true_iff in H1, H2. rewrite H1, H2. simpl. by rewrite IH.
Qed.

Lemma base64_roundtrip s : DecodeString (EncodeToString s) = Some s.
Proof. unfold DecodeString. rewrite skip_newlines_text by apply encode_text. apply decode_encode. Qed.

(** ** The alphabet needs no escaping in a URL *)

Definition url_char (c : ascii) : bool := is_lower c || is_upper c || is_digit c || Ascii.eqb c "-" || Ascii.eqb c "_".

Lemma b64_char_url n : 0 <= n < 64 -> url_char (b64_char n) = true.
Proof.
  intros Hn. assert (forallb (fun k => url_char (b64_char (Z.of_nat k))) (List.seq 0 64) = true) as H by (by vm_compute).
  rewrite forallb_forall in H. rewrite <-(Z2Nat.id n) by lia. apply H, in_seq. lia.
Qed.

Lemma encode_url s : forall_char url_char (EncodeToString s) = true.
Proof.
  induction s as [|a|a b|a b c s IH] using string_ind3; cbn [EncodeToString forall_char]; [done|..]; b64_ranges;
    rewrite ?IH, ?andb_true_r, ?andb_true_iff; split_and?; apply b64_char_url;
    unfold six1, six2, six3, six4; Z.to_euclidean_division_equations; lia.
Qed.
