(* ===== verification/Recovery.v ===== *)
(** * Surviving a restore

    [storage/recovery.go]: a tip names a ledger's position and is kept outside
    the database; after a restore it tells a sound one from one that lost
    entries or reused their ids; and the gap a restore leaves is declared by an
    entry of its own, never by moving a counter. *)

From S2P Require Import Prelude Identifiers Text Decimal Posting Volumes Sha256 GoTime Transaction Codec Encoding Errors Schema Txn Locking Guards Moves History Log Observer Commit Committed Book Chain Sample CommitSpec Replay Effective Read Verify Invariant Revert Bulk Policy Closure Registry Base64.

(** ** Tips as text *)

(** [Tip.String] *)
Definition Tip_String (t : Tip) : string :=
  if TLogID t =? 0 then String.append (TLedger t) ":0:"
  else String.append (TLedger t) (String ":" (String.append (print_Z (TLogID t))
         (String ":" (EncodeToString (THash t))))).

Definition ParseTip (s : string) : res error Tip :=
  match split_on ":" s with
  | [l; id; h] =>
      match parse_int64 id with
      | None => Err (PlainError "malformed tip: log id")
      | Some id =>
          match DecodeString h with
          | None => Err (PlainError "malformed tip: hash")
          | Some h => Ok {| TLedger := l; TTxID := 0; TLogID := id; THash := h |}
          end
      end
  | _ => Err (PlainError "malformed tip")
  end.

(** ** Where a ledger has got to *)

Definition ChainTip (name : string) (d : Database) : res error Tip :=
  match ledger_row d with
  | None => Err ErrLedgerNotFound
  | Some l => Ok {| TLedger := name; TTxID := last_tx_id l; TLogID := last_log_id l;
                    THash := default EmptyString (last_log_hash l) |}
  end.

Definition CheckTip (name : string) (expected : Tip) (d : Database) : res error unit :=
  let! actual := ChainTip name d in
  if TLogID expected =? 0 then Ok tt
  else match logs d !! TLogID expected with
       | None => Err (TipMismatch expected actual ErrChainBehind)
       | Some r =>
           when (negb (bool_decide (hash r = THash expected)))
             (TipMismatch expected actual ErrChainForked)
       end.

(** ** Resuming above every id ever issued *)

Definition past (watermark : Tip) (tx log : Z) : bool := (TLogID watermark <=? log) && (TTxID watermark <=? tx).

(** [greatest(last_tx_id, $2), last_log_id = $3] *)
Definition advance_ids (tx log : Z) (l : LedgerRow) : LedgerRow :=
  {| last_tx_id := Z.max (last_tx_id l) tx; last_log_id := log;
     last_log_hash := last_log_hash l; added_at := added_at l |}.

Section codec.
Context {codec : Codec}.

(** [coalesce(last_log_hash, '')] hashes as the missing hash does. *)
Definition recovery_row (now : Instant) (previous : option string) (bytes : string) : LogRow :=
  {| log_type := LogRecovery; data := bytes; date := Truncate now microsecond;
     hash := ChainHash previous bytes; idempotency_key := None; idempotency_hash := None |}.

Definition recovery_body (E : Env) (watermark : Tip) (note : string) : Txn (outcome unit) :=
  do! l := stmt SLockLedger (fun d =>
    match ledger_row d with
    | None => Err (PlainError "no rows in result set")
    | Some l => Ok (l, d)
    end) in
  if past watermark (last_tx_id l) (last_log_id l) then ret (RolledBack tt)
  else
    match marshal (PRecovery {| ResumedFrom := last_log_id l; SkippedThrough := TLogID watermark; Note := note |}) with
    | None => fail MarshalError
    | Some bytes =>
        let id := wrap64 (Z.max (last_log_id l) (TLogID watermark) + 1) in
        do! _ := exec SAdvanceIds (update_ledger (advance_ids (Z.max (last_tx_id l) (TTxID watermark)) id l)) in
        do! _ := insertLog id (recovery_row (now E) (last_log_hash l) bytes) in
        commit tt
    end.

Definition RecordRecovery (E : Env) (name : string) (watermark : Tip) (note : string) (d : Database)
    : res error unit * Database :=
  match ChainTip name d with
  | Err e => (Err e, d)
  | Ok current =>
      if past watermark (TTxID current) (TLogID current) then (Ok tt, d)
      else match fault E SBegin with
           | Some code => (Err (PgError code), d)
           | None => transact (fault E) (recovery_body E watermark note) (landed E d)
           end
  end.

(** ** What it does *)

Record recovered (E : Env) (w : Tip) (note : string) (d0 d' : Database) : Prop := {
  rc_parts : exists l bytes id,
    ledger_row d0 = Some l /\ past w (last_tx_id l) (last_log_id l) = false /\
    marshal (PRecovery {| ResumedFrom := last_log_id l; SkippedThrough := TLogID w; Note := note |}) = Some bytes /\
    id = wrap64 (Z.max (last_log_id l) (TLogID w) + 1) /\ last_log_id l <= id /\ logs d0 !! id = None /\
    let r := recovery_row (now E) (last_log_hash l) bytes in
    d' = set_pending [] (set_ledger_row (Some (set_hash (hash r) (advance_ids (Z.max (last_tx_id l) (TTxID w)) id l)))
                           (set_logs (<[id := r]> (logs d0)) d0));
}.

Lemma recovery_body_cases E w note f d0 o d' :
  recovery_body E w note f d0 = Ok (o, d') ->
  (o = RolledBack tt /\ exists l, ledger_row d0 = Some l /\ past w (last_tx_id l) (last_log_id l) = true) \/
  (o = Committed tt /\ recovered E w note d0 d').
Proof.
  unfold recovery_body. intros H. apply bind_Ok in H as (l & d1 & Hl & H). apply stmt_Ok in Hl as [_ Hl].
  destruct (ledger_row d0) as [l0|] eqn:Hl0; [|done]. injection Hl as -> <-.
  destruct (past w (last_tx_id l) (last_log_id l)) eqn:Hpast.
  { apply ret_Ok in H as [<- _]. left. eauto. }
  destruct (marshal _) as [bytes|] eqn:Hm; [|done]. right.
  apply bind_Ok in H as (u & d2 & Hu & H). apply exec_Ok in Hu as [_ Hu]. unfold update_ledger in Hu.
  rewrite Hl0 in Hu. unfold counters_monotonic in Hu. inv_ok. simpl in *.
  apply bind_Ok in H as (u' & d3 & Hi & H). apply insertLog_Ok in Hi as (Hn & _ & ->).
  apply commit_Ok in H as (_ & _ & -> & ->). split; [done|]. split.
  exists l, bytes, (wrap64 (Z.max (last_log_id l) (TLogID w) + 1)).
  split_and!; [done..| |done|done]. lia.
Qed.

Lemma RecordRecovery_cases E name w note d r d' :
  RecordRecovery E name w note d = (r, d') ->
  (d' = d \/ d' = landed E d) \/ (r = Ok tt /\ recovered E w note (landed E d) d').
Proof.
  unfold RecordRecovery. destruct (ChainTip name d) as [cur|e]; [|intros [= <- <-]; by left; left].
  destruct (past w _ _); [intros [= <- <-]; by left; left|].
  destruct (fault E SBegin); [intros [= <- <-]; by left; left|]. unfold transact.
  destruct (recovery_body E w note (fault E) (landed E d)) as [[o d2]|e] eqn:Hb; [|intros [= <- <-]; by left; right].
  apply recovery_body_cases in Hb as [[-> _]|[-> Hr]]; intros [= <- <-]; [by left; right|by right].
Qed.

Lemma past_false w tx log : past w tx log = false -> log < TLogID w \/ tx < TTxID w.
Proof. unfold past. lia. Qed.

Lemma tip_nonneg d l : chain_ok d l -> 0 <= last_log_id l.
Proof.
  intros [_ Hid _ Hids _ _]. rewrite Hid. unfold next_id.
  destruct (last (log_rows d)) as [[i r]|] eqn:Hlast; simpl; [|lia].
  apply last_Some in Hlast as [rows Hrows]. assert ((i, r) ∈ log_rows d) as Hin by (rewrite Hrows; set_solver).
  apply elem_of_map_rows in Hin. assert (1 <= i) by (apply Hids; by eexists). lia.
Qed.

(** The id did not wrap, or the counter's trigger would have refused it. *)
Lemma next_above_watermark (m : Z) (w : Z) id :
  0 <= m -> int64_ok w -> id = wrap64 (Z.max m w + 1) -> m <= id -> id = Z.max m w + 1.
Proof.
  intros Hm Hw Hid Hge. pose proof (wrap64_range (Z.max m w + 1)). unfold int64_ok, max_int64 in *.
  destruct (Z.eq_dec (Z.max m w) (2 ^ 63 - 1)) as [He|].
  - rewrite He in Hid. change (wrap64 (2 ^ 63 - 1 + 1)) with (- 2 ^ 63) in Hid. lia.
  - rewrite Hid. apply wrap64_id. unfold max_int64. lia.
Qed.

Lemma recovered_settled E w note d0 d' :
  recovered E w note d0 d' -> int64_ok (TLogID w) -> utf8_valid note = true ->
  settled_ok d0 -> settled_ok d'.
Proof.
  intros [(l & bytes & id & Hl & Hpast & Hm & Hid & Hge & Hn & ->)] Hw Hnote [[Hs Hlog Hk Hp Hst] _].
  split; [|done]. apply pending_ok. unfold log_ok in Hlog. rewrite Hl in Hlog.
  pose proof (chain_ids _ _ Hlog) as Hids.
  pose proof (tip_nonneg _ _ Hlog) as Hpos.
  pose proof (next_above_watermark _ _ _ Hpos Hw Hid Hge) as Hid'.
  assert (id <= max_int64) as Hmax by (rewrite Hid; apply wrap64_range).
  clear Hid. split; [by apply (sound_ext d0)| | | |done].
  - unfold log_ok. simpl. eapply (chain_append d0 _ l _ id); [exact Hlog|lia|reflexivity..| |simpl; lia|].
    + unfold verify_entry. simpl. rewrite bool_decide_true by done. simpl.
      destruct (Z.eqb_spec id (last_log_id l + 1)) as [|Hne]; [done|].
      unfold declaredGap. simpl. rewrite (unmarshal_marshal_recovery _ _) with (2 := Hm).
      * simpl. replace (last_log_id l + 1 - 1) with (last_log_id l) by lia.
        replace (id - 1) with (TLogID w) by lia. by rewrite !Z.eqb_refl.
      * split_and!; [|done|done]. unfold int64_ok. simpl. lia.
    + simpl. intros i Hi%(chain_tx_ids _ _ Hlog). lia.
  - eapply keys_unique_insert; [reflexivity|exact Hk|]. done.
  - eapply projection_extend_other; [|reflexivity|..|exact Hp]; [|done..]. intros i Hi%Hids. lia.
Qed.

(** A restore is survivable. Whatever the service does, recording a
    recovery keeps the ledger: the log still verifies, the declared gap
    included, and so does everything else the checks look at. When it succeeds
    and nothing was already past the watermark, every entry and transaction is
    still there, one entry is new, and both counters stand at or above every id
    the lost entries held, so no id is issued twice. *)
Theorem recovery_resumes (E : Env) (name : string) (w : Tip) (note : string) (d : Database) :
  int64_ok (TLogID w) -> utf8_valid note = true ->
  (forall d, settled_ok d -> settled_ok (landed E d)) -> settled_ok d ->
  let '(r, d') := RecordRecovery E name w note d in
  settled_ok d' /\
  ((d' = d \/ d' = landed E d) \/
   r = Ok tt /\ exists l l', ledger_row (landed E d) = Some l /\ ledger_row d' = Some l' /\
     Z.max (last_log_id l) (TLogID w) < last_log_id l' /\ Z.max (last_tx_id l) (TTxID w) <= last_tx_id l' /\
     (forall id x, logs (landed E d) !! id = Some x -> logs d' !! id = Some x) /\
     size (logs d') = S (size (logs (landed E d))) /\
     transactions d' = transactions (landed E d) /\ volumes d' = volumes (landed E d)).
Proof.
  intros Hw Hnote HE Hd. destruct (RecordRecovery E name w note d) as [r d'] eqn:Hr.
  apply RecordRecovery_cases in Hr as [Hsame|[-> Hrec]].
  { split; [destruct Hsame as [-> | ->]; [done|by apply HE]|by left]. }
  pose proof (recovered_settled _ _ _ _ _ Hrec Hw Hnote (HE d Hd)) as Hok. split; [done|]. right. split; [done|].
  destruct Hrec as [(l & bytes & id & Hl & Hpast & _ & Hid & Hge & Hn & ->)].
  exists l, (set_hash (hash (recovery_row (now E) (last_log_hash l) bytes)) (advance_ids (Z.max (last_tx_id l) (TTxID w)) id l)).
  assert (id = Z.max (last_log_id l) (TLogID w) + 1) as Hid'.
  { destruct (HE d Hd) as [[_ Hlog _ _ _] _]. unfold log_ok in Hlog. rewrite Hl in Hlog.
    by apply next_above_watermark; [eapply tip_nonneg|..]. }
  split_and!; simpl; [done|done|lia|lia| |by rewrite map_size_insert_None|done|done].
  intros i x Hx. rewrite lookup_insert_ne; [done|]. intros <-. congruence.
Qed.

(** ** What a tip remembers *)

Definition no_recovery (rows : list (Z * LogRow)) : Prop := Forall (fun kv => log_type kv.2 <> LogRecovery) rows.

(** Without a declared gap the ids are consecutive. *)
Lemma verified_ids rows e previous c n :
  verify_rows rows e previous c = (n, Ok tt) -> no_recovery rows ->
  forall i kv, rows !! i = Some kv -> kv.1 = e + Z.of_nat i.
Proof.
  revert e previous c. induction rows as [|[id r] rows IH]; intros e previous c; simpl; [done|].
  destruct (verify_entry e previous id r) as [u|x] eqn:Hv; [|done]. intros H [Hr Hall]%Forall_cons.
  assert (id = e) as ->.
  { unfold verify_entry in Hv. destruct (Z.eqb_spec id e) as [|Hne]; [done|]. unfold declaredGap in Hv. simpl in Hr.
    destruct (log_type r); try done; inv_ok. }
  intros [|i] kv Hi; simpl in Hi; [injection Hi as <-; simpl; lia|].
  rewrite (IH _ _ _ H Hall i kv Hi). lia.
Qed.

Lemma verified_chain d : snd (VerifyLog d) = Ok tt -> hashes_chain (log_rows d).
Proof.
  destruct (VerifyLog d) as [n r] eqn:Hv. simpl. intros ->.
  by apply verify_rows_hash in Hv as [_ Hv].
Qed.

(** The entries up to an id are a prefix of the log. *)
Lemma log_prefix d id r :
  snd (VerifyLog d) = Ok tt -> no_recovery (log_rows d) -> logs d !! id = Some r ->
  exists n, id = Z.of_nat (S n) /\ log_rows d !! n = Some (id, r).
Proof.
  destruct (VerifyLog d) as [m res] eqn:Hv. simpl. intros -> Hnr Hid.
  assert ((id, r) ∈ log_rows d) as [n Hn]%list_elem_of_lookup_1 by (by apply elem_of_map_rows).
  exists n. split; [|done]. pose proof (verified_ids _ _ _ _ _ Hv Hnr n _ Hn) as H. simpl in H. lia.
Qed.

Lemma hashes_chain_take n rows : hashes_chain rows -> hashes_chain (take n rows).
Proof.
  intros Hc i kv Hi. apply lookup_take_Some in Hi as [Hi Hlt]. rewrite take_take, Nat.min_l by lia.
  by apply Hc.
Qed.

(** A tip names the last entry. *)
Lemma tip_entry name d t :
  log_ok d -> ChainTip name d = Ok t ->
  TLogID t = 0 \/ exists r, logs d !! TLogID t = Some r /\ hash r = THash t.
Proof.
  intros Hlog Ht. unfold ChainTip in Ht. destruct (ledger_row d) as [l|] eqn:Hl; [|done].
  injection Ht as <-. unfold log_ok in Hlog. rewrite Hl in Hlog. cbn [TLogID THash].
  pose proof (chain_tip_id _ _ Hlog) as Hid. pose proof (chain_tip_hash _ _ Hlog) as Hhash.
  destruct (log_rows d) as [|[id r] rows _] eqn:Hrows using rev_ind; [unfold next_id in Hid; simpl in Hid; left; lia|right].
  rewrite next_id_snoc in Hid. rewrite next_previous_snoc in Hhash. replace (last_log_id l) with id by lia.
  exists r. split; [|by rewrite Hhash]. assert ((id, r) ∈ log_rows d) as Hin by (rewrite Hrows; set_solver).
  by apply elem_of_map_rows in Hin.
Qed.

(** The check after a restore can tell. Record the tip of a log that verifies; if
    a restored log verifies too, neither declares a gap, and [CheckTip] accepts
    the tip, every entry up to it is byte for byte the entry it was -- or the two
    logs contain two different texts with the same SHA-256. A restore that came
    back short is reported as behind, and one that reused the id with another
    hash as forked. *)
Lemma check_tip_tells (name : string) (d0 d : Database) (t : Tip) :
  log_ok d0 -> snd (VerifyLog d) = Ok tt -> no_recovery (log_rows d0) -> no_recovery (log_rows d) ->
  ChainTip name d0 = Ok t -> is_Some (ledger_row d) ->
  match CheckTip name t d with
  | Ok _ =>
      take (length (log_rows d0)) (entry_data (log_rows d)) = entry_data (log_rows d0) \/
      exists i s1 s2, preimage (log_rows d0) i = Some s1 /\ preimage (log_rows d) i = Some s2 /\
                      s1 <> s2 /\ Sha256.sum256 s1 = Sha256.sum256 s2
  | Err e =>
      (logs d !! TLogID t = None /\ errors_Is e ErrChainBehind = true) \/
      (exists r, logs d !! TLogID t = Some r /\ hash r <> THash t /\ errors_Is e ErrChainForked = true)
  end.
Proof.
  intros Hlog Hv Hnr0 Hnr Ht [l Hl]. unfold ChainTip in Ht. destruct (ledger_row d0) as [l0|] eqn:Hl0; [|done].
  injection Ht as <-. unfold log_ok in Hlog. rewrite Hl0 in Hlog. unfold CheckTip, ChainTip. rewrite Hl. simpl.
  pose proof (chain_tip_id _ _ Hlog) as Hid. pose proof (chain_tip_hash _ _ Hlog) as Hhash.
  destruct (log_rows d0) as [|[id0 r0] rows0 _] eqn:Hrows0 using rev_ind.
  { unfold next_id in Hid. simpl in Hid. rewrite (proj2 (Z.eqb_eq _ _)) by lia. by left. }
  rewrite next_id_snoc in Hid. rewrite next_previous_snoc in Hhash. rewrite Hhash. simpl.
  replace (last_log_id l0) with id0 in * by lia.
  assert (logs d0 !! id0 = Some r0) as Hr0.
  { assert ((id0, r0) ∈ log_rows d0) as Hin by (rewrite Hrows0; set_solver). by apply elem_of_map_rows in Hin. }
  assert (1 <= id0) as Hpos by (apply (chain_ids _ _ Hlog); by eexists).
  rewrite (proj2 (Z.eqb_neq _ _)) by lia.
  destruct (logs d !! id0) as [r|] eqn:Hr; [|left; split; [done|reflexivity]].
  destruct (when _ _) as [u|e] eqn:Hw.
  2:{ right. unfold when in Hw. exists r. case_bool_decide as Hh; simpl in Hw; [done|]. injection Hw as <-.
      split_and!; [done|done|reflexivity]. }
  destruct u. apply when_Ok, negb_false_iff, bool_decide_eq_true in Hw.
  rewrite <-Hrows0 in Hnr0 |- *.
  assert (snd (VerifyLog d0) = Ok tt) as Hv0 by by rewrite (chain_verifies _ _ Hlog).
  destruct (log_prefix d0 id0 r0 Hv0 Hnr0 Hr0) as (n0 & Hn0 & Hat0).
  destruct (log_prefix d id0 r Hv Hnr Hr) as (n & Hn & Hat). assert (n = n0) as -> by lia.
  assert (length (log_rows d0) = S n0) as Hlen.
  { rewrite Hrows0, length_app. simpl.
    assert (log_rows d0 !! length rows0 = Some (id0, r0)) as Hlast by (rewrite Hrows0; by apply list_lookup_middle).
    pose proof (map_rows_NoDup Z.le (logs d0)) as Hnd. rewrite NoDup_alt in Hnd.
    rewrite (Hnd n0 (length rows0) id0); [lia|..]; unfold log_rows in *; rewrite list_lookup_fmap;
      [by rewrite Hat0|by rewrite Hlast]. }
  rewrite Hlen.
  destruct (chains_agree (log_rows d0) (take (S n0) (log_rows d))) as [Heq|(i & s1 & s2 & H1 & H2 & Hne & Hs)].
  - by apply verified_chain.
  - by apply hashes_chain_take, verified_chain.
  - apply lookup_lt_Some in Hat. rewrite length_take. lia.
  - rewrite Hrows0, next_previous_snoc, (take_S_r _ _ _ Hat), next_previous_snoc. by rewrite Hw.
  - left. rewrite Heq. unfold entry_data. by rewrite fmap_take.
  - right. exists i, s1, s2. split_and!; [done| |done|done]. unfold preimage in *.
    destruct (take (S n0) (log_rows d) !! i) as [kv|] eqn:Hi; [|done].
    apply lookup_take_Some in Hi as [Hi Hlt]. rewrite take_take, Nat.min_l in H2 by lia. by rewrite Hi.
Qed.

End codec.

(** ** Tips as text, and back *)

Lemma b64_text_free s : b64_text s = true -> free_of ":" s = true.
Proof.
  apply forall_char_impl. intros c [_ Hc]%andb_true_iff. apply negb_true_iff, bool_decide_eq_false in Hc.
  by apply bool_decide_eq_true.
Qed.

Lemma digits_free s : forall_char is_digit s = true -> free_of ":" s = true.
Proof. apply forall_char_impl. intros c Hc. apply bool_decide_eq_true. by intros ->. Qed.

Lemma print_Z_free z : free_of ":" (print_Z z) = true.
Proof.
  unfold print_Z. destruct (z <? 0); [|apply digits_free, print_nat_is_digits].
  unfold free_of. cbn [forall_char]. rewrite bool_decide_true by done.
  apply digits_free, print_nat_is_digits.
Qed.

(** What [Tip.String] writes, [ParseTip] reads back: for a ledger whose
    name has no colon, the name, the log id and the hash -- no hash at position
    zero, where there is nothing to record. The transaction id is not written. *)
Theorem tip_roundtrip (t : Tip) :
  free_of ":" (TLedger t) = true -> int64_ok (TLogID t) ->
  ParseTip (Tip_String t) =
  Ok {| TLedger := TLedger t; TTxID := 0; TLogID := TLogID t;
        THash := if TLogID t =? 0 then EmptyString else THash t |}.
Proof.
  intros Hl Hid. unfold ParseTip, Tip_String. destruct (Z.eqb_spec (TLogID t) 0) as [Hz|Hz].
  - rewrite Hz. change ":0:" with (String ":" "0:"). by rewrite split_app_sep.
  - rewrite split_app_sep, split_app_sep, split_free by (first [done|apply print_Z_free|apply b64_text_free, encode_text]).
    rewrite parse_print_int64 by done. by rewrite base64_roundtrip.
Qed.

Definition some_tip : Tip := {| TLedger := "main"; TTxID := 3; TLogID := 5; THash := "0123" |}.

Lemma tip_roundtrip_witness :
  ParseTip "main:5:MDEyMw" = Ok {| TLedger := "main"; TTxID := 0; TLogID := 5; THash := "0123" |}.
Proof. apply (tip_roundtrip some_tip); [reflexivity|]. unfold int64_ok, max_int64. simpl. lia. Defined.

(** A colon in the ledger's name makes its tip unreadable. *)
Lemma colon_breaks_tip :
  ParseTip (Tip_String {| TLedger := "eu:main"; TTxID := 0; TLogID := 5; THash := "0123" |}) =
  Err (PlainError "malformed tip").
Proof. vm_compute. reflexivity. Qed.

Lemma recovery_resumes_witness :
  settled_ok (RecordRecovery calm_env "main" some_tip "restored" new_ledger).2.
Proof.
  pose proof (recovery_resumes calm_env "main" some_tip "restored" new_ledger) as H.
  destruct (RecordRecovery calm_env "main" some_tip "restored" new_ledger) as [r d'].
  apply H; [unfold int64_ok, max_int64; simpl; lia|reflexivity|exact (fun _ Hd => Hd)|apply new_ledger_settled].
Defined.

(** ** A log of one entry, and its tip *)

Definition one_entry_row : LedgerRow :=
  {| last_tx_id := 0; last_log_id := 1; last_log_hash := Some (hash first_entry); added_at := new_year |}.

Definition logged_once : Database := set_ledger_row (Some one_entry_row) one_entry.

Lemma logged_once_log : log_ok logged_once.
Proof.
  pose proof new_ledger_log as Hlog. unfold log_ok in *. cbn [ledger_row new_ledger set_assets set_ledger_row logged_once] in *.
  eapply (chain_append new_ledger logged_once _ one_entry_row 1 first_entry Hlog);
    [simpl; lia|reflexivity|reflexivity|reflexivity|reflexivity| |simpl; lia|].
  - by apply (verify_entry_next 1 None "{}" first_entry).
  - intros i. simpl. rewrite lookup_empty. by intros [? ?].
Qed.

Definition first_tip : Tip := {| TLedger := "main"; TTxID := 0; TLogID := 1; THash := hash first_entry |}.

Lemma first_row (r : LogRow) : logs logged_once !! 1 = Some r -> r = first_entry.
Proof. change (logs logged_once) with ({[ 1 := first_entry ]} : gmap Z LogRow). by rewrite lookup_singleton_eq; intros [= <-]. Qed.

(** The tip [giro recover] parses carries no transaction id, and the command
    passes the log id for both. A ledger with more entries than transactions is
    then never past its own tip: resuming from a restore that lost nothing
    appends an entry and skips transaction ids no transaction ever held. *)
Lemma resume_without_loss :
  let w := {| TLedger := "main"; TTxID := 1; TLogID := 1; THash := hash first_entry |} in
  let d' := (RecordRecovery calm_env "main" w "restored" logged_once).2 in
  (last_log_id <$> ledger_row logged_once, last_tx_id <$> ledger_row logged_once) = (Some 1, Some 0) /\
  (last_log_id <$> ledger_row d', last_tx_id <$> ledger_row d') = (Some 2, Some 1).
Proof. vm_compute. done. Qed.
