(* ===== verification/Page.v ===== *)
(** * Keyset pagination

    [storage/page.go] and [finish] of [storage/read.go]: opaque cursors that
    carry the filter with the position, and a page that knows whether another
    follows. What a listing supplies -- its filter's encoding, its rows in
    order, what lies beyond a position -- is the class [Listing]; that a walk
    from page to page sees every row once is proved against its laws. *)

From S2P Require Import Prelude Identifiers Text Posting Volumes Decimal GoTime Json Transaction Codec Encoding Errors Schema Base64.

Definition DefaultPageSize : Z := 25.
Definition MaxPageSize : Z := 100.

(** [next] is empty when nothing follows. *)
Record Page (T : Type) := { Items : list T; Next : string }.
Arguments Items {T} p.
Arguments Next {T} p.

Record cursor (F : Type) := {
  CFilter : F;
  After : Z;
  Limit : Z;
  AfterDate : option Instant;
}.
Arguments CFilter {F} c.
Arguments After {F} c.
Arguments Limit {F} c.
Arguments AfterDate {F} c.

Definition clampLimit (n : Z) : Z :=
  if n <=? 0 then DefaultPageSize else if MaxPageSize <? n then MaxPageSize else n.

(** ** What a listing supplies *)

Class Listing (F T : Type) := {
  filter_json : F -> option json;
  dec_filter : json -> option F;
  no_filter : F;
  (** parameters PostgreSQL refuses as text *)
  filter_refused : F -> bool;
  (** [where] the filter [order by] the position *)
  rows_matching : Database -> F -> list T;
  (** [where] the position comes after the cursor's *)
  beyond : Z -> option Instant -> T -> bool;
  position : T -> Z * option Instant;
}.

Section cursors.
Context {F T : Type} `{!Listing F T}.

Definition cursor_json (c : cursor F) : option json :=
  f ← filter_json (CFilter c);
  d ← match AfterDate c with Some at_ => (fun v => [("d", v)]) <$> instant_json at_ | None => Some [] end;
  Some (JObj ([("f", f); ("a", jint (After c)); ("l", jint (Limit c))] ++ d)).

Definition encodeCursor (c : cursor F) : option string :=
  (fun v => EncodeToString (render v)) <$> cursor_json c.

Definition dec_cursor : json -> option (cursor F) := dec_struct (fun fs =>
  f ← dec_field "f" no_filter dec_filter fs;
  a ← dec_field "a" 0 dec_int64 fs;
  l ← dec_field "l" 0 dec_int64 fs;
  d ← dec_field "d" None (pointer dec_instant) fs;
  Some {| CFilter := f; After := a; Limit := l; AfterDate := d |}).

Definition decodeCursor (s : string) : res error (cursor F) :=
  match DecodeString s with
  | None => Err ErrInvalidCursor
  | Some b =>
      match json_unmarshal dec_cursor b with
      | None => Err ErrInvalidCursor
      | Some c =>
          let! _ := when ((Limit c <=? 0) || (MaxPageSize <? Limit c)) ErrInvalidCursor in
          Ok c
      end
  end.

(** ** One page *)

(** The cursor a request starts from: its own filter, or the one it carries. *)
Definition start (f : F) (limit : Z) (s : string) : res error (cursor F) :=
  if bool_decide (s = EmptyString)
  then Ok {| CFilter := f; After := 0; Limit := clampLimit limit; AfterDate := None |}
  else decodeCursor s.

(** One row more than asked for, [limit $n], tells whether a page follows. *)
Definition fetch (d : Database) (c : cursor F) : list T :=
  take (Z.to_nat (Limit c + 1))
    (filter (fun t => beyond (After c) (AfterDate c) t = true) (rows_matching d (CFilter c))).

Definition finish (items : list T) (c : cursor F) : res error (Page T) :=
  if Z.of_nat (length items) <=? Limit c then Ok {| Items := items; Next := EmptyString |}
  else
    let items := take (Z.to_nat (Limit c)) items in
    match last items with
    | None => Err (PlainError "index out of range")
    | Some t =>
        match encodeCursor {| CFilter := CFilter c; After := (position t).1; Limit := Limit c;
                              AfterDate := (position t).2 |} with
        | None => Err MarshalError
        | Some next => Ok {| Items := items; Next := next |}
        end
    end.

Definition list_page (d : Database) (f : F) (limit : Z) (s : string) : res error (Page T) :=
  let! c := start f limit s in
  let! _ := when (filter_refused (CFilter c)) (PgError invalidText) in
  finish (fetch d c) c.

(** Following [next] until there is none. *)
Fixpoint walk (fuel : nat) (d : Database) (f : F) (limit : Z) (s : string) : res error (list T) :=
  match fuel with
  | O => Err (PlainError "out of fuel")
  | S fuel =>
      let! page := list_page d f limit s in
      if bool_decide (Next page = EmptyString) then Ok (Items page)
      else
        let! rest := walk fuel d f limit (Next page) in
        Ok (Items page ++ rest)
  end.

End cursors.

(** ** The laws, and the walk *)

(** A filter survives its encoding, a row's position does too and lies past the
    start, and the rows are in the order of their positions. *)
Class LawfulListing (F T : Type) `{!Listing F T} := {
  filter_ok : F -> Prop;
  row_ok : T -> Prop;
  dec_filter_json f v : filter_ok f -> filter_json f = Some v -> dec_filter v = Some f /\ v <> JNull;
  filter_json_ok f v : filter_ok f -> filter_json f = Some v -> json_ok v = true;
  filter_json_total f : filter_ok f -> is_Some (filter_json f);
  position_ok t : row_ok t ->
    1 <= (position t).1 <= max_int64 /\
    match (position t).2 with Some at_ => is_Some (instant_json at_) | None => True end;
  beyond_start t : beyond 0 None t = true;
}.

Lemma list_filter_all {A} (P : A -> Prop) `{!forall x, Decision (P x)} (l : list A) : (forall x, x ∈ l -> P x) -> filter P l = l.
Proof.
  induction l as [|x l IH]; intros Hall; [done|]. rewrite filter_cons_True by (apply Hall; left).
  f_equal. apply IH. intros y Hy. apply Hall. by right.
Qed.

Lemma list_filter_none {A} (P : A -> Prop) `{!forall x, Decision (P x)} (l : list A) :
  (forall x, x ∈ l -> ~ P x) -> filter P l = [].
Proof.
  induction l as [|x l IH]; intros Hall; [done|]. rewrite filter_cons_False by (apply Hall; left).
  apply IH. intros y Hy. apply Hall. by right.
Qed.

Lemma StronglySorted_lookup_lt {A} (R : relation A) (l : list A) i j x y :
  StronglySorted R l -> (i < j)%nat -> l !! i = Some x -> l !! j = Some y -> R x y.
Proof.
  intros Hs. revert i j. induction Hs as [|z l Hs IH Hall]; intros i j Hij Hx Hy; [done|].
  destruct j as [|j]; [lia|]. destruct i as [|i]; simpl in *.
  - injection Hx as <-. by apply (proj1 (Forall_lookup _ _) Hall j).
  - eapply (IH i j); [lia|done|done].
Qed.

Lemma clampLimit_range n : 1 <= clampLimit n <= MaxPageSize.
Proof. unfold clampLimit, DefaultPageSize, MaxPageSize. repeat case_match; lia. Qed.

Section walks.
Context {F T : Type} `{!Listing F T} `{!LawfulListing F T}.
Implicit Types (c : cursor F) (d : Database) (f : F) (t : T) (l : list T).

Lemma instant_json_str at_ v : instant_json at_ = Some v -> exists s, v = JStr s.
Proof. unfold instant_json, time_json. destruct (marshal_time _); simpl; [|done]. intros [= <-]. eauto. Qed.

Record cursor_ok c : Prop := {
  ck_filter : filter_ok (CFilter c);
  ck_after : int64_ok (After c);
  ck_limit : 1 <= Limit c <= MaxPageSize;
  ck_date : match AfterDate c with Some at_ => is_Some (instant_json at_) | None => True end;
}.

(** What [encodeCursor] writes, [decodeCursor] reads back. *)
Lemma cursor_roundtrip c :
  cursor_ok c -> exists s, encodeCursor c = Some s /\ s <> EmptyString /\ decodeCursor s = Ok c.
Proof.
  intros [Hf Ha Hl Hd]. destruct (filter_json_total _ Hf) as [v Hv].
  destruct (dec_filter_json _ _ Hf Hv) as [Hdec Hnull]. pose proof (filter_json_ok _ _ Hf Hv) as Hok.
  assert (int64_ok (Limit c)) as Hl64 by (unfold int64_ok, max_int64, MaxPageSize in *; lia).
  assert (exists obj, cursor_json c = Some obj /\ json_ok obj = true /\ dec_cursor obj = Some c)
    as (obj & Hj & Hobj & Hc).
  { destruct c as [f a l d]. cbn [CFilter After Limit AfterDate] in *. unfold cursor_json. cbn [CFilter After Limit AfterDate].
    rewrite Hv. cbn [mbind option_bind].
    assert (forall ds, json_ok (JObj ds) = true ->
              json_ok (JObj ([("f", v); ("a", jint a); ("l", jint l)] ++ ds)) = true) as Hparts.
    { intros ds Hds. rewrite json_obj_app, Hds. cbn [json_ok forallb fst snd]. by rewrite Hok, !jint_ok. }
    pose proof (dec_int64_jint _ Ha) as Da. pose proof (dec_int64_jint _ Hl64) as Dl. simpl in Da, Dl.
    destruct d as [at_|].
    - destruct Hd as [dv Hdv]. rewrite Hdv. pose proof (time_json_ok _ _ Hdv) as Hdok.
      pose proof (dec_instant_json _ _ Hdv) as Hdd. destruct (instant_json_str _ _ Hdv) as [s ->].
      eexists. split; [reflexivity|]. split; [apply Hparts; cbn [json_ok forallb fst snd] in *; by rewrite Hdok|].
      unfold dec_cursor, dec_field, field, pointer. simpl. destruct v; try done; rewrite Hdec; simpl;
        rewrite Da; simpl; rewrite Dl; simpl; by rewrite Hdd.
    - eexists. split; [reflexivity|]. split; [by apply Hparts|].
      unfold dec_cursor, dec_field, field, pointer. simpl. destruct v; try done; rewrite Hdec; simpl;
        rewrite Da; simpl; by rewrite Dl. }
  exists (EncodeToString (render obj)). unfold encodeCursor. rewrite Hj. split; [done|]. split.
  - intros He. pose proof (base64_roundtrip (render obj)) as Hr. rewrite He in Hr. simpl in Hr. injection Hr as Hr.
    pose proof (parse_render obj Hobj) as Hp. rewrite <-Hr in Hp. done.
  - unfold decodeCursor. rewrite base64_roundtrip. unfold json_unmarshal. rewrite (parse_render obj Hobj). simpl.
    rewrite Hc. destruct (Z.leb_spec (Limit c) 0), (Z.ltb_spec MaxPageSize (Limit c)); simpl; try lia. done.
Qed.

(** The rows are in the order of their positions. *)
Definition in_order (l : list T) : Prop :=
  forall i t, l !! i = Some t ->
    filter (fun x => beyond (position t).1 (position t).2 x = true) l = drop (S i) l.

(** A page is the next [Limit] rows, and its cursor stands after them. *)
Lemma finish_page d c k :
  let rows := rows_matching d (CFilter c) in
  cursor_ok c -> in_order rows -> Forall row_ok rows ->
  filter (fun x => beyond (After c) (AfterDate c) x = true) rows = drop k rows ->
  exists page, finish (fetch d c) c = Ok page /\ Items page = take (Z.to_nat (Limit c)) (drop k rows) /\
    (Next page = EmptyString -> drop (k + Z.to_nat (Limit c)) rows = []) /\
    (Next page <> EmptyString -> (k + Z.to_nat (Limit c) < length rows)%nat /\
       exists c', decodeCursor (Next page) = Ok c' /\ cursor_ok c' /\ CFilter c' = CFilter c /\ Limit c' = Limit c /\
         filter (fun x => beyond (After c') (AfterDate c') x = true) rows = drop (k + Z.to_nat (Limit c)) rows).
Proof.
  intros rows [Hf Ha Hl Hd] Hord Hrows Hk. set (n := Z.to_nat (Limit c)). unfold finish, fetch.
  fold rows. rewrite Hk. replace (Z.to_nat (Limit c + 1)) with (S n) by (unfold MaxPageSize in *; lia).
  destruct (Z.leb_spec (Z.of_nat (length (take (S n) (drop k rows)))) (Limit c)) as [Hlen|Hlen];
    rewrite length_take, length_drop in Hlen.
  - eexists. split; [done|]. cbn [Items Next]. split_and!; [rewrite !take_ge by (rewrite length_drop; lia); done| |done].
    intros _. apply drop_ge. lia.
  - cbv zeta. fold n. rewrite take_take, Nat.min_l by lia.
    destruct (lookup_lt_is_Some_2 rows (k + n - 1)%nat ltac:(lia)) as [t Ht].
    assert (last (take n (drop k rows)) = Some t) as ->.
    { rewrite last_lookup, length_take, length_drop. replace (Nat.pred (n `min` (length rows - k))) with (n - 1)%nat by lia.
      rewrite lookup_take_lt, lookup_drop by lia. by replace (k + (n - 1))%nat with (k + n - 1)%nat by lia. }
    assert (row_ok t) as Hrow by (apply (proj1 (Forall_forall _ _) Hrows); by eapply list_elem_of_lookup_2).
    destruct (position_ok t Hrow) as [Hpos Hdate].
    destruct (cursor_roundtrip {| CFilter := CFilter c; After := (position t).1; Limit := Limit c;
      AfterDate := (position t).2 |}) as (s & Hs & Hne & Hdec).
    { split; [done| |done|done]. unfold int64_ok. simpl. lia. }
    rewrite Hs. eexists. split; [done|]. cbn [Items Next]. split_and!; [done|done|]. intros _. split; [lia|].
    eexists. split; [exact Hdec|]. cbn [CFilter After Limit AfterDate]. split_and!; [|done|done|].
    + split; [done| |done|done]. unfold int64_ok. simpl. lia.
    + rewrite (Hord _ _ Ht). f_equal. lia.
Qed.

Lemma walk_spec fuel d f limit s c k :
  let rows := rows_matching d f in
  start f limit s = Ok c -> CFilter c = f -> cursor_ok c -> filter_refused f = false ->
  in_order rows -> Forall row_ok rows ->
  filter (fun x => beyond (After c) (AfterDate c) x = true) rows = drop k rows ->
  (length rows - k < fuel)%nat ->
  walk fuel d f limit s = Ok (drop k rows).
Proof.
  intros rows. revert s c k. induction fuel as [|fuel IH]; intros s c k Hs Hf Hc Href Hord Hrows Hk Hfuel; [lia|].
  cbn [walk]. unfold list_page. rewrite Hs. cbn [rbind]. rewrite Hf, Href. cbn [when rbind].
  destruct (finish_page d c k Hc) as (page & -> & Hit & Hend & Hmore); rewrite ?Hf; [done..|]. cbn [rbind].
  rewrite Hf in Hit, Hend, Hmore. fold rows in Hit, Hend, Hmore.
  pose proof (ck_limit _ Hc) as Hlim.
  case_bool_decide as Hn.
  - rewrite Hit. f_equal. apply take_ge. specialize (Hend Hn).
    pose proof (f_equal length Hend) as Hlen. rewrite length_drop in *. simpl in Hlen. lia.
  - destruct (Hmore Hn) as (Hlt & c' & Hdec & Hc' & Hf' & Hl' & Hk').
    rewrite (IH (Next page) c' (k + Z.to_nat (Limit c))%nat); [|..].
    + cbn [rbind]. rewrite Hit. f_equal. rewrite <-drop_drop. apply take_drop.
    + unfold start. by rewrite bool_decide_false.
    + done.
    + done.
    + done.
    + done.
    + done.
    + done.
    + unfold MaxPageSize in *. lia.
Qed.

(** A walk from the first page ends, and has seen every row once, in order. *)
Lemma walk_complete d f limit :
  filter_ok f -> filter_refused f = false -> in_order (rows_matching d f) -> Forall row_ok (rows_matching d f) ->
  walk (S (length (rows_matching d f))) d f limit EmptyString = Ok (rows_matching d f).
Proof.
  intros Hf Href Hord Hrows.
  apply (walk_spec _ d f limit EmptyString {| CFilter := f; After := 0; Limit := clampLimit limit; AfterDate := None |} 0%nat);
    try done; [| |lia].
  - split; [done| |apply clampLimit_range|done]. unfold int64_ok, max_int64. simpl. lia.
  - cbn [After AfterDate]. rewrite drop_0. apply list_filter_all. intros x _. apply beyond_start.
Qed.

(** Sorted by position is in order. *)
Lemma sorted_in_order l :
  StronglySorted (fun x y => beyond (position x).1 (position x).2 y = true /\
                             beyond (position y).1 (position y).2 x = false) l ->
  Forall (fun x => beyond (position x).1 (position x).2 x = false) l -> in_order l.
Proof.
  intros Hs Hself i t Ht. rewrite <-(take_drop (S i) l) at 1. rewrite filter_app.
  rewrite (take_S_r _ _ _ Ht) in *. rewrite (list_filter_all _ (drop (S i) l)), (list_filter_none _ (take i l ++ [t])).
  - done.
  - intros x [Hx|Hx]%elem_of_app Hb.
    + apply list_elem_of_lookup_1 in Hx as [j Hj]. apply lookup_take_Some in Hj as [Hj Hlt].
      destruct (StronglySorted_lookup_lt _ _ _ _ _ _ Hs Hlt Hj Ht) as [_ Hf]. congruence.
    + apply list_elem_of_singleton in Hx as ->. pose proof (proj1 (Forall_lookup _ _) Hself i t Ht) as Hf.
      simpl in Hf. congruence.
  - intros x [j Hj]%list_elem_of_lookup_1. rewrite lookup_drop in Hj.
    assert (i < S i + j)%nat as Hlt by lia.
    by destruct (StronglySorted_lookup_lt _ _ _ _ _ _ Hs Hlt Ht Hj) as [? _].
Qed.

End walks.
