(* ===== verification/Lists.v ===== *)
(** * Listing transactions, the log, and an account's statement

    [ListTransactions], [ListLogs] of [storage/read.go], [ListMoves] of
    [storage/statement.go]: three instances of [Page]'s listings, and that a
    walk through each sees every row that matches, once and in order. *)

From S2P Require Import Prelude Identifiers Text Posting Volumes Decimal GoTime Json Transaction Codec Encoding Errors Schema Txn Locking Guards Moves History Log Observer Commit Committed Book Chain Sample CommitSpec Replay Effective Read Verify Invariant Revert Base64 Page.

(** ** Transactions *)

Record TransactionFilter := { FAccount : Address; AccountPrefix : string; FReference : string }.

(** The request: [Cursor], when set, carries its own filter and limit. *)
Record ListTransactionsQuery := { TQFilter : TransactionFilter; TQLimit : Z; TQCursor : string }.

Definition transaction_matches (f : TransactionFilter) (r : TransactionRow) : bool :=
  (bool_decide (FAccount f = EmptyString) ||
     bool_decide (FAccount f ∈ sources r) || bool_decide (FAccount f ∈ destinations r)) &&
  (bool_decide (AccountPrefix f = EmptyString) ||
     existsb (like (String.append (AccountPrefix f) "%")) (sources r ++ destinations r)) &&
  (bool_decide (FReference f = EmptyString) || bool_decide (reference r = Some (FReference f))).

Definition transaction_filter_json (f : TransactionFilter) : json :=
  JObj (omitempty (bool_decide (FAccount f = EmptyString)) "account" (JStr (FAccount f))
        ++ omitempty (bool_decide (AccountPrefix f = EmptyString)) "accountPrefix" (JStr (AccountPrefix f))
        ++ omitempty (bool_decide (FReference f = EmptyString)) "reference" (JStr (FReference f))).

Definition dec_transaction_filter : json -> option TransactionFilter := dec_struct (fun fs =>
  a ← dec_field "account" EmptyString dec_str fs;
  p ← dec_field "accountPrefix" EmptyString dec_str fs;
  r ← dec_field "reference" EmptyString dec_str fs;
  Some {| FAccount := a; AccountPrefix := p; FReference := r |}).

#[export] Instance transactions_listing : Listing TransactionFilter Transaction := {|
  filter_json := fun f => Some (transaction_filter_json f);
  dec_filter := dec_transaction_filter;
  no_filter := {| FAccount := EmptyString; AccountPrefix := EmptyString; FReference := EmptyString |};
  filter_refused := fun f => negb (pg_text (FAccount f) && pg_text (AccountPrefix f) && pg_text (FReference f));
  rows_matching := fun d f =>
    (fun kv => hydrateTransaction kv.1 kv.2) <$>
      filter (fun kv : Z * TransactionRow => transaction_matches f kv.2 = true) (map_rows Z.le (transactions d));
  beyond := fun after _ t => (after =? 0) || (after <? TxID t);
  position := fun t => (TxID t, None);
|}.

Definition ListTransactions (d : Database) (q : ListTransactionsQuery) : res error (Page Transaction) :=
  list_page d (TQFilter q) (TQLimit q) (TQCursor q).

(** ** The log *)

Record ListLogsQuery := { LQLimit : Z; LQCursor : string }.

(** [ledger.Log] *)
Record LogEntry := {
  LID : Z;
  LType : LogType;
  LDate : Instant;
  LData : string;
  LHash : string;
  LIdempotencyKey : string;
  LIdempotencyHash : string;
}.

Definition scan_log (kv : Z * LogRow) : LogEntry :=
  {| LID := kv.1; LType := log_type kv.2; LDate := date kv.2; LData := data kv.2; LHash := hash kv.2;
     LIdempotencyKey := default EmptyString (idempotency_key kv.2);
     LIdempotencyHash := default EmptyString (idempotency_hash kv.2) |}.

(** [LogFilter] is the empty struct. *)
#[export] Instance logs_listing : Listing unit LogEntry := {|
  filter_json := fun _ => Some (JObj []);
  dec_filter := dec_struct (fun _ => Some tt);
  no_filter := tt;
  filter_refused := fun _ => false;
  rows_matching := fun d _ => scan_log <$> map_rows Z.le (logs d);
  beyond := fun after _ l => (after =? 0) || (after <? LID l);
  position := fun l => (LID l, None);
|}.

Definition ListLogs (d : Database) (q : ListLogsQuery) : res error (Page LogEntry) :=
  list_page d tt (LQLimit q) (LQCursor q).

(** ** An account's statement *)

Record MoveFilter := { MFAddress : Address; MFAsset : Asset; MFFrom : option Time; MFTo : option Time }.

Record ListMovesQuery := { MQFilter : MoveFilter; MQLimit : Z; MQCursor : string }.

Record Move := {
  MSeq : Z;
  MTransactionID : Z;
  MAsset : Asset;
  MAmount : Z;
  Incoming : bool;
  MEffectiveDate : Instant;
  MInsertionDate : Instant;
  MVolumes : Volumes;
  MEffectiveVolumes : option Volumes;
}.

Definition Move_Balance (m : Move) : Z := Balance (MVolumes m).

Definition scan_move (m : MoveRow) : Move :=
  {| MSeq := seq m; MTransactionID := tx_id m; MAsset := (move_key m).2; MAmount := amount m;
     Incoming := negb (is_source m); MEffectiveDate := effective_date m; MInsertionDate := move_inserted m;
     MVolumes := pcv m; MEffectiveVolumes := Some (pcev m) |}.

(** A parameter travels with microsecond precision. *)
Definition timestamptz (t : Time) : Instant := Truncate (UTC t) microsecond.

Definition move_matches (f : MoveFilter) (m : MoveRow) : bool :=
  bool_decide ((move_key m).1 = MFAddress f) &&
  (bool_decide (MFAsset f = EmptyString) || bool_decide ((move_key m).2 = MFAsset f)) &&
  match MFFrom f with Some t => timestamptz t <=? effective_date m | None => true end &&
  match MFTo f with Some t => effective_date m <=? timestamptz t | None => true end.

(** [order by effective_date, seq] *)
Definition statement_le : relation MoveRow := fun a b =>
  effective_date a < effective_date b \/ (effective_date a = effective_date b /\ seq a <= seq b).

#[export] Instance statement_le_dec : RelDecision statement_le.
Proof. intros a b. unfold statement_le. apply _. Defined.

#[export] Instance statement_le_total : Total statement_le.
Proof. intros a b. unfold statement_le. lia. Qed.

#[export] Instance statement_le_trans : Transitive statement_le.
Proof. intros a b c. unfold statement_le. lia. Qed.

Definition opt_time_json (name : string) (t : option Time) : option (list (string * json)) :=
  match t with
  | None => Some []
  | Some t => (fun v => [(name, v)]) <$> time_json t
  end.

Definition move_filter_json (f : MoveFilter) : option json :=
  from ← opt_time_json "from" (MFFrom f);
  to ← opt_time_json "to" (MFTo f);
  Some (JObj ([("address", JStr (MFAddress f))]
              ++ omitempty (bool_decide (MFAsset f = EmptyString)) "asset" (JStr (MFAsset f)) ++ from ++ to)).

Definition dec_move_filter : json -> option MoveFilter := dec_struct (fun fs =>
  a ← dec_field "address" EmptyString dec_str fs;
  s ← dec_field "asset" EmptyString dec_str fs;
  from ← dec_field "from" None (pointer dec_time) fs;
  to ← dec_field "to" None (pointer dec_time) fs;
  Some {| MFAddress := a; MFAsset := s; MFFrom := from; MFTo := to |}).

#[export] Instance moves_listing : Listing MoveFilter Move := {|
  filter_json := move_filter_json;
  dec_filter := dec_move_filter;
  no_filter := {| MFAddress := EmptyString; MFAsset := EmptyString; MFFrom := None; MFTo := None |};
  filter_refused := fun f => negb (pg_text (MFAddress f) && pg_text (MFAsset f));
  rows_matching := fun d f =>
    scan_move <$> merge_sort statement_le (filter (fun m => move_matches f m = true) (moves d));
  beyond := fun after at_ m =>
    let at_ := Truncate (default zero_instant at_) microsecond in
    (after =? 0) || (at_ <? MEffectiveDate m) || ((at_ =? MEffectiveDate m) && (after <? MSeq m));
  position := fun m => (MSeq m, Some (MEffectiveDate m));
|}.

Definition ListMoves (d : Database) (q : ListMovesQuery) : res error (Page Move) :=
  list_page d (MQFilter q) (MQLimit q) (MQCursor q).

(** ** The laws *)

Lemma transaction_filter_roundtrip f : dec_transaction_filter (transaction_filter_json f) = Some f.
Proof.
  destruct f as [a p r]. unfold transaction_filter_json. cbn [FAccount AccountPrefix FReference].
  repeat case_bool_decide; subst; reflexivity.
Qed.

#[export] Program Instance transactions_lawful : LawfulListing TransactionFilter Transaction := {|
  filter_ok := fun f => filter_refused (T:=Transaction) f = false;
  row_ok := fun t => 1 <= TxID t <= max_int64;
|}.
Next Obligation. intros f v _ [= <-]. split; [apply transaction_filter_roundtrip|done]. Qed.
Next Obligation.
  intros f v Hf [= <-]. cbn in Hf. apply negb_false_iff, andb_true_iff in Hf as [[Ha Hp]%andb_true_iff Hr].
  unfold transaction_filter_json. rewrite !json_obj_app, !omitempty_ok; try done; intros _; by apply pg_text_utf8.
Qed.
Next Obligation. intros f _. by eexists. Qed.
Next Obligation. intros t Ht. done. Qed.
Next Obligation. done. Qed.

#[export] Program Instance logs_lawful : LawfulListing unit LogEntry := {|
  filter_ok := fun _ => True;
  row_ok := fun l => 1 <= LID l <= max_int64;
|}.
Next Obligation. intros [] v _ [= <-]. done. Qed.
Next Obligation. intros [] v _ [= <-]. done. Qed.
Next Obligation. intros f _. by eexists. Qed.
Next Obligation. intros t Ht. done. Qed.
Next Obligation. done. Qed.

Definition filter_time_ok (t : option Time) : Prop :=
  match t with Some t => zone t mod 60 = 0 /\ is_Some (time_json t) | None => True end.

Lemma time_json_str t v : time_json t = Some v -> exists s, v = JStr s.
Proof. unfold time_json. destruct (marshal_time t); simpl; [|done]. intros [= <-]. eauto. Qed.

Lemma move_filter_roundtrip f v :
  filter_time_ok (MFFrom f) -> filter_time_ok (MFTo f) -> move_filter_json f = Some v -> dec_move_filter v = Some f.
Proof.
  destruct f as [a s from to]. unfold move_filter_json, filter_time_ok, opt_time_json.
  cbn [MFAddress MFAsset MFFrom MFTo].
  destruct from as [from|], to as [to|]; cbn [mbind option_bind].
  - intros [Hzf [vf Hf]] [Hzt [vt Ht]]. rewrite Hf, Ht. cbn. intros [= <-].
    pose proof (dec_time_json _ _ Hzf Hf) as Df. pose proof (dec_time_json _ _ Hzt Ht) as Dt.
    destruct (time_json_str _ _ Hf) as [sf ->], (time_json_str _ _ Ht) as [st ->].
    case_bool_decide; subst; unfold dec_move_filter, dec_field, pointer; simpl in *; by rewrite Df, Dt.
  - intros [Hzf [vf Hf]] _. rewrite Hf. cbn. intros [= <-]. pose proof (dec_time_json _ _ Hzf Hf) as Df.
    destruct (time_json_str _ _ Hf) as [sf ->].
    case_bool_decide; subst; unfold dec_move_filter, dec_field, pointer; simpl in *; by rewrite Df.
  - intros _ [Hzt [vt Ht]]. rewrite Ht. cbn. intros [= <-]. pose proof (dec_time_json _ _ Hzt Ht) as Dt.
    destruct (time_json_str _ _ Ht) as [st ->].
    case_bool_decide; subst; unfold dec_move_filter, dec_field, pointer; simpl in *; by rewrite Dt.
  - intros _ _ [= <-]. case_bool_decide; subst; reflexivity.
Qed.

Lemma opt_time_json_ok name t fs :
  utf8_valid name = true -> opt_time_json name t = Some fs -> json_ok (JObj fs) = true.
Proof.
  intros Hn. destruct t as [t|]; simpl; [|by intros [= <-]].
  destruct (time_json t) as [v|] eqn:Hv; simpl; [|done]. intros [= <-].
  pose proof (time_json_ok _ _ Hv). cbn [json_ok forallb fst snd]. by rewrite Hn, H.
Qed.

#[export] Program Instance moves_lawful : LawfulListing MoveFilter Move := {|
  filter_ok := fun f => filter_refused (T:=Move) f = false /\ filter_time_ok (MFFrom f) /\ filter_time_ok (MFTo f);
  row_ok := fun m => 1 <= MSeq m <= max_int64 /\ is_Some (instant_json (MEffectiveDate m)) /\
                     Truncate (MEffectiveDate m) microsecond = MEffectiveDate m;
|}.
Next Obligation.
  intros f v (_ & Hf & Ht) Hv. split; [by apply move_filter_roundtrip|].
  unfold filter_json, moves_listing, move_filter_json in Hv.
  destruct (opt_time_json "from" _), (opt_time_json "to" _); try done. cbn in Hv. by injection Hv as <-.
Qed.
Next Obligation.
  intros f v (Hf & _ & _) Hv. apply negb_false_iff, andb_true_iff in Hf as [Ha%pg_text_utf8 Hs%pg_text_utf8].
  unfold filter_json, moves_listing, move_filter_json in Hv.
  destruct (opt_time_json "from" _) as [fs|] eqn:H1; [|done].
  destruct (opt_time_json "to" _) as [ts|] eqn:H2; [|done].
  cbn [mbind option_bind] in Hv. injection Hv as <-.
  change (json_ok (JObj ([("address", JStr (MFAddress f))] ++
    omitempty (bool_decide (MFAsset f = EmptyString)) "asset" (JStr (MFAsset f)) ++ fs ++ ts)) = true).
  rewrite !json_obj_app, (opt_time_json_ok "from" _ _ eq_refl H1), (opt_time_json_ok "to" _ _ eq_refl H2).
  rewrite omitempty_ok; [|done|intros _; exact Hs]. cbn [json_ok forallb fst snd]. by rewrite Ha.
Qed.
Next Obligation.
  intros f (_ & Hf & Ht). unfold filter_json, moves_listing, move_filter_json, opt_time_json, filter_time_ok in *.
  destruct (MFFrom f) as [t1|]; [destruct Hf as [_ [v1 ->]]|]; cbn [mbind option_bind];
    (destruct (MFTo f) as [t2|]; [destruct Ht as [_ [v2 ->]]|]); by eexists.
Qed.
Next Obligation. intros m (Hm & Ht & _). done. Qed.
Next Obligation. done. Qed.

(** ** Every row once, in order *)

Lemma map_rows_increasing {V} (m : gmap Z V) :
  StronglySorted (fun x y : Z * V => x.1 < y.1) (map_rows Z.le m).
Proof.
  pose proof (map_rows_sorted Z.le m) as Hs. pose proof (map_rows_NoDup Z.le m) as Hnd.
  induction Hs as [|x l Hs IH Hall]; [constructor|]. csimpl in Hnd. apply NoDup_cons in Hnd as [Hni Hnd].
  constructor; [by apply IH|]. apply Forall_forall. intros y Hy.
  pose proof (proj1 (Forall_forall _ _) Hall y Hy) as Hle. unfold row_le in Hle.
  assert (x.1 <> y.1); [|lia]. intros He. apply Hni. rewrite He. by apply list_elem_of_fmap_2.
Qed.

Lemma StronglySorted_filter {A} (R : relation A) (P : A -> Prop) `{!forall x, Decision (P x)} (l : list A) :
  StronglySorted R l -> StronglySorted R (filter P l).
Proof.
  induction 1 as [|x l Hs IH Hall]; [constructor|]. destruct (decide (P x)).
  - rewrite filter_cons_True by done. constructor; [done|].
    apply Forall_forall. intros y [_ Hy]%list_elem_of_filter. by apply (proj1 (Forall_forall _ _) Hall).
  - by rewrite filter_cons_False.
Qed.

Lemma StronglySorted_fmap {A B} (R : relation A) (S : relation B) (g : A -> B) (l : list A) :
  (forall x y, x ∈ l -> y ∈ l -> R x y -> S (g x) (g y)) -> StronglySorted R l -> StronglySorted S (g <$> l).
Proof.
  intros Hg Hs. induction Hs as [|x l Hs IH Hall]; [constructor|]. csimpl. constructor.
  - apply IH. intros y z Hy Hz. apply Hg; by right.
  - apply Forall_fmap, Forall_forall. intros y Hy. apply Hg; [left|by right|].
    by apply (proj1 (Forall_forall _ _) Hall).
Qed.

Lemma transactions_walk (d : Database) (f : TransactionFilter) (limit : Z) :
  (forall id, is_Some (transactions d !! id) -> 1 <= id <= max_int64) ->
  filter_refused (T:=Transaction) f = false ->
  walk (S (length (rows_matching (T:=Transaction) d f))) d f limit EmptyString = Ok (rows_matching (T:=Transaction) d f).
Proof.
  intros Hids Href.
  assert (forall kv, kv ∈ filter (fun kv : Z * TransactionRow => transaction_matches f kv.2 = true)
            (map_rows Z.le (transactions d)) -> 1 <= kv.1 <= max_int64) as Hr.
  { intros [id r] [_ Hin%elem_of_map_rows]%list_elem_of_filter. apply Hids. by eexists. }
  refine (walk_complete (T:=Transaction) d f limit Href Href _ _).
  - apply sorted_in_order.
    + eapply StronglySorted_fmap; [|apply StronglySorted_filter, map_rows_increasing].
      intros x y Hx%Hr Hy%Hr Hlt. simpl in *. split; [|lia]. apply orb_true_iff. right. lia.
    + apply Forall_fmap, Forall_forall. intros x Hx%Hr. simpl. lia.
  - apply Forall_fmap, Forall_forall. intros x Hx%Hr. exact Hx.
Qed.

(** Paging through transactions loses and repeats nothing. Whatever the
    filter, as long as PostgreSQL takes its text, and whatever page size is
    asked for, following [next] from the first page ends, and has returned every
    matching transaction exactly once, by increasing id. *)
Theorem transaction_pages_complete (d : Database) (f : TransactionFilter) (limit : Z) :
  (forall id, is_Some (transactions d !! id) -> 1 <= id <= max_int64) ->
  filter_refused (T:=Transaction) f = false ->
  exists fuel, walk fuel d f limit EmptyString =
    Ok ((fun kv => hydrateTransaction kv.1 kv.2) <$>
          filter (fun kv : Z * TransactionRow => transaction_matches f kv.2 = true) (map_rows Z.le (transactions d))).
Proof. intros Hids Href. eexists. exact (transactions_walk d f limit Hids Href). Qed.

Definition all_transactions : TransactionFilter :=
  {| FAccount := EmptyString; AccountPrefix := EmptyString; FReference := EmptyString |}.

Definition one_row : TransactionRow :=
  {| timestamp := new_year; inserted_at := new_year; reverted_at := None; reference := None; postings := deposit;
     tx_metadata := ∅; sources := ["world"]; destinations := ["users:alice"]; pc_volumes := ∅ |}.

Definition two_transactions : Database := set_transactions (<[ 2 := one_row ]> {[ 1 := one_row ]}) new_ledger.

Lemma two_transactions_ids id : is_Some (transactions two_transactions !! id) -> 1 <= id <= max_int64.
Proof.
  unfold two_transactions. cbn [transactions set_transactions]. unfold max_int64.
  destruct (decide (id = 2)) as [->|H2]; [lia|]. rewrite lookup_insert_ne by done.
  destruct (decide (id = 1)) as [->|H1]; [lia|]. rewrite lookup_singleton_ne by done. by intros [].
Qed.

Lemma transaction_pages_complete_witness : exists fuel, walk fuel two_transactions all_transactions 1 EmptyString =
  Ok ((fun kv => hydrateTransaction kv.1 kv.2) <$>
        filter (fun kv : Z * TransactionRow => transaction_matches all_transactions kv.2 = true)
          (map_rows Z.le (transactions two_transactions))).
Proof.
  apply (transaction_pages_complete two_transactions all_transactions 1); [exact two_transactions_ids|reflexivity].
Defined.

Lemma log_pages (d : Database) (limit : Z) :
  (forall id, is_Some (logs d !! id) -> 1 <= id <= max_int64) ->
  exists fuel, walk fuel d tt limit EmptyString = Ok (scan_log <$> map_rows Z.le (logs d)).
Proof.
  intros Hids. exists (S (length (rows_matching (T:=LogEntry) d tt))).
  assert (forall kv, kv ∈ map_rows Z.le (logs d) -> 1 <= kv.1 <= max_int64) as Hr.
  { intros [id r] Hin%elem_of_map_rows. apply Hids. by eexists. }
  refine (walk_complete (T:=LogEntry) d tt limit I eq_refl _ _).
  - apply sorted_in_order.
    + eapply StronglySorted_fmap; [|apply map_rows_increasing].
      intros x y Hx%Hr Hy%Hr Hlt. simpl in *. split; [|lia]. apply orb_true_iff. right. lia.
    + apply Forall_fmap, Forall_forall. intros x Hx%Hr. simpl. lia.
  - apply Forall_fmap, Forall_forall. intros x Hx%Hr. exact Hx.
Qed.

(** ** A statement *)

Lemma NoDup_fmap_filter {A B} (g : A -> B) (P : A -> Prop) `{!forall x, Decision (P x)} (l : list A) :
  NoDup (g <$> l) -> NoDup (g <$> filter P l).
Proof.
  induction l as [|x l IH]; [done|]. csimpl. intros [Hni Hnd]%NoDup_cons. destruct (decide (P x)).
  - rewrite filter_cons_True by done. csimpl. apply NoDup_cons. split; [|by apply IH].
    intros (y & Hy & [_ Hin]%list_elem_of_filter)%list_elem_of_fmap. apply Hni. rewrite Hy. by apply list_elem_of_fmap_2.
  - rewrite filter_cons_False by done. by apply IH.
Qed.

Lemma statement_increasing (l : list MoveRow) :
  NoDup (seq <$> l) ->
  StronglySorted (fun a b => effective_date a < effective_date b \/
                             (effective_date a = effective_date b /\ seq a < seq b)) (merge_sort statement_le l).
Proof.
  intros Hnd. pose proof (StronglySorted_merge_sort statement_le l) as Hs.
  pose proof (fmap_Permutation seq _ _ (merge_sort_Permutation statement_le l)) as Hp.
  apply (NoDup_Permutation_proper _ _ Hp) in Hnd. clear Hp. revert Hnd.
  induction Hs as [|x l' Hs IH Hall]; intros Hnd; [constructor|]. csimpl in Hnd. apply NoDup_cons in Hnd as [Hni Hnd].
  constructor; [by apply IH|]. apply Forall_forall. intros y Hy.
  destruct (proj1 (Forall_forall _ _) Hall y Hy) as [|[He Hle]]; [by left|]. right. split; [done|].
  assert (seq x <> seq y); [|lia]. intros Hxy. apply Hni. rewrite Hxy. by apply list_elem_of_fmap_2.
Qed.

(** An account's statement is complete. Following [next] through
    [ListMoves] ends, and has returned every movement of the account that the
    filter matches exactly once, in the order the account lived through them
    rather than the order they were heard of, ties by arrival. *)
Theorem statement_complete (d : Database) (f : MoveFilter) (limit : Z) :
  NoDup (seq <$> moves d) ->
  (forall m, m ∈ moves d -> 1 <= seq m <= max_int64 /\ is_Some (instant_json (effective_date m)) /\
                            Truncate (effective_date m) microsecond = effective_date m) ->
  filter_refused (T:=Move) f = false -> filter_time_ok (MFFrom f) -> filter_time_ok (MFTo f) ->
  exists fuel items, walk fuel d f limit EmptyString = Ok items /\
    items ≡ₚ scan_move <$> filter (fun m => move_matches f m = true) (moves d) /\
    StronglySorted (fun a b => MEffectiveDate a < MEffectiveDate b \/
                               (MEffectiveDate a = MEffectiveDate b /\ MSeq a < MSeq b)) items.
Proof.
  intros Hnd Hrows Href Hfrom Hto.
  set (l := filter (fun m => move_matches f m = true) (moves d)).
  assert (forall m, m ∈ merge_sort statement_le l -> 1 <= seq m <= max_int64 /\
            is_Some (instant_json (effective_date m)) /\ Truncate (effective_date m) microsecond = effective_date m) as Hr.
  { intros m Hm. apply Hrows. rewrite merge_sort_Permutation in Hm. by apply list_elem_of_filter in Hm as [_ Hm]. }
  assert (NoDup (seq <$> l)) as Hndl by (by apply NoDup_fmap_filter).
  pose proof (statement_increasing l Hndl) as Hs.
  exists (S (length (rows_matching (T:=Move) d f))), (rows_matching (T:=Move) d f). split_and!.
  - refine (walk_complete (T:=Move) d f limit (conj Href (conj Hfrom Hto)) Href _ _).
    + apply sorted_in_order.
      * eapply StronglySorted_fmap; [|exact Hs]. intros x y Hx%Hr Hy%Hr Hlt.
        destruct Hx as (? & _ & Hx), Hy as (? & _ & Hy). simpl. rewrite Hx, Hy. cbn beta in Hlt. lia.
      * apply Forall_fmap, Forall_forall. intros x (H1 & _ & Hx)%Hr. simpl. rewrite Hx. lia.
    + apply Forall_fmap, Forall_forall. intros x Hx%Hr. exact Hx.
  - cbn [rows_matching moves_listing]. by rewrite merge_sort_Permutation.
  - cbn [rows_matching moves_listing]. eapply StronglySorted_fmap; [|exact Hs]. by intros x y _ _ H.
Qed.

Definition one_move (n : Z) (at_ : Instant) : MoveRow :=
  {| seq := n; tx_id := n; move_key := ("users:alice", "USD/2"); amount := 100; is_source := false;
     effective_date := at_; move_inserted := new_year; pcv := NewVolumes; pcev := NewVolumes |}.

Definition two_moves : Database := set_moves [one_move 1 new_year; one_move 2 (new_year - second)] 3 new_ledger.

Definition alice_statement : MoveFilter :=
  {| MFAddress := "users:alice"; MFAsset := EmptyString; MFFrom := None; MFTo := None |}.

Lemma statement_complete_witness : exists fuel items, walk fuel two_moves alice_statement 1 EmptyString = Ok items /\
    items ≡ₚ scan_move <$> filter (fun m => move_matches alice_statement m = true) (moves two_moves) /\
    StronglySorted (fun a b => MEffectiveDate a < MEffectiveDate b \/
                               (MEffectiveDate a = MEffectiveDate b /\ MSeq a < MSeq b)) items.
Proof.
  apply (statement_complete two_moves alice_statement 1); [| |reflexivity|exact I|exact I].
  - cbn. repeat constructor; set_solver.
  - intros m Hm. cbn in Hm. repeat (apply elem_of_cons in Hm as [-> | Hm]); [..|by apply not_elem_of_nil in Hm];
      unfold max_int64; (split; [cbn; lia|]); split; [by eexists; vm_compute|reflexivity|by eexists; vm_compute|reflexivity].
Defined.
