(* ===== verification/Params.v ===== *)
(** * Query strings and path parameters

    What package api reads out of a URL ([internal/api/handlers.go]): the query
    string parsed once and refused when any part of it is malformed, then
    booleans, integers and dates that must be absent or right. The parsing
    itself is [url.ParseQuery], [strconv] and [time.Parse]. *)

From S2P Require Import Prelude Identifiers Text Decimal GoTime Json Base64.

(** ** [url.ParseQuery] *)

(** [url.QueryUnescape] *)
Fixpoint QueryUnescape (s : string) : option string :=
  match s with
  | EmptyString => Some EmptyString
  | String c s' =>
      if Ascii.eqb c "%" then
        match s' with
        | String a (String b s'') =>
            x ← hex_value a; y ← hex_value b; t ← QueryUnescape s'';
            Some (String (byte_char (x * 16 + y)) t)
        | _ => None
        end
      else t ← QueryUnescape s'; Some (String (if Ascii.eqb c "+" then " "%char else c) t)
  end.

(** A parameter may be given more than once; pairs in the order written. *)
Abbreviation Values := (list (string * string)) (only parsing).

Definition parse_pair (pair : string) : option (string * string) :=
  if negb (free_of ";" pair) then None
  else
    let '(k, v, _) := cut "=" pair in
    k ← QueryUnescape k; v ← QueryUnescape v; Some (k, v).

(** The pairs that parse, and whether all of them did. *)
Definition ParseQuery (raw : string) : Values * bool :=
  let pairs := filter (fun p => p <> EmptyString) (split_on "&" raw) in
  (omap parse_pair pairs, forallb (fun p => bool_decide (is_Some (parse_pair p))) pairs).

(** [Values.Get]: the first value, or nothing. *)
Definition Get (q : Values) (name : string) : string :=
  default EmptyString (find_map (fun kv => if bool_decide (kv.1 = name) then Some kv.2 else None) q).

(** ** Parameters *)

(** [boolParam]: what is refused is [None]. *)
Definition boolParam (q : Values) (name : string) : option bool :=
  let raw := Get q name in
  if bool_decide (raw = "") then Some false
  else if bool_decide (raw = "true") || bool_decide (raw = "1") then Some true
  else if bool_decide (raw = "false") || bool_decide (raw = "0") then Some false
  else None.

(** [intParam], by [strconv.Atoi]. *)
Definition intParam (q : Values) (name : string) : option Z :=
  let raw := Get q name in
  if bool_decide (raw = "") then Some 0 else parse_int64 raw.

(** [transactionID], by [strconv.ParseInt]. *)
Definition transactionID (raw : string) : option Z := parse_int64 raw.

(** ** [time.Parse(time.RFC3339, _)] *)

(** More lenient than [Time.UnmarshalJSON]: an hour of one digit, a comma
    before the fraction, an offset of 24 hours or 60 minutes. *)
Definition take_hour (s : string) : option (Z * string) :=
  match take_digits 2 0 s with Some r => Some r | None => take_digits 1 0 s end.

Definition lenient_fraction (s : string) : Z * string :=
  match s with
  | String p (String c _ as s') =>
      if (Ascii.eqb p "." || Ascii.eqb p ",") && is_digit c then fraction_value 9 s' else (0, s)
  | _ => (0, s)
  end.

Definition lenient_zone (s : string) : option Z :=
  match s with
  | "Z" => Some 0
  | String c s =>
      sign ← (if Ascii.eqb c "+" then Some 1 else if Ascii.eqb c "-" then Some (-1) else None);
      '(h, s) ← take_digits 2 0 s;
      s ← expect ":" s;
      '(m, s) ← take_digits 2 0 s;
      if bool_decide (s = EmptyString) && (h <=? 24) && (m <=? 60)
      then Some (sign * (h * 3600 + m * 60)) else None
  | EmptyString => None
  end.

Definition ParseRFC3339 (s : string) : option Time :=
  '(y, s) ← take_digits 4 0 s; s ← expect "-" s;
  '(m, s) ← take_digits 2 0 s; s ← expect "-" s;
  '(d, s) ← take_digits 2 0 s; s ← expect "T" s;
  '(hh, s) ← take_hour s; s ← expect ":" s;
  '(mm, s) ← take_digits 2 0 s; s ← expect ":" s;
  '(ss, s) ← take_digits 2 0 s;
  let '(nanos, s) := lenient_fraction s in
  offset ← lenient_zone s;
  if (1 <=? m) && (m <=? 12) && (1 <=? d) && (d <=? days_in y m) &&
     (hh <=? 23) && (mm <=? 59) && (ss <=? 59)
  then Some {| unix_nano :=
                 (days_from_civil y m d * 86400 + hh * 3600 + mm * 60 + ss - offset) * second + nanos;
               zone := offset |}
  else None.

Definition no_time : Time := {| unix_nano := zero_instant; zone := 0 |}.

(** [effectiveDate]: the zero time when absent, which the caller reads as now. *)
Definition effectiveDate (q : Values) : option Time :=
  let raw := Get q "at" in
  if bool_decide (raw = "") then Some no_time else ParseRFC3339 raw.

(** [optionalDate] *)
Definition optionalDate (q : Values) (name : string) : option (option Time) :=
  let raw := Get q name in
  if bool_decide (raw = "") then Some None else Some <$> ParseRFC3339 raw.

(** ** Text that needs no escaping *)

Lemma unescape_plain s : forall_char url_char s = true -> QueryUnescape s = Some s.
Proof.
  induction s as [|c s IH]; [done|]. cbn [forall_char]. intros [Hc Hs]%andb_true_iff. cbn [QueryUnescape].
  assert (Ascii.eqb c "%" = false /\ Ascii.eqb c "+" = false) as [-> ->] by (by destruct c as [[] [] [] [] [] [] [] []]).
  by rewrite (IH Hs).
Qed.

Lemma url_free_of sep s : url_char sep = false -> forall_char url_char s = true -> free_of sep s = true.
Proof.
  intros Hsep. unfold free_of. induction s as [|c s IH]; [done|]. cbn [forall_char]. intros [Hc Hs]%andb_true_iff.
  rewrite bool_decide_true by congruence. by apply IH.
Qed.

(** A parameter whose name and value are plain arrives as it was written. *)
Lemma single_parameter name value :
  forall_char url_char name = true -> forall_char url_char value = true -> name <> "" ->
  ParseQuery (String.append name (String "=" value)) = ([(name, value)], true).
Proof.
  intros Hn Hv Hne. set (pair := String.append name (String "=" value)).
  assert (forall sep, url_char sep = false -> sep <> "="%char -> free_of sep pair = true) as Hfree.
  { intros sep Hs He. unfold pair, free_of. rewrite forall_char_app. cbn [forall_char].
    rewrite bool_decide_true by congruence. fold (free_of sep name) (free_of sep value).
    by rewrite !(url_free_of sep) by done. }
  assert (parse_pair pair = Some (name, value)) as Hp.
  { unfold parse_pair. rewrite (Hfree ";"%char) by done. cbn [negb]. unfold pair.
    rewrite cut_app_sep by (by apply url_free_of). by rewrite !unescape_plain. }
  unfold ParseQuery. rewrite split_free by (by apply Hfree).
  rewrite filter_cons_True, filter_nil by (by destruct name). simpl. by rewrite Hp.
Qed.

Example repeated_parameter : Get (ParseQuery "a=1&b=%2F+x&a=2").1 "a" = "1" /\ Get (ParseQuery "a=1&b=%2F+x&a=2").1 "b" = "/ x".
Proof. by vm_compute. Qed.

Example malformed_parameter : ParseQuery "cursor=%zz&limit=5" = ([("limit", "5")], false).
Proof. by vm_compute. Qed.

Example one_digit_hour : ParseRFC3339 "2026-03-01T9:00:00,5Z" = Some {| unix_nano := 1772355600 * second + 500000000; zone := 0 |}.
Proof. by vm_compute. Qed.
