(* ===== verification/Reader.v ===== *)
(** * What the JSON reader returns

    Whatever bytes it is given, the strings [Json.read_value] returns are valid
    UTF-8 and its numbers JSON numbers; and the fuel [parse_json] and
    [decodeJSON] start it with is enough. *)

From S2P Require Import Prelude Identifiers Text Decimal Json Base64.

(** ** Strings *)

(** Text in front of which a string is as valid as it was. *)
Definition transparent (r : string) : Prop := forall t, utf8_valid (String.append r t) = utf8_valid t.

Lemma utf8_valid_cons c s :
  utf8_valid (String c s) =
  match rune_width (String c s) with O => false | S w => utf8_valid (string_drop w s) end.
Proof. unfold utf8_valid. rewrite runes_cons. by destruct (rune_width (String c s)). Qed.

Lemma rune_transparent r : is_rune r -> transparent r.
Proof.
  intros Hr t. pose proof (rune_width_app r t Hr) as Hw. destruct Hr as [Hne _]. destruct r as [|c r]; [done|].
  cbn [String.append] in *. rewrite utf8_valid_cons, Hw. cbn [String.length]. by rewrite drop_app_string.
Qed.

Lemma transparent_nil : transparent EmptyString.
Proof. done. Qed.

Lemma transparent_valid r : transparent r -> utf8_valid r = true.
Proof. intros H. by rewrite <-(append_nil_r r), H. Qed.

Lemma byte_of_char z : 0 <= z < 256 -> byte_of (byte_char z) = z.
Proof. intros Hz. unfold byte_of, byte_char. rewrite N_ascii_embedding by lia. lia. Qed.

Lemma ascii_rune c : is_ascii c = true -> is_rune (String c "").
Proof. intros H. split; [done|]. by apply rune_width_ascii. Qed.

Ltac divlia := Z.to_euclidean_division_equations; lia.

Ltac byte_bounds :=
  unfold is_ascii, two_byte, three_byte, four_byte, byte_in; rewrite !byte_of_char by divlia; divlia.

Lemma encode_rune_is_rune z :
  0 <= z < 1114112 -> is_high z = false -> is_low z = false -> is_rune (encode_rune z).
Proof.
  unfold is_high, is_low. intros Hz Hh Hl. unfold encode_rune.
  destruct (Z.ltb_spec z 128).
  { apply ascii_rune. byte_bounds. }
  assert (Hna : forall b, 128 <= b < 256 -> is_ascii (byte_char b) = false) by (intros b Hb; byte_bounds).
  destruct (Z.ltb_spec z 2048).
  { split; [done|]. simpl. rewrite Hna by divlia.
    assert (two_byte (byte_char (192 + z / 64)) (byte_char (128 + z mod 64)) = true) as -> by byte_bounds. done. }
  destruct (Z.ltb_spec z 65536).
  { split; [done|]. simpl. rewrite Hna by divlia.
    assert (two_byte (byte_char (224 + z / 4096)) (byte_char (128 + z / 64 mod 64)) = false) as -> by byte_bounds.
    assert (three_byte (byte_char (224 + z / 4096)) (byte_char (128 + z / 64 mod 64)) (byte_char (128 + z mod 64)) = true)
      as -> by byte_bounds. done. }
  split; [done|]. simpl. rewrite Hna by divlia.
  assert (two_byte (byte_char (240 + z / 262144)) (byte_char (128 + z / 4096 mod 64)) = false) as -> by byte_bounds.
  assert (three_byte (byte_char (240 + z / 262144)) (byte_char (128 + z / 4096 mod 64)) (byte_char (128 + z / 64 mod 64)) = false)
    as -> by byte_bounds.
  assert (four_byte (byte_char (240 + z / 262144)) (byte_char (128 + z / 4096 mod 64)) (byte_char (128 + z / 64 mod 64))
            (byte_char (128 + z mod 64)) = true) as -> by byte_bounds. done.
Qed.

Lemma hex_value_range c z : hex_value c = Some z -> 0 <= z < 16.
Proof. unfold hex_value, byte_in. intros H. repeat case_match; simplify_eq; lia. Qed.

Lemma hex4_range s z rest : hex4 s = Some (z, rest) -> 0 <= z < 65536.
Proof.
  unfold hex4. destruct s as [|a [|b [|c [|d s]]]]; try done. intros H.
  repeat match type of H with (_ ≫= _) = _ => apply bind_Some in H as (? & ?%hex_value_range & H) end.
  simplify_eq. lia.
Qed.

Lemma replacement_rune : is_rune replacement.
Proof. by split. Qed.

Lemma read_unicode_transparent s r rest : read_unicode s = Some (r, rest) -> transparent r.
Proof.
  unfold read_unicode. intros H. apply bind_Some in H as ([z t] & Hz%hex4_range & H).
  assert (transparent replacement) as Hrep by (apply rune_transparent, replacement_rune).
  destruct (is_high z) eqn:Hh.
  - destruct t as [|b [|u t]]; [by simplify_eq..|]. destruct (_ && _); [|by simplify_eq].
    destruct (hex4 t) as [[w t']|] eqn:Hw; [|done]. apply hex4_range in Hw.
    destruct (is_low w) eqn:Hl; [|by simplify_eq]. injection H as <- _. apply rune_transparent, encode_rune_is_rune;
      unfold is_high, is_low in *; lia.
  - destruct (is_low z) eqn:Hl; [by simplify_eq|]. injection H as <- _.
    apply rune_transparent, encode_rune_is_rune; [lia|done|done].
Qed.

Lemma read_char_transparent s r rest : read_char s = Some (r, rest) -> transparent r.
Proof.
  assert (Hb : forall z, 0 <= z < 128 -> transparent (String (byte_char z) "")).
  { intros z Hz. apply rune_transparent, ascii_rune. byte_bounds. }
  unfold read_char. destruct s as [|c s]; [done|]. case_bool_decide as Hbs.
  - destruct s as [|e s]; [done|]. unfold read_escape.
    destruct (_ || _ || _) eqn:He.
    { intros [= <- _]. apply rune_transparent, ascii_rune. unfold is_ascii. lia. }
    repeat case_match; try done; try (by intros [= <- _]; apply Hb). apply read_unicode_transparent.
  - destruct (byte_of c <? 32); [done|]. destruct (rune_width (String c s)) as [|w] eqn:Hw; intros [= <- _].
    { apply rune_transparent, replacement_rune. }
    destruct (rune_width_take _ _ Hw) as [Ht Hl]. apply rune_transparent. split; [done|].
    exact (eq_trans Ht (eq_sym Hl)).
Qed.

Lemma read_body_valid fuel s t rest : read_body fuel s = Some (t, rest) -> utf8_valid t = true.
Proof.
  revert s t rest. induction fuel as [|fuel IH]; [done|]. intros [|c s] t rest; cbn [read_body]; [done|].
  case_bool_decide as Hc; [by intros [= <- _]|]. intros H.
  apply bind_Some in H as ([r s1] & Hr%read_char_transparent & H).
  apply bind_Some in H as ([b s2] & Hb%IH & H). injection H as <- _. by rewrite Hr.
Qed.

Lemma read_string_valid s t rest : read_string s = Some (t, rest) -> utf8_valid t = true.
Proof. unfold read_string. destruct s; [done|]. case_bool_decide as Hc; [apply read_body_valid|done]. Qed.

(** ** Values *)

Lemma span_char_all p s : forall_char p (span_char p s).1 = true.
Proof.
  induction s as [|c s IH]; [done|]. cbn [span_char]. destruct (p c) eqn:Hc; [|done].
  destruct (span_char p s). cbn [fst forall_char] in *. by rewrite Hc.
Qed.

Lemma read_number_ok s v rest : read_number s = Some (v, rest) -> json_ok v = true.
Proof.
  unfold read_number. pose proof (span_char_all number_char s) as Ha. destruct (span_char number_char s) as [lit s'].
  destruct (valid_number lit) eqn:Hv; [|done]. intros [= <- _]. simpl in *. by rewrite Hv.
Qed.

Lemma read_all_ok fuel :
  (forall s v rest, read_value fuel s = Some (v, rest) -> json_ok v = true) /\
  (forall s l rest, read_elems fuel s = Some (l, rest) -> forallb json_ok l = true) /\
  (forall s fs rest, read_fields fuel s = Some (fs, rest) -> forallb (fun nv => utf8_valid nv.1 && json_ok nv.2) fs = true).
Proof.
  induction fuel as [|fuel (IHv & IHe & IHf)]; [done|]. split_and!.
  - intros s v rest. cbn [read_value]. destruct (skip_space s) as [|c s']; [done|].
    case_bool_decide as Hc; clear Hc. { intros ([t s1] & Ht%read_string_valid & H)%bind_Some. by simplify_eq. }
    case_bool_decide as Hc; clear Hc.
    { destruct (expect_char "]" s') as [r|]; [by intros [= <- _]|]. intros ([l s1] & Hl%IHe & H)%bind_Some. by simplify_eq. }
    case_bool_decide as Hc; clear Hc.
    { destruct (expect_char "}" s') as [r|]; [by intros [= <- _]|]. intros ([l s1] & Hl%IHf & H)%bind_Some. by simplify_eq. }
    do 3 (case_bool_decide as Hc; clear Hc; [intros (r & _ & H)%bind_Some; by simplify_eq|]). apply read_number_ok.
  - intros s l rest. cbn [read_elems]. intros ([v s1] & Hv%IHv & H)%bind_Some.
    destruct (expect_char "," s1) as [s2|].
    + apply bind_Some in H as ([l' s3] & Hl%IHe & H). simplify_eq. simpl. by rewrite Hv.
    + apply bind_Some in H as (s2 & _ & H). simplify_eq. simpl. by rewrite Hv.
  - intros s fs rest. cbn [read_fields]. intros ([n s1] & Hn%read_string_valid & H)%bind_Some.
    apply bind_Some in H as (s2 & _ & H). apply bind_Some in H as ([v s3] & Hv%IHv & H).
    destruct (expect_char "," s3) as [s4|].
    + apply bind_Some in H as ([l' s5] & Hl%IHf & H). simplify_eq. simpl. by rewrite Hn, Hv.
    + apply bind_Some in H as (s4 & _ & H). simplify_eq. simpl. by rewrite Hn, Hv.
Qed.

Lemma read_value_ok fuel s v rest : read_value fuel s = Some (v, rest) -> json_ok v = true.
Proof. apply read_all_ok. Qed.

(** ** Fuel *)

Lemma skip_space_length s : (String.length (skip_space s) <= String.length s)%nat.
Proof. induction s as [|c s IH]; [done|]. cbn [skip_space]. destruct (is_space c); simpl; lia. Qed.

Lemma expect_char_length c s rest : expect_char c s = Some rest -> (S (String.length rest) <= String.length s)%nat.
Proof.
  unfold expect_char. pose proof (skip_space_length s) as Hl. destruct (skip_space s) as [|d s']; [done|].
  case_bool_decide as Hc; [|done]. intros [= <-]. simpl in Hl. lia.
Qed.

Lemma hex4_length s z rest : hex4 s = Some (z, rest) -> (String.length rest < String.length s)%nat.
Proof.
  unfold hex4. destruct s as [|a [|b [|c [|d s]]]]; try done. intros H.
  repeat match type of H with (_ ≫= _) = _ => apply bind_Some in H as (? & _ & H) end. simplify_eq/=. lia.
Qed.

Lemma read_unicode_length s r rest : read_unicode s = Some (r, rest) -> (String.length rest < String.length s)%nat.
Proof.
  unfold read_unicode. intros H. apply bind_Some in H as ([z t] & Hz%hex4_length & H).
  repeat (case_match; simplify_eq/=; try lia).
  match goal with H : hex4 _ = Some _ |- _ => apply hex4_length in H end. lia.
Qed.

Lemma read_char_length s r rest : read_char s = Some (r, rest) -> (String.length rest < String.length s)%nat.
Proof.
  unfold read_char. destruct s as [|c s]; [done|]. case_bool_decide as Hc.
  - destruct s as [|e s]; [done|]. unfold read_escape. intros H.
    repeat match type of H with (if ?b then _ else _) = _ => destruct b end; simplify_eq/=; try lia.
    apply read_unicode_length in H. lia.
  - destruct (byte_of c <? 32); [done|]. destruct (rune_width (String c s)) as [|w]; intros [= _ <-]; [simpl; lia|].
    rewrite length_string_drop. simpl. lia.
Qed.

Lemma read_body_enough f s t rest :
  read_body f s = Some (t, rest) ->
  (String.length rest < String.length s)%nat /\
  forall f', (String.length s - String.length rest <= f')%nat -> read_body f' s = Some (t, rest).
Proof.
  revert s t rest. induction f as [|f IH]; [done|]. intros [|c s] t rest; cbn [read_body]; [done|].
  destruct (bool_decide (c = quote)) eqn:Hq.
  - intros [= <- <-]. split; [simpl; lia|]. intros [|f'] Hf; [simpl in Hf; lia|]. cbn [read_body]. by rewrite Hq.
  - intros ([r s1] & Hr & H)%bind_Some. apply bind_Some in H as ([b s2] & Hb & H). simplify_eq.
    pose proof (read_char_length _ _ _ Hr) as Hl. apply IH in Hb as [Hl2 Hb]. split; [lia|].
    intros [|f'] Hf; [lia|]. cbn [read_body]. rewrite Hq, Hr. cbn [mbind option_bind]. by rewrite Hb by lia.
Qed.

Lemma read_string_length s t rest : read_string s = Some (t, rest) -> (String.length rest < String.length s)%nat.
Proof.
  unfold read_string. destruct s as [|c s]; [done|]. case_bool_decide as Hc; [|done].
  intros [Hl _]%read_body_enough. simpl. lia.
Qed.

Lemma strip_prefix_length p s rest : strip_prefix p s = Some rest -> String.length s = (String.length p + String.length rest)%nat.
Proof.
  revert s. induction p as [|a p IH]; intros [|b s]; cbn [strip_prefix]; [by intros [= <-]..|done|].
  case_bool_decide as Ha; [|done]. intros H%IH. simpl. lia.
Qed.

Lemma span_char_length p s : String.length s = (String.length (span_char p s).1 + String.length (span_char p s).2)%nat.
Proof. induction s as [|c s IH]; [done|]. cbn [span_char]. destruct (p c); [|done]. destruct (span_char p s). simpl in *. lia. Qed.

Lemma read_number_length s v rest : read_number s = Some (v, rest) -> (String.length rest < String.length s)%nat.
Proof.
  unfold read_number. pose proof (span_char_length number_char s) as Hl. destruct (span_char number_char s) as [lit s'].
  destruct (valid_number lit) eqn:Hv; [|done]. intros [= _ <-]. destruct lit; [done|]. simpl in Hl. lia.
Qed.

(** Every nested call has consumed a byte by the time it returns. *)
Definition enough {A} (read : nat -> string -> option (A * string)) (f : nat) : Prop :=
  forall s x rest, read f s = Some (x, rest) ->
    (String.length rest < String.length s)%nat /\
    forall f', (String.length s - String.length rest <= f')%nat -> read f' s = Some (x, rest).

Lemma read_all_enough f : enough read_value f /\ enough read_elems f /\ enough read_fields f.
Proof.
  unfold enough. induction f as [|f (IHv & IHe & IHf)]; [done|]. split_and!.
  - intros s x rest. cbn [read_value]. pose proof (skip_space_length s) as Hs. destruct (skip_space s) as [|c s'] eqn:Hsp; [done|].
    simpl in Hs. destruct (bool_decide (c = quote)) eqn:B1.
    { intros H. pose proof H as H0. apply bind_Some in H as ([t s1] & Ht%read_string_length & H). simplify_eq. simpl in Ht. split; [lia|].
      intros [|f'] Hf; [lia|]. cbn [read_value]. by rewrite Hsp, B1. }
    destruct (bool_decide (c = "["%char)) eqn:B2.
    { destruct (expect_char "]" s') as [r|] eqn:Hx.
      - intros [= <- <-]. apply expect_char_length in Hx as Hl. split; [lia|].
        intros [|f'] Hf; [lia|]. cbn [read_value]. by rewrite Hsp, B1, B2, Hx.
      - intros ([l s1] & [Hl He]%IHe & H)%bind_Some. simplify_eq. split; [lia|].
        intros [|f'] Hf; [lia|]. cbn [read_value]. rewrite Hsp, B1, B2, Hx, He by lia. done. }
    destruct (bool_decide (c = "{"%char)) eqn:B3.
    { destruct (expect_char "}" s') as [r|] eqn:Hx.
      - intros [= <- <-]. apply expect_char_length in Hx as Hl. split; [lia|].
        intros [|f'] Hf; [lia|]. cbn [read_value]. by rewrite Hsp, B1, B2, B3, Hx.
      - intros ([l s1] & [Hl He]%IHf & H)%bind_Some. simplify_eq. split; [lia|].
        intros [|f'] Hf; [lia|]. cbn [read_value]. rewrite Hsp, B1, B2, B3, Hx, He by lia. done. }
    intros H. assert (String.length rest < String.length s)%nat as Hl.
    { revert H. repeat match goal with |- (if ?b then _ else _) = _ -> _ => destruct b end;
        try (intros (r & Hr%strip_prefix_length & H)%bind_Some; simplify_eq/=; lia).
      intros H%read_number_length. simpl in H. lia. }
    split; [done|]. intros [|f'] Hf; [lia|]. cbn [read_value]. by rewrite Hsp, B1, B2, B3.
  - intros s x rest. cbn [read_elems]. intros ([v s1] & [Hl Hv]%IHv & H)%bind_Some.
    destruct (expect_char "," s1) as [s2|] eqn:Hx; [apply expect_char_length in Hx as Hl2|];
      apply bind_Some in H as (y & Hy & H); [destruct y as [l s3]; apply IHe in Hy as [Hl3 He]|apply expect_char_length in Hy as Hl2];
      simplify_eq; (split; [lia|]); intros [|f'] Hf; [lia| |lia|]; cbn [read_elems]; rewrite Hv by lia; cbn [mbind option_bind]; rewrite Hx.
    + by rewrite He by lia.
    + by rewrite Hy.
  - intros s x rest. cbn [read_fields]. pose proof (skip_space_length s) as Hs.
    intros ([n s1] & Hn & H)%bind_Some. apply read_string_length in Hn as Hln.
    apply bind_Some in H as (s2 & Hc & H). apply expect_char_length in Hc as Hlc.
    apply bind_Some in H as ([v s3] & [Hl Hv]%IHv & H).
    destruct (expect_char "," s3) as [s4|] eqn:Hx; [apply expect_char_length in Hx as Hl2|];
      apply bind_Some in H as (y & Hy & H); [destruct y as [l s5]; apply IHf in Hy as [Hl3 He]|apply expect_char_length in Hy as Hl2];
      simplify_eq; (split; [lia|]); intros [|f'] Hf; [lia| |lia|]; cbn [read_fields]; rewrite Hn; cbn [mbind option_bind];
      rewrite Hc; cbn [mbind option_bind]; rewrite Hv by lia; cbn [mbind option_bind]; rewrite Hx.
    + by rewrite He by lia.
    + by rewrite Hy.
Qed.

(** What any fuel reads, the text's own length reads. *)
Lemma read_value_enough f s v rest :
  read_value f s = Some (v, rest) -> read_value (S (String.length s)) s = Some (v, rest).
Proof. intros [_ H]%read_all_enough. apply H. lia. Qed.
