(* ===== verification/Body.v ===== *)
(** * Request bodies

    [decodeJSON] of [internal/api/errors.go] and the request types of
    [internal/api/gen.go] it fills. [encoding/json] decodes into what is already
    there, which shows when a body names a field twice, so a decoder takes the
    old value. Refusals are one: [None]. A timestamp written with escapes inside
    its quotes is read here and refused by the library. *)

From S2P Require Import Prelude Identifiers Text Decimal GoTime Json Transaction Codec Reader.

(** ** Decoding into a value *)

(** A Go type: its zero value, and unmarshalling into a value of it. *)
Class Unmarshal A := { zero : A; unmarshal : json -> A -> option A }.

#[export] Instance unmarshal_string : Unmarshal string := {
  zero := EmptyString;
  unmarshal v old := match v with JNull => Some old | JStr s => Some s | _ => None end;
}.

#[export] Instance unmarshal_bool : Unmarshal bool := {
  zero := false;
  unmarshal v old := match v with JNull => Some old | JBool b => Some b | _ => None end;
}.

#[export] Instance unmarshal_time : Unmarshal Time := {
  zero := {| unix_nano := zero_instant; zone := 0 |};
  unmarshal v old := match v with JNull => Some old | JStr s => parse_time s | _ => None end;
}.

(** [big.Int.UnmarshalJSON]: an integer literal, never a float. *)
#[export] Instance unmarshal_int : Unmarshal Z := {
  zero := 0;
  unmarshal v old := match v with JNull => Some old | JNum n => parse_Z n | _ => None end;
}.

#[export] Instance unmarshal_pointer {A} `{Unmarshal A} : Unmarshal (option A) := {
  zero := None;
  unmarshal v old := match v with JNull => Some None | _ => Some <$> unmarshal v (default zero old) end;
}.

(** A map of strings: an object's members are added to it. *)
Fixpoint add_members (fs : list (string * json)) (m : gmap string string) : option (gmap string string) :=
  match fs with
  | [] => Some m
  | (k, v) :: fs => x ← unmarshal v zero; add_members fs (<[k := x]> m)
  end.

#[export] Instance unmarshal_metadata : Unmarshal Metadata := {
  zero := ∅;
  unmarshal v old := match v with JNull => Some ∅ | JObj fs => add_members fs old | _ => None end;
}.

(** A slice keeps what lies between its length and its capacity, zero values
    where nothing was written. *)
Record slice A := { backing : list A; len : nat }.
Arguments backing {A} s.
Arguments len {A} s.

Definition elems {A} (s : slice A) : list A := take (len s) (backing s).

(** Each element is decoded into the one it replaces. *)
Fixpoint fill {A} `{Unmarshal A} (vs : list json) (old : list A) : option (list A) :=
  match vs with
  | [] => Some old
  | v :: vs => x ← unmarshal v (hd zero old); xs ← fill vs (tl old); Some (x :: xs)
  end.

#[export] Instance unmarshal_slice {A} `{Unmarshal A} : Unmarshal (slice A) := {
  zero := {| backing := []; len := 0 |};
  unmarshal v old :=
    match v with
    | JNull | JArr [] => Some {| backing := []; len := 0 |}
    | JArr vs => b ← fill vs (backing old); Some {| backing := b; len := length vs |}
    | _ => None
    end;
}.

(** A struct: its fields with how each is set. *)
Definition setter A := json -> A -> option A.

Definition sets {A B} `{Unmarshal B} (get : A -> B) (put : B -> A -> A) : setter A :=
  fun v a => (fun b => put b a) <$> unmarshal v (get a).

(** A member names a field exactly or else in any case; a name that is no field's
    is an error, [DisallowUnknownFields]. *)
Definition named {A} (fields : list (string * setter A)) (n : string) : option (setter A) :=
  match find_map (fun f => if bool_decide (f.1 = n) then Some f.2 else None) fields with
  | Some f => Some f
  | None => find_map (fun f => if EqualFold (runes n) f.1 then Some f.2 else None) fields
  end.

Fixpoint set_members {A} (fields : list (string * setter A)) (ms : list (string * json)) (a : A) : option A :=
  match ms with
  | [] => Some a
  | (n, v) :: ms => f ← named fields n; a ← f v a; set_members fields ms a
  end.

Definition unmarshal_struct {A} (fields : list (string * setter A)) (v : json) (old : A) : option A :=
  match v with JNull => Some old | JObj ms => set_members fields ms old | _ => None end.

(** ** The request types *)

(** [Posting] of gen.go, also what a transaction is shown with. *)
Record WirePosting := {
  WSource : string;
  WDestination : string;
  WAsset : string;
  WAmount : option Z;
  WUpTo : option bool;
}.

Definition set_source : setter WirePosting :=
  sets WSource (fun x p => {| WSource := x; WDestination := WDestination p; WAsset := WAsset p; WAmount := WAmount p; WUpTo := WUpTo p |}).
Definition set_destination : setter WirePosting :=
  sets WDestination (fun x p => {| WSource := WSource p; WDestination := x; WAsset := WAsset p; WAmount := WAmount p; WUpTo := WUpTo p |}).
Definition set_asset : setter WirePosting :=
  sets WAsset (fun x p => {| WSource := WSource p; WDestination := WDestination p; WAsset := x; WAmount := WAmount p; WUpTo := WUpTo p |}).
Definition set_amount : setter WirePosting :=
  sets WAmount (fun x p => {| WSource := WSource p; WDestination := WDestination p; WAsset := WAsset p; WAmount := x; WUpTo := WUpTo p |}).
Definition set_upTo : setter WirePosting :=
  sets WUpTo (fun x p => {| WSource := WSource p; WDestination := WDestination p; WAsset := WAsset p; WAmount := WAmount p; WUpTo := x |}).

Definition posting_fields : list (string * setter WirePosting) :=
  [("amount", set_amount); ("asset", set_asset); ("destination", set_destination); ("source", set_source); ("upTo", set_upTo)].

#[export] Instance unmarshal_posting : Unmarshal WirePosting := {
  zero := {| WSource := ""; WDestination := ""; WAsset := ""; WAmount := None; WUpTo := None |};
  unmarshal := unmarshal_struct posting_fields;
}.

Record CreateTransactionRequest := {
  CMetadata : option Metadata;
  CPostings : slice WirePosting;
  CReference : option string;
  CTimestamp : option Time;
}.

Definition set_metadata : setter CreateTransactionRequest :=
  sets CMetadata (fun x r => {| CMetadata := x; CPostings := CPostings r; CReference := CReference r; CTimestamp := CTimestamp r |}).
Definition set_postings : setter CreateTransactionRequest :=
  sets CPostings (fun x r => {| CMetadata := CMetadata r; CPostings := x; CReference := CReference r; CTimestamp := CTimestamp r |}).
Definition set_reference : setter CreateTransactionRequest :=
  sets CReference (fun x r => {| CMetadata := CMetadata r; CPostings := CPostings r; CReference := x; CTimestamp := CTimestamp r |}).
Definition set_timestamp : setter CreateTransactionRequest :=
  sets CTimestamp (fun x r => {| CMetadata := CMetadata r; CPostings := CPostings r; CReference := CReference r; CTimestamp := x |}).

Definition create_fields : list (string * setter CreateTransactionRequest) :=
  [("metadata", set_metadata); ("postings", set_postings); ("reference", set_reference); ("timestamp", set_timestamp)].

#[export] Instance unmarshal_create : Unmarshal CreateTransactionRequest := {
  zero := {| CMetadata := None; CPostings := zero; CReference := None; CTimestamp := None |};
  unmarshal := unmarshal_struct create_fields;
}.

Record BatchRequest := { BTransactions : slice CreateTransactionRequest }.

#[export] Instance unmarshal_batch : Unmarshal BatchRequest := {
  zero := {| BTransactions := zero |};
  unmarshal := unmarshal_struct [("transactions", sets BTransactions (fun x _ => {| BTransactions := x |}))];
}.

Record RevertRequest := { RAtEffectiveDate : option bool }.

#[export] Instance unmarshal_revert : Unmarshal RevertRequest := {
  zero := {| RAtEffectiveDate := None |};
  unmarshal := unmarshal_struct [("atEffectiveDate", sets RAtEffectiveDate (fun x _ => {| RAtEffectiveDate := x |}))];
}.

Record RegisterAssetJSONBody := { RAsset : string }.

#[export] Instance unmarshal_register : Unmarshal RegisterAssetJSONBody := {
  zero := {| RAsset := "" |};
  unmarshal := unmarshal_struct [("asset", sets RAsset (fun x _ => {| RAsset := x |}))];
}.

(** ** [decodeJSON] *)

Definition max_body : Z := 2 ^ 20.

Definition closes (v : json) : bool := match v with JArr _ | JObj _ => true | _ => false end.

(** The first value of the body, which must end within the limit; the decoder
    never looks at what follows it. A value that is no array or object ends
    only where something is seen to follow. *)
Definition first_value (body : string) : option json :=
  if Z.of_nat (String.length body) <=? max_body
  then fst <$> read_value (S (String.length body)) body
  else
    let seen := string_take (Z.to_nat max_body) body in
    '(v, rest) ← read_value (S (String.length seen)) seen;
    if closes v || negb (bool_decide (rest = EmptyString)) then Some v else None.

Definition decodeJSON {A} `{Unmarshal A} (body : string) : option A :=
  v ← first_value body; unmarshal v zero.

(** ** What is decoded is text *)

Lemma first_value_ok body v : first_value body = Some v -> json_ok v = true.
Proof.
  unfold first_value. destruct (_ <=? _).
  - intros ([v' rest] & Hv & ->)%fmap_Some. by eapply read_value_ok.
  - intros ([v' rest] & Hv%read_value_ok & H)%bind_Some. destruct (_ || _); by simplify_eq.
Qed.

Section keep.
Context {A : Type} (I : A -> Prop).

Definition keeps_inv (f : setter A) : Prop := forall v a a', json_ok v = true -> I a -> f v a = Some a' -> I a'.

Lemma named_in fields n (f : setter A) : named fields n = Some f -> f ∈ fields.*2.
Proof.
  unfold named. intros H.
  destruct (find_map _ fields) as [g|] eqn:Hg in H; [simplify_eq|clear Hg; rename H into Hg];
    apply find_map_Some in Hg as (l1 & [n' g'] & l2 & -> & Hn & _); simpl in Hn; case_match; simplify_eq;
    rewrite fmap_app; set_solver.
Qed.

Lemma set_members_keep fields ms a a' :
  Forall (fun f => keeps_inv f.2) fields -> forallb (fun nv => utf8_valid nv.1 && json_ok nv.2) ms = true ->
  I a -> set_members fields ms a = Some a' -> I a'.
Proof.
  intros Hf. revert a. induction ms as [|[n v] ms IH]; intros a; cbn [set_members forallb]; [by intros _ Ha [= <-]|].
  intros [[_ Hv]%andb_true_iff Hms]%andb_true_iff Ha (f & Hn & H)%bind_Some. apply bind_Some in H as (a1 & Ha1 & H).
  apply named_in, list_elem_of_fmap in Hn as (nf & -> & Hin).
  apply (IH a1); [done| |done]. by eapply (proj1 (Forall_forall _ _) Hf nf Hin).
Qed.

Lemma unmarshal_struct_keep fields v a a' :
  Forall (fun f => keeps_inv f.2) fields -> json_ok v = true -> I a -> unmarshal_struct fields v a = Some a' -> I a'.
Proof.
  intros Hf Hv Ha. unfold unmarshal_struct. destruct v; try done; [by intros [= <-]|]. by apply set_members_keep.
Qed.

(** A field the invariant does not look at. *)
Lemma keeps_other {B} `{Unmarshal B} (get : A -> B) (put : B -> A -> A) :
  (forall b a, I a -> I (put b a)) -> keeps_inv (sets get put).
Proof. intros Hp v a a' _ Ha (b & _ & ->)%fmap_Some. by apply Hp. Qed.

Lemma keeps_field {B} `{Unmarshal B} (J : B -> Prop) (get : A -> B) (put : B -> A -> A) :
  (forall v b b', json_ok v = true -> J b -> unmarshal v b = Some b' -> J b') ->
  (forall a, I a -> J (get a)) -> (forall b a, I a -> J b -> I (put b a)) -> keeps_inv (sets get put).
Proof. intros Hu Hg Hp v a a' Hv Ha (b & Hb & ->)%fmap_Some. apply Hp; [done|]. eapply Hu; [done| |done]. by apply Hg. Qed.

End keep.

Lemma add_members_ok fs m m' :
  forallb (fun nv => utf8_valid nv.1 && json_ok nv.2) fs = true -> text_map_ok m -> add_members fs m = Some m' -> text_map_ok m'.
Proof.
  revert m. induction fs as [|[k v] fs IH]; intros m; cbn [add_members forallb]; [by intros _ Hm [= <-]|].
  intros [[Hk Hv]%andb_true_iff Hfs]%andb_true_iff Hm (x & Hx & H)%bind_Some. apply IH in H; [done..|].
  apply map_Forall_insert_2; [|done]. split; [done|]. destruct v; simplify_eq/=; done.
Qed.

Lemma metadata_text v (m m' : Metadata) : json_ok v = true -> text_map_ok m -> unmarshal v m = Some m' -> text_map_ok m'.
Proof.
  intros Hv Hm. destruct v; try done; [intros [= <-]; apply map_Forall_empty|]. by apply add_members_ok.
Qed.

Lemma pointer_text v (m m' : option Metadata) :
  json_ok v = true -> text_map_ok (default ∅ m) -> unmarshal v m = Some m' -> text_map_ok (default ∅ m').
Proof.
  intros Hv Hm. assert (forall x, (Some <$> unmarshal v x) = Some m' -> text_map_ok x -> text_map_ok (default ∅ m')) as H.
  { intros x (y & Hy & ->)%fmap_Some Hx. by eapply metadata_text. }
  destruct v; [intros [= <-]; apply map_Forall_empty|..]; intros Hd; exact (H _ Hd Hm).
Qed.

Definition request_text (r : CreateTransactionRequest) : Prop := text_map_ok (default ∅ (CMetadata r)).

Lemma create_text v (r r' : CreateTransactionRequest) :
  json_ok v = true -> request_text r -> unmarshal v r = Some r' -> request_text r'.
Proof.
  intros Hv Hr. apply (unmarshal_struct_keep request_text); [|done|done].
  unfold create_fields. rewrite !Forall_cons. split_and!; [|by apply keeps_other|by apply keeps_other|by apply keeps_other|constructor]. apply (keeps_field _ (fun m => text_map_ok (default ∅ m))).
  - apply pointer_text.
  - done.
  - by intros m b _ Hm.
Qed.

Lemma fill_keep {A} `{Unmarshal A} (I : A -> Prop) vs old new :
  (forall v a a', json_ok v = true -> I a -> unmarshal v a = Some a' -> I a') -> I zero ->
  forallb json_ok vs = true -> Forall I old -> fill vs old = Some new -> Forall I new.
Proof.
  intros Hu Hz. revert old new. induction vs as [|v vs IH]; intros old new; cbn [fill forallb]; [by intros _ Ho [= <-]|].
  intros [Hv Hvs]%andb_true_iff Ho (x & Hx & H')%bind_Some. apply bind_Some in H' as (xs & Hxs & [= <-]).
  constructor.
  - eapply Hu; [exact Hv| |exact Hx]. by destruct Ho.
  - eapply IH; [done| |done]. by destruct Ho.
Qed.

Lemma batch_text v (r r' : BatchRequest) :
  json_ok v = true -> Forall request_text (backing (BTransactions r)) -> unmarshal v r = Some r' ->
  Forall request_text (backing (BTransactions r')).
Proof.
  intros Hv Hr. apply (unmarshal_struct_keep (fun r => Forall request_text (backing (BTransactions r)))); [|done|done].
  rewrite Forall_cons. split; [|constructor]. apply (keeps_field _ (fun s => Forall request_text (backing s))); [|done|by intros m b _ Hm].
  intros w b b' Hw Hb. destruct w as [| | | |l|]; try done; [by intros [= <-]|]. destruct l as [|x l]; [by intros [= <-]|].
  intros (c & Hc & [= <-])%bind_Some. eapply fill_keep; [apply create_text|apply map_Forall_empty|exact Hw|exact Hb|exact Hc].
Qed.

Lemma decode_metadata_text body (m : Metadata) : decodeJSON body = Some m -> text_map_ok m.
Proof. intros (v & Hv%first_value_ok & H)%bind_Some. eapply metadata_text; [done| |done]. apply map_Forall_empty. Qed.

Lemma decode_create_text body (r : CreateTransactionRequest) : decodeJSON body = Some r -> request_text r.
Proof. intros (v & Hv%first_value_ok & H)%bind_Some. eapply create_text; [done| |done]. apply map_Forall_empty. Qed.

Lemma decode_batch_text body (r : BatchRequest) :
  decodeJSON body = Some r -> Forall request_text (elems (BTransactions r)).
Proof. intros (v & Hv%first_value_ok & H)%bind_Some. apply Forall_take. eapply batch_text; [done| |done]. constructor. Qed.
