(* ===== verification/Client.v ===== *)
(** * What a client writes

    The JSON of a request as a client that follows the contract sends it, and
    that [decodeJSON] reads back exactly that: amounts of any size digit by
    digit, never through a float. *)

From S2P Require Import Prelude Identifiers Text Decimal GoTime Json Transaction Codec Encoding Reader Body.

Definition present (name : string) (v : option json) : list (string * json) :=
  match v with Some v => [(name, v)] | None => [] end.

Definition wire_posting_json (p : WirePosting) : json :=
  JObj ([("source", JStr (WSource p)); ("destination", JStr (WDestination p)); ("asset", JStr (WAsset p))]
        ++ present "amount" (jint <$> WAmount p) ++ present "upTo" (JBool <$> WUpTo p)).

Definition create_json (r : CreateTransactionRequest) : option json :=
  ts ← match CTimestamp r with Some t => Some <$> time_json t | None => Some None end;
  Some (JObj (present "metadata" (metadata_json <$> CMetadata r)
              ++ [("postings", JArr (wire_posting_json <$> elems (CPostings r)))]
              ++ present "reference" (JStr <$> CReference r) ++ present "timestamp" ts)).

Definition slice_of {A} (l : list A) : slice A := {| backing := l; len := length l |}.

(** ** Reading it back *)

Lemma set_member {A} (fields : list (string * setter A)) n f v ms a :
  named fields n = Some f -> set_members fields ((n, v) :: ms) a = f v a ≫= set_members fields ms.
Proof. intros H. cbn [set_members]. by rewrite H. Qed.

Ltac set_next := erewrite set_member by reflexivity; cbn [mbind option_bind fst snd].

Lemma unmarshal_wire_posting p : unmarshal (wire_posting_json p) zero = Some p.
Proof.
  destruct p as [s d a n u]. unfold wire_posting_json, present. cbn [WSource WDestination WAsset WAmount WUpTo].
  cbn [unmarshal unmarshal_posting unmarshal_struct zero app]. do 3 (set_next; cbn -[set_members]).
  destruct n as [n|], u as [u|]; cbn [fmap option_fmap option_map app];
    repeat (set_next; unfold set_amount, sets, jint; cbn -[print_Z parse_Z set_members]; rewrite ?parse_print_Z); done.
Qed.

Lemma fill_fresh {A} `{Unmarshal A} (enc : A -> json) (l : list A) :
  (forall x, unmarshal (enc x) zero = Some x) -> fill (enc <$> l) [] = Some l.
Proof. intros He. induction l as [|x l IH]; [done|]. cbn [fmap list_fmap fill hd tl]. rewrite He. simpl. by rewrite IH. Qed.

Lemma unmarshal_slice_json {A} `{Unmarshal A} (enc : A -> json) (l : list A) old :
  (forall x, unmarshal (enc x) zero = Some x) -> backing old = [] ->
  unmarshal (JArr (enc <$> l)) old = Some (slice_of l).
Proof.
  intros He Ho. destruct l as [|x l]; [done|]. cbn [unmarshal unmarshal_slice]. rewrite Ho.
  change (JArr (enc <$> x :: l)) with (JArr (enc x :: (enc <$> l))). cbn iota beta.
  change (enc x :: (enc <$> l)) with (enc <$> (x :: l)). rewrite fill_fresh by done. simpl. unfold slice_of. by rewrite length_fmap.
Qed.

Lemma add_members_strings (l : list (string * string)) m :
  add_members ((fun kv => (kv.1, JStr kv.2)) <$> l) m = Some (foldl (fun m kv => <[kv.1 := kv.2]> m) m l).
Proof. revert m. induction l as [|[k v] l IH]; intros m; [done|]. cbn. apply IH. Qed.

Lemma unmarshal_metadata_json (m : Metadata) : unmarshal (metadata_json m) (∅ : Metadata) = Some m.
Proof. unfold metadata_json, jmap. cbn [unmarshal unmarshal_metadata]. by rewrite add_members_strings, foldl_rows. Qed.

Lemma unmarshal_create_json ts m (ps : list WirePosting) ref t :
  match t with Some t => Some <$> time_json t | None => Some None end = Some ts ->
  (forall t', t = Some t' -> zone t' mod 60 = 0) ->
  unmarshal (JObj (present "metadata" (metadata_json <$> m) ++ [("postings", JArr (wire_posting_json <$> ps))]
                   ++ present "reference" (JStr <$> ref) ++ present "timestamp" ts)) zero =
  Some {| CMetadata := m; CPostings := slice_of ps; CReference := ref; CTimestamp := t |}.
Proof.
  intros Hts Hz.
  assert (forall (c : CreateTransactionRequest),
    set_members create_fields (present "timestamp" ts) c =
    Some {| CMetadata := CMetadata c; CPostings := CPostings c; CReference := CReference c;
            CTimestamp := match t with Some t => Some t | None => CTimestamp c end |}) as Ht.
  { intros c. destruct t as [t|].
    - destruct (time_json t) as [v|] eqn:Hv; [|done]. injection Hts as <-. cbn [present]. set_next.
      apply dec_time_json in Hv as Hd; [|by apply Hz]. unfold set_timestamp, sets. unfold time_json in Hv.
      destruct (marshal_time t) as [x|]; [|done]. injection Hv as <-. change (parse_time x = Some t) in Hd.
      assert (unmarshal (JStr x) (CTimestamp c) = Some (Some t)) as Hu
        by (change (Some <$> parse_time x = Some (Some t)); by rewrite Hd).
      cbn [snd]. by rewrite Hu.
    - injection Hts as <-. by destruct c. }
  assert (forall (c : CreateTransactionRequest) k,
    set_members create_fields (present "reference" (JStr <$> ref) ++ k) c =
    set_members create_fields k {| CMetadata := CMetadata c; CPostings := CPostings c;
      CReference := match ref with Some r => Some r | None => CReference c end; CTimestamp := CTimestamp c |}) as Hr.
  { intros c k. destruct ref as [r|]; [|by destruct c]. cbn [present fmap option_fmap option_map app]. by set_next. }
  assert (forall (c : CreateTransactionRequest) k, backing (CPostings c) = [] ->
    set_members create_fields ([("postings", JArr (wire_posting_json <$> ps))] ++ k) c =
    set_members create_fields k {| CMetadata := CMetadata c; CPostings := slice_of ps;
      CReference := CReference c; CTimestamp := CTimestamp c |}) as Hp.
  { intros c k Hb. cbn [app]. set_next. unfold set_postings, sets.
    rewrite (unmarshal_slice_json wire_posting_json ps) by (done || apply unmarshal_wire_posting). done. }
  cbn [unmarshal unmarshal_create unmarshal_struct]. destruct m as [m|]; cbn [present fmap option_fmap option_map].
  - cbn [app]. set_next. unfold set_metadata at 1, sets at 1.
    assert (unmarshal (metadata_json m) (None : option Metadata) = Some (Some m)) as Hm.
    { change (Some <$> unmarshal (metadata_json m) (∅ : Metadata) = Some (Some m)). by rewrite unmarshal_metadata_json. }
    change (CMetadata zero) with (None : option Metadata). rewrite Hm. cbn [fmap option_fmap option_map mbind option_bind].
    etrans; [by apply Hp|]. rewrite Hr, Ht. by destruct ref, t.
  - cbn [app]. etrans; [by apply Hp|]. rewrite Hr, Ht. by destruct ref, t.
Qed.

Lemma first_value_render v : json_ok v = true -> Z.of_nat (String.length (render v)) <= max_body -> first_value (render v) = Some v.
Proof.
  intros Hv Hl. unfold first_value. destruct (Z.leb_spec (Z.of_nat (String.length (render v))) max_body); [|lia].
  destruct (ok_text v Hv) as [Hv' Ht]. pose proof (need_length v Hv' EmptyString) as Hn. unfold render in *.
  rewrite read_print, Ht; [done|done|done|]. simpl in *. lia.
Qed.

Definition wire_text (p : WirePosting) : Prop :=
  utf8_valid (WSource p) = true /\ utf8_valid (WDestination p) = true /\ utf8_valid (WAsset p) = true.

Lemma json_ok_app (fs gs : list (string * json)) : json_ok (JObj (fs ++ gs)) = json_ok (JObj fs) && json_ok (JObj gs).
Proof. apply forallb_app. Qed.

Lemma json_ok_cons n v (fs : list (string * json)) :
  json_ok (JObj ((n, v) :: fs)) = utf8_valid n && json_ok v && json_ok (JObj fs).
Proof. done. Qed.

Lemma json_ok_present n (v : option json) :
  utf8_valid n = true -> (forall x, v = Some x -> json_ok x = true) -> json_ok (JObj (present n v)) = true.
Proof. intros Hn Hv. destruct v as [v|]; [|done]. cbn [present]. by rewrite json_ok_cons, Hn, Hv. Qed.

Lemma wire_posting_ok p : wire_text p -> json_ok (wire_posting_json p) = true.
Proof.
  intros (Hs & Hd & Ha). unfold wire_posting_json. rewrite !json_ok_app, !json_ok_cons.
  rewrite !json_ok_present by (try done; intros x (y & _ & ->)%fmap_Some; first [apply jint_ok|done]).
  cbn [json_ok forallb]. by rewrite Hs, Hd, Ha.
Qed.

(** C19: What a client writes is what the server reads. The JSON of any request
    -- amounts of any size, any valid text, sweeps, absent and present fields --
    decodes to that request, digit for digit, as long as it fits in the limit
    on bodies. *)
Theorem request_roundtrip (r : CreateTransactionRequest) (ps : list WirePosting) (v : json) :
  CPostings r = slice_of ps -> Forall wire_text ps -> text_map_ok (default ∅ (CMetadata r)) ->
  utf8_valid (default EmptyString (CReference r)) = true ->
  (forall t, CTimestamp r = Some t -> zone t mod 60 = 0) ->
  create_json r = Some v -> Z.of_nat (String.length (render v)) <= max_body ->
  decodeJSON (render v) = Some r.
Proof.
  destruct r as [m s ref t]. cbn [CPostings CMetadata CReference CTimestamp]. intros -> Hps Hm Href Hz Hc Hl.
  unfold create_json in Hc. cbn [CPostings CMetadata CReference CTimestamp] in Hc.
  apply bind_Some in Hc as (ts & Hts & [= <-]).
  assert (elems (slice_of ps) = ps) as Hel by (unfold elems, slice_of; cbn; apply firstn_all). rewrite Hel in *.
  unfold decodeJSON. rewrite first_value_render; [|clear Hl|done]; [by apply unmarshal_create_json|].
  assert (forallb json_ok (wire_posting_json <$> ps) = true) as Hall.
  { apply forallb_forall. intros x Hx%list_elem_of_In. apply list_elem_of_fmap in Hx as (p & -> & Hp).
    apply wire_posting_ok. by eapply (proj1 (Forall_forall _ _) Hps). }
  rewrite json_ok_app. cbn [app]. rewrite json_ok_cons, json_ok_app. cbn [json_ok] in Hall |- *.
  change (json_ok (JObj ?l)) with (forallb (fun nv => utf8_valid nv.1 && json_ok nv.2) l).
  rewrite Hall. rewrite !andb_true_iff. split_and!; try done; apply json_ok_present; try done; intros x Hx.
  - apply fmap_Some in Hx as (y & -> & ->). by apply metadata_json_ok.
  - apply fmap_Some in Hx as (y & -> & ->). exact Href.
  - subst ts. destruct t as [t|]; [|done]. unfold time_json, marshal_time in Hts.
    destruct (_ && _) in Hts; [|done]. injection Hts as <-. apply basic_utf8, format_time_basic.
Qed.

(** ** A request *)

(** A payment no machine integer holds, with a note in another script. *)
Definition large_request : CreateTransactionRequest :=
  {| CMetadata := Some {[ "order" := "A-17" ]};
     CPostings := slice_of [{| WAmount := Some (2 ^ 100); WAsset := "USD/2"; WDestination := "users:alice";
                               WSource := "world"; WUpTo := None |};
                            {| WAmount := None; WAsset := "USD/2"; WDestination := "bank:vault";
                               WSource := "users:alice"; WUpTo := Some true |}];
     CReference := Some "invoice-7"; CTimestamp := None |}.

Definition large_json : json := default JNull (create_json large_request).

Lemma request_roundtrip_witness : decodeJSON (render large_json) = Some large_request.
Proof.
  apply (request_roundtrip large_request (elems (CPostings large_request)) large_json).
  - reflexivity.
  - by repeat constructor.
  - apply map_Forall_insert_2; [done|apply map_Forall_empty].
  - reflexivity.
  - discriminate.
  - reflexivity.
  - by vm_compute.
Defined.
