(* ===== verification/Formats.v ===== *)
(** * Formats

    How [encoding/json] writes and reads a Go value by its type, as an encoder
    and a decoder with the law that ties them. A struct's format is put together
    from its fields and their tags, as the library does by reflection. *)

From S2P Require Import Prelude Identifiers Text Posting Volumes Decimal GoTime Json Transaction Codec Encoding Reader Base64 Client.

(** ** Members of an object *)

(** A member with a value, or left out by [omitempty]. *)
Definition members (l : list (string * option json)) : list (string * json) :=
  l ≫= fun nv => present nv.1 nv.2.

Definition distinct (names : list string) : bool := bool_decide (NoDup (lower <$> names)).

Definition reading (name : string) (acc : option json) (nv : string * json) : option json :=
  if bool_decide (lower nv.1 = lower name) then Some nv.2 else acc.

Lemma reading_others name l acc :
  lower name ∉ lower <$> l.*1 -> foldl (reading name) acc (members l) = acc.
Proof.
  induction l as [|[n v] l IH]; [done|]. cbn. rewrite not_elem_of_cons. intros [Hn Hl].
  rewrite foldl_app. destruct v as [v|]; cbn; [|by apply IH]. unfold reading at 2. cbn.
  rewrite bool_decide_false by congruence. by apply IH.
Qed.

Lemma field_members name v l : distinct l.*1 = true -> (name, v) ∈ l -> field name (members l) = v.
Proof.
  unfold distinct, field. rewrite bool_decide_eq_true. change (fun acc nv => _) with (reading name).
  induction l as [|[n w] l IH]; [by intros _ ?%not_elem_of_nil|]. cbn. intros [Hn Hl]%NoDup_cons.
  rewrite foldl_app. intros [[= -> ->]|Hin]%elem_of_cons.
  - rewrite reading_others by done. destruct w as [w|]; [|done]. cbn. unfold reading. by rewrite bool_decide_true.
  - assert (foldl (reading name) None (present n w) = None) as ->; [|by apply IH].
    destruct w as [w|]; [|done]. cbn. unfold reading. cbn. rewrite bool_decide_false; [done|]. intros Heq. apply Hn. rewrite Heq.
    apply list_elem_of_fmap. exists name. split; [done|]. apply list_elem_of_fmap. by exists (name, v).
Qed.

Lemma members_ok l :
  Forall (fun nv => utf8_valid nv.1 = true /\ forall v, nv.2 = Some v -> json_ok v = true) l -> json_ok (JObj (members l)) = true.
Proof.
  induction 1 as [|[n v] l [Hn Hv] _ IH]; [done|]. change (members ((n, v) :: l)) with (present n v ++ members l).
  rewrite json_obj_app, IH, andb_true_r. by apply json_ok_present.
Qed.

(** ** [base64.StdEncoding]: [+] and [/], and padding *)

Definition std_char (c : ascii) : ascii := if Ascii.eqb c "-" then "+"%char else if Ascii.eqb c "_" then "/"%char else c.
Definition url_of_std (c : ascii) : ascii := if Ascii.eqb c "+" then "-"%char else if Ascii.eqb c "/" then "_"%char else c.

Fixpoint map_chars (f : ascii -> ascii) (s : string) : string :=
  match s with EmptyString => EmptyString | String c s => String (f c) (map_chars f s) end.

Definition padding (n : nat) : string :=
  match (n mod 4)%nat with 2 => "==" | 3 => "=" | _ => EmptyString end%nat.

Fixpoint strip_padding (s : string) : string :=
  match s with
  | EmptyString => EmptyString
  | String c s' => if bool_decide (s = "=" \/ s = "==") then EmptyString else String c (strip_padding s')
  end.

Definition StdEncodeToString (s : string) : string :=
  let u := EncodeToString s in map_chars std_char u +:+ padding (String.length u).

Definition StdDecodeString (s : string) : option string :=
  let s := skip_newlines s in
  let t := strip_padding s in
  if (String.length s mod 4 =? 0)%nat && forall_char (fun c => negb (Ascii.eqb c "-" || Ascii.eqb c "_")) t
  then DecodeString (map_chars url_of_std t) else None.

Definition std_text_char (c : ascii) : bool := is_ascii c && negb (Ascii.eqb c "=" || Ascii.eqb c "-" || Ascii.eqb c "_")
  && negb ((byte_of c =? 10) || (byte_of c =? 13)).

Lemma std_char_ok c : url_char c = true -> std_text_char (std_char c) = true /\ url_of_std (std_char c) = c.
Proof. destruct c as [[] [] [] [] [] [] [] []]; vm_compute; intros H; done. Qed.

Lemma std_chars s : forall_char url_char s = true ->
  forall_char std_text_char (map_chars std_char s) = true /\ map_chars url_of_std (map_chars std_char s) = s /\
  String.length (map_chars std_char s) = String.length s.
Proof.
  induction s as [|c s IH]; [done|]. simpl. intros [Hc Hs]%andb_true_iff.
  destruct (std_char_ok c Hc) as [-> ->], (IH Hs) as (-> & -> & ->). done.
Qed.

Lemma strip_padded t p :
  forall_char std_text_char t = true -> p = EmptyString \/ p = "=" \/ p = "==" -> strip_padding (t +:+ p) = t.
Proof.
  intros Ht Hp. induction t as [|c t IH]; [by destruct Hp as [-> |[-> | ->]]|]. simpl in Ht. apply andb_true_iff in Ht as [Hc Ht].
  change (String c t +:+ p) with (String c (t +:+ p)). cbn [strip_padding]. rewrite bool_decide_false.
  - by rewrite IH.
  - intros [[= -> _]|[= -> _]]; done.
Qed.

Lemma skip_std t p : forall_char std_text_char t = true -> p = EmptyString \/ p = "=" \/ p = "==" ->
  skip_newlines (t +:+ p) = t +:+ p.
Proof.
  intros Ht Hp. induction t as [|c t IH]; [by destruct Hp as [-> |[-> | ->]]|]. simpl in Ht. apply andb_true_iff in Ht as [Hc Ht].
  unfold std_text_char in Hc. apply andb_true_iff in Hc as [_ Hc%negb_true_iff]. simpl. by rewrite Hc, IH.
Qed.

Lemma encode_length s : (String.length (EncodeToString s) mod 4 <> 1)%nat.
Proof.
  induction s as [|a|a b|a b c s IH] using string_ind3; [done..|]. cbn [EncodeToString String.length].
  replace (S (S (S (S (String.length (EncodeToString s)))))) with (String.length (EncodeToString s) + 1 * 4)%nat by lia.
  by rewrite Nat.Div0.mod_add.
Qed.

Lemma padding_cases n : (n mod 4 <> 1)%nat ->
  (padding n = EmptyString \/ padding n = "=" \/ padding n = "==") /\ ((n + String.length (padding n)) mod 4 = 0)%nat.
Proof.
  intros Hn. pose proof (Nat.mod_upper_bound n 4 ltac:(lia)) as Hb. unfold padding.
  rewrite Nat.Div0.add_mod. destruct (n mod 4)%nat as [|[|[|[|]]]]; simpl; try lia; auto.
Qed.

Lemma std_roundtrip s : StdDecodeString (StdEncodeToString s) = Some s.
Proof.
  unfold StdDecodeString, StdEncodeToString. set (u := EncodeToString s).
  destruct (std_chars u (encode_url s)) as (Ht & Hback & Hlen), (padding_cases (String.length u) (encode_length s)) as [Hp Hmod].
  rewrite skip_std, strip_padded by done. rewrite length_append, Hlen, Hmod. simpl.
  assert (forall_char (fun c => negb (Ascii.eqb c "-" || Ascii.eqb c "_")) (map_chars std_char u) = true) as ->.
  { clear -Ht. induction (map_chars std_char u) as [|c t IH]; [done|]. simpl in *. apply andb_true_iff in Ht as [Hc Ht].
    rewrite IH by done. unfold std_text_char in Hc. destruct (Ascii.eqb c "-"), (Ascii.eqb c "_"); [..|done];
      rewrite ?orb_true_r, ?andb_false_r in Hc; done. }
  rewrite Hback. apply base64_roundtrip.
Qed.

Lemma std_text s : utf8_valid (StdEncodeToString s) = true.
Proof.
  apply ascii_utf8_valid. unfold StdEncodeToString. set (u := EncodeToString s).
  destruct (std_chars u (encode_url s)) as (Ht & _), (padding_cases (String.length u) (encode_length s)) as [Hp _].
  clear -Ht Hp. induction (map_chars std_char u) as [|c t IH]; [by destruct Hp as [-> |[-> | ->]]|].
  simpl in *. apply andb_true_iff in Ht as [Hc Ht]. rewrite IH, andb_true_r by done. unfold std_text_char in Hc.
  by apply andb_true_iff in Hc as [[? _]%andb_true_iff _].
Qed.

(** ** Formats *)

(** The values [good] keeps are written as text and read back. *)
Record Format (A : Type) := {
  encode : A -> option json;
  decode : json -> option A;
  good : A -> Prop;
  format_law a : good a -> exists v, encode a = Some v /\ v <> JNull /\ json_ok v = true /\ decode v = Some a;
}.
Arguments encode {A} f a.
Arguments decode {A} f v.
Arguments good {A} f a.
Arguments format_law {A} f a.

Program Definition text : Format string :=
  {| encode s := Some (JStr s); decode := dec_str; good s := utf8_valid s = true |}.
Next Obligation. intros s Hs. by exists (JStr s). Qed.

Program Definition boolean : Format bool :=
  {| encode b := Some (JBool b); decode := dec_bool; good _ := True |}.
Next Obligation. intros b _. by exists (JBool b). Qed.

(** [*big.Int]: digits, however many. *)
Program Definition big : Format Z :=
  {| encode z := Some (jint z); decode := dec_int; good _ := True |}.
Next Obligation. intros z _. exists (jint z). split_and!; [done|done|apply jint_ok|apply dec_int_jint]. Qed.

Program Definition int64 : Format Z :=
  {| encode z := Some (jint z); decode := dec_int64; good := int64_ok |}.
Next Obligation. intros z Hz. exists (jint z). split_and!; [done|done|apply jint_ok|by apply dec_int64_jint]. Qed.

(** [time.Time], in UTC. *)
Program Definition moment : Format Z :=
  {| encode := instant_json; decode := dec_instant; good t := is_Some (instant_json t) |}.
Next Obligation.
  intros t [v Hv]. exists v. split_and!; [done| |by eapply time_json_ok|by apply dec_instant_json].
  unfold instant_json, time_json in Hv. destruct (marshal_time _); by simplify_eq/=.
Qed.

(** [[]byte] *)
Program Definition bytes : Format string :=
  {| encode s := Some (JStr (StdEncodeToString s)); decode v := dec_str v ≫= StdDecodeString; good _ := True |}.
Next Obligation.
  intros s _. exists (JStr (StdEncodeToString s)). split_and!; [done|done|apply std_text|apply std_roundtrip].
Qed.

(** [json.RawMessage], compacted as it is written: one that was printed compact
    comes out as it is. *)
Program Definition raw : Format string :=
  {| encode s := parse_json s; decode v := Some (render v);
     good s := exists v, v <> JNull /\ json_ok v = true /\ render v = s |}.
Next Obligation. intros s (v & Hn & Hv & <-). exists v. split_and!; [by apply parse_render|done..]. Qed.

(** A slice that was made, not nil. *)
Program Definition list_of {A} (F : Format A) : Format (list A) :=
  {| encode l := JArr <$> mapM (encode F) l; decode := dec_list (decode F); good := Forall (good F) |}.
Next Obligation.
  intros A F l Hl.
  assert (exists vs, mapM (encode F) l = Some vs /\ forallb json_ok vs = true /\ mapM (decode F) vs = Some l)
    as (vs & He & Hok & Hd); [|exists (JArr vs); by rewrite He].
  induction Hl as [|a l Ha _ (vs & He & Hok & Hd)]; [by exists []|].
  destruct (format_law F a Ha) as (v & Hv & _ & Hvok & Hvd). exists (v :: vs).
  split_and!; cbn; [by rewrite Hv; simpl; rewrite He|by rewrite Hvok|by rewrite Hvd; simpl; rewrite Hd].
Qed.

(** A map by strings, its keys in order. *)
Definition encode_entries {A} (F : Format A) (l : list (string * A)) : option (list (string * json)) :=
  mapM (fun kv => pair kv.1 <$> encode F kv.2) l.

Program Definition map_of {A} (F : Format A) : Format (gmap string A) :=
  {| encode m := JObj <$> encode_entries F (map_rows String.le m); decode := dec_map (decode F);
     good m := map_Forall (fun k x => utf8_valid k = true /\ good F x) m |}.
Next Obligation.
  intros A F m Hm.
  assert (Forall (fun kv => utf8_valid kv.1 = true /\ good F kv.2) (map_rows String.le m)) as Hrows.
  { apply Forall_forall. intros [k x] Hx. apply elem_of_map_rows in Hx; [|apply _..]. exact (Hm k x Hx). }
  assert (forall n, exists fs, encode_entries F (map_rows String.le m) = Some fs /\
            forallb (fun nv => utf8_valid nv.1 && json_ok nv.2) fs = true /\
            dec_entries (decode F) fs n = Some (foldl (fun m kv => <[kv.1 := kv.2]> m) n (map_rows String.le m))) as H.
  { induction Hrows as [|[k x] l [Hk Hx] _ IH]; intros n; [by exists []|]. simpl in Hk, Hx.
    destruct (format_law F x Hx) as (v & Hv & _ & Hvok & Hvd), (IH (<[k := x]> n)) as (fs & He & Hok & Hd).
    exists ((k, v) :: fs). split_and!.
    - unfold encode_entries in *. cbn [mapM fst snd]. rewrite Hv. cbn [fmap option_fmap option_map mbind option_bind]. by rewrite He.
    - cbn [forallb fst snd]. by rewrite Hk, Hvok, Hok.
    - cbn [dec_entries fst snd]. rewrite Hvd. exact Hd. }
  destruct (H ∅) as (fs & He & Hok & Hd). exists (JObj fs). rewrite He. split_and!; [done..|].
  cbn [decode]. unfold dec_map. by rewrite Hd, foldl_rows.
Qed.

(** ** Structs *)

(** The fields of a struct, as a tuple: their names, the members they make of
    it, reading them from an object's members. *)
Record Fields (A : Type) := {
  names : list string;
  write : A -> option (list (string * option json));
  read : list (string * json) -> option A;
  all_good : A -> Prop;
  fields_law a : all_good a -> exists l, write a = Some l /\ l.*1 = names /\
    Forall (fun nv => forall v, nv.2 = Some v -> json_ok v = true) l /\
    forall fs, Forall (fun nv => field nv.1 fs = nv.2) l -> read fs = Some a;
}.
Arguments names {A} f.
Arguments write {A} f a.
Arguments read {A} f fs.
Arguments all_good {A} f a.
Arguments fields_law {A} f a.

Program Definition no_more : Fields unit :=
  {| names := []; write _ := Some []; read _ := Some tt; all_good _ := True |}.
Next Obligation. intros [] _. exists []. by split_and!. Qed.

(** A field, zero where the member is missing. *)
Program Definition required {A B} (tag : string) (zero : A) (F : Format A) (Fs : Fields B) : Fields (A * B) :=
  {| names := tag :: names Fs;
     write ab := v ← encode F ab.1; l ← write Fs ab.2; Some ((tag, Some v) :: l);
     read fs := a ← dec_field tag zero (decode F) fs; b ← read Fs fs; Some (a, b);
     all_good ab := good F ab.1 /\ all_good Fs ab.2 |}.
Next Obligation.
  intros A B tag zero F Fs [a b] [Ha Hb]. simpl in *.
  destruct (format_law F a Ha) as (v & Hv & Hn & Hok & Hd), (fields_law Fs b Hb) as (l & Hl & Hnames & Hlok & Hr).
  exists ((tag, Some v) :: l). rewrite Hv, Hl. split_and!; [done|by rewrite fmap_cons, Hnames| |].
  - constructor; [by intros w [= <-]|done].
  - intros fs [Hf Hfs]%Forall_cons. simpl in Hf. unfold dec_field. rewrite Hf.
    destruct v; [done|..]; rewrite Hd; simpl; by rewrite Hr.
Qed.

(** A pointer marked [omitempty]. *)
Definition encode_present {A} (F : Format A) (a : option A) : option (option json) :=
  match a with Some a => Some <$> encode F a | None => Some None end.

Program Definition optional {A B} (tag : string) (F : Format A) (Fs : Fields B) : Fields (option A * B) :=
  {| names := tag :: names Fs;
     write ab := v ← encode_present F ab.1; l ← write Fs ab.2; Some ((tag, v) :: l);
     read fs := a ← dec_field tag None (pointer (decode F)) fs; b ← read Fs fs; Some (a, b);
     all_good ab := from_option (good F) True ab.1 /\ all_good Fs ab.2 |}.
Next Obligation.
  intros A B tag F Fs [a b] [Ha Hb]. simpl in *. destruct (fields_law Fs b Hb) as (l & Hl & Hnames & Hlok & Hr).
  destruct a as [a|].
  - destruct (format_law F a Ha) as (v & Hv & Hn & Hok & Hd).
    exists ((tag, Some v) :: l). unfold encode_present. rewrite Hv, Hl. split_and!; [done|by rewrite fmap_cons, Hnames| |].
    + constructor; [by intros w [= <-]|done].
    + intros fs [Hf Hfs]%Forall_cons. simpl in Hf. unfold dec_field, pointer. rewrite Hf.
      destruct v; [done|..]; rewrite Hd; simpl; by rewrite Hr.
  - exists ((tag, None) :: l). rewrite Hl. split_and!; [done|by rewrite fmap_cons, Hnames| |].
    + by constructor.
    + intros fs [Hf Hfs]%Forall_cons. simpl in Hf. unfold dec_field. rewrite Hf. simpl. by rewrite Hr.
Qed.

(** A struct is its fields. Their names differ, whatever the case. *)
Definition named_well (ns : list string) : bool := distinct ns && forallb utf8_valid ns.

Program Definition struct {A R} (Fs : Fields A) (fields_of : R -> A) (make : A -> R)
    (made : forall r, make (fields_of r) = r) (named : named_well (names Fs) = true) : Format R :=
  {| encode r := (fun l => JObj (members l)) <$> write Fs (fields_of r);
     decode := dec_struct (fun fs => make <$> read Fs fs);
     good r := all_good Fs (fields_of r) |}.
Next Obligation.
  intros A R Fs fields_of make made named r Hr. destruct (fields_law Fs _ Hr) as (l & Hl & Hnames & Hok & Hread).
  apply andb_true_iff in named as [Hdist Hutf]. rewrite <-Hnames in Hdist, Hutf.
  exists (JObj (members l)). rewrite Hl. split_and!; [done|done| |].
  - apply members_ok. apply Forall_forall. intros nv Hin. rewrite forallb_forall in Hutf.
    split; [|by eapply (proj1 (Forall_forall _ _) Hok)]. apply Hutf, list_elem_of_In. by apply list_elem_of_fmap_2.
  - cbn [decode dec_struct]. rewrite Hread; [simpl; by rewrite made|]. apply Forall_forall. intros [n v] Hin. by apply field_members.
Qed.
