(* ===== verification/Wire.v ===== *)
(** * What the API answers

    The response types of [internal/api/gen.go], the conversions of
    [internal/api/convert.go] and the error mapping of [internal/api/errors.go].
    Messages are for people; of one, only whether it may say what went wrong
    inside is kept. *)

From S2P Require Import Prelude Identifiers Text Posting Volumes Decimal GoTime Transaction Errors Schema Txn Locking Read Lists Registry Body.

(** ** Errors *)

Inductive ErrorCode :=
| CONFLICT
| IDEMPOTENCYKEYREQUIRED
| IDEMPOTENCYMISMATCH
| INSUFFICIENTFUNDS
| INTERNAL
| NOTFOUND
| VALIDATION.

#[export] Instance ErrorCode_eq_dec : EqDecision ErrorCode.
Proof. solve_decision. Defined.

(** A message: one of the API's own sentences, or the text of an error of the
    engine. *)
Inductive message :=
| Sentence (s : string)
| ErrorText (e : error).

Record ApiError := { Code : ErrorCode; Details : option (gmap string string); Message : message }.

Definition StatusOK : Z := 200.
Definition StatusCreated : Z := 201.
Definition StatusBadRequest : Z := 400.
Definition StatusNotFound : Z := 404.
Definition StatusMethodNotAllowed : Z := 405.
Definition StatusConflict : Z := 409.
Definition StatusUnprocessableEntity : Z := 422.
Definition StatusInternalServerError : Z := 500.

Definition as_insufficient (e : error) : option (Address * Asset * Z * Z) :=
  match e with InsufficientFundsError a c x y => Some (a, c, x, y) | _ => None end.

Definition as_posting (e : error) : option unit :=
  match e with PostingError _ _ => Some tt | _ => None end.

Definition is_any (e : error) (targets : list error) : bool := existsb (errors_Is e) targets.

Definition not_found_errors : list error := [ErrNotFound; ErrLedgerNotFound].

Definition conflict_errors : list error := [ErrDuplicateReference; ErrLedgerExists; ErrAlreadyReverted].

Definition validation_errors : list error :=
  [ErrNoPostings; ErrInvalidCursor; ErrEmptyMetadata; LedgerError ErrEmptyMetadataKey;
   LedgerError ErrTooManyMetadataKeys; LedgerError ErrMetadataKeyTooLong; LedgerError ErrMetadataValueTooLong;
   LedgerError ErrInvalidSourceAddress; ErrBatchTooLarge].

Definition classify (e : error) : Z * ErrorCode :=
  match errors_As as_insufficient e with
  | Some _ => (StatusUnprocessableEntity, INSUFFICIENTFUNDS)
  | None =>
      match errors_As as_posting e with
      | Some _ => (StatusBadRequest, VALIDATION)
      | None =>
          if is_any e not_found_errors then (StatusNotFound, NOTFOUND)
          else if errors_Is e ErrIdempotencyMismatch then (StatusConflict, IDEMPOTENCYMISMATCH)
          else if is_any e conflict_errors then (StatusConflict, CONFLICT)
          else if errors_Is e ErrUnknownAsset then (StatusBadRequest, VALIDATION)
          else if is_any e validation_errors then (StatusBadRequest, VALIDATION)
          else (StatusInternalServerError, INTERNAL)
      end
  end.

(** The numbers of a refusal for lack of funds. *)
Definition detailsFor (e : error) : option (gmap string string) :=
  '(account, asset, available, requested) ← errors_As as_insufficient e;
  Some (list_to_map [("account", account); ("asset", asset);
                     ("available", print_Z available); ("requested", print_Z requested)]).

(** ** Transactions, accounts, logs, moves *)

Record WireTransaction := {
  WId : Z;
  WInsertedAt : Instant;
  WMetadata : option Metadata;
  WPostCommitVolumes : option (gmap string (gmap string Volumes));
  WPostings : list WirePosting;
  WReference : option string;
  WRevertedAt : option Instant;
  WTimestamp : Instant;
}.

Definition toAPIPosting (p : Posting) : WirePosting :=
  {| WSource := Source p; WDestination := Destination p; WAsset := PAsset p; WAmount := Amount p; WUpTo := None |}.

Definition toAPIPostings (p : Postings) : list WirePosting := toAPIPosting <$> p.

Definition fromAPIPosting (p : WirePosting) : Posting :=
  {| Source := WSource p; Destination := WDestination p; PAsset := WAsset p; Amount := WAmount p;
     UpTo := default false (WUpTo p) |}.

Definition fromAPIPostings (p : list WirePosting) : Postings := fromAPIPosting <$> p.

(** Absent when empty. *)
Definition if_any {K} `{Countable K} {V} (m : gmap K V) : option (gmap K V) :=
  if bool_decide (m = ∅) then None else Some m.

Definition if_text (s : string) : option string := if bool_decide (s = EmptyString) then None else Some s.

Definition toAPITransaction (t : Transaction) : WireTransaction :=
  {| WId := TxID t; WInsertedAt := InsertedAt t; WMetadata := if_any (TMetadata t);
     WPostCommitVolumes := if_any (TPostCommitVolumes t); WPostings := toAPIPostings (TPostings t);
     WReference := if_text (Reference t); WRevertedAt := RevertedAt t; WTimestamp := Timestamp t |}.

Record WireAccount := {
  WAddress : string;
  WEffectiveVolumes : option (gmap string Volumes);
  WFirstUsage : Instant;
  WInsertionDate : Instant;
  WAMetadata : option Metadata;
  WUpdatedAt : Instant;
  WVolumes : option (gmap string Volumes);
}.

Definition toAPIAccount (a : Account) : WireAccount :=
  {| WAddress := AAddress a; WEffectiveVolumes := AEffectiveVolumes a; WFirstUsage := FirstUsage a;
     WInsertionDate := InsertionDate a; WAMetadata := if_any (AMetadata a); WUpdatedAt := UpdatedAt a;
     WVolumes := AVolumes a |}.

Record WireLog := {
  WLData : string;
  WLDate : Instant;
  WLHash : string;
  WLId : Z;
  WLIdempotencyKey : option string;
  WLType : LogType;
}.

Definition toAPILog (l : LogEntry) : WireLog :=
  {| WLData := LData l; WLDate := LDate l; WLHash := LHash l; WLId := LID l;
     WLIdempotencyKey := if_text (LIdempotencyKey l); WLType := LType l |}.

(** [LogType.Valid]: the types the contract knows. *)
Definition LogType_Valid (t : LogType) : bool :=
  match t with
  | LogNewTransaction | LogRevertedTransaction | LogSetMetadata | LogDeleteMetadata => true
  | LogRecovery => false
  end.

Record WireMove := {
  WMAmount : Z;
  WMAsset : string;
  WMEffectiveDate : Instant;
  WMEffectiveVolumes : option Volumes;
  WMIncoming : bool;
  WMInsertionDate : Instant;
  WMSeq : Z;
  WMTransactionId : Z;
  WMVolumes : Volumes;
}.

Definition toAPIMove (m : Move) : WireMove :=
  {| WMAmount := MAmount m; WMAsset := MAsset m; WMEffectiveDate := MEffectiveDate m;
     WMEffectiveVolumes := MEffectiveVolumes m; WMIncoming := Incoming m; WMInsertionDate := MInsertionDate m;
     WMSeq := MSeq m; WMTransactionId := MTransactionID m; WMVolumes := MVolumes m |}.

Record WireLedger := { WLName : string; WLAddedAt : Instant }.

Definition toAPILedger (l : LedgerInfo) : WireLedger := {| WLName := LIName l; WLAddedAt := LIAddedAt l |}.

Record WirePage A := { WItems : list A; WNext : option string }.
Arguments WItems {A} w.
Arguments WNext {A} w.

(** ** Responses *)

Inductive body :=
| BError (e : ApiError)
| BLedger (l : WireLedger)
| BTransaction (t : WireTransaction)
| BReversal (original reversal : WireTransaction)
| BBatch (ts : list WireTransaction)
| BTransactionPage (p : WirePage WireTransaction)
| BLogPage (p : WirePage WireLog)
| BMovePage (p : WirePage WireMove)
| BAccount (a : WireAccount)
| BBalances (b : gmap string Z)
| BAssets (l : list Asset)
| BHealth
| BStatic (name : string).

Record Response := { status : Z; payload : body }.

Definition writeJSON (code : Z) (b : body) : Response := {| status := code; payload := b |}.

Definition refusal (code : ErrorCode) (s : string) : Response :=
  writeJSON StatusBadRequest (BError {| Code := code; Details := None; Message := Sentence s |}).

(** The real error of a 500 goes to the log, not to the client. *)
Definition writeError (e : error) : Response :=
  let '(code, c) := classify e in
  writeJSON code (BError {| Code := c; Details := detailsFor e;
    Message := if code =? StatusInternalServerError then Sentence "internal error" else ErrorText e |}).

(** ** Laws *)

(** What a client is shown of a committed posting, it can send again. *)
Lemma posting_roundtrip p : UpTo p = false -> fromAPIPosting (toAPIPosting p) = p.
Proof. destruct p. simpl. by intros ->. Qed.

(** The contract's log types leave out the entry a recovery writes. *)
Example recovery_outside_contract : LogType_Valid LogRecovery = false.
Proof. done. Qed.

(** Refusals the mapping forgets: the caller is told of an internal error. *)
Example credit_error_internal :
  (classify (UnexpectedCreditError "users:alice" "USD/2" 5)).2 = INTERNAL /\
  (classify (AccountClosedError "users:alice")).2 = INTERNAL.
Proof. done. Qed.
