(* ===== verification/Replies.v ===== *)
(** * The bytes of a response

    The struct tags of [internal/api/gen.go] over [Formats], and [writeJSON] of
    [internal/api/errors.go]: what goes over the wire for each response, and
    that a client with the same types reads back exactly what was answered. *)

From S2P Require Import Prelude Identifiers Text Tabulate Posting Volumes Decimal GoTime Json Transaction Codec Encoding Errors Schema Reader Base64 Page Lists Params Body Client Formats Wire.

(** ** The types of gen.go *)

Definition volumes_format : Format Volumes :=
  struct (required "input" 0 big (required "output" 0 big no_more))
    (fun v => (Input v, (Output v, tt))) (fun '(i, (o, _)) => {| Input := i; Output := o |})
    ltac:(by intros []) eq_refl.

Definition posting_format : Format WirePosting :=
  struct (optional "amount" big (required "asset" "" text (required "destination" "" text (required "source" "" text
           (optional "upTo" boolean no_more)))))
    (fun p => (WAmount p, (WAsset p, (WDestination p, (WSource p, (WUpTo p, tt))))))
    (fun '(n, (a, (d, (s, (u, _))))) => {| WSource := s; WDestination := d; WAsset := a; WAmount := n; WUpTo := u |})
    ltac:(by intros []) eq_refl.

Definition metadata_format : Format Metadata := map_of text.

Definition transaction_format : Format WireTransaction :=
  struct (required "id" 0 int64 (required "insertedAt" zero_instant moment (optional "metadata" metadata_format
           (optional "postCommitVolumes" (map_of (map_of volumes_format)) (required "postings" [] (list_of posting_format)
             (optional "reference" text (optional "revertedAt" moment (required "timestamp" zero_instant moment no_more))))))))
    (fun t => (WId t, (WInsertedAt t, (WMetadata t, (WPostCommitVolumes t, (WPostings t, (WReference t,
                (WRevertedAt t, (WTimestamp t, tt)))))))))
    (fun '(id, (ins, (md, (pcv, (ps, (ref, (rev, (ts, _)))))))) =>
       {| WId := id; WInsertedAt := ins; WMetadata := md; WPostCommitVolumes := pcv; WPostings := ps; WReference := ref;
          WRevertedAt := rev; WTimestamp := ts |})
    ltac:(by intros []) eq_refl.

Definition account_format : Format WireAccount :=
  struct (required "address" "" text (optional "effectiveVolumes" (map_of volumes_format)
           (required "firstUsage" zero_instant moment (required "insertionDate" zero_instant moment
             (optional "metadata" metadata_format (required "updatedAt" zero_instant moment
               (optional "volumes" (map_of volumes_format) no_more)))))))
    (fun a => (WAddress a, (WEffectiveVolumes a, (WFirstUsage a, (WInsertionDate a, (WAMetadata a, (WUpdatedAt a,
                (WVolumes a, tt))))))))
    (fun '(a, (ev, (fu, (ins, (md, (up, (v, _))))))) =>
       {| WAddress := a; WEffectiveVolumes := ev; WFirstUsage := fu; WInsertionDate := ins; WAMetadata := md;
          WUpdatedAt := up; WVolumes := v |})
    ltac:(by intros []) eq_refl.

(** The names of [LogType]. *)
Definition log_type_text (t : LogType) : string :=
  match t with
  | LogNewTransaction => "NEW_TRANSACTION"
  | LogRevertedTransaction => "REVERTED_TRANSACTION"
  | LogSetMetadata => "SET_METADATA"
  | LogDeleteMetadata => "DELETE_METADATA"
  | LogRecovery => "RECOVERY"
  end.

Definition log_types : list LogType :=
  [LogNewTransaction; LogRevertedTransaction; LogSetMetadata; LogDeleteMetadata; LogRecovery].

Definition log_type_named (s : string) : option LogType := List.find (fun t => bool_decide (log_type_text t = s)) log_types.

Program Definition log_type_format : Format LogType :=
  {| encode t := Some (JStr (log_type_text t)); decode v := dec_str v ≫= log_type_named; good _ := True |}.
Next Obligation. intros t _. exists (JStr (log_type_text t)). by destruct t. Qed.

Definition log_format : Format WireLog :=
  struct (required "data" "" raw (required "date" zero_instant moment (required "hash" "" bytes (required "id" 0 int64
           (optional "idempotencyKey" text (required "type" LogNewTransaction log_type_format no_more))))))
    (fun l => (WLData l, (WLDate l, (WLHash l, (WLId l, (WLIdempotencyKey l, (WLType l, tt)))))))
    (fun '(d, (at_, (h, (id, (k, (t, _)))))) =>
       {| WLData := d; WLDate := at_; WLHash := h; WLId := id; WLIdempotencyKey := k; WLType := t |})
    ltac:(by intros []) eq_refl.

Definition move_format : Format WireMove :=
  struct (required "amount" 0 big (required "asset" "" text (required "effectiveDate" zero_instant moment
           (optional "effectiveVolumes" volumes_format (required "incoming" false boolean
             (required "insertionDate" zero_instant moment (required "seq" 0 int64 (required "transactionId" 0 int64
               (required "volumes" NewVolumes volumes_format no_more)))))))))
    (fun m => (WMAmount m, (WMAsset m, (WMEffectiveDate m, (WMEffectiveVolumes m, (WMIncoming m, (WMInsertionDate m,
                (WMSeq m, (WMTransactionId m, (WMVolumes m, tt))))))))))
    (fun '(n, (a, (ed, (ev, (inc, (ins, (sq, (tx, (v, _))))))))) =>
       {| WMAmount := n; WMAsset := a; WMEffectiveDate := ed; WMEffectiveVolumes := ev; WMIncoming := inc;
          WMInsertionDate := ins; WMSeq := sq; WMTransactionId := tx; WMVolumes := v |})
    ltac:(by intros []) eq_refl.

Definition ledger_format : Format WireLedger :=
  struct (required "addedAt" zero_instant moment (required "name" "" text no_more))
    (fun l => (WLAddedAt l, (WLName l, tt))) (fun '(at_, (n, _)) => {| WLName := n; WLAddedAt := at_ |})
    ltac:(by intros []) eq_refl.

(** [TransactionPage], [LogPage], [MovePage]; [BatchResponse]; [Reversal] *)
Definition page_format {A} (F : Format A) : Format (WirePage A) :=
  struct (required "items" [] (list_of F) (optional "next" text no_more))
    (fun p => (WItems p, (WNext p, tt))) (fun '(i, (n, _)) => {| WItems := i; WNext := n |})
    ltac:(by intros []) eq_refl.

Definition batch_format : Format (list WireTransaction) :=
  struct (required "transactions" [] (list_of transaction_format) no_more) (fun l => (l, tt)) fst ltac:(done) eq_refl.

Definition blank_transaction : WireTransaction :=
  {| WId := 0; WInsertedAt := zero_instant; WMetadata := None; WPostCommitVolumes := None; WPostings := []; WReference := None;
     WRevertedAt := None; WTimestamp := zero_instant |}.

Definition reversal_format : Format (WireTransaction * WireTransaction) :=
  struct (required "original" blank_transaction transaction_format (required "reversal" blank_transaction transaction_format no_more))
    (fun r => (r.1, (r.2, tt))) (fun '(o, (r, _)) => (o, r)) ltac:(by intros []) eq_refl.

(** [Balances] *)
Definition balances_format : Format (gmap string Z) := map_of big.

(** The values of [ErrorCode]. *)
Definition code_text (c : ErrorCode) : string :=
  match c with
  | CONFLICT => "CONFLICT"
  | IDEMPOTENCYKEYREQUIRED => "IDEMPOTENCY_KEY_REQUIRED"
  | IDEMPOTENCYMISMATCH => "IDEMPOTENCY_MISMATCH"
  | INSUFFICIENTFUNDS => "INSUFFICIENT_FUNDS"
  | INTERNAL => "INTERNAL"
  | NOTFOUND => "NOT_FOUND"
  | VALIDATION => "VALIDATION"
  end.

Definition error_codes : list ErrorCode :=
  [CONFLICT; IDEMPOTENCYKEYREQUIRED; IDEMPOTENCYMISMATCH; INSUFFICIENTFUNDS; INTERNAL; NOTFOUND; VALIDATION].

Definition code_named (s : string) : option ErrorCode := List.find (fun c => bool_decide (code_text c = s)) error_codes.

(** [ErrorCode.Valid] *)
Definition ErrorCode_Valid (s : string) : bool := bool_decide (is_Some (code_named s)).

Program Definition code_format : Format ErrorCode :=
  {| encode c := Some (JStr (code_text c)); decode v := dec_str v ≫= code_named; good _ := True |}.
Next Obligation. intros c _. exists (JStr (code_text c)). by destruct c. Qed.

(** [Error], its message as the words it has. *)
Definition error_format : Format (ErrorCode * (option (gmap string string) * string)) :=
  struct (required "code" INTERNAL code_format (optional "details" (map_of text) (required "message" "" text no_more)))
    (fun e => (e.1, (e.2.1, (e.2.2, tt)))) (fun '(c, (d, (m, _))) => (c, (d, m))) ltac:(by intros [? []]) eq_refl.

(** ** [writeJSON] *)

(** [json.Encoder.Encode]: the value and a line break, or nothing when it cannot
    be marshalled; the status has been sent by then. *)
Definition written {A} (F : Format A) (a : A) : string :=
  match encode F a with Some v => render v +:+ eol | None => EmptyString end.

(** What a client reads into a value of the type. *)
Definition read_as {A} (F : Format A) (s : string) : option A := parse_json s ≫= decode F.

Lemma escape_to_append rs k t : escape_to rs k +:+ t = escape_to rs (k +:+ t).
Proof. induction rs as [|r rs IH]; [done|]. cbn [escape_to]. by rewrite append_assoc, IH. Qed.

Lemma print_string_append s k t : print_string s k +:+ t = print_string s (k +:+ t).
Proof. unfold print_string. cbn [String.append]. by rewrite escape_to_append. Qed.

Lemma print_json_append v k t : print_json v k +:+ t = print_json v (k +:+ t).
Proof.
  revert k. induction v as [| [] |n|s|l IH|fs IH] using json_nested_ind; intros k; try done.
  - apply append_assoc.
  - apply print_string_append.
  - rewrite !print_arr. cbn [String.append]. f_equal. induction IH as [|v l Hv Hl IH]; [done|].
    destruct l as [|w l]; [apply Hv|]. change (print_elems (v :: w :: l) k) with (print_json v (String "," (print_elems (w :: l) k))).
    rewrite Hv. cbn [String.append]. by rewrite IH.
  - rewrite !print_obj. cbn [String.append]. f_equal. induction IH as [|[n v] fs Hv Hl IH]; [done|].
    destruct fs as [|[m w] fs]; [cbn [print_fields]; rewrite print_string_append; cbn [String.append]; by rewrite Hv|].
    change (print_fields ((n, v) :: (m, w) :: fs) k)
      with (print_string n (String ":" (print_json v (String "," (print_fields ((m, w) :: fs) k))))).
    rewrite print_string_append. cbn [String.append]. rewrite Hv. cbn [String.append]. by rewrite IH.
Qed.

Lemma parse_text v : numerals v = true -> parse_json (render v +:+ eol) = Some (as_text v).
Proof.
  intros Hv. unfold parse_json, render. rewrite print_json_append. cbn [String.append].
  rewrite read_print; [done|done|done|]. pose proof (need_length v Hv eol). simpl in *. lia.
Qed.

Lemma parse_written v : json_ok v = true -> parse_json (render v +:+ eol) = Some v.
Proof. intros [Hn Ht]%ok_text. by rewrite parse_text, Ht. Qed.

Lemma read_written {A} (F : Format A) (a : A) : good F a -> read_as F (written F a) = Some a.
Proof.
  intros Ha. destruct (format_law F a Ha) as (v & Hv & _ & Hok & Hd). unfold read_as, written.
  rewrite Hv, parse_written by done. exact Hd.
Qed.

(** An error's words may hold bytes that are no text, for they quote what was
    sent; what is read is text. *)
Definition as_read (e : ErrorCode * (option (gmap string string) * string)) : ErrorCode * (option (gmap string string) * string) :=
  (e.1, ((fun d : gmap string string => coerce_utf8 <$> d) <$> e.2.1, coerce_utf8 e.2.2)).

Definition plain_keys (d : option (gmap string string)) : Prop :=
  map_Forall (fun k _ => utf8_valid k = true) (default ∅ d).

Lemma encode_texts (m : gmap string string) :
  encode (map_of text) m = Some (JObj (prod_map id JStr <$> map_rows String.le m)).
Proof.
  change (encode (map_of text) m) with (JObj <$> encode_entries text (map_rows String.le m)).
  assert (forall l, encode_entries text l = Some (prod_map id JStr <$> l)) as ->; [|done].
  induction l as [|[k x] l IH]; [done|]. unfold encode_entries in *. cbn [mapM]. by rewrite IH.
Qed.

Lemma texts_read (m : gmap string string) :
  map_Forall (fun k _ => utf8_valid k = true) m ->
  as_text (JObj (prod_map id JStr <$> map_rows String.le m)) = JObj (prod_map id JStr <$> map_rows String.le (coerce_utf8 <$> m)).
Proof.
  intros Hm. cbn [as_text]. f_equal. rewrite map_rows_fmap by apply _. rewrite <-!list_fmap_compose. apply list_fmap_ext.
  intros i [k x] Hx%list_elem_of_lookup_2%elem_of_map_rows; [|apply _..].
  unfold compose, prod_map. cbn [fst snd as_text id]. by rewrite coerce_valid by exact (Hm k x Hx).
Qed.

Lemma error_read (e : ErrorCode * (option (gmap string string) * string)) :
  plain_keys e.2.1 -> read_as error_format (written error_format e) = Some (as_read e).
Proof.
  destruct e as [c [d m]]. intros Hd. cbn in Hd.
  assert (good error_format (as_read (c, (d, m)))) as Hg.
  { split; [done|]. split; [|split; [apply coerced_valid|done]]. destruct d as [d|]; [|done].
    intros k x (y & <- & Hy)%lookup_fmap_Some. split; [exact (Hd k y Hy)|apply coerced_valid]. }
  assert (exists v, encode error_format (c, (d, m)) = Some v /\ numerals v = true /\
            encode error_format (as_read (c, (d, m))) = Some (as_text v)) as (v & Hv & Hn & Hr).
  { destruct d as [d|]; [|eexists; split_and!; [done..|by destruct c]].
    assert (forall d m, encode error_format (c, (Some d, m)) =
              Some (JObj [("code", JStr (code_text c)); ("details", JObj (prod_map id JStr <$> map_rows String.le d)); ("message", JStr m)])) as He.
    { intros d0 m0. unfold error_format, struct, optional, encode_present. cbn [encode write required fst snd]. by rewrite encode_texts. }
    exists (JObj [("code", JStr (code_text c)); ("details", JObj (prod_map id JStr <$> map_rows String.le d)); ("message", JStr m)]).
    split_and!; [apply He| |].
    - cbn. by induction (map_rows _ _) as [|[k x] l IH].
    - unfold as_read. cbn [fst snd fmap option_fmap option_map]. rewrite He, <-texts_read by exact Hd. by destruct c. }
  destruct (format_law error_format _ Hg) as (w & Hw & _ & _ & Hdec). rewrite Hr in Hw. injection Hw as <-.
  unfold read_as, written. by rewrite Hv, parse_text.
Qed.

Section replies.
(** The words of a message, and the bytes of an embedded page. *)
Context (words : message -> string) (page : string -> string).

Definition body_text (b : body) : string :=
  match b with
  | BError e => written error_format (Code e, (Details e, words (Message e)))
  | BLedger l => written ledger_format l
  | BTransaction t => written transaction_format t
  | BReversal o r => written reversal_format (o, r)
  | BBatch ts => written batch_format ts
  | BTransactionPage p => written (page_format transaction_format) p
  | BLogPage p => written (page_format log_format) p
  | BMovePage p => written (page_format move_format) p
  | BAccount a => written account_format a
  | BBalances b => written balances_format b
  | BAssets l => written (list_of text) l
  | BHealth => render (JObj [("status", JStr "ok")])
  | BStatic name => page name
  end.

(** Text, times RFC 3339 can write, ids of 64 bits; of an error, only that the
    names of its details are text. *)
Definition body_good (b : body) : Prop :=
  match b with
  | BError e => plain_keys (Details e)
  | BLedger l => good ledger_format l
  | BTransaction t => good transaction_format t
  | BReversal o r => good reversal_format (o, r)
  | BBatch ts => good batch_format ts
  | BTransactionPage p => good (page_format transaction_format) p
  | BLogPage p => good (page_format log_format) p
  | BMovePage p => good (page_format move_format) p
  | BAccount a => good account_format a
  | BBalances b => good balances_format b
  | BAssets l => good (list_of text) l
  | BHealth | BStatic _ => True
  end.

(** The client that expects that kind of response reads it from the bytes. *)
Definition understood (b : body) (s : string) : Prop :=
  match b with
  | BError e => read_as error_format s = Some (as_read (Code e, (Details e, words (Message e))))
  | BLedger l => read_as ledger_format s = Some l
  | BTransaction t => read_as transaction_format s = Some t
  | BReversal o r => read_as reversal_format s = Some (o, r)
  | BBatch ts => read_as batch_format s = Some ts
  | BTransactionPage p => read_as (page_format transaction_format) s = Some p
  | BLogPage p => read_as (page_format log_format) s = Some p
  | BMovePage p => read_as (page_format move_format) s = Some p
  | BAccount a => read_as account_format s = Some a
  | BBalances b => read_as balances_format s = Some b
  | BAssets l => read_as (list_of text) s = Some l
  | BHealth => parse_json s = Some (JObj [("status", JStr "ok")])
  | BStatic name => s = page name
  end.

(** What is answered is what is read: amounts of any size digit for digit, every
    field that is there and none that is not, stored log data byte for byte; of
    an error, its code, and its words as text. *)
Theorem response_roundtrip (b : body) : body_good b -> understood b (body_text b).
Proof.
  destruct b as [e| | | | | | | | | | | |]; cbn [body_good understood body_text]; try apply read_written; [|by vm_compute|done].
  exact (error_read (Code e, (Details e, words (Message e)))).
Qed.

End replies.
