(* ===== verification/Ledger.v ===== *)
(** * A double-entry ledger

    What the engine promises, without tables, locks, retries or histories: two
    counters per account and asset, the transactions by id, the bounds and the
    closed accounts, and the actions that change them. [Refinement] proves that
    every operation of package storage is a sequence of these. *)

From S2P Require Import Prelude Identifiers Posting Volumes GoTime Transaction Errors Schema Txn Locking Guards Moves History Book.

Record Ledger := {
  (** received and spent, by account and asset *)
  counters : key -> Volumes;
  (** the postings of a transaction, and whether it was reversed *)
  entries : Z -> option (Postings * bool);
  shut : Address -> bool;
  (** permitted below zero, permitted above zero *)
  may_owe : key -> bool;
  may_hold : key -> bool;
}.

(** Two ledgers that answer every question alike are the same. *)
#[export] Instance Ledger_equiv : Equiv Ledger := fun L M =>
  (forall k, counters L k = counters M k) /\ (forall id, entries L id = entries M id) /\
  (forall a, shut L a = shut M a) /\
  (forall k, may_owe L k = may_owe M k) /\ (forall k, may_hold L k = may_hold M k).

#[export] Instance Ledger_equivalence : Equivalence (≡@{Ledger}).
Proof.
  split.
  - by intros L.
  - intros L M (?&?&?&?&?). split_and!; congruence.
  - intros L M N (?&?&?&?&?) (?&?&?&?&?). split_and!; congruence.
Qed.

Definition balance (L : Ledger) (k : key) : Z := Balance (counters L k).

(** ** Moving money *)

(** One posting: the source spends, the destination receives. *)
Definition transfer (c : key -> Volumes) (x : Posting) : key -> Volumes := fun k =>
  {| Input := Input (c k) + (if decide (destination_key x = k) then amount_of x else 0);
     Output := Output (c k) + (if decide (source_key x = k) then amount_of x else 0) |}.

Definition carry (ps : Postings) (c : key -> Volumes) : key -> Volumes := foldl transfer c ps.

(** The request in order, each sweep taking what its source has by then, at
    most its ceiling and at least nothing. *)
Fixpoint settle (bal : key -> Z) (req : Postings) : Postings :=
  match req with
  | [] => []
  | x :: req =>
      let y := settled x (bal (source_key x)) in
      y :: settle (fun k => bal k + flow [y] k) req
  end.

Definition keys_of (ps : Postings) : list key := flat_map (fun x => [source_key x; destination_key x]) ps.

(** A pair may be left with these counters. *)
Definition admits (L : Ledger) (c : key -> Volumes) (k : key) : bool :=
  negb (shut L k.1) && (may_owe L k || (0 <=? Balance (c k))) && (may_hold L k || (Balance (c k) <=? 0)).

Definition record_entry (id : Z) (e : Postings * bool) (L : Ledger) : Ledger :=
  {| counters := counters L; entries := fun i => if i =? id then Some e else entries L i;
     shut := shut L; may_owe := may_owe L; may_hold := may_hold L |}.

Definition with_counters (c : key -> Volumes) (L : Ledger) : Ledger :=
  {| counters := c; entries := entries L; shut := shut L; may_owe := may_owe L; may_hold := may_hold L |}.

(** Everything moves under a fresh id, or nothing does. *)
Definition post (id : Z) (ps : Postings) (L : Ledger) : option Ledger :=
  let c := carry ps (counters L) in
  if bool_decide (entries L id = None) && forallb (admits L c) (keys_of ps)
  then Some (record_entry id (ps, false) (with_counters c L)) else None.

(** ** The actions *)

Inductive action :=
| Post (id : Z) (req : Postings)
| Undo (id orig : Z)
| PermitOwing (k : key) (allow : bool)
| PermitHolding (k : key) (allow : bool)
| Shut (a : Address)
| Reopen (a : Address).

Definition update {A B} `{EqDecision A} (f : A -> B) (x : A) (v : B) : A -> B :=
  fun y => if decide (y = x) then v else f y.

Inductive step : action -> Ledger -> Ledger -> Prop :=
| step_post id req L M :
    Validate req = None ->
    (forall x, x ∈ req -> UpTo x = true -> may_owe L (source_key x) = false) ->
    post id (settle (balance L) req) L = Some M -> step (Post id req) L M
| step_undo id orig ps inverse L M :
    entries L orig = Some (ps, false) -> Reverse ps = Ok inverse -> post id inverse L = Some M ->
    step (Undo id orig) L (record_entry orig (ps, true) M)
| step_owe k allow L : (k.1 = WorldAccount -> allow = true) ->
    step (PermitOwing k allow) L
      {| counters := counters L; entries := entries L; shut := shut L;
         may_owe := update (may_owe L) k allow; may_hold := may_hold L |}
| step_hold k allow L : (k.1 = WorldAccount -> allow = true) ->
    step (PermitHolding k allow) L
      {| counters := counters L; entries := entries L; shut := shut L;
         may_owe := may_owe L; may_hold := update (may_hold L) k allow |}
| step_shut a L : a <> WorldAccount -> (forall c, balance L (a, c) = 0) ->
    step (Shut a) L
      {| counters := counters L; entries := entries L; shut := update (shut L) a true;
         may_owe := may_owe L; may_hold := may_hold L |}
| step_reopen a L : shut L a = true ->
    step (Reopen a) L
      {| counters := counters L; entries := entries L; shut := update (shut L) a false;
         may_owe := may_owe L; may_hold := may_hold L |}.

(** A sequence of actions, up to telling ledgers apart. *)
Inductive plays : list action -> Ledger -> Ledger -> Prop :=
| plays_nil L M : L ≡ M -> plays [] L M
| plays_cons a acts L L1 M : step a L L1 -> plays acts L1 M -> plays (a :: acts) L M.

(** ** The ledger's own laws *)

Lemma carry_deltas ps c k :
  carry ps c k = vadd (c k) {| Input := delta_in ps k; Output := delta_out ps k |}.
Proof.
  revert c. induction ps as [|x ps IH]; intros c; [by rewrite vadd_zero_r|].
  change (carry (x :: ps) c k) with (carry ps (transfer c x) k). rewrite IH. unfold transfer, delta_in, delta_out, moved, vadd.
  cbn [Input Output]. rewrite !sumZ_cons. f_equal; lia.
Qed.

Lemma settle_length bal req : length (settle bal req) = length req.
Proof. revert bal. induction req as [|x req IH]; intros bal; [done|]. simpl. by rewrite IH. Qed.

(** Only one list of postings answers to the description of a settled request. *)
Lemma settle_unique bal req q :
  length q = length req ->
  (forall i x, req !! i = Some x -> q !! i = Some (settled x (bal (source_key x) + flow (take i q) (source_key x)))) ->
  q = settle bal req.
Proof.
  revert bal q. induction req as [|x req IH]; intros bal q Hl Hq; [by destruct q|].
  destruct q as [|y q]; [done|]. pose proof (Hq 0%nat x eq_refl) as Hy. simpl in Hy. injection Hy as Hy.
  rewrite flow_nil, Z.add_0_r in Hy. simpl. rewrite <-Hy. f_equal. apply IH; [by injection Hl|].
  intros i z Hz. specialize (Hq (S i) z Hz). simpl in Hq. rewrite Hq. do 2 f_equal.
  rewrite (flow_cons y (take i q)). lia.
Qed.

Lemma settle_plain bal req : HasUpTo req = false -> settle bal req = req.
Proof.
  intros Hup. symmetry. apply settle_unique; [done|]. intros i x Hx. rewrite Hx. f_equal. unfold settled.
  destruct (UpTo x) eqn:Hu; [|done]. assert (HasUpTo req = true); [|congruence].
  apply existsb_exists. exists x. split; [|done]. apply list_elem_of_In. by eapply list_elem_of_lookup_2.
Qed.

Lemma elem_of_keys_of ps k : k ∈ keys_of ps <-> touched ps k.
Proof.
  unfold keys_of, touched. rewrite list_elem_of_In, in_flat_map. setoid_rewrite <-list_elem_of_In. split.
  - intros (x & Hx & Hk). exists x. split; [done|]. set_solver.
  - intros (x & Hx & Hk). exists x. split; [done|]. set_solver.
Qed.

Lemma post_Some id ps L M :
  post id ps L = Some M <->
  entries L id = None /\ (forall k, touched ps k -> admits L (carry ps (counters L)) k = true) /\
  M = record_entry id (ps, false) (with_counters (carry ps (counters L)) L).
Proof.
  unfold post. destruct (bool_decide _ && _) eqn:Hc; split; [..|done|].
  - intros [= <-]. apply andb_true_iff in Hc as [Hn%bool_decide_eq_true Hall]. split_and!; [done| |done].
    intros k Hk%elem_of_keys_of. eapply forallb_forall in Hall; [done|by apply list_elem_of_In].
  - by intros (_ & _ & ->).
  - intros (Hn & Hk & ->). exfalso. apply not_true_iff_false in Hc. apply Hc. rewrite bool_decide_true by done.
    apply forallb_forall. intros k Hin%list_elem_of_In%elem_of_keys_of. by apply Hk.
Qed.

(** Every action respects what cannot be told apart. *)
Lemma admits_proper L M c c' k : L ≡ M -> (forall k, c k = c' k) -> admits L c k = admits M c' k.
Proof. intros (_ & _ & Hs & Ho & Hh) Hc. unfold admits. by rewrite Hs, Ho, Hh, Hc. Qed.

Lemma settle_proper bal bal' req : (forall k, bal k = bal' k) -> settle bal req = settle bal' req.
Proof.
  revert bal bal'. induction req as [|x req IH]; intros bal bal' Hb; [done|]. simpl. rewrite Hb. f_equal.
  apply IH. intros k. by rewrite Hb.
Qed.

Lemma carry_proper ps c c' k : (forall k, c k = c' k) -> carry ps c k = carry ps c' k.
Proof. intros Hc. by rewrite !carry_deltas, Hc. Qed.

Lemma post_proper id ps L M L' :
  L ≡ M -> post id ps L = Some L' -> exists M', post id ps M = Some M' /\ L' ≡ M'.
Proof.
  intros HLM (Hn & Hk & ->)%post_Some. pose proof HLM as (Hc & He & Hs & Ho & Hh).
  eexists. split.
  - apply post_Some. split_and!; [by rewrite <-He| |done]. intros k Ht. rewrite <-(Hk k Ht). symmetry.
    apply admits_proper; [done|]. intros k'. by apply carry_proper.
  - split_and!; cbn; [|intros i; by rewrite He|done..]. intros k. by apply carry_proper.
Qed.

Lemma step_proper a L L' M : L ≡ M -> step a L L' -> exists M', step a M M' /\ L' ≡ M'.
Proof.
  intros HLM Hs. pose proof HLM as (Hc & He & Hsh & Ho & Hh).
  destruct Hs as [id req L L' Hv Hup Hp|id orig ps inverse L L' Horig Hr Hp|k allow L Hw|k allow L Hw|a L Hw Hb|a L Hsh'].
  - destruct (post_proper _ _ _ _ _ HLM Hp) as (M' & HM' & HL). exists M'. split; [|done].
    apply step_post; [done| |].
    + intros x Hx Hu. rewrite <-Ho. by apply Hup.
    + rewrite <-HM'. f_equal. apply settle_proper. intros k. unfold balance. by rewrite Hc.
  - destruct (post_proper _ _ _ _ _ HLM Hp) as (M' & HM' & HL). eexists. split.
    + eapply step_undo; [by rewrite <-He|done|done].
    + destruct HL as (? & HE & ? & ? & ?). split_and!; cbn; [done| |done..]. intros i. by rewrite HE.
  - eexists. split; [by apply step_owe|]. split_and!; cbn; try done. intros k'. unfold update. by rewrite Ho.
  - eexists. split; [by apply step_hold|]. split_and!; cbn; try done. intros k'. unfold update. by rewrite Hh.
  - eexists. split; [apply step_shut; [done|]|].
    + intros c. rewrite <-(Hb c). unfold balance. by rewrite Hc.
    + split_and!; cbn; try done. intros b. unfold update. by rewrite Hsh.
  - eexists. split; [apply step_reopen; by rewrite <-Hsh|].
    split_and!; cbn; try done. intros b. unfold update. by rewrite Hsh.
Qed.

#[export] Instance plays_proper acts : Proper ((≡) ==> (≡) ==> iff) (plays acts).
Proof.
  assert (forall acts L L' M M', L ≡ L' -> M ≡ M' -> plays acts L M -> plays acts L' M') as Himp.
  { clear acts. intros acts L L' M M' HL HM H. revert L' HL. induction H as [L M H|a acts L L1 M Hs _ IH]; intros L' HL.
    - apply plays_nil. by rewrite <-HL, <-HM.
    - destruct (step_proper _ _ _ _ HL Hs) as (L1' & Hs' & H1). eapply plays_cons; [done|]. by apply IH. }
  intros L L' HL M M' HM. split; by apply Himp.
Qed.

Lemma plays_app acts1 acts2 L M N : plays acts1 L M -> plays acts2 M N -> plays (acts1 ++ acts2) L N.
Proof.
  induction 1 as [L M H|a acts L L1 M Hs _ IH]; intros H2; simpl; [by rewrite H|]. eapply plays_cons; eauto.
Qed.

Lemma plays_to acts L M N : plays acts L M -> M ≡ N -> plays acts L N.
Proof. by intros H <-. Qed.

Lemma plays_from acts L M N : L ≡ M -> plays acts M N -> plays acts L N.
Proof. by intros ->. Qed.

Lemma plays_one a L M N : step a L M -> M ≡ N -> plays [a] L N.
Proof. intros Hs HM. eapply plays_cons; [done|]. by apply plays_nil. Qed.
