(* ===== verification/Refinement.v ===== *)
(** * The engine is a double-entry ledger

    [abs] forgets the tables and keeps what they say; every request package
    storage serves, whatever fails and whoever else is writing, then is a
    sequence of [Ledger]'s actions. *)

From S2P Require Import Prelude Identifiers Text Posting Volumes Sha256 GoTime Transaction Codec Encoding Errors Schema Txn Locking Guards Moves History Log Observer Commit Committed Book Chain Sample CommitSpec Replay Effective Read Verify Invariant Revert Bulk MetadataOps Policy Closure Registry Recovery Ledger.

(** What the tables say. *)
Definition abs (d : Database) : Ledger := {|
  counters := volume_at d;
  entries := fun id => (fun r => (postings r, bool_decide (is_Some (reverted_at r)))) <$> transactions d !! id;
  shut := is_closed d;
  may_owe := fun k => allow_negative (row_at d k);
  may_hold := fun k => allow_positive (row_at d k);
|}.

(** ** The requests *)

Inductive Request :=
| DoCommit (p : Postings) (opts : CommitOptions)
| DoRevert (id : Z) (opts : RevertOptions)
| DoBatch (items : list BatchItem) (opts : CommitOptions)
| DoSetTransactionMetadata (id : Z) (m : Metadata)
| DoDeleteTransactionMetadataKey (id : Z) (k : string)
| DoSetAccountMetadata (a : Address) (m : Metadata)
| DoDeleteAccountMetadataKey (a : Address) (k : string)
| DoSetAllowNegative (a : Address) (c : Asset) (allow : bool)
| DoSetAllowPositive (a : Address) (c : Asset) (allow : bool)
| DoCloseAccount (a : Address)
| DoReopenAccount (a : Address)
| DoRegisterAsset (a : Asset)
| DoRecordRecovery (name : string) (w : Tip) (note : string).

Inductive Answer :=
| ATransaction (t : Transaction)
| AReversal (r : Reversal)
| ATransactions (ts : list Transaction)
| AAccount (a : Account)
| ADone.

(** An operation on the database, served by a store. *)
Definition on_db {A} (inj : A -> Answer) (run : Database -> res error A * Database) (s : Store)
    : res error Answer * Store :=
  let '(r, d) := run (db s) in (rmap inj r, with_db d s).

Section codec.
Context {codec : Codec}.

Definition serve (W : Weather) (r : Request) (s : Store) : res error Answer * Store :=
  let E := attempt_env W 0 in
  let done {A} (_ : A) := ADone in
  match r with
  | DoCommit p opts => let '(x, s) := CommitTransaction W p opts s in (rmap ATransaction x, s)
  | DoRevert id opts => let '(x, s) := RevertTransaction W id opts s in (rmap AReversal x, s)
  | DoBatch items opts => let '(x, s) := CommitBatch W items opts s in (rmap ATransactions x, s)
  | DoSetTransactionMetadata id m => on_db ATransaction (SetTransactionMetadata E id m) s
  | DoDeleteTransactionMetadataKey id k => on_db ATransaction (DeleteTransactionMetadataKey E id k) s
  | DoSetAccountMetadata a m => on_db AAccount (SetAccountMetadata E a m) s
  | DoDeleteAccountMetadataKey a k => on_db AAccount (DeleteAccountMetadataKey E a k) s
  | DoSetAllowNegative a c allow => on_db done (SetAllowNegative (fault E) a c allow) s
  | DoSetAllowPositive a c allow => on_db done (SetAllowPositive (fault E) a c allow) s
  | DoCloseAccount a => on_db done (CloseAccount E id a) s
  | DoReopenAccount a => on_db done (ReopenAccount E a) s
  | DoRegisterAsset a => on_db done (RegisterAsset E a) s
  | DoRecordRecovery name w note => on_db done (RecordRecovery E name w note) s
  end.

(** ** Steps of the tables that the ledger does not see *)

Lemma abs_ext d d' :
  volumes d' = volumes d -> transactions d' = transactions d -> accounts d' = accounts d -> abs d ≡ abs d'.
Proof.
  intros Hv Ht Ha. unfold abs, volume_at, row_at, is_closed. split_and!; cbn; intros; by rewrite ?Hv, ?Ht, ?Ha.
Qed.

Lemma entry_abs a pl dt key h d d' : entry_appended a pl dt key h d d' -> abs d ≡ abs d'.
Proof. intros (bytes & _ & _ & _ & ->). by apply abs_ext. Qed.

Lemma materialised_abs ks d d' : materialised ks d d' -> abs d ≡ abs d'.
Proof.
  intros [Hov Hv]. assert (forall k, row_at d' k = row_at d k) as Hrow.
  { intros k. unfold row_at. rewrite Hv. destruct (volumes d !! k); [done|]. by case_decide. }
  split_and!; cbn.
  - intros k. rewrite <-!volume_at_row. by rewrite Hrow.
  - by rewrite Hov.
  - intros a. unfold is_closed. by rewrite Hov.
  - intros k. by rewrite Hrow.
  - intros k. by rewrite Hrow.
Qed.

(** ** Committing is posting *)

Lemma applied_post now db_now p opts us t alloc d d' :
  applied now db_now p opts us t alloc d d' ->
  (forall x, x ∈ p -> UpTo x = true -> may_owe (abs d) (source_key x) = false) /\
  TPostings t = settle (balance (abs d)) p /\
  exists M, post (TxID t) (TPostings t) (abs d) = Some M /\ M ≡ abs d'.
Proof.
  intros Ha. pose proof (applied_updates _ _ _ _ _ _ _ _ _ Ha) as Hus.
  pose proof (applied_rows _ _ _ _ _ _ _ _ _ Ha) as Hrows.
  destruct (applied_transaction _ _ _ _ _ _ _ _ _ Ha) as (Hn & m & _ & Htx).
  split_and!; [apply (applied_sweeps _ _ _ _ _ _ _ _ _ Ha)| |].
  { destruct (HasUpTo p) eqn:Hup.
    - apply settle_unique; [apply (applied_length _ _ _ _ _ _ _ _ _ Ha)|].
      apply (applied_settled _ _ _ _ _ _ _ _ _ Ha Hup).
    - rewrite settle_plain by done. by apply (applied_exact _ _ _ _ _ _ _ _ _ Ha). }
  eexists. split; [apply post_Some; split_and!; [by cbn; rewrite Hn| |reflexivity]|].
  - intros k Hk. apply (updates_touched _ _ Hus) in Hk as Hin. apply list_elem_of_fmap in Hin as (u & -> & Hu).
    pose proof (applied_guarded _ _ _ _ _ _ _ _ _ Ha u Hu) as Hg. apply check_balance_Ok in Hg.
    unfold admits. cbn [shut abs may_owe may_hold counters]. rewrite carry_deltas.
    assert (is_closed d (update_key u).1 = false) as -> by (by apply (applied_open _ _ _ _ _ _ _ _ _ Ha)).
    rewrite (updates_input _ _ Hus u Hu), (updates_output _ _ Hus u Hu) in Hg. simpl in Hg.
    rewrite volume_at_row in Hg. unfold Balance, vadd. cbn [Input Output negb andb].
    destruct Hg as [Hn1 Hp1]. apply andb_true_iff. split; apply orb_true_iff;
      [destruct Hn1; [by left|right; lia]|destruct Hp1; [by left|right; lia]].
  - assert (forall k, row_at d' k = delta_row us k (row_at d k)) as Hrow.
    { intros k. unfold row_at. rewrite Hrows. case_decide as Hin; [done|]. unfold delta_row.
      by rewrite find_update_None. }
    split_and!; cbn.
    + intros k. rewrite carry_deltas. symmetry. apply (applied_volume_at _ _ _ _ _ _ _ _ _ Ha).
    + intros id. rewrite Htx. destruct (Z.eqb_spec id (TxID t)) as [->|Hne].
      * by rewrite lookup_insert_eq.
      * by rewrite lookup_insert_ne.
    + intros a. symmetry. apply (applied_closed _ _ _ _ _ _ _ _ _ Ha).
    + intros k. rewrite Hrow. unfold delta_row. by destruct (find _ us).
    + intros k. rewrite Hrow. unfold delta_row. by destruct (find _ us).
Qed.

Lemma applied_plays now db_now p opts us t alloc d d' :
  applied now db_now p opts us t alloc d d' -> Validate p = None ->
  plays [Post (TxID t) p] (abs d) (abs d').
Proof.
  intros Ha Hv. destruct (applied_post _ _ _ _ _ _ _ _ _ Ha) as (Hup & Hq & M & Hp & HM).
  eapply plays_one; [|exact HM]. apply step_post; [done|done|]. by rewrite <-Hq.
Qed.

Lemma landed_commit_plays E p opts h d0 t d' :
  landed_commit E p opts h d0 t d' -> Validate p = None -> plays [Post (TxID t) p] (abs d0) (abs d').
Proof.
  intros [(us & alloc & d1 & Ha & bytes & _ & _ & _ & ->) _] Hv.
  eapply plays_to; [by eapply applied_plays|by apply abs_ext].
Qed.

Lemma batch_chain_plays E opts h i d items ts d' :
  batch_chain E opts h i d items ts d' -> Forall (fun it => Validate (BPostings it) = None) items ->
  plays (zip_with Post (TxID <$> ts) (BPostings <$> items)) (abs d) (abs d').
Proof.
  induction 1 as [|i d d1 d2 d' it items t ts us alloc Ha He _ IH]; [by intros _; apply plays_nil|].
  intros [Hv Hall]%Forall_cons. csimpl. apply (plays_app [_] _ _ (abs d2)); [|by apply IH].
  eapply plays_to; [by eapply applied_plays|by eapply entry_abs].
Qed.

Lemma landed_revert_plays E id opts d0 rev d' :
  landed_revert E id opts d0 rev d' -> ledger_ok d0 ->
  plays [Undo (TxID (TReversal rev)) id] (abs d0) (abs d').
Proof.
  intros [(row & us & alloc & d1 & d2 & Hrow & Hnr & _ & (inverse & Hi & Ha) & He & ->)] Hok.
  pose proof (lo_stored _ Hok id row Hrow) as Hrec. simpl in Hrec.
  destruct (applied_post _ _ _ _ _ _ _ _ _ Ha) as (_ & Hq & M & Hp & HM).
  rewrite settle_plain in Hq by (eapply recorded_plain, reversed_recorded; done). rewrite Hq in Hp.
  apply (plays_to _ _ (abs (mark_row id (Timestamp (TReversal rev)) d1)));
    [|etrans; [by eapply entry_abs|by apply abs_ext]].
  eapply plays_one; [eapply (step_undo _ _ (postings row)); [|exact Hi|exact Hp]|].
  - cbn. rewrite Hrow. simpl. by rewrite Hnr.
  - destruct HM as (Hc & He' & Hs & Ho & Hh). split_and!; [exact Hc| |exact Hs|exact Ho|exact Hh].
    intros i. cbn. rewrite lookup_alter.
    destruct (applied_transaction _ _ _ _ _ _ _ _ _ Ha) as (Hnew & m & _ & Htx).
    destruct (Z.eqb_spec i id) as [->|Hne].
    + rewrite decide_True by done. rewrite Htx, lookup_insert_ne by congruence. by rewrite Hrow.
    + rewrite decide_False by done. apply He'.
Qed.

(** ** Annotations are invisible *)

Lemma annotate_abs d id r m :
  transactions d !! id = Some r -> abs d ≡ abs (set_transactions (<[id := with_metadata m r]> (transactions d)) d).
Proof.
  intros Hr. split_and!; cbn; try done. intros i. rewrite lookup_insert. case_decide; [|done]. subst. by rewrite Hr.
Qed.

Lemma account_abs d (a : Address) r :
  closed r = is_closed d a -> abs d ≡ abs (set_accounts (<[a := r]> (accounts d)) d).
Proof.
  intros Hr. split_and!; cbn; try done. intros b. unfold is_closed in *. simpl. rewrite lookup_insert.
  case_decide; [|done]. subst. by rewrite Hr.
Qed.

Lemma merge_abs id m f d b d1 : lockAndMerge id m f d = Ok (b, d1) -> abs d ≡ abs d1.
Proof.
  unfold lockAndMerge. intros H. apply bind_Ok in H as (u & d2 & [-> _]%lockTarget_benign & H).
  apply stmt_Ok in H as [_ H]. apply rbind_Ok in H as (raw & _ & H). unfold affected, merge_transaction in H.
  destruct (transactions d !! id) as [r|] eqn:Hr; [case_bool_decide|]; simplify_eq; try reflexivity.
  by apply annotate_abs.
Qed.

Lemma drop_abs found k drop f d b d1 :
  (forall d b d1, drop d = (b, d1) -> abs d ≡ abs d1) -> lockAndDeleteKey found k drop f d = Ok (b, d1) -> abs d ≡ abs d1.
Proof.
  intros Hdrop H. unfold lockAndDeleteKey in H. apply bind_Ok in H as (u & d2 & [-> _]%lockTarget_benign & H).
  apply stmt_Ok in H as [_ H]. apply rbind_Ok in H as (u' & _ & H). unfold affected in H. injection H as H.
  by eapply Hdrop.
Qed.

Lemma drop_transaction_abs id k d b d1 : drop_transaction_key id k d = (b, d1) -> abs d ≡ abs d1.
Proof.
  unfold drop_transaction_key. intros H. destruct (transactions d !! id) as [r|] eqn:Hr; [case_bool_decide|];
    simplify_eq; try reflexivity. by apply annotate_abs.
Qed.

Lemma drop_account_abs a k at_ d b d1 : drop_account_key a k at_ d = (b, d1) -> abs d ≡ abs d1.
Proof.
  unfold drop_account_key. intros H. destruct (accounts d !! a) as [r|] eqn:Hr; [case_bool_decide|];
    simplify_eq; try reflexivity. apply account_abs. unfold is_closed. by rewrite Hr.
Qed.

Lemma upsert_abs (a : Address) (m : Metadata) (at_ : Instant) f d b d1 :
  stmt SMetadata (fun d => let! raw := stored_metadata m in affected (upsert_account_metadata a raw at_) d) f d =
    Ok (b, d1) -> abs d ≡ abs d1.
Proof.
  intros [_ H]%stmt_Ok. apply rbind_Ok in H as (raw & _ & H). unfold affected, upsert_account_metadata in H.
  destruct (accounts d !! a) as [r|] eqn:Hr; [case_bool_decide|]; simplify_eq; try reflexivity;
    apply account_abs; unfold is_closed; by rewrite Hr.
Qed.

(** Nothing happened, besides what others did. *)
Definition unseen (E : Env) (d d' : Database) : Prop := abs d ≡ abs d' \/ abs (landed E d) ≡ abs d'.

Lemma mutate_unseen E apply p d :
  (forall f d0 b d1, apply f d0 = Ok (b, d1) -> abs d0 ≡ abs d1) -> unseen E d (mutateMetadata E apply p d).2.
Proof.
  intros Happ. destruct (mutateMetadata E apply p d) as [r d'] eqn:H. simpl.
  apply mutate_cases in H as [(e & -> & [-> | ->])|(changed & d1 & d2 & -> & Ha & -> & Hc)]; [by left|by right|].
  right. etrans; [by eapply Happ|]. etrans; [|by apply (abs_ext d2)]. destruct changed; [|by subst].
  destruct Hc as (a & d3 & (l & _ & -> & _)%allocate_row_Ok & He). etrans; [|by eapply entry_abs]. by apply abs_ext.
Qed.

Lemma metadata_unseen E id a m k d :
  unseen E d (SetTransactionMetadata E id m d).2 /\ unseen E d (DeleteTransactionMetadataKey E id k d).2 /\
  unseen E d (SetAccountMetadata E a m d).2 /\ unseen E d (DeleteAccountMetadataKey E a k d).2.
Proof.
  split_and!.
  - unfold SetTransactionMetadata. destruct (validateMetadata m); [|by left]. rewrite then_read_db.
    apply mutate_unseen. intros *. apply merge_abs.
  - unfold DeleteTransactionMetadataKey. case_bool_decide; [by left|]. rewrite then_read_db.
    apply mutate_unseen. intros *. apply drop_abs. apply drop_transaction_abs.
  - unfold SetAccountMetadata. destruct (negb _); [by left|]. destruct (validateMetadata m); [|by left].
    rewrite then_read_db. apply mutate_unseen. intros *. apply upsert_abs.
  - unfold DeleteAccountMetadataKey. case_bool_decide; [by left|]. rewrite then_read_db.
    apply mutate_unseen. intros *. apply drop_abs. apply drop_account_abs.
Qed.

(** ** Permissions, closures, recoveries *)

Lemma autocommit_cases {A} f (m : Txn A) d r d' :
  autocommit f m d = (r, d') ->
  (exists e, r = Err e /\ d' = d) \/ exists a d1, r = Ok a /\ m f d = Ok (a, d1) /\ d' = set_pending [] d1.
Proof.
  unfold autocommit, transact. destruct (bind m _ f d) as [[o d2]|e] eqn:H; [|intros [= <- <-]; left; eauto].
  apply bind_Ok in H as (a & d1 & Hm & Hc). apply commit_Ok in Hc as (_ & _ & -> & ->).
  intros [= <- <-]. right. eauto.
Qed.

Lemma upsert_permission_rows flip k d d' :
  (forall r, volumes_of (flip r) = volumes_of r) -> upsert_permission flip k d = Ok d' ->
  (forall k', row_at d' k' = if decide (k' = k) then flip (default default_row (volumes d !! k)) else row_at d k') /\
  transactions d' = transactions d /\ accounts d' = accounts d.
Proof.
  intros Hf [_ ->]%upsert_permission_Ok; [|done]. split; [|done]. intros k'. unfold row_at. simpl.
  destruct (decide (k' = k)) as [->|Hne]; [by rewrite lookup_insert_eq|by rewrite lookup_insert_ne].
Qed.

Lemma set_allow_plays f a c allow d r d' :
  (SetAllowNegative f a c allow d = (r, d') -> r = Ok tt -> plays [PermitOwing (a, c) allow] (abs d) (abs d')) /\
  (SetAllowPositive f a c allow d = (r, d') -> r = Ok tt -> (a = WorldAccount -> allow = false) ->
   plays [PermitHolding (a, c) allow] (abs d) (abs d')).
Proof.
  assert (forall u, policy_target a c allow = Ok u -> a = WorldAccount -> allow = true) as Hw.
  { intros u Hu ->. unfold policy_target in Hu. inv_ok. by destruct allow. }
  assert (forall flip d1, (forall r, volumes_of (flip r) = volumes_of r) ->
            upsert_permission flip (a, c) d = Ok d1 -> forall k, volume_at d1 k = volume_at d k) as Hvol.
  { intros flip d1 Hf H. apply (upsert_permission_same_money flip (a, c) d d1 Hf H). }
  split.
  - unfold SetAllowNegative. intros H ->. destruct (policy_target a c allow) as [u|] eqn:Hu; [|done].
    apply autocommit_cases in H as [(e & ? & _)|(u' & d1 & _ & He & ->)]; [done|]. apply exec_Ok in He as [_ He].
    destruct (upsert_permission_rows (permit_negative allow) _ _ _ (fun _ => eq_refl) He) as (Hrow & Ht & Hacc).
    eapply plays_one; [apply step_owe; exact (Hw u eq_refl)|]. split_and!; cbn.
    + intros k. symmetry. exact (Hvol (permit_negative allow) d1 (fun _ => eq_refl) He k).
    + intros id. by rewrite Ht.
    + intros b. unfold is_closed. cbn. by rewrite Hacc.
    + intros k. unfold update. change (row_at (set_pending [] d1) k) with (row_at d1 k). rewrite Hrow. by case_decide.
    + intros k. change (row_at (set_pending [] d1) k) with (row_at d1 k). rewrite Hrow.
      case_decide as Hk; [subst k|done]. unfold row_at. by destruct (volumes d !! (a, c)).
  - unfold SetAllowPositive. intros H -> Hworld. destruct (policy_target a c allow) as [u|] eqn:Hu; [|done].
    apply autocommit_cases in H as [(e & ? & _)|(u' & d1 & _ & He & ->)]; [done|]. apply exec_Ok in He as [_ He].
    destruct (upsert_permission_rows (permit_positive allow) _ _ _ (fun _ => eq_refl) He) as (Hrow & Ht & Hacc).
    eapply plays_one; [apply step_hold; exact (Hw u eq_refl)|]. split_and!; cbn.
    + intros k. symmetry. exact (Hvol (permit_positive allow) d1 (fun _ => eq_refl) He k).
    + intros id. by rewrite Ht.
    + intros b. unfold is_closed. cbn. by rewrite Hacc.
    + intros k. change (row_at (set_pending [] d1) k) with (row_at d1 k). rewrite Hrow.
      case_decide as Hk; [subst k|done]. unfold row_at. destruct (volumes d !! (a, c)); [done|].
      cbn. unfold is_world. apply bool_decide_eq_false. intros Ha. specialize (Hworld Ha). specialize (Hw u eq_refl Ha).
      congruence.
    + intros k. unfold update. change (row_at (set_pending [] d1) k) with (row_at d1 k). rewrite Hrow. by case_decide.
Qed.

(** A refusal leaves the permissions as they were. *)
Lemma set_allow_refused f a c allow d e d' :
  (SetAllowNegative f a c allow d = (Err e, d') -> d' = d) /\ (SetAllowPositive f a c allow d = (Err e, d') -> d' = d).
Proof.
  unfold SetAllowNegative, SetAllowPositive. destruct (policy_target a c allow); [|split; congruence].
  split; intros [(e' & _ & ->)|(u' & d1 & ? & _)]%autocommit_cases; done.
Qed.

Lemma close_plays E a d r d' :
  CloseAccount E id a d = (r, d') ->
  (r = Ok tt /\ plays [Shut a] (abs (landed E d)) (abs d')) \/ (is_ok r = false /\ unseen E d d').
Proof.
  unfold CloseAccount. destruct (negb (Address_Valid a)); [intros [= <- <-]; right; split; [done|by left]|].
  destruct (is_world a) eqn:Hw; [intros [= <- <-]; right; split; [done|by left]|].
  destruct (fault E SBegin); [intros [= <- <-]; right; split; [done|by left]|].
  unfold query, stmt. destruct (fault E SLockRows); [intros [= <- <-]; right; split; [done|by right]|].
  destruct (held (landed E d) a) eqn:Hh; [|intros [= <- <-]; right; split; [done|by right]].
  pose proof (proj1 (held_nil _ _) Hh) as Hz. unfold transact, id.
  destruct (close_body (db_now E) a (fault E) (landed E d)) as [[o d2]|e] eqn:Hb;
    [|intros [= <- <-]; right; split; [done|by right]].
  unfold close_body in Hb. apply bind_Ok in Hb as (u & d1 & He & Hb).
  apply exec_Ok in He as [_ [= <-]]. apply commit_Ok in Hb as (_ & _ & -> & ->). intros [= <- <-]. left. split; [done|].
  eapply plays_one; [apply step_shut; [exact (proj1 (bool_decide_eq_false _) Hw)|exact Hz]|].
  split_and!; cbn; try done. intros b. unfold update, is_closed. cbn. rewrite lookup_insert.
  repeat case_decide; try congruence. by destruct (accounts (landed E d) !! a).
Qed.

Lemma reopen_plays E a d r d' :
  ReopenAccount E a d = (r, d') ->
  (r = Ok tt /\ plays [Reopen a] (abs d) (abs d')) \/ (is_ok r = false /\ abs d ≡ abs d').
Proof.
  unfold ReopenAccount. destruct (negb (Address_Valid a)); [intros [= <- <-]; by right|].
  destruct (autocommit (fault E) _ d) as [x d1] eqn:Hac.
  apply autocommit_cases in Hac as [(e & -> & ->)|(n & d2 & -> & Hs & ->)]; [intros [= <- <-]; by right|].
  apply stmt_Ok in Hs as [_ [= Hs]]. unfold reopen_row in Hs.
  destruct (accounts d !! a) as [row|] eqn:Hrow; [destruct (closed row) eqn:Hc|]; injection Hs as <- <-;
    intros [= <- <-]; [left|right; split; [done|by apply abs_ext]..].
  split; [done|]. eapply plays_one; [apply step_reopen; cbn; unfold is_closed; by rewrite Hrow|].
  split_and!; cbn; try done. intros b. unfold update, is_closed. cbn. rewrite lookup_insert.
  repeat case_decide; try congruence; reflexivity.
Qed.

Lemma register_abs E a d : abs d ≡ abs (RegisterAsset E a d).2.
Proof.
  unfold RegisterAsset. destruct (negb (Asset_Valid a)); [done|].
  destruct (autocommit (fault E) _ d) as [x d1] eqn:Hac.
  apply autocommit_cases in Hac as [(e & -> & ->)|(n & d2 & -> & Hs & ->)].
  - repeat case_match; simplify_eq; done.
  - apply exec_Ok in Hs as [_ [[_ ->]|(_ & _ & ->)]%insert_asset_Ok]; by apply abs_ext.
Qed.

Lemma recovery_unseen E name w note d : unseen E d (RecordRecovery E name w note d).2.
Proof.
  destruct (RecordRecovery E name w note d) as [r d'] eqn:H. simpl.
  apply RecordRecovery_cases in H as [[-> | ->]|[_ [(l & bytes & id & _ & _ & _ & _ & _ & _ & ->)]]];
    [by left|by right|right]. by apply abs_ext.
Qed.

(** ** The environment *)

(** What the other sessions commit are actions too. *)
Definition fellow_users (W : Weather) : Prop :=
  forall n d, settled_ok d -> settled_ok (landed (attempt_env W n) d) /\
    exists acts, plays acts (abs d) (abs (landed (attempt_env W n) d)).

Lemma foreign_plays W d d' :
  fellow_users W -> foreign W d d' -> settled_ok d -> settled_ok d' /\ exists acts, plays acts (abs d) (abs d').
Proof.
  intros HW Hf. induction Hf as [d|d d1 d' (n & ->) _ IH]; intros Hok.
  - split; [done|]. exists []. by apply plays_nil.
  - destruct (HW n d Hok) as [Hok1 [acts1 H1]]. destruct (IH Hok1) as [Hok' [acts2 H2]]. split; [done|].
    exists (acts1 ++ acts2). by eapply plays_app.
Qed.

(** ** What each answer promises *)

(** The answer is the transaction recorded under the request's key, for this
    very request. *)
Definition remembered (p : Postings) (opts : CommitOptions) (t : Transaction) (d' : Database) : Prop :=
  OIdempotencyKey opts <> EmptyString /\
  exists h, idempotencyHash p opts = Ok h /\ check_replay d' (OIdempotencyKey opts) h = Ok (Some t).

(** The answer is the transactions this very batch was tagged with. *)
Definition recalled (W : Weather) (items : list BatchItem) (opts : CommitOptions) (ts : list Transaction) (d : Database) : Prop :=
  OIdempotencyKey opts <> EmptyString /\
  exists h d0, batchIdempotencyHash items opts = Ok h /\ foreign W d d0 /\ ts = tagged d0 h.

(** The actions an answer stands for, between the tables the request found and
    the ones it left. *)
Definition promised (W : Weather) (r : Request) (d : Database) (o : res error Answer) (d' : Database)
    (acts : list action) : Prop :=
  match r, o with
  | DoCommit p opts, Ok (ATransaction t) =>
      (acts = [Post (TxID t) p] /\ ODryRun opts = false) \/
      (acts = [] /\ (ODryRun opts = true \/ remembered p opts t d'))
  | DoRevert id _, Ok (AReversal rev) => acts = [Undo (TxID (TReversal rev)) id]
  | DoBatch items opts, Ok (ATransactions ts) =>
      (acts = zip_with Post (TxID <$> ts) (BPostings <$> items) /\ ODryRun opts = false) \/
      (acts = [] /\ (ODryRun opts = true \/ recalled W items opts ts d))
  | DoSetAllowNegative a c allow, Ok _ => acts = [PermitOwing (a, c) allow]
  | DoSetAllowPositive a c allow, Ok _ => acts = [PermitHolding (a, c) allow]
  | DoCloseAccount a, Ok _ => acts = [Shut a]
  | DoReopenAccount a, Ok _ => acts = [Reopen a]
  | _, _ => acts = []
  end.

(** [DoSetAllowPositive] on world is excluded: see [world_loses_its_permission]. *)
Definition request_ok (r : Request) : Prop :=
  match r with
  | DoCommit _ opts => text_map_ok (default ∅ (OMetadata opts))
  | DoBatch items opts => Forall (fun it => text_map_ok (default ∅ (BMetadata it))) items
  | DoRevert id _ => int64_ok id
  | DoSetAllowPositive a _ allow => a = WorldAccount -> allow = false
  | DoRecordRecovery _ w note => int64_ok (TLogID w) /\ utf8_valid note = true
  | _ => True
  end.

(** From [d] to [d'] by what the weather's sessions committed, and nothing else
    of anybody's, and then by [acts]. The state between is one the weather leads
    to, so where nobody else writes, [acts] alone make the difference. *)
Definition adds (W : Weather) (d : Database) (acts : list action) (d' : Database) : Prop :=
  exists d0 others, foreign W d d0 /\ plays others (abs d) (abs d0) /\ plays acts (abs d0) (abs d').

Definition refines (W : Weather) (r : Request) (s : Store) (o : res error Answer) (s' : Store) : Prop :=
  exists acts, adds W (db s) acts (db s') /\ promised W r (db s) o (db s') acts.

Lemma adds_nothing W d d' : abs d ≡ abs d' -> adds W d [] d'.
Proof. intros H. exists d, []. split_and!; [apply rtc_refl|by apply plays_nil|by apply plays_nil]. Qed.

Lemma adds_plays W d acts d' : adds W d acts d' -> exists others, plays (others ++ acts) (abs d) (abs d').
Proof. intros (d0 & others & _ & H1 & H2). exists others. by eapply plays_app. Qed.

Lemma foreign_alone W d d' : (forall n d, landed (attempt_env W n) d = d) -> foreign W d d' -> d' = d.
Proof. intros HW Hf. induction Hf as [|d d1 d' (n & ->) _ IH]; [done|]. by rewrite HW in IH. Qed.

Lemma adds_alone W d acts d' :
  (forall n d, landed (attempt_env W n) d = d) -> adds W d acts d' -> plays acts (abs d) (abs d').
Proof. intros HW (d0 & others & Hf & _ & H). by apply (foreign_alone W) in Hf as ->. Qed.

(** ** Every request *)

Lemma commit_outcome W p opts s r s' :
  CommitTransaction W p opts s = (r, s') ->
  (foreign W (db s) (db s') /\ forall t, r = Ok t -> ODryRun opts = true \/ remembered p opts t (db s')) \/
  exists t n h d0, r = Ok t /\ Validate p = None /\ foreign W (db s) d0 /\
    landed_commit (attempt_env W n) p opts h d0 t (db s').
Proof.
  intros [(e & -> & ->)|(h & Hh & Hv & Ho)]%commit_ends; [left; split; [apply rtc_refl|done]|].
  destruct r as [t|e]; simpl in Ho; [|by left].
  destruct Ho as [(? & ? & ?)|[(? & ? & _)|(n & d0 & Hf & Hc)]].
  - left. split; [done|]. intros t' [= <-]. right. split; [done|]. by exists h.
  - left. split; [done|]. intros t' _. by left.
  - right. exists t, n, h, d0. done.
Qed.

Lemma batch_outcome_valid W items opts s r s' :
  CommitBatch W items opts s = (r, s') ->
  (foreign W (db s) (db s') /\ forall ts, r = Ok ts -> ODryRun opts = true \/ recalled W items opts ts (db s)) \/
  exists ts n h d0, r = Ok ts /\ Forall (fun it => Validate (BPostings it) = None) items /\
    foreign W (db s) d0 /\ landed_batch (attempt_env W n) items opts h d0 ts (db s').
Proof.
  intros [(e & -> & Hf)|(h & Hh & Hval & [[Hf Hr]|(ts & n & d0 & -> & Hf & Hl)])]%batch_ends.
  - left. by split.
  - left. split; [done|]. intros ts Hts. destruct (Hr ts Hts) as [[? _]|[? (d0 & ? & ?)]]; [by left|right].
    split; [done|]. by exists h, d0.
  - right. by exists ts, n, h, d0.
Qed.

(** Others first, then the request's own actions. *)
Lemma refines_after W r s o s' d0 acts :
  fellow_users W -> foreign W (db s) d0 -> settled_ok (db s) ->
  plays acts (abs d0) (abs (db s')) -> promised W r (db s) o (db s') acts -> refines W r s o s'.
Proof.
  intros HW Hf Hok Hp Hpr. destruct (foreign_plays W _ _ HW Hf Hok) as [_ [others Ho]].
  exists acts. split; [|done]. by exists d0, others.
Qed.

Lemma refines_unseen W r s o s' :
  fellow_users W -> settled_ok (db s) -> unseen (attempt_env W 0) (db s) (db s') ->
  promised W r (db s) o (db s') [] -> refines W r s o s'.
Proof.
  intros HW Hok Hu Hpr. destruct Hu as [Hu|Hu].
  - eapply refines_after; [done|apply rtc_refl|done|by apply plays_nil|done].
  - eapply refines_after; [done|apply foreign_landed|done|by apply plays_nil|done].
Qed.

Lemma on_db_eq {A} inj (run : Database -> res error A * Database) s o s' :
  on_db inj run s = (o, s') -> exists r, run (db s) = (r, db s') /\ o = rmap inj r.
Proof. unfold on_db. destruct (run (db s)) as [r d]. intros [= <- <-]. by exists r. Qed.

Lemma commit_refines W p opts s r s' :
  fellow_users W -> settled_ok (db s) -> CommitTransaction W p opts s = (r, s') ->
  refines W (DoCommit p opts) s (rmap ATransaction r) s'.
Proof.
  intros HW Hok H. apply commit_outcome in H as [[Hf Hr]|(t & n & h & d0 & -> & Hv & Hf & Hl)];
    (eapply refines_after; [done|exact Hf|done|..]).
  - by apply plays_nil.
  - destruct r as [t|e]; simpl; [right; split; [done|by apply Hr]|done].
  - by eapply landed_commit_plays.
  - left. split; [done|apply Hl].
Qed.

Lemma batch_refines W items opts s r s' :
  fellow_users W -> settled_ok (db s) -> CommitBatch W items opts s = (r, s') ->
  refines W (DoBatch items opts) s (rmap ATransactions r) s'.
Proof.
  intros HW Hok H.
  apply batch_outcome_valid in H as [[Hf Hr]|(ts & n & h & d0 & -> & Hv & Hf & [(d1 & d2 & [_ [ks Hm]] & Hc & Hd') Hreal])];
    (eapply refines_after; [done|exact Hf|done|..]).
  - by apply plays_nil.
  - destruct r as [ts|]; simpl; [right; split; [done|by apply Hr]|done].
  - eapply plays_from; [by eapply materialised_abs|]. eapply plays_to; [by eapply batch_chain_plays|].
    rewrite Hd'. by apply abs_ext.
  - by left.
Qed.

Lemma revert_refines W id opts s r s' :
  fellow_users W -> settled_ok (db s) -> RevertTransaction W id opts s = (r, s') ->
  refines W (DoRevert id opts) s (rmap AReversal r) s'.
Proof.
  intros HW Hok H. unfold RevertTransaction in H. apply revert_attempts_cases in H as [He Hr]. destruct r as [rev|e].
  - destruct (Hr rev eq_refl) as (n & d0 & Hf & Hl). destruct (foreign_plays W _ _ HW Hf Hok) as [[Hok0 _] _].
    eapply refines_after; [done|exact Hf|done|by eapply landed_revert_plays|done].
  - eapply refines_after; [done|by eapply He|done|by apply plays_nil|done].
Qed.

Lemma serve_refines W r s :
  request_ok r -> fellow_users W -> settled_ok (db s) ->
  let '(o, s') := serve W r s in refines W r s o s'.
Proof.
  intros Hr HW Hok. destruct (serve W r s) as [o s'] eqn:H. unfold serve in H.
  pose proof (foreign_landed W 0 (db s)) as Hfl.
  destruct r as [p opts|id opts|items opts|id m|id k|a m|a k|a c allow|a c allow|a|a|a|name w note].
  - destruct (CommitTransaction W p opts s) as [x s1] eqn:Hc. injection H as <- <-. by apply commit_refines.
  - destruct (RevertTransaction W id opts s) as [x s1] eqn:Hc. injection H as <- <-. by apply revert_refines.
  - destruct (CommitBatch W items opts s) as [x s1] eqn:Hc. injection H as <- <-. by apply batch_refines.
  - apply on_db_eq in H as (x & Hx & ->). apply refines_unseen; [done|done| |done].
    pose proof (proj1 (metadata_unseen (attempt_env W 0) id "" m "" (db s))) as Hu. by rewrite Hx in Hu.
  - apply on_db_eq in H as (x & Hx & ->). apply refines_unseen; [done|done| |done].
    pose proof (proj1 (proj2 (metadata_unseen (attempt_env W 0) id "" ∅ k (db s)))) as Hu. by rewrite Hx in Hu.
  - apply on_db_eq in H as (x & Hx & ->). apply refines_unseen; [done|done| |done].
    pose proof (proj1 (proj2 (proj2 (metadata_unseen (attempt_env W 0) 0 a m "" (db s))))) as Hu. by rewrite Hx in Hu.
  - apply on_db_eq in H as (x & Hx & ->). apply refines_unseen; [done|done| |done].
    pose proof (proj2 (proj2 (proj2 (metadata_unseen (attempt_env W 0) 0 a ∅ k (db s))))) as Hu. by rewrite Hx in Hu.
  - apply on_db_eq in H as ([u|e] & Hx & ->); simpl.
    + eapply refines_after; [done|apply rtc_refl|done|by eapply (proj1 (set_allow_plays _ _ _ _ _ _ _)); destruct u|done].
    + apply (proj1 (set_allow_refused _ _ _ _ _ _ _)) in Hx. apply refines_unseen; [done|done|left; by rewrite Hx|done].
  - apply on_db_eq in H as ([u|e] & Hx & ->); simpl.
    + eapply refines_after; [done|apply rtc_refl|done|by eapply (proj2 (set_allow_plays _ _ _ _ _ _ _)); destruct u|done].
    + apply (proj2 (set_allow_refused _ _ _ _ _ _ _)) in Hx. apply refines_unseen; [done|done|left; by rewrite Hx|done].
  - apply on_db_eq in H as (x & Hx & ->). apply close_plays in Hx as [[-> Hp]|[Hf Hu]].
    + by eapply refines_after.
    + apply refines_unseen; [done..|]. by destruct x.
  - apply on_db_eq in H as (x & Hx & ->). apply reopen_plays in Hx as [[-> Hp]|[Hf Hu]].
    + by eapply refines_after; [|apply rtc_refl|..].
    + apply refines_unseen; [done|done|by left|]. by destruct x.
  - apply on_db_eq in H as (x & Hx & ->). apply refines_unseen; [done|done| |done].
    left. pose proof (register_abs (attempt_env W 0) a (db s)) as Hu. by rewrite Hx in Hu.
  - apply on_db_eq in H as (x & Hx & ->). apply refines_unseen; [done|done| |done].
    pose proof (recovery_unseen (attempt_env W 0) name w note (db s)) as Hu. by rewrite Hx in Hu.
Qed.


End codec.
