(* ===== verification/VerifyRuns.v ===== *)
(** * Running the checks, and recording that they ran

    [storage/verify_runs.go]: the run over every check, its results, the record
    a run leaves and when each check last ran. The text of a finding is
    [describe]'s ([Words.describe]): here [Detail] depends on its length, and a
    row on its being text. *)

From S2P Require Import Prelude Identifiers Text Posting Volumes Sha256 GoTime Transaction Codec Encoding Errors Schema Txn Locking Guards Moves History Log Observer Commit Committed Book Chain Sample CommitSpec Replay Effective Read Verify Invariant Revert Bulk MetadataOps Policy Closure.

Record CheckResult := {
  CName : string;
  CChecked : Z;
  COK : bool;
  Detail : string;
  Took : Z;
}.

Definition maxDetail : nat := 4000.

(** Why a check did not come back clean. *)
Inductive finding :=
| Drifted (l : list (Asset * Z))
| LogBroken (e : error)
| ProjectionBroken (e : projection_failure)
| EffectiveWrong (e : EffectiveVolumesMismatch)
| OutOfBounds (l : list UnpermittedNegative)
| ClosedHolding (l : list ClosedAccountHoldsBalance)
| CouldNotRun (e : error)
| ExtraFinding (text : string).

(** A check's two results: rows examined, and the error if there is one. *)
Definition check_outcome : Type := Z * option finding.

Definition joined {A} (wrap : list A -> finding) (l : list A) : option finding :=
  match l with [] => None | _ => Some (wrap l) end.

Definition err_of {E A} (wrap : E -> finding) (r : res E A) : option finding :=
  match r with Ok _ => None | Err e => Some (wrap e) end.

Definition newline : string := String (ascii_of_nat 10) EmptyString.

Definition truncateDetail (s : string) : string :=
  if (String.length s <=? maxDetail)%nat then s
  else String.append (String.substring 0 maxDetail s) (String.append newline "... truncated").

Record VerifyOptions := {
  StalePrefix : string;
  StaleAfter : Z;
  VRecord : bool;
  (** each [NamedCheck] with what its [Run] returns *)
  Extra : list (string * check_outcome);
}.

(** A row of verification_runs. *)
Record VerificationRun := {
  check_name : string;
  ran_at : Instant;
  checked : Z;
  run_ok : bool;
  detail : option string;
  took_ms : Z;
}.

(** The clocks of a run and the service's failures: of the queries of a check,
    and of the insert that records it. *)
Record RunEnv := {
  run_now : Instant;
  took : nat -> Z;
  read_fault : nat -> option string;
  insert_fault : nat -> option string;
  insert_now : nat -> Instant;
}.

Section codec.
Context {codec : Codec}.
Context (describe : finding -> string) (describe_stale : StaleBalance -> string).

Definition result (name : string) (checked : Z) (err : option finding) (took : Z) : CheckResult :=
  {| CName := name; CChecked := checked; COK := bool_decide (err = None);
     Detail := match err with Some e => truncateDetail (describe e) | None => EmptyString end;
     Took := took |}.

(** The engine's own checks, in their fixed order. *)
Definition checks (d : Database) : list (string * check_outcome) :=
  let n (x : nat) : Z := Z.of_nat x in
  [ ("conservation", (n (VerifyConservation d).1, joined Drifted (VerifyConservation d).2));
    ("log", (n (VerifyLog d).1, err_of LogBroken (VerifyLog d).2));
    ("projection", (n (VerifyProjection d).1, err_of ProjectionBroken (VerifyProjection d).2));
    ("effective_volumes", (n (VerifyEffectiveVolumes d).1, err_of EffectiveWrong (VerifyEffectiveVolumes d).2));
    ("balance_permissions", (n (VerifyBalancePermissions d).1, joined OutOfBounds (VerifyBalancePermissions d).2));
    ("closed_accounts", (n (VerifyClosedAccounts d).1, joined ClosedHolding (VerifyClosedAccounts d).2)) ].

(** A check whose first query fails has examined nothing. *)
Definition run_check (R : RunEnv) (i : nat) (c : string * check_outcome) : CheckResult :=
  let '(checked, err) := match read_fault R i with
                         | Some code => (0, Some (CouldNotRun (PgError code)))
                         | None => c.2
                         end in
  result c.1 checked err (took R i).

Definition stale_details (l : list StaleBalance) : string :=
  foldl (fun acc b => truncateDetail (String.append (String.append acc (describe_stale b)) newline)) EmptyString l.

Definition stale_check (R : RunEnv) (i : nat) (opts : VerifyOptions) (d : Database) : CheckResult :=
  let r := match read_fault R i with
           | Some code => Err (PgError code)
           | None => StaleBalances (run_now R) d (StalePrefix opts) (StaleAfter opts)
           end in
  match r with
  | Err e => {| CName := "stale_balances"; CChecked := 0; COK := false; Detail := describe (CouldNotRun e); Took := took R i |}
  | Ok [] => {| CName := "stale_balances"; CChecked := 0; COK := true; Detail := EmptyString; Took := took R i |}
  | Ok l => {| CName := "stale_balances"; CChecked := Z.of_nat (length l); COK := false;
               Detail := stale_details l; Took := took R i |}
  end.

Definition verify_results (R : RunEnv) (opts : VerifyOptions) (d : Database) : list CheckResult :=
  let all := checks d ++ Extra opts in
  imap (run_check R) all
  ++ (if 0 <? StaleAfter opts then [stale_check R (length all) opts d] else []).

(** ** Recording *)

Definition run_row (at_ : Instant) (r : CheckResult) : VerificationRun :=
  {| check_name := CName r; ran_at := Truncate at_ microsecond; checked := CChecked r; run_ok := COK r;
     detail := if bool_decide (Detail r = EmptyString) then None else Some (Detail r);
     took_ms := Z.quot (Took r) millisecond |}.

(** One insert each; the primary key is (ledger, check_name, ran_at). *)
Fixpoint recordVerification (R : RunEnv) (i : nat) (results : list CheckResult) (runs : list VerificationRun)
    : res error unit * list VerificationRun :=
  match results with
  | [] => (Ok tt, runs)
  | r :: results =>
      let row := run_row (insert_now R i) r in
      match insert_fault R i with
      | Some code => (Err (PgError code), runs)
      | None =>
          if negb (pg_text (CName r) && pg_text (Detail r)) then (Err (PgError invalidText), runs)
          else if existsb (fun x => bool_decide (check_name x = check_name row) && (ran_at x =? ran_at row)) runs
          then (Err (PgError uniqueViolation), runs)
          else recordVerification R (S i) results (runs ++ [row])
      end
  end.

Definition Verify (R : RunEnv) (opts : VerifyOptions) (d : Database) (runs : list VerificationRun)
    : list CheckResult * res error unit * list VerificationRun :=
  let results := verify_results R opts d in
  if VRecord opts then
    let '(r, runs) := recordVerification R 0 results runs in (results, r, runs)
  else (results, Ok tt, runs).

End codec.

(** [distinct on (check_name) ... order by ran_at desc] *)
Definition LastVerified (runs : list VerificationRun) : gmap string Instant :=
  foldr (fun r m => <[check_name r := from_option (Z.max (ran_at r)) (ran_at r) (m !! check_name r)]> m) ∅ runs.

(** [select name from ledgers order by name], over every ledger. *)
Definition Ledgers (all : gmap string LedgerRow) : list string := (map_rows String.le all).*1.

(** ** What a run says *)

Lemma truncateDetail_length s : (String.length (truncateDetail s) <= maxDetail + 14)%nat.
Proof.
  assert (forall n t, (String.length (String.substring 0 n t) <= n)%nat) as Hsub.
  { induction n as [|n IH]; intros [|c t]; simpl; try lia. specialize (IH t). lia. }
  assert (forall a b, String.length (String.append a b) = (String.length a + String.length b)%nat) as Happ.
  { induction a as [|c a IH]; intros b; [done|]. simpl. by rewrite IH. }
  unfold truncateDetail. destruct (Nat.leb_spec (String.length s) maxDetail); [lia|].
  rewrite Happ. pose proof (Hsub maxDetail s). change (String.length (String.append newline "... truncated")) with 14%nat. lia.
Qed.

Lemma joined_None {A} wrap (l : list A) : joined wrap l = None <-> l = [].
Proof. by destruct l. Qed.

Lemma err_of_None {E A} (wrap : E -> finding) (r : res E A) : err_of wrap r = None <-> is_ok r = true.
Proof. by destruct r. Qed.

(** Text under names of its own, at times of its own, is on record. *)
Lemma recorded R i results runs :
  Forall (fun r => forall_char basic (CName r) = true /\ forall_char basic (Detail r) = true) results ->
  NoDup (CName <$> results) -> (forall j, insert_fault R j = None) ->
  (forall x r j, x ∈ runs -> r ∈ results -> check_name x = CName r -> ran_at x <> Truncate (insert_now R j) microsecond) ->
  (recordVerification R i results runs).1 = Ok tt.
Proof.
  intros Hr. revert i runs. induction Hr as [|r results [Hname Hdetail] _ IH]; intros i runs Hnd Hf Hruns; [done|].
  rewrite fmap_cons in Hnd. apply NoDup_cons in Hnd as [Hni Hnd]. cbn [recordVerification].
  rewrite Hf, !basic_text by done. cbn [andb negb]. destruct (existsb _ runs) eqn:Hex.
  - apply existsb_exists in Hex as (x & Hx%list_elem_of_In & [Hn%bool_decide_eq_true Ht%Z.eqb_eq]%andb_true_iff).
    by destruct (Hruns x r i Hx ltac:(by left) Hn).
  - apply IH; [done|done|]. intros x r' j Hx Hr' Hn. apply elem_of_app in Hx as [Hx| ->%list_elem_of_singleton].
    + by apply (Hruns x r' j Hx); [right|].
    + cbn in Hn. destruct Hni. rewrite Hn. by apply list_elem_of_fmap_2.
Qed.

Section codec.
Context {codec : Codec}.
Context (describe : finding -> string) (describe_stale : StaleBalance -> string).

(** What comes back clean has nothing to say. *)
Lemma run_check_silent R i c : COK (run_check describe R i c) = true -> Detail (run_check describe R i c) = EmptyString.
Proof.
  unfold run_check. destruct c as [name [n err]]. cbn [fst snd].
  destruct (read_fault R i); cbn [result COK Detail]; intros H%bool_decide_eq_true; [done|by subst].
Qed.

Lemma clean_silent R opts d :
  Forall (fun r => COK r = true) (verify_results describe describe_stale R opts d) ->
  Forall (fun r => Detail r = EmptyString) (verify_results describe describe_stale R opts d).
Proof.
  unfold verify_results. rewrite !Forall_app. intros [Hc Hs]. split.
  - apply Forall_lookup. intros i r Hr. pose proof (Forall_lookup_1 _ _ _ _ Hc Hr) as Hok.
    apply list_lookup_imap_Some in Hr as (c & _ & ->). by apply run_check_silent.
  - destruct (0 <? StaleAfter opts); [|done]. rewrite Forall_singleton in Hs. rewrite Forall_singleton.
    unfold stale_check in *. destruct (read_fault _ _); [done|]. by destruct (StaleBalances _ _ _ _) as [[|x l]|e].
Qed.

(** A run hides nothing. Whatever fails, it reports every check, the
    engine's six in their fixed order, then each extra one, then the stale
    balances when an age was given; a check is reported clean exactly when its
    queries ran and it found nothing; and no engine or extra check keeps more
    than its share of detail. *)
Theorem verify_reports_all (R : RunEnv) (opts : VerifyOptions) (d : Database) :
  let rs := verify_results describe describe_stale R opts d in
  CName <$> rs = ["conservation"; "log"; "projection"; "effective_volumes"; "balance_permissions"; "closed_accounts"]
                 ++ (Extra opts).*1 ++ (if 0 <? StaleAfter opts then ["stale_balances"] else []) /\
  forall i c, (checks d ++ Extra opts) !! i = Some c ->
    exists r, rs !! i = Some r /\ CName r = c.1 /\
      (COK r = true <-> read_fault R i = None /\ c.2.2 = None) /\
      (COK r = true -> CChecked r = c.2.1 /\ Detail r = EmptyString) /\
      (String.length (Detail r) <= maxDetail + 14)%nat.
Proof.
  intros rs. unfold rs, verify_results. cbv zeta. split.
  - rewrite fmap_app, fmap_imap.
    assert (forall (l : list (string * check_outcome)) (g : nat -> nat),
              imap (fun i c => CName (run_check describe R (g i) c)) l = l.*1) as Himap.
    { induction l as [|c l IH]; intros g; [done|]. simpl. f_equal; [|exact (IH (fun i => g (S i)))].
      unfold run_check. by destruct (read_fault R (g 0%nat)), c as [? [? ?]]. }
    rewrite (Himap _ (fun i => i)), fmap_app. rewrite <-(app_assoc _ (Extra opts).*1). f_equal. f_equal.
    destruct (0 <? StaleAfter opts); [|done]. simpl. unfold stale_check. by repeat case_match.
  - intros i c Hc. exists (run_check describe R i c). split.
    { apply lookup_app_l_Some. rewrite list_lookup_imap.
      exact (f_equal (fmap (run_check describe R i)) Hc). }
    unfold run_check. destruct c as [name [n err]]. cbn [fst snd].
    destruct (read_fault R i) as [code|]; cbn [result CName COK CChecked Detail].
    + split_and!; [done| |done|apply truncateDetail_length]. rewrite bool_decide_eq_true. naive_solver.
    + split_and!; [done|rewrite bool_decide_eq_true; naive_solver| |].
      * intros ->%bool_decide_eq_true. done.
      * destruct err; [apply truncateDetail_length|simpl; lia].
Qed.

End codec.
