(* ===== verification/Locks.v ===== *)
(** * The order of locks

    Which rows, unique index entries and foreign keys each operation of package
    storage locks, and in which order ([storage/volumes.go], [commit.go],
    [bulk.go], [revert.go], [metadata.go], [closure.go], [policy.go], [rows.go],
    [allocate.go], [log.go]; the indexes and foreign keys are those of
    [migrations/]); the order they share; and that every operation keeps it but a
    write to an account's metadata. What the order is for is [Deadlock.v].

    Two waits are left out because their rows are the session's own or nobody
    else's: the primary keys of transactions and logs, whose ids come from the
    ledger's row while it is held, and the foreign key of a move to the
    transaction inserted just before it. *)

From S2P Require Import Prelude Identifiers Text Posting Volumes Sha256 GoTime Transaction Codec Errors Schema Txn Locking Moves Log Commit Sample Read Revert Bulk Closure Recovery Refinement.

(** ** Rows *)

(** A row or an index entry as a session waits for it. A row of accounts_volumes
    is two: one somebody inserted and has not committed, which an insert of the
    same key waits for, and one everybody sees, which a row lock waits for. An
    entry of a unique index is waited for while its inserter has not committed. A
    foreign key takes [for key share] on the asset's row. *)
Inductive lock :=
| TransactionLock (id : Z)
| AssetLock (code : string)
| AssetShare (c : Asset)
| NewVolume (k : key)
| VolumeLock (k : key)
| LedgerLock
| ReferenceEntry (r : string)
| KeyEntry (k : string)
| AccountLock (a : Address).

(** A share excludes no other share, and no statement takes a row of assets any
    stronger: its rows are inserted and never touched again. *)
Definition shared (l : lock) : bool := match l with AssetShare _ => true | _ => false end.

#[export] Instance lock_eq_dec : EqDecision lock.
Proof. solve_decision. Defined.

(** [ORDER BY] compares text as the database was told to, not as Go does. *)
Class Collation := {
  collate : relation string;
  collate_dec :: RelDecision collate;
  collate_preorder :: PreOrder collate;
  collate_antisymm :: AntiSymm (=) collate;
  collate_total :: Total collate;
}.

(** The collation "C". *)
#[export] Program Instance bytewise : Collation := {| collate := String.le |}.

Section collation.
Context {C : Collation}.

(** [order by address, asset] *)
Definition order_by : relation key := fun a b =>
  if decide (a.1 = b.1) then collate a.2 b.2 else collate a.1 b.1.

#[export] Instance order_by_dec : RelDecision order_by.
Proof. intros a b. unfold order_by. case_decide; apply _. Defined.

(** ** What each operation locks *)

(** [lockVolumes]: the inserts meet the keys as Go sorted them, their foreign
    keys follow at the end of the statement, and the locking select takes the
    rows as the database sorts them. *)
Definition lock_volumes (ks : list key) : list lock :=
  (NewVolume <$> ks) ++ (AssetShare <$> (snd <$> ks)) ++ (VolumeLock <$> merge_sort order_by ks).

(** A column of a unique index, when it is not null. *)
Definition index_entry (entry : string -> lock) (value : string) : list lock :=
  if bool_decide (value = EmptyString) then [] else [entry value].

(** The deltas, the ids, the transaction's row, the accounts', the moves'. *)
Definition apply_locks (us : list VolumeUpdate) (reference : string) : list lock :=
  lock_volumes (update_key <$> us)
  ++ (VolumeLock <$> (update_key <$> us))
  ++ [LedgerLock]
  ++ index_entry ReferenceEntry reference
  ++ (AccountLock <$> distinct_accounts us None)
  ++ (AssetShare <$> (snd <$> (update_key <$> us))).

(** [applyTransaction]; without updates it asks for nothing. *)
Definition transaction_locks (p : Postings) (reference : string) : option (list lock) :=
  match VolumeUpdates p with Ok us => Some (apply_locks us reference) | Err _ => None end.

(** [insertLog]: the entry moves the ledger's row. *)
Definition log_locks (k : string) : list lock := index_entry KeyEntry k ++ [LedgerLock].

(** [commitOnce], and one item of a batch. *)
Definition commit_locks (p : Postings) (reference k : string) : list lock :=
  match transaction_locks p reference with Some ls => ls ++ log_locks k | None => [] end.

(** The key is the first entry's. *)
Definition item_locks (k : string) (i : nat) (it : BatchItem) : list lock :=
  commit_locks (BPostings it) (BReference it) (if (i =? 0)%nat then k else EmptyString).

Definition batch_locks (items : list BatchItem) (k : string) : list lock :=
  match batch_updates 0 ∅ items with
  | Err _ => []
  | Ok all =>
      lock_volumes (update_key <$> merge_sort update_le all)
      ++ concat (imap (item_locks k) items)
  end.

Definition revert_locks (d : Database) (id : Z) : list lock :=
  TransactionLock id ::
  match transactions d !! id with
  | None => []
  | Some row =>
      match Reverse (postings row) with
      | Err _ => []
      | Ok inverse =>
          match transaction_locks inverse EmptyString with
          | None => []
          | Some ls => ls ++ TransactionLock id :: log_locks EmptyString
          end
      end
  end.

(** [mutateMetadata]: the target's row, then the ledger's. *)
Definition set_transaction_locks (id : Z) : list lock :=
  [TransactionLock id; TransactionLock id; LedgerLock; LedgerLock].

Definition set_account_locks (a : Address) : list lock := [AccountLock a; LedgerLock; LedgerLock].

Definition delete_account_key_locks (a : Address) : list lock :=
  [AccountLock a; AccountLock a; LedgerLock; LedgerLock].

(** [CloseAccount]: the rows that hold something, and only when none does the
    account's. *)
Definition close_locks (d : Database) (a : Address) : list lock :=
  match held d a with
  | [] => [AccountLock a]
  | rows => VolumeLock <$> merge_sort order_by ((fun ab => (a, ab.1)) <$> rows)
  end.

(** One permission: [insert ... on conflict do update]. *)
Definition permission_locks (k : key) : list lock := [NewVolume k; VolumeLock k; AssetShare k.2].

(** What a request asks for when nothing refuses it on the way; [d] is what it
    reads. *)
Definition locks_of (d : Database) (r : Request) : list lock :=
  match r with
  | DoCommit p opts => commit_locks p (OReference opts) (OIdempotencyKey opts)
  | DoRevert id _ => revert_locks d id
  | DoBatch items opts => batch_locks items (OIdempotencyKey opts)
  | DoSetTransactionMetadata id _ | DoDeleteTransactionMetadataKey id _ => set_transaction_locks id
  | DoSetAccountMetadata a _ => set_account_locks a
  | DoDeleteAccountMetadataKey a _ => delete_account_key_locks a
  | DoSetAllowNegative a c _ | DoSetAllowPositive a c _ => permission_locks (a, c)
  | DoCloseAccount a => close_locks d a
  | DoReopenAccount a => [AccountLock a]
  | DoRegisterAsset c => [AssetLock (Code c)]
  | DoRecordRecovery _ _ _ => [LedgerLock; LedgerLock; LedgerLock]
  end.

End collation.

(** ** The order *)

Section collation.
Context {C : Collation}.

#[export] Instance order_by_total : Total order_by.
Proof. intros a b. unfold order_by. repeat case_decide; try congruence; apply collate_total. Qed.

#[export] Instance order_by_trans : Transitive order_by.
Proof.
  intros [a1 a2] [b1 b2] [c1 c2]. unfold order_by; simpl. repeat case_decide; subst; try done; try congruence.
  - apply transitivity.
  - intros H1 H2. assert (b1 = c1) by (by apply (anti_symm collate)). done.
  - apply transitivity.
Qed.

#[export] Instance order_by_antisymm : AntiSymm (=) order_by.
Proof.
  intros [a1 a2] [b1 b2]. unfold order_by; simpl. repeat case_decide; subst; try congruence.
  - intros. f_equal. by apply (anti_symm collate).
  - intros. assert (a1 = b1) by (by apply (anti_symm collate)). done.
Qed.

Definition rank (l : lock) : nat :=
  match l with
  | TransactionLock _ | AssetLock _ | AssetShare _ => 0
  | NewVolume _ => 1
  | VolumeLock _ => 2
  | LedgerLock => 3
  | ReferenceEntry _ | KeyEntry _ | AccountLock _ => 4
  end%nat.

(** Asked for with the ledger's row in hand, in any order. *)
Definition under_ledger (l : lock) : bool :=
  match l with ReferenceEntry _ | KeyEntry _ | AccountLock _ => true | _ => false end.

(** The order every operation below takes its locks in. *)
Definition earlier : relation lock := fun l l' =>
  (rank l < rank l')%nat \/
  match l, l' with
  | NewVolume k, NewVolume k' => key_lt k k'
  | VolumeLock k, VolumeLock k' => order_by k k' /\ k <> k'
  | _, _ => False
  end.

#[export] Instance key_lt_dec : RelDecision key_lt.
Proof. intros a b. unfold key_lt. apply _. Defined.

#[export] Instance earlier_dec : RelDecision earlier.
Proof. intros a b. unfold earlier. apply or_dec; [apply _|]. destruct a, b; apply _. Defined.

#[export] Instance earlier_irreflexive : Irreflexive earlier.
Proof. intros [| | |k|k| | | |] [H|H]; try lia; try done; [by apply (irreflexivity key_lt k)|by destruct H]. Qed.

#[export] Instance earlier_trans : Transitive earlier.
Proof.
  intros a b c [Hab|Hab] [Hbc|Hbc].
  - left. lia.
  - left. destruct b, c; simpl in *; try done; lia.
  - left. destruct a, b; simpl in *; try done; lia.
  - destruct a, b; try done; destruct c; try done; right; [by etrans|].
    destruct Hab as [Hab Hn], Hbc as [Hbc Hn']. split; [by etrans|].
    intros ->. apply Hn. by apply (anti_symm order_by).
Qed.

(** What a session that has asked for [past] may ask for next: again what it
    asked for, something later than all of it, or, holding the ledger's row,
    any account and any entry of an index; and a share at any time. *)
Definition admissible (past : list lock) (l : lock) : Prop :=
  (l ∈ past /\ match l with VolumeLock k => NewVolume k ∈ past | _ => True end) \/
  Forall (fun l' => earlier l' l) past \/
  (under_ledger l = true /\ LedgerLock ∈ past) \/
  shared l = true.

Fixpoint orderly (past plan : list lock) : Prop :=
  match plan with
  | [] => True
  | l :: plan => admissible past l /\ orderly (l :: past) plan
  end.

End collation.

(** ** Every plan keeps the order *)

Section collation.
Context {C : Collation}.

Lemma orderly_app past p1 p2 : orderly past (p1 ++ p2) <-> orderly past p1 /\ orderly (reverse p1 ++ past) p2.
Proof.
  revert past. induction p1 as [|l p1 IH]; intros past; simpl; [naive_solver|].
  rewrite IH, reverse_cons, <-app_assoc. simpl. naive_solver.
Qed.

Lemma orderly_sorted past p :
  StronglySorted earlier p -> (forall l l', l ∈ past -> l' ∈ p -> earlier l l') -> orderly past p.
Proof.
  intros Hs. revert past. induction Hs as [|l p Hp IH Hfa]; intros past Hpast; simpl; [done|].
  rewrite Forall_forall in Hfa. split.
  - right; left. apply Forall_forall. intros l' Hl'. apply Hpast; set_solver.
  - apply IH. intros l1 l2 [-> |H1]%elem_of_cons H2; [by apply Hfa|]. apply Hpast; set_solver.
Qed.

(** Asking again for what is held. *)
Lemma orderly_again past p :
  (forall l, l ∈ p -> l ∈ past /\ match l with VolumeLock k => NewVolume k ∈ past | _ => True end) ->
  orderly past p.
Proof.
  revert past. induction p as [|l p IH]; intros past Hp; simpl; [done|]. split; [left; apply Hp; set_solver|].
  apply IH. intros l' Hl'. destruct (Hp l') as [Hin Hv]; [set_solver|]. split; [set_solver|].
  destruct l'; set_solver.
Qed.

Lemma orderly_shares past p : Forall (fun l => shared l = true) p -> orderly past p.
Proof.
  intros Hp. revert past. induction Hp as [|l p Hl _ IH]; intros past; simpl; [done|].
  split; [by right; right; right|apply IH].
Qed.

Lemma shares_shared {A} (f : A -> Asset) (l : list A) : Forall (fun l => shared l = true) (AssetShare <$> (f <$> l)).
Proof. apply Forall_fmap, Forall_fmap, Forall_true. done. Qed.

Lemma orderly_under_ledger past p :
  LedgerLock ∈ past -> Forall (fun l => under_ledger l = true \/ shared l = true \/ l = LedgerLock) p -> orderly past p.
Proof.
  intros Hl Hp. revert past Hl. induction Hp as [|l p Hx _ IH]; intros past Hl; simpl; [done|].
  split; [|apply IH; set_solver]. destruct Hx as [?|[?| ->]]; [by right; right; left|by right; right; right|by left].
Qed.

(** What is under the ledger's row. *)
Lemma entry_under entry value :
  (forall v, under_ledger (entry v) = true) ->
  Forall (fun l => under_ledger l = true \/ shared l = true \/ l = LedgerLock) (index_entry entry value).
Proof. intros He. unfold index_entry. case_bool_decide; [done|]. apply Forall_singleton. by left. Qed.

Lemma log_under k : Forall (fun l => under_ledger l = true \/ shared l = true \/ l = LedgerLock) (log_locks k).
Proof.
  apply Forall_app. split; [by apply entry_under|]. apply Forall_singleton. by right; right.
Qed.

Lemma sorted_fmap {A} (R : relation A) (f : A -> lock) (l : list A) :
  StronglySorted R l -> (forall x y, x ∈ l -> y ∈ l -> R x y -> earlier (f x) (f y)) ->
  StronglySorted earlier (f <$> l).
Proof.
  induction 1 as [|x l Hl IH Hfa]; intros Hf; csimpl; constructor.
  - apply IH. intros. apply Hf; set_solver.
  - apply Forall_fmap, Forall_forall. intros y Hy. rewrite Forall_forall in Hfa. apply Hf; set_solver.
Qed.

(** Rows of different keys in the database's order. *)
Lemma sorted_volume_locks (ks : list key) :
  NoDup ks -> StronglySorted earlier (VolumeLock <$> merge_sort order_by ks).
Proof.
  intros Hnd. rewrite <-(merge_sort_Permutation order_by ks) in Hnd.
  pose proof (StronglySorted_merge_sort order_by ks) as Hs. revert Hnd Hs.
  generalize (merge_sort order_by ks). clear. intros ks Hnd Hs.
  induction Hs as [|k ks Hks IH Hfa]; csimpl; constructor; apply NoDup_cons in Hnd as [Hk Hnd].
  - by apply IH.
  - apply Forall_fmap, Forall_forall. intros k' Hk'. rewrite Forall_forall in Hfa.
    right. split; [by apply Hfa|]. by intros ->.
Qed.

Lemma strict_NoDup (ks : list key) : StronglySorted key_lt ks -> NoDup ks.
Proof.
  induction 1 as [|k ks Hks IH Hfa]; constructor; [|done].
  intros Hin. rewrite Forall_forall in Hfa. by apply (irreflexivity key_lt k), Hfa.
Qed.

Lemma elem_of_lock_volumes ks l :
  l ∈ lock_volumes ks <-> exists k, k ∈ ks /\ (l = NewVolume k \/ l = AssetShare k.2 \/ l = VolumeLock k).
Proof.
  unfold lock_volumes. rewrite !elem_of_app, <-list_fmap_compose, !list_elem_of_fmap.
  setoid_rewrite (merge_sort_Permutation order_by ks). naive_solver.
Qed.

Lemma lock_volumes_orderly past ks :
  StronglySorted key_lt ks -> Forall (fun l => rank l = 0%nat) past -> orderly past (lock_volumes ks).
Proof.
  intros Hks Hpast. rewrite Forall_forall in Hpast. apply orderly_app. split.
  - apply orderly_sorted.
    + apply (sorted_fmap key_lt); [done|]. intros k k' _ _ Hk. by right.
    + intros l l' Hl (k & -> & _)%list_elem_of_fmap. left. rewrite (Hpast l Hl). simpl. lia.
  - apply orderly_app. split; [apply orderly_shares, shares_shared|].
    apply orderly_sorted; [by apply sorted_volume_locks, strict_NoDup|].
    intros l l' Hl (k & -> & _)%list_elem_of_fmap. rewrite !elem_of_app, !elem_of_reverse in Hl.
    destruct Hl as [Hl|[Hl|Hl]]; left; simpl.
    + apply list_elem_of_fmap in Hl as (c & -> & _). simpl. lia.
    + apply list_elem_of_fmap in Hl as (k' & -> & _). simpl. lia.
    + rewrite (Hpast l Hl). lia.
Qed.

(** Locking again what is locked. *)
Lemma lock_volumes_again past ks :
  (forall k, k ∈ ks -> NewVolume k ∈ past /\ VolumeLock k ∈ past) -> orderly past (lock_volumes ks).
Proof.
  intros Hks. unfold lock_volumes. apply orderly_app. split; [|apply orderly_app; split].
  - apply orderly_again. intros l (k & -> & Hk)%list_elem_of_fmap. apply Hks in Hk. naive_solver.
  - apply orderly_shares, shares_shared.
  - apply orderly_again. intros l (k & -> & Hk)%list_elem_of_fmap. rewrite (merge_sort_Permutation order_by ks) in Hk.
    apply Hks in Hk. rewrite !elem_of_app. naive_solver.
Qed.

(** What a transaction does after its locks are taken. *)
Lemma apply_orderly past us reference rest :
  orderly past (lock_volumes (update_key <$> us)) ->
  Forall (fun l => (rank l < 3)%nat) past \/ LedgerLock ∈ past ->
  Forall (fun l => under_ledger l = true \/ shared l = true \/ l = LedgerLock) rest ->
  orderly past (apply_locks us reference ++ rest).
Proof.
  intros Hl Hpast Hrest. unfold apply_locks. rewrite <-!app_assoc. apply orderly_app. split; [done|].
  assert (forall k, k ∈ update_key <$> us ->
            NewVolume k ∈ lock_volumes (update_key <$> us) /\ VolumeLock k ∈ lock_volumes (update_key <$> us)) as Hin.
  { intros k Hk. split; apply elem_of_lock_volumes; eauto. }
  rewrite Forall_forall in Hpast. apply orderly_app. split.
  { apply orderly_again. intros l (k & -> & Hk)%list_elem_of_fmap. apply Hin in Hk as [? ?].
    rewrite !elem_of_app, !elem_of_reverse. naive_solver. }
  change ([LedgerLock] ++ ?l) with (LedgerLock :: l). cbn [orderly]. split.
  { destruct Hpast as [Hpast|Hpast]; [right; left|left; set_solver].
    apply Forall_forall. intros l Hl'. left. cbn [rank].
    rewrite !elem_of_app, !elem_of_reverse, elem_of_lock_volumes, list_elem_of_fmap in Hl'.
    destruct Hl' as [(k & -> & _)|[(k & _ & [-> |[-> | ->]])|Hl']]; cbn [rank]; try lia. by apply Hpast. }
  apply orderly_under_ledger; [by left|]. rewrite !Forall_app. split_and!; [by apply entry_under| | |done].
  - apply Forall_fmap, Forall_true. intros a. by left.
  - eapply Forall_impl; [apply shares_shared|]. intros l ?. by right; left.
Qed.

Lemma commit_orderly past p reference k :
  Forall (fun l => rank l = 0%nat) past -> orderly past (commit_locks p reference k).
Proof.
  intros Hpast. unfold commit_locks, transaction_locks.
  destruct (VolumeUpdates p) as [us|e] eqn:Hus; [|done]. apply volume_updates_Ok in Hus as [_ Hsorted _ _ _].
  apply apply_orderly; [by apply lock_volumes_orderly|left|apply log_under].
  eapply Forall_impl; [exact Hpast|]. intros l ->. lia.
Qed.

Lemma batch_updates_spec (i : nat) (seen : gset key) (items : list BatchItem) (all : list VolumeUpdate) :
  batch_updates i seen items = Ok all ->
  NoDup (update_key <$> all) /\ (forall k, k ∈ update_key <$> all -> k ∉ seen) /\
  forall it, it ∈ items -> exists us, VolumeUpdates (BPostings it) = Ok us /\
    forall k, k ∈ update_key <$> us -> k ∈ seen \/ k ∈ update_key <$> all.
Proof.
  revert i seen all. induction items as [|it items IH]; intros i seen all; simpl.
  { intros [= <-]. csimpl. split_and!; [constructor|set_solver..]. }
  destruct (VolumeUpdates (BPostings it)) as [us|e] eqn:Hus; [|done].
  intros H. apply rbind_Ok in H as (rest & Hrest & [= <-]).
  apply IH in Hrest as (Hnd & Hfresh & Hitems).
  assert (forall k, k ∈ update_key <$> fresh_updates seen us <-> k ∈ update_key <$> us /\ k ∉ seen) as Hfu.
  { intros k. unfold fresh_updates. rewrite !list_elem_of_fmap. setoid_rewrite list_elem_of_filter. naive_solver. }
  rewrite fmap_app. split_and!.
  - apply NoDup_app. split_and!; [|intros k Hk%Hfu Hr%Hfresh; set_solver|done].
    apply volume_updates_Ok, updates_NoDup in Hus. 
    refine (sublist_NoDup _ _ Hus _). apply fmap_sublist, sublist_filter.
  - intros k [Hk|Hk]%elem_of_app; [by apply Hfu|]. apply Hfresh in Hk. set_solver.
  - intros it' [-> |Hin]%elem_of_cons.
    + exists us. split; [done|]. intros k Hk. destruct (decide (k ∈ seen)); [by left|right].
      apply elem_of_app. left. by apply Hfu.
    + destruct (Hitems _ Hin) as (us' & Hus' & Hks). exists us'. split; [done|].
      intros k Hk. rewrite elem_of_app, Hfu. destruct (decide (k ∈ seen)); [by left|].
      apply Hks in Hk as [Hk|Hk]; [|tauto]. apply elem_of_union in Hk as [Hk|Hk]; [|done].
      apply elem_of_list_to_set in Hk. tauto.
Qed.

#[export] Instance update_le_trans : Transitive update_le.
Proof. intros a b c. unfold update_le. by etrans. Qed.

#[export] Instance update_le_total : Total update_le.
Proof. intros a b. apply (total key_le). Qed.

Lemma batch_keys_sorted (all : list VolumeUpdate) :
  NoDup (update_key <$> all) -> StronglySorted key_lt (update_key <$> merge_sort update_le all).
Proof.
  intros Hnd. rewrite <-(merge_sort_Permutation update_le all) in Hnd.
  assert (StronglySorted update_le (merge_sort update_le all)) as Hs.
  { apply StronglySorted_merge_sort; apply _. }
  induction Hs as [|u us Hus IH Hfa]; csimpl in *; constructor; apply NoDup_cons in Hnd as [Hu Hnd].
  - by apply IH.
  - apply Forall_fmap, Forall_forall. intros u' Hu'. rewrite Forall_forall in Hfa.
    apply key_le_lt; [by apply Hfa|]. intros Heq. apply Hu. simpl in Heq. rewrite Heq. by apply list_elem_of_fmap_2.
Qed.

(** Items lock nothing of accounts_volumes the batch has not locked. *)
Lemma items_orderly past (locks : nat -> BatchItem -> list lock) (items : list BatchItem) :
  (forall i it, locks i it = [] \/ exists reference k, locks i it = commit_locks (BPostings it) reference k) ->
  (forall it, it ∈ items -> exists us, VolumeUpdates (BPostings it) = Ok us /\
     forall k, k ∈ update_key <$> us -> NewVolume k ∈ past /\ VolumeLock k ∈ past) ->
  Forall (fun l => (rank l < 3)%nat) past \/ LedgerLock ∈ past ->
  orderly past (concat (imap locks items)).
Proof.
  revert past locks. induction items as [|it items IH]; intros past locks Hlocks Hitems Hpast; [done|].
  cbn [imap concat]. destruct (Hitems it) as (us & Hus & Hks); [set_solver|].
  apply orderly_app. split.
  - destruct (Hlocks 0%nat it) as [-> |(reference & k & ->)]; [done|].
    unfold commit_locks, transaction_locks. rewrite Hus. apply apply_orderly; [by apply lock_volumes_again|done|apply log_under].
  - apply IH; [intros i it'; apply (Hlocks (S i))| |].
    + intros it' Hin. destruct (Hitems it') as (us' & Hus' & Hks'); [set_solver|].
      exists us'. split; [done|]. intros k Hk. apply Hks' in Hk. set_solver.
    + destruct (Hlocks 0%nat it) as [-> |(reference & k & ->)]; [done|]. right.
      unfold commit_locks, transaction_locks. rewrite Hus, elem_of_app, elem_of_reverse. left. unfold apply_locks. set_solver.
Qed.

Lemma batch_orderly items k : orderly [] (batch_locks items k).
Proof.
  unfold batch_locks. destruct (batch_updates 0 ∅ items) as [all|e] eqn:Hall; [|done].
  apply batch_updates_spec in Hall as (Hnd & _ & Hitems). apply orderly_app. split.
  - apply lock_volumes_orderly; [by apply batch_keys_sorted|done].
  - apply items_orderly.
    + intros i it. right. unfold item_locks. eauto.
    + intros it Hin. apply Hitems in Hin as (us & Hus & Hks). exists us. split; [done|].
      intros x [Hx|Hx]%Hks; [set_solver|]. rewrite app_nil_r, !elem_of_reverse, !elem_of_lock_volumes.
      assert (x ∈ update_key <$> merge_sort update_le all) as Hx' by (by rewrite (merge_sort_Permutation update_le all)).
      split; exists x; auto.
    + left. apply Forall_forall. intros l Hl. rewrite app_nil_r, elem_of_reverse, elem_of_lock_volumes in Hl.
      destruct Hl as (x & _ & [-> |[-> | ->]]); simpl; lia.
Qed.

Lemma revert_orderly d id : orderly [] (revert_locks d id).
Proof.
  unfold revert_locks. cbn [orderly]. split; [right; left; constructor|].
  destruct (transactions d !! id) as [row|]; [|done]. destruct (Reverse (postings row)) as [inverse|e]; [|done].
  unfold transaction_locks. destruct (VolumeUpdates inverse) as [us|e] eqn:Hus; [|done].
  apply volume_updates_Ok in Hus as [_ Hsorted _ _ _].
  assert (orderly [TransactionLock id] (apply_locks us EmptyString ++ [])) as Ho.
  { apply apply_orderly; [apply lock_volumes_orderly; [done|]|left|done];
      apply Forall_singleton; simpl; [done|lia]. }
  rewrite app_nil_r in Ho. apply orderly_app. split; [done|].
  assert (LedgerLock ∈ apply_locks us EmptyString) as Hl by (unfold apply_locks; set_solver).
  cbn [orderly]. split; [left; split; [set_solver|done]|].
  apply orderly_under_ledger; [set_solver|apply log_under].
Qed.

(** The rows of one account are of different assets. *)
Lemma account_rows_NoDup (a : Address) (l : list (key * VolumeRow)) :
  NoDup l.*1 ->
  NoDup (omap (fun kv : key * VolumeRow => if bool_decide (kv.1.1 = a) then Some (kv.1.2, kv.2) else None) l).*1.
Proof.
  induction l as [|[[a' c] r] l IH]; csimpl; [constructor|]. intros [Hk Hnd]%NoDup_cons.
  case_bool_decide as Ha; csimpl; [|by apply IH]. apply NoDup_cons. split; [|by apply IH].
  simpl in Ha. subst a'. intros ([c' r'] & -> & Hin)%list_elem_of_fmap. apply list_elem_of_omap in Hin as ([[a2 c2] r2] & Hin & Heq).
  simpl in Heq. case_bool_decide as Ha; simplify_eq/=. apply Hk.
  apply list_elem_of_fmap. by exists ((a, c', r')).
Qed.

Lemma held_NoDup d a : NoDup (held d a).*1.
Proof.
  unfold held. rewrite <-list_fmap_compose.
  refine (sublist_NoDup _ _ (account_rows_NoDup a _ (map_rows_NoDup key_le (volumes d))) _).
  apply (fmap_sublist fst), sublist_filter.
Qed.

Lemma close_orderly d a : orderly [] (close_locks d a).
Proof.
  unfold close_locks. pose proof (held_NoDup d a) as Hnd. destruct (held d a) as [|ab rows].
  { cbn [orderly]. split; [right; left; constructor|done]. }
  apply orderly_sorted; [|set_solver]. apply sorted_volume_locks.
  apply (NoDup_fmap_2 (pair a)) in Hnd. by rewrite <-list_fmap_compose in Hnd.
Qed.

(** Everything but a write to an account's metadata. *)
Definition in_order (r : Request) : bool :=
  match r with
  | DoSetAccountMetadata _ _ | DoDeleteAccountMetadataKey _ _ => false
  | _ => true
  end.

(** A short plan, checked lock by lock. *)
Local Ltac in_turn :=
  cbn [orderly];
  repeat (split; [first [right; right; right; reflexivity | right; left; repeat constructor; fail | left; split; [set_solver|exact I]]|]); exact I.

Lemma locks_of_orderly d r : in_order r = true -> orderly [] (locks_of d r).
Proof.
  destruct r as [p ? |id ? |items ? |id ? |id ? |a ? |a ? |a c ? |a c ? |a|a|c|? ? ?]; intros Hr; try done; cbn [locks_of].
  - by apply commit_orderly.
  - apply revert_orderly.
  - apply batch_orderly.
  - unfold set_transaction_locks. in_turn.
  - unfold set_transaction_locks. in_turn.
  - unfold permission_locks. in_turn.
  - unfold permission_locks. in_turn.
  - apply close_orderly.
  - in_turn.
  - in_turn.
  - in_turn.
Qed.

End collation.
