(* ===== verification/Deadlock.v ===== *)
(** * Sessions, and that they do not deadlock

    Sessions of one ledger, interleaved by a lock manager that grants a row, or an
    entry of a unique index, to one session at a time and keeps it until the
    session ends, as PostgreSQL does; the shares of foreign keys it grants to any
    number. That sessions which take their locks in [Locks]' order cannot wait
    for each other in a circle and all come to an end; and that the one
    operation outside the order can be made to deadlock. *)

From S2P Require Import Prelude Identifiers Text Posting Volumes Sha256 GoTime Transaction Codec Errors Schema Txn Locking Moves Log Commit Sample Read Revert Bulk Closure Recovery Refinement Locks.

(** ** Sessions *)

(** The locks a session still has to take, in order, and those it has. *)
Record session := { todo : list lock; holds : list lock }.

#[export] Instance session_eq_dec : EqDecision session.
Proof. solve_decision. Defined.

(** [rows]: the keys of the committed rows of accounts_volumes. *)
Record system := { rows : gset key; sessions : list session }.

Definition ended : session := {| todo := []; holds := [] |}.

Definition asking (plan : list lock) : session := {| todo := plan; holds := [] |}.

(** Whether a request takes its lock at all: an insert skips a row that is
    there, a row lock one that is not, or that the session made itself. *)
Definition needed (committed : gset key) (s : session) (l : lock) : bool :=
  match l with
  | NewVolume k => bool_decide (k ∉ committed)
  | VolumeLock k => bool_decide (k ∈ committed) && bool_decide (NewVolume k ∉ holds s)
  | _ => true
  end.

Definition taken (l : lock) (i : nat) (ss : list session) : bool :=
  negb (shared l) && bool_decide (Exists (fun js => js.1 <> i /\ l ∈ holds js.2) (imap pair ss)).

Definition inserted_by (s : session) : gset key :=
  list_to_set (omap (fun l => match l with NewVolume k => Some k | _ => None end) (holds s)).

Inductive turn :=
| Begins (plan : list lock)
| Proceeds (i : nat)
| Commits (i : nat)
| RollsBack (i : nat).

Definition with_session (i : nat) (s : session) (sys : system) : system :=
  {| rows := rows sys; sessions := <[i := s]> (sessions sys) |}.

(** What one turn does; [None] when it cannot happen. A session that must
    wait does not proceed. *)
Definition play (e : turn) (sys : system) : option system :=
  match e with
  | Begins plan => Some {| rows := rows sys; sessions := sessions sys ++ [asking plan] |}
  | Proceeds i =>
      s ← sessions sys !! i;
      match todo s with
      | [] => None
      | l :: rest =>
          if needed (rows sys) s l then
            if taken l i (sessions sys) then None
            else Some (with_session i {| todo := rest; holds := l :: holds s |} sys)
          else Some (with_session i {| todo := rest; holds := holds s |} sys)
      end
  | Commits i =>
      s ← sessions sys !! i;
      match todo s, holds s with
      | [], _ :: _ => Some {| rows := rows sys ∪ inserted_by s; sessions := <[i := ended]> (sessions sys) |}
      | _, _ => None
      end
  | RollsBack i =>
      s ← sessions sys !! i;
      Some (with_session i ended sys)
  end.

Fixpoint play_all (es : list turn) (sys : system) : option system :=
  match es with
  | [] => Some sys
  | e :: es => sys ← play e sys; play_all es sys
  end.

Definition idle (rows : gset key) : system := {| rows := rows; sessions := [] |}.

(** Sessions come, proceed, commit and fail in any order, each asking for a
    plan of [asked]. *)
Inductive reachable (asked : list lock -> Prop) : system -> Prop :=
| reachable_idle rows : reachable asked (idle rows)
| reachable_play e sys sys' :
    reachable asked sys -> play e sys = Some sys' ->
    match e with Begins plan => asked plan | _ => True end ->
    reachable asked sys'.

(** [i] waits for a lock that [j] has. *)
Definition waits_for (sys : system) (i j : nat) (l : lock) : Prop :=
  exists s rest s', sessions sys !! i = Some s /\ todo s = l :: rest /\ needed (rows sys) s l = true /\
    sessions sys !! j = Some s' /\ i <> j /\ l ∈ holds s' /\ shared l = false.

(** Sessions each of which waits for one of them. *)
Definition deadlocked (sys : system) (W : gset nat) : Prop :=
  W <> ∅ /\ forall i, i ∈ W -> exists j l, j ∈ W /\ waits_for sys i j l.

(** A session's own progress: nothing new begins, nothing fails. *)
Definition moves_on (sys sys' : system) : Prop :=
  exists i, play (Proceeds i) sys = Some sys' \/ play (Commits i) sys = Some sys'.

Definition all_ended (sys : system) : Prop := Forall (fun s => s = ended) (sessions sys).

(** ** What keeps a session from waiting *)

Section collation.
Context {C : Collation}.

(** What a session has asked for, it has, or has no need of any more. *)
Definition secured (committed : gset key) (s : session) (past : list lock) : Prop :=
  forall l, l ∈ past ->
    match l with
    | NewVolume k => k ∈ committed \/ l ∈ holds s
    | VolumeLock k => NewVolume k ∈ past -> l ∈ holds s \/ NewVolume k ∈ holds s
    | _ => l ∈ holds s
    end.

Record well_behaved (committed : gset key) (s : session) : Prop := {
  wb_past : exists past, orderly past (todo s) /\ holds s ⊆ past /\ secured committed s past;
}.

Record sound (sys : system) : Prop := {
  sound_sessions : Forall (well_behaved (rows sys)) (sessions sys);
  sound_exclusive : forall i j s s' l, sessions sys !! i = Some s -> sessions sys !! j = Some s' ->
    shared l = false -> l ∈ holds s -> l ∈ holds s' -> i = j;
}.

Lemma taken_true l i ss :
  taken l i ss = true <-> shared l = false /\ exists j s, ss !! j = Some s /\ j <> i /\ l ∈ holds s.
Proof.
  unfold taken. rewrite andb_true_iff, negb_true_iff, bool_decide_eq_true, Exists_exists. apply and_iff_compat_l. split.
  - intros ([j s] & (n & s' & [= -> ->] & Hj)%elem_of_lookup_imap_1 & Hne & Hl). eauto.
  - intros (j & s & Hj & Hne & Hl). exists (j, s). split; [|done].
    apply elem_of_lookup_imap. eauto.
Qed.

Lemma well_behaved_ended committed : well_behaved committed ended.
Proof. split. exists []. split_and!; [done|set_solver|]. intros l Hl. set_solver. Qed.

Lemma well_behaved_grows committed committed' s :
  committed ⊆ committed' -> well_behaved committed s -> well_behaved committed' s.
Proof.
  intros Hc [(past & Ho & Hh & Hs)]. split. exists past. split_and!; [done..|].
  intros l Hl. specialize (Hs l Hl). destruct l; set_solver.
Qed.

(** An insert is never asked for after the row's lock. *)
Lemma admissible_new past k :
  admissible past (NewVolume k) -> VolumeLock k ∈ past -> NewVolume k ∈ past.
Proof.
  intros [[Hin _]|[Hall|[[? _]|?]]] Hv; [done| |done|done]. rewrite Forall_forall in Hall.
  destruct (Hall _ Hv) as [H|[]]; simpl in H; lia.
Qed.

Lemma secured_grant committed s past l rest :
  secured committed s past -> secured committed {| todo := rest; holds := l :: holds s |} (l :: past).
Proof.
  intros Hs l' [-> |Hl']%elem_of_cons; [destruct l; set_solver|].
  pose proof (Hs l' Hl') as H. destruct l'; set_solver.
Qed.

Lemma secured_skip committed s past l rest :
  admissible past l -> secured committed s past -> needed committed s l = false ->
  secured committed {| todo := rest; holds := holds s |} (l :: past).
Proof.
  intros Ha Hs Hn l' [-> |Hl']%elem_of_cons.
  - destruct l as [| | |k|k| | | |]; simpl in *; try done.
    + left. by apply bool_decide_eq_false, dec_stable in Hn.
    + intros [? |Hnew]%elem_of_cons; [done|]. specialize (Hs _ Hnew). simpl in Hs.
      apply andb_false_iff in Hn as [Hn|Hn]; apply bool_decide_eq_false in Hn; [naive_solver|].
      right. by apply dec_stable in Hn.
  - pose proof (Hs l' Hl') as H. destruct l'; simpl; try done.
    intros [<- |Hnew]%elem_of_cons; [|by apply H].
    apply H. by apply admissible_new.
Qed.

Lemma proceed_well_behaved committed s l rest :
  todo s = l :: rest -> well_behaved committed s ->
  well_behaved committed {| todo := rest; holds := if needed committed s l then l :: holds s else holds s |}.
Proof.
  intros Ht [(past & Ho & Hh & Hs)]. rewrite Ht in Ho. destruct Ho as [Ha Ho].
  split. exists (l :: past). destruct (needed committed s l) eqn:Hn; simpl; split_and!; try done; try set_solver.
  - by apply secured_grant.
  - by apply secured_skip.
Qed.

Lemma sound_replace sys i s s' :
  sound sys -> sessions sys !! i = Some s -> well_behaved (rows sys) s' ->
  (forall l, l ∈ holds s' -> l ∈ holds s \/ taken l i (sessions sys) = false) ->
  sound (with_session i s' sys).
Proof.
  intros [Hw He] Hi Hs' Hnew. split; simpl.
  { apply Forall_insert; [done|done]. }
  intros j1 j2 s1 s2 l H1 H2 Hex. revert H1 H2.
  assert (forall j s0, sessions sys !! j = Some s0 -> j <> i -> l ∈ holds s0 -> l ∈ holds s' -> False) as Hno.
  { intros j s0 Hj Hne Hl [H|H]%Hnew.
    - by apply Hne, (He j i s0 s l).
    - assert (taken l i (sessions sys) = true) by (apply taken_true; eauto 8). congruence. }
  rewrite !list_lookup_insert. repeat case_decide; naive_solver.
Qed.

(** Two systems with the same sessions but one, which holds what it held. *)
Lemma sound_commit sys i s :
  sound sys -> sessions sys !! i = Some s ->
  sound {| rows := rows sys ∪ inserted_by s; sessions := <[i := ended]> (sessions sys) |}.
Proof.
  intros Hs Hi.
  destruct (sound_replace sys i s ended Hs Hi (well_behaved_ended _)) as [Hw He]; [set_solver|].
  split; [|exact He]. simpl in *. eapply Forall_impl; [exact Hw|].
  intros s0. apply well_behaved_grows. set_solver.
Qed.

Lemma sound_begin sys plan :
  sound sys -> orderly [] plan -> sound {| rows := rows sys; sessions := sessions sys ++ [asking plan] |}.
Proof.
  intros [Hw He] Ho. split; simpl.
  - apply Forall_app. split; [done|]. apply Forall_singleton. split. exists [].
    split_and!; [done|set_solver|]. intros l Hl. set_solver.
  - intros i j s s' l Hi Hj Hex Hl Hl'.
    apply lookup_app_Some in Hi as [Hi|[_ Hi]], Hj as [Hj|[_ Hj]]; [eauto|..];
      repeat match goal with
      | H : [_] !! _ = Some _ |- _ => apply list_lookup_singleton_Some in H as [_ <-]; simpl in *; set_solver
      end.
Qed.

Lemma play_sound e sys sys' :
  sound sys -> play e sys = Some sys' ->
  match e with Begins plan => orderly [] plan | _ => True end -> sound sys'.
Proof.
  intros Hs Hp Hplan. destruct e as [plan|i|i|i]; simpl in Hp.
  - injection Hp as <-. by apply sound_begin.
  - apply bind_Some in Hp as (s & Hi & Hp).
    destruct (todo s) as [|l rest] eqn:Ht; [done|].
    pose proof (sound_sessions _ Hs) as Hw. rewrite Forall_lookup in Hw. specialize (Hw _ _ Hi).
    apply (proceed_well_behaved _ _ _ _ Ht) in Hw.
    destruct (needed (rows sys) s l).
    + destruct (taken l i (sessions sys)) eqn:Htk; [done|]. injection Hp as <-.
      apply (sound_replace _ _ s); [done..|]. simpl. intros l' [-> |?]%elem_of_cons; auto.
    + injection Hp as <-. apply (sound_replace _ _ s); [done..|]. simpl. auto.
  - apply bind_Some in Hp as (s & Hi & Hp). destruct (todo s), (holds s); try done.
    injection Hp as <-. by apply sound_commit.
  - apply bind_Some in Hp as (s & Hi & [= <-]).
    apply (sound_replace _ _ s); [done|done|apply well_behaved_ended|set_solver].
Qed.

Lemma reachable_sound asked sys :
  (forall plan, asked plan -> orderly [] plan) -> reachable asked sys -> sound sys.
Proof.
  intros Hasked. induction 1 as [r|e sys sys' _ IH Hp He].
  - split; [by constructor|]. by intros [].
  - apply (play_sound e sys); [done..|]. destruct e; auto.
Qed.

(** ** Nobody waits for ever *)

(** Who waits has asked for nothing it does not get before what it waits for,
    or waits for an account or an index entry with the ledger's row in hand. *)
Lemma wait_is_later sys i j l s past rest :
  sound sys -> sessions sys !! i = Some s -> todo s = l :: rest -> waits_for sys i j l ->
  orderly past (todo s) -> secured (rows sys) s past ->
  Forall (fun l' => earlier l' l) past \/ (under_ledger l = true /\ LedgerLock ∈ holds s).
Proof.
  intros [_ He] Hi Ht (s0 & rest0 & s' & Hi0 & Ht0 & Hn & Hj & Hne & Hl & Hex) Ho Hs.
  rewrite Hi in Hi0. injection Hi0 as <-. rewrite Ht in Ho. destruct Ho as [[[Hin Hv]|[Ha|[[Hu Ha]|Hsh]]] _].
  - exfalso. assert (l ∉ holds s) as Hnot by (intros H; by apply Hne, (He i j s s' l)).
    pose proof (Hs l Hin) as Hsec. destruct l as [| | |k|k| | | |]; simpl in Hn; try done.
    + apply bool_decide_eq_true in Hn. naive_solver.
    + apply andb_true_iff in Hn as [_ Hn]. apply bool_decide_eq_true in Hn. naive_solver.
  - by left.
  - right. split; [done|]. by apply (Hs LedgerLock).
  - congruence.
Qed.

(** Along a chain of waits the locks only get later. *)
Lemma waits_in_order sys i j k l l' :
  sound sys -> waits_for sys i j l -> waits_for sys j k l' ->
  earlier l l' \/ (under_ledger l' = true /\
                   exists s, sessions sys !! j = Some s /\ LedgerLock ∈ holds s).
Proof.
  intros Hs (s0 & r0 & s & _ & _ & _ & Hj & _ & Hl & _) Hw. pose proof Hw as (s' & rest & s'' & Hj' & Ht & _).
  rewrite Hj in Hj'. injection Hj' as <-.
  pose proof (sound_sessions _ Hs) as Hall. rewrite Forall_lookup in Hall.
  destruct (Hall _ _ Hj) as [(past & Ho & Hh & Hsec)].
  destruct (wait_is_later _ _ _ _ _ _ _ Hs Hj Ht Hw Ho Hsec) as [H|[Ha Hled]]; [left|right; eauto].
  rewrite Forall_forall in H. apply H. by apply Hh.
Qed.

Lemma under_ledger_last l l' : under_ledger l = true -> ~ earlier l l'.
Proof. intros Hu [H|H]; [destruct l; try done; destruct l'; simpl in H; lia|by destruct l]. Qed.

(** A wait for what is under the ledger's row ends: whoever has it and still
    waits has the ledger's row, which only one session has. *)
Lemma no_wait_under_ledger sys (W : gset nat) i j l0 :
  sound sys -> (forall i, i ∈ W -> exists j l, j ∈ W /\ waits_for sys i j l) ->
  j ∈ W -> under_ledger l0 = true -> ~ waits_for sys i j l0.
Proof.
  intros Hs HW Hj Hu Hw. destruct (HW _ Hj) as (k & l & Hk & Hwj).
  destruct (waits_in_order _ _ _ _ _ _ Hs Hw Hwj) as [H|[Hu' (s & Hsj & Hled)]]; [by eapply under_ledger_last|].
  destruct (HW _ Hk) as (m & l' & Hm & Hwk).
  destruct (waits_in_order _ _ _ _ _ _ Hs Hwj Hwk) as [H|[_ (s' & Hsk & Hled')]]; [by eapply under_ledger_last|].
  assert (j = k) by (by apply (sound_exclusive _ Hs j k s s' LedgerLock)).
  by destruct Hwj as (? & ? & ? & _ & _ & _ & _ & Hne & _).
Qed.

(** The lock a session asks for next. *)
Definition wants (sys : system) (i : nat) : option lock :=
  s ← sessions sys !! i; head (todo s).

Lemma waits_for_wants sys i j l : waits_for sys i j l -> wants sys i = Some l.
Proof. intros (s & rest & s' & Hi & Ht & _). unfold wants. rewrite Hi. simpl. by rewrite Ht. Qed.

Definition wants_later (sys : system) : relation nat := fun i j =>
  match wants sys i, wants sys j with
  | Some l, Some l' => earlier l' l
  | _, _ => False
  end.

#[export] Instance wants_later_dec sys : RelDecision (wants_later sys).
Proof. intros i j. unfold wants_later. destruct (wants sys i), (wants sys j); apply _. Defined.

#[export] Instance wants_later_trans sys : Transitive (wants_later sys).
Proof.
  intros i j k. unfold wants_later. destruct (wants sys i), (wants sys j), (wants sys k); try done.
  intros H1 H2. by etrans.
Qed.

Lemma sound_no_deadlock sys (W : gset nat) : sound sys -> ~ deadlocked sys W.
Proof.
  intros Hs [Hne HW].
  destruct (minimal_exists_elem_of_L (wants_later sys) W Hne) as (i & Hi & Hmin).
  destruct (HW _ Hi) as (j & l & Hj & Hij), (HW _ Hj) as (k & l' & Hk & Hjk).
  destruct (waits_in_order _ _ _ _ _ _ Hs Hij Hjk) as [He|[Hu _]].
  - pose proof (waits_for_wants _ _ _ _ Hij) as Hwi. pose proof (waits_for_wants _ _ _ _ Hjk) as Hwj.
    assert (wants_later sys j i) as Hji by (unfold wants_later; by rewrite Hwi, Hwj).
    apply Hmin in Hji; [|done]. unfold wants_later in Hji. rewrite Hwi, Hwj in Hji.
    apply (irreflexivity earlier l). by etrans.
  - by apply (no_wait_under_ledger _ _ _ _ _ Hs HW Hk Hu Hjk).
Qed.

End collation.

(** ** Progress *)

Section collation.
Context {C : Collation}.

Definition can_move (sys : system) (i : nat) : Prop :=
  is_Some (play (Proceeds i) sys) \/ is_Some (play (Commits i) sys).

#[export] Instance can_move_dec sys i : Decision (can_move sys i).
Proof. unfold can_move. apply _. Defined.

(** A session that is not over and cannot move waits for one that is not
    over. *)
Lemma stuck_waits sys i s :
  sessions sys !! i = Some s -> s <> ended -> ~ can_move sys i ->
  exists j l s', waits_for sys i j l /\ sessions sys !! j = Some s' /\ s' <> ended.
Proof.
  intros Hi Hne Hstuck. unfold can_move in Hstuck. simpl in Hstuck. rewrite Hi in Hstuck. simpl in Hstuck.
  destruct (todo s) as [|l rest] eqn:Ht.
  - destruct (holds s) as [|l ls] eqn:Hh.
    + destruct s; simpl in *; subst. by destruct Hne.
    + destruct Hstuck. right. eauto.
  - destruct (needed (rows sys) s l) eqn:Hn; [|destruct Hstuck; left; eauto].
    destruct (taken l i (sessions sys)) eqn:Htk; [|destruct Hstuck; left; eauto].
    apply taken_true in Htk as (Hex & j & s' & Hj & Hji & Hl).
    exists j, l, s'. split_and!; [|done|].
    + exists s, rest, s'. by split_and!.
    + intros ->. by apply not_elem_of_nil in Hl.
Qed.

Lemma sound_progress sys : sound sys -> all_ended sys \/ exists sys', moves_on sys sys'.
Proof.
  intros Hs. set (running := filter (fun i => sessions sys !! i <> Some ended) (List.seq 0 (length (sessions sys)))).
  destruct (decide (Exists (can_move sys) running)) as [Hm|Hm].
  { apply Exists_exists in Hm as (i & _ & [[sys' H]|[sys' H]]); right; exists sys', i; auto. }
  assert (forall i s, sessions sys !! i = Some s -> s <> ended -> i ∈ running) as Hin.
  { intros i s Hi Hne. apply list_elem_of_filter. split; [congruence|]. apply elem_of_seq.
    apply lookup_lt_Some in Hi. lia. }
  left. destruct (decide (running = [])) as [Hnil|Hnil].
  { apply Forall_lookup. intros i s Hi. destruct (decide (todo s = [] /\ holds s = [])) as [[? ?]|Hne].
    - destruct s; simpl in *; by subst.
    - assert (i ∈ running) as H; [|rewrite Hnil in H; set_solver].
      apply (Hin _ s Hi). intros ->. by apply Hne. }
  destruct (sound_no_deadlock sys (list_to_set running) Hs). split.
  - intros H. apply Hnil. apply elem_of_nil_inv. intros i Hi.
    assert (i ∈ (list_to_set running : gset nat)) as Hi' by (by apply elem_of_list_to_set).
    rewrite H in Hi'. set_solver.
  - intros i Hi%elem_of_list_to_set. pose proof Hi as Hrun.
    apply list_elem_of_filter in Hi as [Hne Hlen%elem_of_seq].
    destruct (lookup_lt_is_Some_2 (sessions sys) i) as [s Hsi]; [lia|].
    destruct (stuck_waits sys i s Hsi) as (j & l & s' & Hw & Hj & Hj'); [congruence| |].
    + intros Hc. apply Hm, Exists_exists. eauto.
    + exists j, l. split; [|done]. apply elem_of_list_to_set. by apply (Hin j s').
Qed.

(** What is left to do. *)
Definition work (s : session) : nat :=
  (2 * length (todo s) + match holds s with [] => 0 | _ => 1 end)%nat.

Definition total_work (sys : system) : nat := sum_list_with work (sessions sys).

Lemma sum_list_with_insert {A} (f : A -> nat) l i x y :
  l !! i = Some x -> (sum_list_with f (<[i := y]> l) + f x = sum_list_with f l + f y)%nat.
Proof.
  revert i. induction l as [|z l IH]; intros [|i] Hi; simplify_eq/=; [lia|].
  specialize (IH _ Hi). lia.
Qed.

Lemma moves_on_less sys sys' : moves_on sys sys' -> (total_work sys' < total_work sys)%nat.
Proof.
  intros (i & [H|H]); simpl in H; apply bind_Some in H as (s & Hi & H); unfold total_work.
  - destruct (todo s) as [|l rest] eqn:Ht; [done|].
    assert (exists h, sys' = with_session i {| todo := rest; holds := h |} sys) as (h & ->).
    { destruct (needed (rows sys) s l); [destruct (taken l i (sessions sys)); [done|]|]; simplify_eq; eauto. }
    simpl. pose proof (sum_list_with_insert work _ _ _ {| todo := rest; holds := h |} Hi) as Hsum.
    unfold work in Hsum at 2 4. rewrite Ht in Hsum. simpl in Hsum. destruct h, (holds s); lia.
  - destruct (todo s) eqn:Ht; [|done]. destruct (holds s) eqn:Hh; [done|]. simplify_eq/=.
    pose proof (sum_list_with_insert work _ _ _ ended Hi) as Hsum.
    unfold work in Hsum at 2 4. rewrite Ht, Hh in Hsum. simpl in Hsum. lia.
Qed.

Lemma moves_on_sound sys sys' : sound sys -> moves_on sys sys' -> sound sys'.
Proof. intros Hs (i & [H|H]); by apply (play_sound _ _ _ Hs H). Qed.

Lemma moves_on_ends sys : Acc (flip moves_on) sys.
Proof.
  remember (total_work sys) as n eqn:Hn. revert sys Hn.
  induction n as [n IH] using lt_wf_ind. intros sys ->. constructor. intros sys' H.
  by apply (IH (total_work sys')); [apply moves_on_less|].
Qed.

(** The requests that keep the order, from any database. *)
Definition asks_in_order (plan : list lock) : Prop :=
  exists d r, in_order r = true /\ plan = locks_of d r.

Lemma asked_in_order_sound sys : reachable asks_in_order sys -> sound sys.
Proof. apply reachable_sound. intros plan (d & r & Hr & ->). by apply locks_of_orderly. Qed.

End collation.

(** ** Never a deadlock *)

Section collation.
Context {C : Collation}.

(** C14: Sessions on one ledger that commit, revert, run batches, write
    transaction metadata, change permissions, close, reopen, register and
    recover never deadlock on what they lock -- rows, entries of unique indexes,
    the shares of foreign keys: however their statements interleave, whichever
    rows exist, whoever fails on the way and whatever the database's collation,
    no set of sessions waits in a circle. Index entries are only asked for with
    the ledger's row in hand, and a share excludes nobody. Only a write to an
    account's metadata is left out, and has to be ([metadata_can_deadlock]). *)
Theorem money_never_deadlocks (sys : system) (W : gset nat) :
  reachable asks_in_order sys -> ~ deadlocked sys W.
Proof. intros Hr. by apply sound_no_deadlock, asked_in_order_sound. Qed.

(** C15: Nobody waits for ever. Once no new session begins, every schedule of
    the sessions there are, all of them of the requests that keep the order,
    comes to an end, and it can only end with all of them over: as long as one is
    not, one of them can move. With a write to an account's metadata among them
    this is false ([metadata_can_deadlock]). *)
Theorem everyone_ends (sys : system) :
  reachable asks_in_order sys ->
  Acc (flip moves_on) sys /\
  forall sys', rtc moves_on sys sys' -> all_ended sys' \/ exists sys'', moves_on sys' sys''.
Proof.
  intros Hr%asked_in_order_sound. split; [apply moves_on_ends|].
  intros sys' Hrun. apply sound_progress. revert Hr.
  induction Hrun as [|a b c Hab _ IH]; [done|]. intros Ha. by apply IH, (moves_on_sound a).
Qed.

Lemma play_all_reachable asked es sys sys' :
  reachable asked sys -> play_all es sys = Some sys' ->
  Forall (fun e => match e with Begins plan => asked plan | _ => True end) es -> reachable asked sys'.
Proof.
  revert sys. induction es as [|e es IH]; intros sys Hr Hp Hes; simpl in Hp; [by simplify_eq|].
  apply bind_Some in Hp as (sys1 & Hp & Hps). apply Forall_cons in Hes as [He Hes].
  by apply (IH sys1); [apply (reachable_play _ e sys)|..].
Qed.

(** The ceilings of a transaction are resolved under its locks. The updates
    are computed again, and ask for the same rows in the same order. *)
Lemma ceilings_keep_locks p q us us' :
  (forall k, touched p k <-> touched q k) -> VolumeUpdates p = Ok us -> VolumeUpdates q = Ok us' ->
  lock_volumes (update_key <$> us) = lock_volumes (update_key <$> us').
Proof.
  intros Ht Hp%volume_updates_Ok Hq%volume_updates_Ok. f_equal. by apply (updates_keys_unique p q).
Qed.

End collation.

(** Two payments in opposite directions: whoever comes second waits for the
    first row it asks for, holding nothing. *)
Definition there : list lock := commit_locks [pay "users:alice" "users:bob" 1] EmptyString EmptyString.
Definition back : list lock := commit_locks [pay "users:bob" "users:alice" 1] EmptyString EmptyString.

Definition both_known : system := idle {[ ("users:alice", "USD/2"); ("users:bob", "USD/2") ]}.

Definition crossing : list turn :=
  [Begins there; Begins back] ++ concat (replicate 4 [Proceeds 0; Proceeds 1]) ++ [Proceeds 0].

Definition crossed : system := default both_known (play_all crossing both_known).

Lemma asks_to_commit p : asks_in_order (commit_locks p EmptyString EmptyString).
Proof. exists new_ledger, (DoCommit p no_options). done. Qed.

Lemma crossed_reachable : reachable asks_in_order crossed.
Proof.
  apply (play_all_reachable _ crossing both_known); [constructor|reflexivity|].
  repeat constructor; apply asks_to_commit.
Qed.

Example second_waits_empty_handed :
  sessions crossed !! 1%nat = Some {| todo := drop 4 back; holds := [AssetShare "USD/2"; AssetShare "USD/2"] |} /\
  play (Proceeds 1) crossed = None /\ is_Some (play (Proceeds 0) crossed).
Proof. split_and!; [reflexivity|reflexivity|vm_compute; by eexists]. Qed.

Lemma money_never_deadlocks_witness : reachable asks_in_order crossed /\ ~ deadlocked crossed {[ 0%nat; 1%nat ]}.
Proof. split; [exact crossed_reachable|exact (money_never_deadlocks crossed {[ 0%nat; 1%nat ]} crossed_reachable)]. Defined.

Lemma everyone_ends_witness : all_ended crossed \/ exists sys, moves_on crossed sys.
Proof. exact (proj2 (everyone_ends crossed crossed_reachable) crossed (rtc_refl _ _)). Defined.

(** ** Outside the order *)

(** [SetAccountMetadata] takes the account's row and then the ledger's; a
    commit takes the ledger's and then the accounts'. *)
Definition tagging : list turn :=
  [Begins there; Begins (set_account_locks "users:bob"); Proceeds 1] ++ replicate 10 (Proceeds 0).

Definition stuck : system := default both_known (play_all tagging both_known).

(** Now the commit has the ledger's row and waits for bob's, which the other
    session has and will not give up before it gets the ledger's. Neither
    plan is long or strange: tagging an account while money arrives on it. *)
Example metadata_can_deadlock :
  play_all tagging both_known = Some stuck /\ deadlocked stuck {[ 0%nat; 1%nat ]}.
Proof.
  split; [vm_compute; reflexivity|]. split; [set_solver|].
  intros i [Hi|Hi]%elem_of_union; apply elem_of_singleton in Hi as ->.
  - exists 1%nat, (AccountLock "users:bob"). split; [set_solver|].
    eexists _, _, _. split_and!; [reflexivity..|lia|by left|reflexivity].
  - exists 0%nat, LedgerLock. split; [set_solver|].
    eexists _, _, _. split_and!; [reflexivity..|lia|by right; left|reflexivity].
Qed.
