(* ===== verification/Service.v ===== *)
(** * A ledger in service

    Any number of requests of any kind, each under its own weather: the
    invariant of every state a ledger reaches, and that the checks of
    [Store.Verify] the commit path answers for never find anything. *)

From S2P Require Import Prelude Identifiers Text Posting Volumes Sha256 GoTime Transaction Codec Encoding Errors Schema Txn Locking Guards Moves History Log Observer Commit Committed Book Chain Sample CommitSpec Replay Effective Read Verify Invariant Revert Bulk MetadataOps Policy Closure Registry Recovery Ledger Refinement VerifyRuns.

(** ** Moves are numbered *)

Record numbered (d : Database) : Prop := {
  nb_first : 1 <= next_seq d;
  nb_range : forall m, m ∈ moves d -> 1 <= seq m < next_seq d;
  nb_unique : NoDup (seq <$> moves d);
}.

Lemma shift_all_seq us at_ m : seq (shift_all us at_ m) = seq m.
Proof.
  unfold shift_all. revert m. induction us as [|u us IH]; intros m; [done|]. simpl. rewrite IH.
  unfold shift_move. by destruct (_ && _).
Qed.

Lemma new_moves_seq t n before effb hs0 hs i :
  seq <$> imap (fun j => new_move t n before effb hs0 (i + j)) hs =
  (fun j => n + Z.of_nat j) <$> List.seq i (length hs).
Proof.
  revert i. induction hs as [|h hs IH]; intros i; [done|]. simpl. f_equal; [simpl; do 2 f_equal; lia|].
  etrans; [|exact (IH (S i))]. f_equal. apply imap_ext. intros j x _. simpl. f_equal. lia.
Qed.

Lemma numbered_ext d d' : moves d' = moves d -> next_seq d' = next_seq d -> numbered d -> numbered d'.
Proof. intros Hm Hn [H1 H2 H3]. split; by rewrite ?Hm, ?Hn. Qed.

Lemma applied_numbered now db_now p opts us t alloc d d' :
  applied now db_now p opts us t alloc d d' -> numbered d -> numbered d'.
Proof.
  intros Ha [H1 H2 H3]. destruct (applied_moves _ _ _ _ _ _ _ _ _ Ha) as (before & effb & _ & _ & Hm & Hn).
  set (hs := halves (TPostings t)) in *.
  assert (seq <$> moves d' = (seq <$> moves d) ++ ((fun j => next_seq d + Z.of_nat j) <$> List.seq 0 (length hs))) as Hseq.
  { rewrite Hm, <-list_fmap_compose. etrans; [apply list_fmap_ext; intros i m _; apply shift_all_seq|].
    rewrite fmap_app. f_equal. apply (new_moves_seq t (next_seq d) before effb hs hs 0). }
  assert (forall z, z ∈ seq <$> moves d' <-> z ∈ seq <$> moves d \/ next_seq d <= z < next_seq d + Z.of_nat (length hs)) as Hin.
  { intros z. rewrite Hseq, elem_of_app. apply or_iff_compat_l. rewrite list_elem_of_fmap. setoid_rewrite elem_of_seq. split.
    - intros (j & -> & ?). lia.
    - intros ?. exists (Z.to_nat (z - next_seq d)). lia. }
  assert (forall z, z ∈ seq <$> moves d -> 1 <= z < next_seq d) as Hold by (intros z (m & -> & Hmz)%list_elem_of_fmap; auto).
  split.
  - lia.
  - intros m Hmd. destruct (proj1 (Hin (seq m)) (list_elem_of_fmap_2 _ _ _ Hmd)) as [Hz%Hold|Hz]; lia.
  - rewrite Hseq. apply NoDup_app. split_and!; [done| |].
    + intros z Hz%Hold (j & -> & _)%list_elem_of_fmap. lia.
    + apply NoDup_fmap_2; [intros ???; lia|]. apply NoDup_ListNoDup, List.seq_NoDup.
Qed.

(** ** The invariant *)

Section codec.
Context {codec : Codec}.

Definition service_ok (d : Database) : Prop := settled_ok d /\ numbered d.

Lemma entry_numbered a pl dt key h d d' : entry_appended a pl dt key h d d' -> numbered d -> numbered d'.
Proof. intros (bytes & _ & _ & _ & ->). by apply numbered_ext. Qed.

Lemma batch_chain_numbered E opts h i d items ts d' :
  batch_chain E opts h i d items ts d' -> numbered d -> numbered d'.
Proof.
  induction 1 as [|i d d1 d2 d' it items t ts us alloc Ha He _ IH]; [done|]. intros Hn. apply IH.
  eapply entry_numbered; [done|]. by eapply applied_numbered.
Qed.

Definition unmoved (d d' : Database) : Prop := moves d' = moves d /\ next_seq d' = next_seq d.

Lemma unmoved_numbered d d' : unmoved d d' -> numbered d -> numbered d'.
Proof. intros [Hm Hn]. by apply numbered_ext. Qed.

(** Every transaction writes an entry. *)
Definition paced (d : Database) : Prop := forall l, ledger_row d = Some l -> last_tx_id l <= last_log_id l.

(** Nothing is filed under an id the counters had passed. *)
Definition filed_above (l : LedgerRow) (d d' : Database) : Prop :=
  (forall id, is_Some (transactions d' !! id) -> is_Some (transactions d !! id) \/ last_tx_id l < id) /\
  (forall id, is_Some (logs d' !! id) -> is_Some (logs d !! id) \/ last_log_id l < id).

(** The counters only grow, and ids come from above them. *)
Definition advances (d d' : Database) : Prop :=
  (forall l, ledger_row d = Some l -> exists l', ledger_row d' = Some l' /\
     last_tx_id l <= last_tx_id l' /\ last_log_id l <= last_log_id l' /\ filed_above l d d') /\
  (paced d -> paced d').

#[export] Instance advances_preorder : PreOrder advances.
Proof.
  split; [intros d; split; [|done]; intros l Hl; exists l; split_and!; [done|lia|lia|by split; left]|].
  intros d1 d2 d3 [H1 P1] [H2 P2]. split; [|by auto]. intros l (l2 & Hl2 & ? & ? & Ht & Hg)%H1.
  apply H2 in Hl2 as (l3 & Hl3 & ? & ? & Ht2 & Hg2). exists l3. split_and!; [done|lia|lia|]. split.
  - intros id [Hi|Hi]%Ht2; [by apply Ht|right; lia].
  - intros id [Hi|Hi]%Hg2; [by apply Hg|right; lia].
Qed.

(** The same transactions and entries are there, whatever they say. *)
Definition same_ids (d d' : Database) : Prop :=
  ledger_row d' = ledger_row d /\ (forall id, is_Some (transactions d' !! id) -> is_Some (transactions d !! id)) /\
  logs d' = logs d.

Lemma advances_same d d' : same_ids d d' -> advances d d'.
Proof.
  intros (He & Ht & Hg). split; [|unfold paced; by rewrite He]. intros l Hl. exists l. rewrite He.
  split_and!; [done|lia|lia|]. split; intros id Hid; left; [by apply Ht|by rewrite <-Hg].
Qed.

Lemma same_ids_map (f : TransactionRow -> TransactionRow) id d :
  same_ids d (set_transactions (alter f id (transactions d)) d).
Proof. split_and!; [done| |done]. intros i. cbn. by rewrite lookup_alter_is_Some. Qed.

Lemma benign_same_ids d d' : benign d d' -> same_ids d d'.
Proof.
  intros H. split_and!; [by apply H| |by apply H]. intros id Hid.
  pose proof (be_transactions _ _ H id) as He. destruct Hid as [r Hr]. rewrite Hr in He. by destruct (transactions d !! id).
Qed.

(** One entry under the next log id, and at most one transaction. *)
Lemma advances_bump d d' l tx :
  ledger_row d = Some l -> 0 <= tx <= 1 ->
  (exists l', ledger_row d' = Some l' /\ last_tx_id l' = last_tx_id l + tx /\ last_log_id l' = last_log_id l + 1) ->
  filed_above l d d' -> advances d d'.
Proof.
  intros Hl Ht (l' & Hl' & Htx & Hlog) Hf. split.
  - intros l0 Hl0. simplify_eq. exists l'. split_and!; [done|lia|lia|done].
  - intros Hp l0 Hl0. specialize (Hp l Hl). simplify_eq. lia.
Qed.

Lemma insert_above {A} (m : gmap Z A) i x id : is_Some (<[i := x]> m !! id) -> is_Some (m !! id) \/ i - 1 < id.
Proof. intros [->|[_ H]]%lookup_insert_is_Some; [right; lia|by left]. Qed.

(** No move, and no counter back. *)
Definition steady (d d' : Database) : Prop := unmoved d d' /\ advances d d'.

Lemma steady_same d d' : unmoved d d' -> same_ids d d' -> steady d d'.
Proof. intros Hu Hl. split; [done|by apply advances_same]. Qed.

Lemma mutate_steady E apply p d :
  (forall f d0 b d1, apply f d0 = Ok (b, d1) -> benign d0 d1) ->
  steady d (mutateMetadata E apply p d).2 \/ steady (landed E d) (mutateMetadata E apply p d).2.
Proof.
  intros Happ. destruct (mutateMetadata E apply p d) as [r d'] eqn:H. simpl.
  apply mutate_cases in H as [(e & -> & [-> | ->])|(changed & d1 & d2 & -> & Ha & -> & Hc)].
  { left. by apply steady_same. }
  { right. by apply steady_same. }
  right. pose proof (Happ _ _ _ _ Ha) as Hb.
  assert (steady d1 d2) as [[Hm Hn] Hadv].
  { destruct changed; [|subst; by apply steady_same].
    destruct Hc as (a & d3 & (l & Hl & -> & -> & _)%allocate_row_Ok & (bytes & _ & _ & _ & ->)). split; [done|].
    eapply (advances_bump _ _ l 0); [done|lia|by eexists|]. split; [by left|]. cbn. intros id Hid%insert_above.
    destruct Hid; [by left|right; lia]. }
  split; [split; cbn; [by rewrite Hm; apply Hb|by rewrite Hn; apply Hb]|].
  etrans; [by apply advances_same, benign_same_ids|]. etrans; [exact Hadv|]. by apply advances_same.
Qed.

Lemma metadata_steady E id a m k d :
  (steady d (SetTransactionMetadata E id m d).2 \/ steady (landed E d) (SetTransactionMetadata E id m d).2) /\
  (steady d (DeleteTransactionMetadataKey E id k d).2 \/ steady (landed E d) (DeleteTransactionMetadataKey E id k d).2) /\
  (steady d (SetAccountMetadata E a m d).2 \/ steady (landed E d) (SetAccountMetadata E a m d).2) /\
  (steady d (DeleteAccountMetadataKey E a k d).2 \/ steady (landed E d) (DeleteAccountMetadataKey E a k d).2).
Proof.
  assert (forall d, steady d d) as Hrefl by (intros d0; by apply steady_same).
  split_and!.
  - unfold SetTransactionMetadata. destruct (validateMetadata m); [|by left]. rewrite then_read_db.
    apply mutate_steady. intros *. apply merge_benign.
  - unfold DeleteTransactionMetadataKey. case_bool_decide; [by left|]. rewrite then_read_db.
    apply mutate_steady. intros *. apply drop_benign. apply drop_transaction_benign.
  - unfold SetAccountMetadata. destruct (negb _); [by left|]. destruct (validateMetadata m); [|by left].
    rewrite then_read_db. apply mutate_steady. intros *. apply upsert_benign.
  - unfold DeleteAccountMetadataKey. case_bool_decide; [by left|]. rewrite then_read_db.
    apply mutate_steady. intros *. apply drop_benign. apply drop_account_benign.
Qed.

(** ** One request keeps it *)

Lemma hex_encode_ascii s : forall_char is_ascii (hex_encode s) = true.
Proof. induction s as [|c s IH]; [done|]. cbn [hex_encode forall_char]. rewrite IH. by destruct c as [[] [] [] [] [] [] [] []]. Qed.

Lemma text_map_ok_insert k v m :
  utf8_valid k = true -> utf8_valid v = true -> text_map_ok m -> text_map_ok (<[k := v]> m).
Proof. intros Hk Hv Hm. by apply map_Forall_insert_2. Qed.

Lemma batch_metadata_ok items opts h :
  Forall (fun it => text_map_ok (default ∅ (BMetadata it))) items -> batchIdempotencyHash items opts = Ok h ->
  Forall (fun it => text_map_ok (AOMetadata (item_options opts h it))) items.
Proof.
  intros Hall Hh. eapply Forall_impl; [exact Hall|]. intros it Hit. simpl. case_bool_decide as Hk; [done|].
  apply text_map_ok_insert; [done| |done]. unfold batchIdempotencyHash in Hh. rewrite bool_decide_false in Hh by done.
  destruct (marshal_inputs _) as [b|]; [|done]. injection Hh as <-. apply ascii_utf8_valid, hex_encode_ascii.
Qed.

(** The other sessions keep it too. *)
Definition neighbourly (W : Weather) : Prop := forall n d, service_ok d -> service_ok (landed (attempt_env W n) d).

(** What an attempt leaves. *)
Lemma landed_commit_service E p opts h d0 t d' :
  Validate p = None -> text_map_ok (default ∅ (OMetadata opts)) ->
  landed_commit E p opts h d0 t d' -> service_ok d0 -> service_ok d'.
Proof.
  intros Hv Hm Hc [[Hok _] Hn]. pose proof Hc as [(us & alloc & d1 & Ha & bytes & _ & _ & _ & ->) _]. split.
  - destruct (landed_commit_step _ _ _ _ _ _ _ Hc Hv Hm) as (d2 & Hst & Hd). rewrite Hd. split; [|done].
    by eapply pending_ok, transaction_step_ok.
  - apply (numbered_ext d1); [done..|]. by eapply applied_numbered.
Qed.

Lemma landed_revert_service E id opts d0 rev d' :
  int64_ok id -> landed_revert E id opts d0 rev d' -> service_ok d0 -> service_ok d'.
Proof.
  intros Hid Hl [[Hok _] Hn]. split.
  - destruct (landed_revert_step _ _ _ _ _ _ Hl Hok Hid) as (d2 & Hst & ->). split; [|done].
    by eapply pending_ok, transaction_step_ok.
  - destruct Hl as [(row & us & alloc & d1 & d2 & _ & _ & _ & (inv & _ & Ha) & He & ->)].
    apply (numbered_ext d2); [done..|]. eapply entry_numbered; [done|].
    apply (numbered_ext d1); [done..|]. by eapply applied_numbered.
Qed.

Lemma landed_batch_service E items opts h d0 ts d' :
  Forall (fun it => text_map_ok (default ∅ (BMetadata it))) items -> Forall (fun it => Validate (BPostings it) = None) items ->
  batchIdempotencyHash items opts = Ok h -> landed_batch E items opts h d0 ts d' -> service_ok d0 -> service_ok d'.
Proof.
  intros Hm Hval Hh [(d1 & d2 & [Hsm _] & Hch & ->) _] [[Hok _] Hn]. split.
  - split; [|done]. apply pending_ok. eapply batch_chain_ok; [exact Hch| |by eapply same_money_ok].
    apply Forall_and. split; [done|by apply batch_metadata_ok].
  - apply (numbered_ext d2); [done..|]. eapply batch_chain_numbered; [done|].
    apply (numbered_ext d0); [apply Hsm..|done].
Qed.

(** Whatever holds of sound ledgers and of each attempt's mark holds of the call. *)
Lemma posting_keeps (I : Database -> Prop) W r s :
  (forall n d, I d -> I (landed (attempt_env W n) d)) -> (forall d, I d -> service_ok d) -> request_ok r ->
  (forall n d0 d', I d0 -> service_ok d' ->
     match r with
     | DoCommit p opts => exists h t, landed_commit (attempt_env W n) p opts h d0 t d'
     | DoRevert id opts => exists rev, landed_revert (attempt_env W n) id opts d0 rev d'
     | DoBatch items opts => exists h ts, landed_batch (attempt_env W n) items opts h d0 ts d'
     | _ => False
     end -> I d') ->
  match r with DoCommit _ _ | DoRevert _ _ | DoBatch _ _ => I (db s) -> I (db (serve W r s).2) | _ => True end.
Proof.
  intros HW HI Hr Hstep. destruct r as [p opts|id opts|items opts|id m|id k|a m|a k|a c allow|a c allow|a|a|a|name w note];
    try done; intros Hs; unfold serve.
  - destruct (CommitTransaction W p opts s) as [x s'] eqn:H. apply (commit_keeps I W p opts s x s' H HW); [|done].
    intros n h d0 t d' Hv _ Hc Hd. eapply Hstep; [exact Hd| |by eexists _, _]. eapply landed_commit_service; eauto.
  - pose proof (revert_keeps_any I W id opts s HW) as H. destruct (RevertTransaction W id opts s). apply H; [|done].
    intros n d0 rev d' Hl Hd. eapply Hstep; [exact Hd| |by eexists]. eapply landed_revert_service; eauto.
  - pose proof (batch_keeps_any I W items opts s HW) as H. destruct (CommitBatch W items opts s). apply H; [|done].
    intros n h d0 ts d' Hval Hh Hl Hd. eapply Hstep; [exact Hd| |by eexists _, _]. eapply landed_batch_service; eauto.
Qed.

Lemma permission_steady f a c allow d :
  steady d (SetAllowNegative f a c allow d).2 /\ steady d (SetAllowPositive f a c allow d).2.
Proof.
  assert (forall flip, (forall r, volumes_of (flip r) = volumes_of r) ->
    steady d (autocommit f (exec SExec (upsert_permission flip (a, c))) d).2) as H.
  { intros flip Hf. destruct (autocommit _ _ d) as [r d'] eqn:Hac. simpl.
    apply autocommit_cases in Hac as [(e & -> & ->)|(u & d1 & -> & He & ->)]; [by apply steady_same|].
    apply exec_Ok in He as [_ [_ ->]%upsert_permission_Ok]; [by apply steady_same|done]. }
  unfold SetAllowNegative, SetAllowPositive. destruct (policy_target a c allow); [|by split; apply steady_same].
  split; by apply H.
Qed.

Lemma closure_steady E a d :
  (steady d (CloseAccount E id a d).2 \/ steady (landed E d) (CloseAccount E id a d).2) /\
  steady d (ReopenAccount E a d).2.
Proof.
  assert (forall d, steady d d) as Hrefl by (intros d0; by apply steady_same).
  split.
  - unfold CloseAccount. destruct (negb (Address_Valid a)), (is_world a), (fault E SBegin); try by left.
    unfold query, stmt. destruct (fault E SLockRows); [by right|]. destruct (held _ _); [|by right].
    unfold transact, close_body. right. unfold id.
    destruct (bind _ _ (fault E) (landed E d)) as [[o d']|e] eqn:Hb; [|done].
    apply bind_Ok in Hb as (u & d1 & He & Hb). apply exec_Ok in He as [_ [= <-]].
    apply commit_Ok in Hb as (_ & _ & -> & ->). by apply steady_same.
  - unfold ReopenAccount. destruct (negb _); [done|]. destruct (autocommit _ _ d) as [x d1] eqn:Hac.
    apply autocommit_cases in Hac as [(e & -> & ->)|(n & d2 & -> & Hs & ->)]; [done|].
    apply stmt_Ok in Hs as [_ [= Hs]]. unfold reopen_row in Hs. repeat case_match; simplify_eq; by apply steady_same.
Qed.

Lemma register_steady E a d : steady d (RegisterAsset E a d).2.
Proof.
  unfold RegisterAsset. destruct (negb (Asset_Valid a)); [by apply steady_same|]. destruct (autocommit _ _ d) as [x d1] eqn:Hac.
  apply autocommit_cases in Hac as [(e & -> & ->)|(n & d2 & -> & Hs & ->)].
  - repeat case_match; simplify_eq; by apply steady_same.
  - apply exec_Ok in Hs as [_ [[_ ->]|(_ & _ & ->)]%insert_asset_Ok]; by apply steady_same.
Qed.

Lemma recovery_unmoved E name w note d :
  unmoved d (RecordRecovery E name w note d).2 \/ unmoved (landed E d) (RecordRecovery E name w note d).2.
Proof.
  destruct (RecordRecovery E name w note d) as [r d'] eqn:H. simpl.
  apply RecordRecovery_cases in H as [[-> | ->]|[_ [(l & bytes & id & _ & _ & _ & _ & _ & _ & ->)]]];
    [by left|by right|by right].
Qed.

Lemma service_settled W r s :
  request_ok r -> neighbourly W -> service_ok (db s) -> service_ok (db (serve W r s).2).
Proof.
  intros Hr HW Hs. pose proof Hs as [Hok Hn]. set (E := attempt_env W 0).
  assert (forall d, service_ok d -> service_ok (landed E d)) as HE by apply HW.
  assert (forall d d', settled_ok d' -> unmoved d d' -> service_ok d -> service_ok d') as Hsame.
  { intros d d' Hd' Hu [_ Hnd]. split; [done|by eapply unmoved_numbered]. }
  assert (forall d', settled_ok d' -> unmoved (db s) d' \/ unmoved (landed E (db s)) d' -> service_ok d') as Hmove.
  { intros d' Hd' [Hu|Hu]; [by apply (Hsame (db s))|by apply (Hsame (landed E (db s))); [| |apply HE]]. }
  assert (forall d', settled_ok d' -> steady (db s) d' \/ steady (landed E (db s)) d' -> service_ok d') as Hmeta.
  { intros d' Hd' [[Hu _]|[Hu _]]; apply Hmove; auto. }
  assert (service_ok (landed E (db s))) as [Hlok _] by by apply HE.
  destruct r as [p opts|id opts|items opts|id m|id k|a m|a k|a c allow|a c allow|a|a|a|name w note]; unfold serve, on_db.
  - by apply (posting_keeps service_ok W (DoCommit p opts)).
  - by apply (posting_keeps service_ok W (DoRevert id opts)).
  - by apply (posting_keeps service_ok W (DoBatch items opts)).
  - destruct (metadata_settled E id "" m "" (db s) Hok Hlok) as (Hk & _).
    destruct (metadata_steady E id "" m "" (db s)) as (Hu & _).
    fold E. destruct (SetTransactionMetadata E id m (db s)). by apply Hmeta.
  - destruct (metadata_settled E id "" ∅ k (db s) Hok Hlok) as (_ & Hk & _).
    destruct (metadata_steady E id "" ∅ k (db s)) as (_ & Hu & _).
    fold E. destruct (DeleteTransactionMetadataKey E id k (db s)). by apply Hmeta.
  - destruct (metadata_settled E 0 a m "" (db s) Hok Hlok) as (_ & _ & Hk & _).
    destruct (metadata_steady E 0 a m "" (db s)) as (_ & _ & Hu & _).
    fold E. destruct (SetAccountMetadata E a m (db s)). by apply Hmeta.
  - destruct (metadata_settled E 0 a ∅ k (db s) Hok Hlok) as (_ & _ & _ & Hk).
    destruct (metadata_steady E 0 a ∅ k (db s)) as (_ & _ & _ & Hu).
    fold E. destruct (DeleteAccountMetadataKey E a k (db s)). by apply Hmeta.
  - destruct (policy_keeps_ledger (fault E) a c allow (db s) Hok) as [Hk _].
    destruct (permission_steady (fault E) a c allow (db s)) as [Hu _].
    fold E. destruct (SetAllowNegative (fault E) a c allow (db s)). apply Hmeta; [done|by left].
  - destruct (policy_keeps_ledger (fault E) a c allow (db s) Hok) as [_ Hk].
    destruct (permission_steady (fault E) a c allow (db s)) as [_ Hu].
    fold E. destruct (SetAllowPositive (fault E) a c allow (db s)). apply Hmeta; [done|by left].
  - fold E. pose proof (close_settled E a (db s) Hok Hlok) as Hk. destruct (closure_steady E a (db s)) as [Hu _].
    destruct (CloseAccount E _ a (db s)). by apply Hmeta.
  - fold E. pose proof (reopen_settled E a (db s) Hok) as Hk. destruct (closure_steady E a (db s)) as [_ Hu].
    destruct (ReopenAccount E a (db s)). apply Hmeta; [done|by left].
  - fold E. pose proof (register_keeps_ledger E a (db s) Hok) as Hk. pose proof (register_steady E a (db s)) as Hu.
    destruct (RegisterAsset E a (db s)). apply Hmeta; [done|by left].
  - fold E. destruct Hr as [Hw Hnote]. pose proof (recovery_unmoved E name w note (db s)) as Hu.
    destruct (RecordRecovery E name w note (db s)) as [x d'] eqn:Hrec. apply Hmove; [|done].
    apply RecordRecovery_cases in Hrec as [[-> | ->]|[_ Hrec]]; [done|done|by eapply recovered_settled].
Qed.

(** ** Any number of requests *)

Fixpoint serve_all (calls : list (Weather * Request)) (s : Store) : Store :=
  match calls with
  | [] => s
  | (W, r) :: calls => serve_all calls (serve W r s).2
  end.

Definition honest (call : Weather * Request) : Prop := request_ok call.2 /\ neighbourly call.1.

Lemma serve_all_ok calls s : Forall honest calls -> service_ok (db s) -> service_ok (db (serve_all calls s)).
Proof.
  revert s. induction calls as [|[W r] calls IH]; intros s; [done|]. intros [[Hr HW] Hall]%Forall_cons Hs.
  simpl. apply IH; [done|]. by apply service_settled.
Qed.

(** ** What the checks find *)

Lemma conservation_drift d a : (conservation_row d a).1 = drift d a.
Proof.
  unfold conservation_row, drift, map_sum. cbn [fst]. induction (map_to_list (volumes d)) as [|[k r] l IH]; [done|].
  rewrite sumZ_cons. cbn [fst snd]. case_decide as Hk.
  - rewrite filter_cons_True, !sumZ_cons by done. cbn [snd]. unfold Balance. unfold Balance in IH. lia.
  - rewrite filter_cons_False by done. lia.
Qed.

Lemma conservation_silent d : (forall a, drift d a = 0) -> (VerifyConservation d).2 = [].
Proof.
  intros Hd. unfold VerifyConservation. cbn [snd]. apply elem_of_nil_inv. intros x (r & Hr & Hx)%list_elem_of_omap.
  apply list_elem_of_fmap in Hr as (a & -> & _). cbn [fst snd] in Hx. rewrite conservation_drift, Hd in Hx. done.
Qed.

Lemma effective_silent d :
  NoDup (seq <$> moves d) -> histories_ok (moves d) (next_seq d) -> is_ok (VerifyEffectiveVolumes d).2 = true.
Proof.
  intros Hnd Hh. pose proof (verify_effective_spec d Hnd) as Hs.
  destruct (VerifyEffectiveVolumes d) as [n [u|e]]; [done|]. destruct Hs as (_ & m & Hm & Hd & _).
  exfalso. apply Hd. by apply (effective_ok _ _ Hh).
Qed.

Lemma log_silent d : log_ok d -> is_ok (VerifyLog d).2 = true.
Proof.
  unfold log_ok. destruct (ledger_row d) as [l|].
  - intros [Hv _ _ _ _ _]. by rewrite Hv.
  - intros [Hl _]. unfold VerifyLog. by rewrite Hl, map_rows_empty by apply _.
Qed.

Lemma service_verifies d :
  service_ok d ->
  Forall (fun c => c.2.2 = None) (take 4 (checks d)) /\
  (take 4 (checks d)).*1 = ["conservation"; "log"; "projection"; "effective_volumes"] /\
  (bounded d -> closed_empty d -> Forall (fun c => c.2.2 = None) (checks d)).
Proof.
  intros [[[Hsound Hlog _ Hp _] _] Hn].
  assert (joined Drifted (VerifyConservation d).2 = None) as H1
    by (apply joined_None, conservation_silent, (sound_conserved _ Hsound)).
  assert (err_of LogBroken (VerifyLog d).2 = None) as H2 by (by apply err_of_None, log_silent).
  assert (err_of ProjectionBroken (VerifyProjection d).2 = None) as H3
    by (by rewrite (proj2 (verify_projection_passes d) Hp)).
  assert (err_of EffectiveWrong (VerifyEffectiveVolumes d).2 = None) as H4
    by (apply err_of_None, effective_silent; [apply (nb_unique _ Hn)|apply (sound_histories _ Hsound)]).
  split_and!; [by repeat constructor|done|]. intros Hb He.
  assert (joined OutOfBounds (VerifyBalancePermissions d).2 = None) as H5 by (by apply joined_None, permissions_silent).
  assert (joined ClosedHolding (VerifyClosedAccounts d).2 = None) as H6 by (by apply joined_None, closed_silent).
  by repeat constructor.
Qed.

(** A ledger nobody wrote to. *)
Lemma empty_service : service_ok empty_database.
Proof.
  split.
  - split; [|done]. split.
    + split.
      * intros a. unfold drift. simpl. by rewrite map_sum_empty.
      * done.
      * intros k. unfold volume_at. simpl. by rewrite lookup_empty.
      * intros k. unfold volume_at. simpl. by rewrite lookup_empty.
      * split; intros m Hm; by apply not_elem_of_nil in Hm.
    + done.
    + intros i j r r' k Hi. cbn in Hi. by rewrite lookup_empty in Hi.
    + apply verify_projection_passes. by vm_compute.
    + apply map_Forall_empty.
  - split; [done|by intros m ?%not_elem_of_nil|constructor].
Qed.

(** C2: the book is sound in every state the service reaches. Serve any number
    of requests of any kind, each under its own failures and its own
    neighbours: conservation, the hash chain of the log, the projection of the
    log and the effective snapshots of every move all still verify -- the
    checks of [Store.Verify] that no configuration change can make fail. *)
Theorem every_state_verifies (calls : list (Weather * Request)) (s : Store) :
  Forall honest calls -> service_ok (db s) ->
  let d := db (serve_all calls s) in
  Forall (fun c => c.2.2 = None) (take 4 (checks d)) /\
  (take 4 (checks d)).*1 = ["conservation"; "log"; "projection"; "effective_volumes"] /\
  (bounded d -> closed_empty d -> Forall (fun c => c.2.2 = None) (checks d)).
Proof. intros Hc Hs. by apply service_verifies, serve_all_ok. Qed.

End codec.

(** ** At a concrete ledger *)

Lemma one_user : fellow_users calm.
Proof. intros n d Hd. split; [exact Hd|]. exists []. by apply plays_nil. Qed.

Lemma new_ledger_service : service_ok new_ledger.
Proof.
  split; [apply new_ledger_settled|]. split; simpl; [done|by intros m ?%not_elem_of_nil|constructor].
Qed.

Definition a_day : list (Weather * Request) :=
  [(calm, DoCommit deposit no_options); (calm, DoCloseAccount empty_account);
   (calm, DoRevert 1 {| AtEffectiveDate := true |}); (calm, DoRegisterAsset "EUR/2")].

Lemma a_day_honest : Forall honest a_day.
Proof.
  assert (neighbourly calm) as Hn by (intros n d H; exact H).
  constructor; [split; [apply map_Forall_empty|exact Hn]|].
  constructor; [split; [exact I|exact Hn]|].
  constructor; [split; [|exact Hn]|]; [split; vm_compute; discriminate|].
  constructor; [split; [exact I|exact Hn]|constructor].
Qed.

Lemma every_state_verifies_witness : Forall (fun c => c.2.2 = None) (take 4 (checks (db (serve_all a_day new_store)))).
Proof. exact (proj1 (every_state_verifies a_day new_store a_day_honest new_ledger_service)). Defined.

