(* ===== verification/Triggers.v ===== *)
(** * What the database lets anybody change

    The guards that make the tables append only
    ([20260903124334_database_enforced_invariants.sql],
    [20260903135526_asset_registry.sql],
    [20260904055445_closable_accounts.sql]): which rows stay, which columns of
    them may change, whoever writes. That what each statement of package storage
    changes, when it succeeds, is what they admit, and so that no traffic, with
    neighbours held to the same guards, rewrites what was recorded. The
    statements of the model do not run these guards: that they would pass is
    shown of the tables around them. *)

From S2P Require Import Prelude Identifiers Text Posting Volumes Sha256 GoTime Transaction Codec Encoding Errors Schema Txn Locking Guards Moves Log Observer Commit Committed Book Chain Sample CommitSpec Invariant Read Revert Bulk MetadataOps Policy Closure Registry Recovery Refinement Service.

(** ** The guards *)

#[export] Instance transaction_row_eq_dec : EqDecision TransactionRow.
Proof. solve_decision. Defined.

#[export] Instance move_row_eq_dec : EqDecision MoveRow.
Proof. solve_decision. Defined.

#[export] Instance account_row_eq_dec : EqDecision AccountRow.
Proof. solve_decision. Defined.

(** [giro_only_change]: the rows are the same without the allowed columns,
    which [strip] blanks. *)
Definition giro_only_change {R} `{EqDecision R} (strip : R -> R) (old new : R) : res error unit :=
  when (negb (bool_decide (strip old = strip new))) (PgError restrictViolation).

(** [transactions_limited_change '{reverted_at,metadata}'] *)
Definition strip_transaction (r : TransactionRow) : TransactionRow :=
  {| timestamp := timestamp r; inserted_at := inserted_at r; reverted_at := None; reference := reference r;
     postings := postings r; tx_metadata := ∅; sources := sources r; destinations := destinations r;
     pc_volumes := pc_volumes r |}.

(** [moves_limited_change '{pcev_input,pcev_output}'] *)
Definition strip_move (r : MoveRow) : MoveRow :=
  {| seq := seq r; tx_id := tx_id r; move_key := move_key r; amount := amount r; is_source := is_source r;
     effective_date := effective_date r; move_inserted := move_inserted r; pcv := pcv r; pcev := NewVolumes |}.

(** [accounts_limited_change '{metadata,first_usage,updated_at,closed}'] *)
Definition strip_account (r : AccountRow) : AccountRow :=
  {| address_array := address_array r; metadata := ∅; first_usage := 0; insertion_date := insertion_date r;
     updated_at := 0; closed := false |}.

(** Rows of a table that are still there, each through its guard. *)
Definition kept {K R} `{Countable K} (guard : R -> R -> res error unit) (m m' : gmap K R) : Prop :=
  forall k r, m !! k = Some r -> exists r', m' !! k = Some r' /\ guard r r' = Ok tt.

(** [giro_append_only], [giro_assets_are_permanent]: no update passes. *)
Definition unchanged {K R} `{Countable K} (m m' : gmap K R) : Prop :=
  forall k r, m !! k = Some r -> m' !! k = Some r.

(** What lies between two states of the tables when every row event passed. *)
Record admitted (d d' : Database) : Prop := {
  adm_logs : unchanged (logs d) (logs d');
  adm_assets : unchanged (assets d) (assets d');
  adm_transactions : kept (giro_only_change strip_transaction) (transactions d) (transactions d');
  adm_accounts : kept (giro_only_change strip_account) (accounts d) (accounts d');
  adm_moves : exists rows new, moves d' = rows ++ new /\
    Forall2 (fun m m' => giro_only_change strip_move m m' = Ok tt) (moves d) rows;
  adm_volumes : kept volumes_monotonic (volumes d) (volumes d');
  adm_ledger : forall l, ledger_row d = Some l ->
    exists l', ledger_row d' = Some l' /\ counters_monotonic l l' = Ok tt;
}.

(** ** The guards compose *)

Lemma only_change_iff {R} `{EqDecision R} (strip : R -> R) old new :
  giro_only_change strip old new = Ok tt <-> strip old = strip new.
Proof. unfold giro_only_change. rewrite when_Ok, negb_false_iff, bool_decide_eq_true. done. Qed.

Lemma monotonic_iff old new :
  volumes_monotonic old new = Ok tt <->
  Input (volumes_of old) <= Input (volumes_of new) /\ Output (volumes_of old) <= Output (volumes_of new).
Proof.
  unfold volumes_monotonic. rewrite rbind_Ok. setoid_rewrite when_Ok. split.
  - intros ([] & H1%when_Ok & H2). lia.
  - intros [H1 H2]. exists tt. rewrite when_Ok. lia.
Qed.

Lemma counters_iff old new :
  counters_monotonic old new = Ok tt <-> last_tx_id old <= last_tx_id new /\ last_log_id old <= last_log_id new.
Proof.
  unfold counters_monotonic. rewrite rbind_Ok. split.
  - intros ([] & H1%when_Ok & H2%when_Ok). lia.
  - intros [H1 H2]. exists tt. rewrite !when_Ok. lia.
Qed.

Lemma kept_refl {K R} `{Countable K} (guard : R -> R -> res error unit) (m : gmap K R) :
  (forall r, guard r r = Ok tt) -> kept guard m m.
Proof. intros Hg k r Hr. eauto. Qed.

Lemma kept_trans {K R} `{Countable K} (guard : R -> R -> res error unit) (m1 m2 m3 : gmap K R) :
  (forall r1 r2 r3, guard r1 r2 = Ok tt -> guard r2 r3 = Ok tt -> guard r1 r3 = Ok tt) ->
  kept guard m1 m2 -> kept guard m2 m3 -> kept guard m1 m3.
Proof. intros Hg H1 H2 k r (r2 & Hr2 & Hg2)%H1. apply H2 in Hr2 as (r3 & ? & ?). eauto. Qed.

#[export] Instance admitted_preorder : PreOrder admitted.
Proof.
  split.
  - intros d. split.
    + by intros k r.
    + by intros k r.
    + apply kept_refl. intros r. by apply only_change_iff.
    + apply kept_refl. intros r. by apply only_change_iff.
    + exists (moves d), []. rewrite app_nil_r. split; [done|].
      apply Forall_Forall2_diag, Forall_true. intros m. by apply only_change_iff.
    + apply kept_refl. intros r. by apply monotonic_iff.
    + intros l Hl. exists l. split; [done|]. by apply counters_iff.
  - intros d1 d2 d3 [Hl1 Ha1 Ht1 Hc1 (rows1 & new1 & Hm1 & Hf1) Hv1 Hr1] [Hl2 Ha2 Ht2 Hc2 (rows2 & new2 & Hm2 & Hf2) Hv2 Hr2].
    split.
    + intros k r Hk. by apply Hl2, Hl1.
    + intros k r Hk. by apply Ha2, Ha1.
    + eapply kept_trans; [|done..]. intros r1 r2 r3. rewrite !only_change_iff. congruence.
    + eapply kept_trans; [|done..]. intros r1 r2 r3. rewrite !only_change_iff. congruence.
    + rewrite Hm1 in Hf2. apply Forall2_app_inv_l in Hf2 as (rows & rest & Hf & Hrest & ->).
      exists rows, (rest ++ new2). rewrite Hm2, <-app_assoc. split; [done|].
      eapply Forall2_trans; [|exact Hf1|exact Hf]. intros m1 m2 m3. rewrite !only_change_iff. congruence.
    + eapply kept_trans; [|done..]. intros r1 r2 r3. rewrite !monotonic_iff. lia.
    + intros l (l2 & Hl2' & Hc)%Hr1. apply Hr2 in Hl2' as (l3 & Hl3 & Hc'). exists l3. split; [done|].
      apply counters_iff in Hc, Hc'. apply counters_iff. lia.
Qed.

(** ** Writing one table *)

(** A row put where none was, or in the place of one the guard lets it
    replace. *)
Lemma kept_insert {K R} `{Countable K} (guard : R -> R -> res error unit) (m : gmap K R) k r :
  (forall r, guard r r = Ok tt) -> (forall old, m !! k = Some old -> guard old r = Ok tt) ->
  kept guard m (<[k := r]> m).
Proof.
  intros Hg Hk k' r' Hr'. destruct (decide (k = k')) as [<-|Hne].
  - exists r. by rewrite lookup_insert_eq; auto.
  - exists r'. by rewrite lookup_insert_ne.
Qed.

Lemma unchanged_insert {K R} `{Countable K} (m : gmap K R) k r : m !! k = None -> unchanged m (<[k := r]> m).
Proof. intros Hk k' r' Hr'. by rewrite lookup_insert_ne by congruence. Qed.

Lemma admitted_volumes m p d :
  kept volumes_monotonic (volumes d) m -> admitted d (set_pending p (set_volumes m d)).
Proof. intros Hv. destruct (reflexivity (R := admitted) d). by split. Qed.

Lemma admitted_transactions m d :
  kept (giro_only_change strip_transaction) (transactions d) m -> admitted d (set_transactions m d).
Proof. intros Hv. destruct (reflexivity (R := admitted) d). by split. Qed.

Lemma admitted_accounts m d :
  kept (giro_only_change strip_account) (accounts d) m -> admitted d (set_accounts m d).
Proof. intros Hv. destruct (reflexivity (R := admitted) d). by split. Qed.

Lemma admitted_logs m d : unchanged (logs d) m -> admitted d (set_logs m d).
Proof. intros Hv. destruct (reflexivity (R := admitted) d). by split. Qed.

Lemma admitted_assets m d : unchanged (assets d) m -> admitted d (set_assets m d).
Proof. intros Hv. destruct (reflexivity (R := admitted) d). by split. Qed.

Lemma admitted_moves rows new n d :
  Forall2 (fun m m' => giro_only_change strip_move m m' = Ok tt) (moves d) rows ->
  admitted d (set_moves (rows ++ new) n d).
Proof. intros Hv. destruct (reflexivity (R := admitted) d). split; try done. by exists rows, new. Qed.

Lemma admitted_pending p d : admitted d (set_pending p d).
Proof. destruct (reflexivity (R := admitted) d). by split. Qed.

Lemma same_change {R} `{EqDecision R} (strip : R -> R) r : giro_only_change strip r r = Ok tt.
Proof. by apply only_change_iff. Qed.

Lemma same_volumes r : volumes_monotonic r r = Ok tt.
Proof. by apply monotonic_iff. Qed.

(** ** Statement by statement *)

Lemma insert_volume_admitted k r d d' : volumes d !! k = None -> insert_volume k r d = Ok d' -> admitted d d'.
Proof.
  intros Hk H. apply insert_volume_Ok in H as (_ & _ & ->). apply admitted_volumes, kept_insert; [apply same_volumes|].
  congruence.
Qed.

Lemma update_volume_admitted k old new d d' :
  volumes d !! k = Some old -> update_volume k old new d = Ok d' -> admitted d d'.
Proof.
  unfold update_volume. intros Hk H. inv_ok. destruct x. apply admitted_volumes, kept_insert; [apply same_volumes|].
  congruence.
Qed.

Lemma insert_zero_rows_admitted ks d d' : insert_zero_rows ks d = Ok d' -> admitted d d'.
Proof.
  revert d. induction ks as [|k ks IH]; intros d; simpl; [intros [= <-]; reflexivity|].
  intros (d1 & H1 & H2)%rbind_Ok. apply IH in H2. destruct (volumes d !! k) eqn:Hk; [by simplify_eq|].
  etrans; [|exact H2]. by eapply insert_volume_admitted.
Qed.

Lemma apply_update_admitted u d d' : apply_update u d = Ok d' -> admitted d d'.
Proof.
  unfold apply_update. destruct (volumes d !! update_key u) as [old|] eqn:Hk; [|done].
  by apply update_volume_admitted.
Qed.

Lemma upsert_permission_admitted flip k d d' :
  (forall r, volumes_of (flip r) = volumes_of r) -> upsert_permission flip k d = Ok d' -> admitted d d'.
Proof.
  intros Hf. unfold upsert_permission. destruct (volumes d !! k) as [r|] eqn:Hk.
  - by apply update_volume_admitted.
  - by apply insert_volume_admitted.
Qed.

Lemma update_ledger_admitted new d d' : update_ledger new d = Ok d' -> admitted d d'.
Proof.
  unfold update_ledger. destruct (ledger_row d) as [l|] eqn:Hl; [|intros [= <-]; reflexivity].
  intros H. inv_ok. destruct (reflexivity (R := admitted) d). split; try done.
  intros l' Hl'. rewrite Hl in Hl'. injection Hl' as <-. exists new. split; [done|]. by destruct x.
Qed.

Lemma allocate_admitted tx log d a d' : allocate_row tx log d = Ok (a, d') -> admitted d d'.
Proof.
  unfold allocate_row. destruct (ledger_row d); [|done]. intros H. inv_ok. by eapply update_ledger_admitted.
Qed.

Lemma insert_log_admitted id r d d' : insert_log_row id r d = Ok d' -> admitted d d'.
Proof.
  unfold insert_log_row. intros H. inv_ok. apply admitted_logs, unchanged_insert.
  match goal with H : bool_decide (is_Some _) = false |- _ => apply bool_decide_eq_false, eq_None_not_Some in H; done end.
Qed.

Lemma insert_transaction_admitted id r d d' : insert_transaction_row id r d = Ok d' -> admitted d d'.
Proof.
  unfold insert_transaction_row. intros H. inv_ok. apply admitted_transactions, kept_insert; [apply same_change|].
  match goal with H : bool_decide (is_Some _) = false |- _ => apply bool_decide_eq_false, eq_None_not_Some in H end.
  congruence.
Qed.

Lemma insert_move_admitted id k amt src eff ins v e d d' : insert_move id k amt src eff ins v e d = Ok d' -> admitted d d'.
Proof.
  unfold insert_move. destruct (_ || _); [done|]. intros [= <-]. apply admitted_moves.
  apply Forall_Forall2_diag, Forall_true. intros m. apply same_change.
Qed.

Lemma shift_later_admitted at_ u d d' : shift_later at_ u d = Ok d' -> admitted d d'.
Proof.
  intros [= <-]. rewrite <-(app_nil_r (shift_move _ _ _ <$> _)). apply admitted_moves.
  apply Forall2_fmap_r, Forall_Forall2_diag, Forall_true. intros m. apply only_change_iff.
  unfold shift_move. by case_match.
Qed.

Lemma upsert_account_admitted a ts now d d' : upsert_account a ts now d = Ok d' -> admitted d d'.
Proof.
  intros [= <-]. apply admitted_accounts, kept_insert; [intros; apply same_change|].
  intros old Hold. rewrite Hold. by apply only_change_iff.
Qed.

Lemma mark_row_admitted id at_ d : admitted d (mark_row id at_ d).
Proof.
  apply admitted_transactions. intros k r Hr. destruct (decide (k = id)) as [->|Hne].
  - eexists. rewrite lookup_alter_eq, Hr. split; [done|]. by apply only_change_iff.
  - exists r. rewrite lookup_alter_ne by done. split; [done|]. apply same_change.
Qed.

Lemma merge_transaction_admitted id raw d : admitted d (merge_transaction id raw d).2.
Proof.
  unfold merge_transaction. destruct (transactions d !! id) as [r|] eqn:Hr; [|reflexivity].
  case_bool_decide; [reflexivity|]. apply admitted_transactions, kept_insert; [intros; apply same_change|].
  intros old Hold. rewrite Hr in Hold. injection Hold as <-. by apply only_change_iff.
Qed.

Lemma drop_transaction_key_admitted id k d : admitted d (drop_transaction_key id k d).2.
Proof.
  unfold drop_transaction_key. destruct (transactions d !! id) as [r|] eqn:Hr; [|reflexivity].
  case_bool_decide; [|reflexivity]. apply admitted_transactions, kept_insert; [intros; apply same_change|].
  intros old Hold. rewrite Hr in Hold. injection Hold as <-. by apply only_change_iff.
Qed.

(** An account's row rewritten in the columns that may change. *)
Lemma account_rewritten a r r' d :
  (forall old, accounts d !! a = Some old -> strip_account old = strip_account r') -> r = r' ->
  admitted d (set_accounts (<[a := r]> (accounts d)) d).
Proof.
  intros Hold ->. apply admitted_accounts, kept_insert; [intros; apply same_change|].
  intros old Ho. by apply only_change_iff, Hold.
Qed.

Lemma drop_account_key_admitted a k now d : admitted d (drop_account_key a k now d).2.
Proof.
  unfold drop_account_key. destruct (accounts d !! a) as [r|] eqn:Hr; [|reflexivity].
  case_bool_decide; [|reflexivity]. eapply account_rewritten; [|done]. intros old Ho. by simplify_eq.
Qed.

Lemma upsert_account_metadata_admitted a raw now d : admitted d (upsert_account_metadata a raw now d).2.
Proof.
  unfold upsert_account_metadata. destruct (accounts d !! a) as [r|] eqn:Hr; [case_bool_decide; [reflexivity|]|];
    (eapply account_rewritten; [|done]); intros old Ho; by simplify_eq.
Qed.

Lemma mark_account_closed_admitted a now d : admitted d (mark_account_closed a now d).
Proof.
  eapply account_rewritten; [|done]. intros old Ho. rewrite Ho. done.
Qed.

Lemma reopen_row_admitted a now d : admitted d (reopen_row a now d).2.
Proof.
  unfold reopen_row. destruct (accounts d !! a) as [r|] eqn:Hr; [|reflexivity].
  destruct (closed r); [|reflexivity]. eapply account_rewritten; [|done]. intros old Ho. by simplify_eq.
Qed.

Lemma insert_asset_admitted a now d d' : insert_asset a now d = Ok d' -> admitted d d'.
Proof.
  unfold insert_asset, registered. case_bool_decide as Hr; [intros [= <-]; reflexivity|]. intros H. inv_ok.
  apply admitted_assets, unchanged_insert. by apply eq_None_not_Some.
Qed.

(** ** Bodies *)

Section bodies.
Context (d0 : Database).

Abbreviation P := (admitted d0).

Lemma keeps_run s run : (forall d d', run d = Ok d' -> admitted d d') -> keeps P (exec s run).
Proof. intros Hr. apply keeps_exec. intros d d' H Hd. etrans; [exact Hd|]. by apply Hr. Qed.

Lemma keeps_returning {A} s (run : Database -> res error (A * Database)) :
  (forall d a d', run d = Ok (a, d') -> admitted d d') -> keeps P (stmt s run).
Proof. intros Hr. apply keeps_stmt. intros d a d' H Hd. etrans; [exact Hd|]. by eapply Hr. Qed.

Lemma keeps_commit {A} (a : A) : keeps P (commit a).
Proof. apply keeps_returning. intros d o d' H. inv_ok. apply admitted_pending. Qed.

Lemma keeps_lockVolumes us : keeps P (lockVolumes us).
Proof.
  unfold lockVolumes. apply keeps_bind; [apply keeps_run; intros; by eapply insert_zero_rows_admitted|].
  intros _. auto with giro_keeps.
Qed.

Lemma keeps_applyVolumes i us : keeps P (apply_updates i us).
Proof.
  revert i. induction us as [|u us IH]; intros i; simpl; [apply keeps_ret|].
  apply keeps_bind; [apply keeps_run; intros; by eapply apply_update_admitted|auto].
Qed.

Lemma keeps_run_batch i ws :
  Forall (fun w : write => forall d d', w d = Ok d' -> admitted d d') ws -> keeps P (run_batch i ws).
Proof.
  revert i. induction ws as [|w ws IH]; intros i Hws; simpl; [apply keeps_ret|].
  apply Forall_cons in Hws as [Hw Hws]. apply keeps_bind; [by apply keeps_run|auto].
Qed.

Lemma queued_admitted t ps s :
  Forall (fun w : write => forall d d', w d = Ok d' -> admitted d d') (queued s) ->
  Forall (fun w : write => forall d d', w d = Ok d' -> admitted d d') (queued (foldl (queue_posting t) s ps)).
Proof.
  revert s. induction ps as [|x ps IH]; intros s Hs; simpl; [done|]. apply IH. simpl.
  rewrite !Forall_app, !Forall_singleton. split_and!; [done|..]; intros; by eapply insert_move_admitted.
Qed.

Lemma keeps_writes i us ts now t before eff :
  keeps P (run_batch i (queueAccounts us ts now ++ queueMoves t before eff us)).
Proof.
  apply keeps_run_batch. apply Forall_app. split; [|apply Forall_app; split].
  - apply Forall_fmap, Forall_true. intros a d d'. apply upsert_account_admitted.
  - apply queued_admitted. constructor.
  - apply Forall_fmap, Forall_true. intros u d d'. apply shift_later_admitted.
Qed.

Lemma keeps_insertTransaction now t : keeps P (insertTransaction now t).
Proof.
  unfold insertTransaction. apply keeps_bind; [|auto with giro_keeps]. apply keeps_map_err, keeps_run.
  intros d d' H. inv_ok. by eapply insert_transaction_admitted.
Qed.

Lemma keeps_applyTransaction now db_now p opts : keeps P (applyTransaction now db_now p opts).
Proof.
  unfold applyTransaction, applyVolumes.
  apply keeps_bind; [apply keeps_lift|intros us]. apply keeps_bind; [apply keeps_lockVolumes|intros before].
  apply keeps_bind; [apply keeps_lift|intros [q us']]. apply keeps_bind; [apply keeps_lift|intros _].
  apply keeps_bind; [apply keeps_lift|intros _]. apply keeps_bind; [apply keeps_applyVolumes|intros _].
  apply keeps_bind; [apply keeps_query|intros eff].
  apply keeps_bind; [apply keeps_returning; intros; by eapply allocate_admitted|intros alloc].
  apply keeps_bind; [apply keeps_insertTransaction|intros t].
  apply keeps_bind; [apply keeps_writes|intros _]. apply keeps_ret.
Qed.

Lemma keeps_insertLog id r : keeps P (insertLog id r).
Proof.
  apply keeps_run. intros d d' H. inv_ok. rename x into d1. transitivity d1; [by eapply insert_log_admitted|].
  destruct (ledger_row d1); [by eapply update_ledger_admitted|by simplify_eq].
Qed.

End bodies.

Section codec.
Context {codec : Codec}.
Context (d0 : Database).

Abbreviation P := (admitted d0).

Lemma keeps_appendLogEntry a p dt k h : keeps P (appendLogEntry a p dt k h).
Proof. unfold appendLogEntry. destruct (marshal p); [apply keeps_insertLog|apply keeps_fail]. Qed.

Lemma keeps_append_or_race c t a k h : keeps P (appendLog_or_race c t a k h).
Proof.
  intros f d r d' H Hd. unfold appendLog_or_race in H.
  destruct (appendLog t a k h f d) as [[u d1]|e] eqn:Ha.
  - injection H as <- <-. by eapply keeps_appendLogEntry.
  - destruct (idempotencyRace f c k h e) as [[x|]|]; by simplify_eq.
Qed.

Lemma keeps_commit_body E c p opts h : keeps P (commit_body E c p opts h).
Proof.
  unfold commit_body. apply keeps_bind; [apply keeps_applyTransaction|intros [t a]].
  apply keeps_bind; [apply keeps_append_or_race|intros [x|]]; [apply keeps_ret|].
  destruct (beforeCommit E); [apply keeps_fail|]. destruct (ODryRun opts); [apply keeps_ret|apply keeps_commit].
Qed.

Lemma keeps_revert_body E id opts : keeps P (revert_body E id opts).
Proof.
  unfold revert_body. apply keeps_bind; [|intros original].
  { unfold lockTransaction. apply keeps_returning. intros d a d' H. inv_ok; repeat case_match; simplify_eq; reflexivity. }
  apply keeps_bind; [apply keeps_lift|intros _]. apply keeps_bind; [apply keeps_lift|intros inverse].
  apply keeps_bind; [apply keeps_applyTransaction|intros [t a]].
  apply keeps_bind; [apply keeps_run; intros d d' [= <-]; apply mark_row_admitted|intros _].
  apply keeps_bind; [apply keeps_appendLogEntry|intros _]. apply keeps_commit.
Qed.

Lemma keeps_batch_items E c opts h i items : keeps P (batch_items E c opts h i items).
Proof.
  revert i. induction items as [|it items IH]; intros i; simpl; [apply keeps_ret|].
  apply keeps_bind; [apply keeps_map_err, keeps_item, keeps_applyTransaction|intros [t a]].
  apply keeps_bind.
  { apply keeps_item. intros f d r d' H Hd. unfold append_or_batch_race in H.
    destruct (appendLog _ _ _ _ f d) as [[u d1]|e] eqn:Ha.
    - injection H as <- <-. by eapply keeps_appendLogEntry.
    - destruct (batchIdempotencyRace _ _ _ _ _) as [[|]|]; by simplify_eq. }
  intros [|x l]; [|apply keeps_ret]. apply keeps_bind; [apply IH|intros rest; apply keeps_ret].
Qed.

Lemma keeps_batch_body E c items opts h : keeps P (batch_body E c items opts h).
Proof.
  unfold batch_body, lockBatch. apply keeps_bind.
  { apply keeps_bind; [apply keeps_lift|intros all]. apply keeps_bind; [apply keeps_lockVolumes|intros ?; apply keeps_ret]. }
  intros _. apply keeps_bind; [apply keeps_batch_items|intros [r|ts]]; [apply keeps_ret|].
  destruct (beforeCommit E); [apply keeps_fail|]. destruct (ODryRun opts); [apply keeps_ret|apply keeps_commit].
Qed.

Lemma keeps_mutate_body E apply p : keeps P apply -> keeps P (mutate_body E apply p).
Proof.
  intros Ha. unfold mutate_body. apply keeps_bind; [done|intros changed]. apply keeps_bind; [|intros _; apply keeps_commit].
  destruct changed; [|apply keeps_ret].
  apply keeps_bind; [apply keeps_returning; intros; by eapply allocate_admitted|intros a; apply keeps_appendLogEntry].
Qed.

Lemma keeps_lockTarget found : keeps P (lockTarget found).
Proof. apply keeps_returning. intros d a d' H. inv_ok. by case_match; simplify_eq. Qed.

Lemma keeps_recovery_body E w note : keeps P (recovery_body E w note).
Proof.
  unfold recovery_body. apply keeps_bind.
  { apply keeps_returning. intros d a d' H. case_match; by simplify_eq. }
  intros l. destruct (past w _ _); [apply keeps_ret|]. destruct (marshal _) as [bytes|]; [|apply keeps_fail].
  apply keeps_bind; [apply keeps_run; intros; by eapply update_ledger_admitted|intros _].
  apply keeps_bind; [apply keeps_insertLog|intros _; apply keeps_commit].
Qed.

End codec.

(** ** Requests *)

(** Whatever other sessions commit passed the same guards. *)
Definition guarded (W : Weather) : Prop := forall n d, admitted d (landed (attempt_env W n) d).

Section codec.
Context {codec : Codec}.

Lemma transact_admitted {A} f (body : Txn (outcome A)) d r d' :
  (forall d0, keeps (admitted d0) body) -> transact f body d = (r, d') -> admitted d d'.
Proof. intros Hb H. by eapply (keeps_transact (admitted d)). Qed.

Lemma autocommit_admitted {A} f (m : Txn A) d r d' :
  (forall d0, keeps (admitted d0) m) -> autocommit f m d = (r, d') -> admitted d d'.
Proof.
  intros Hm. apply transact_admitted. intros d0. apply keeps_bind; [done|]. intros a. apply keeps_commit.
Qed.

Lemma commitOnce_admitted W n p opts h d r d' :
  guarded W -> commitOnce (attempt_env W n) p opts h d = (r, d') -> admitted d d'.
Proof.
  intros HW. unfold commitOnce. destruct (fault _ SBegin); [by intros [= <- <-]|].
  destruct (fast_path _ _ _ _) as [[t|]|e]; [by intros [= <- <-]| |by intros [= <- <-]].
  intros H. etrans; [apply (HW n)|]. eapply transact_admitted; [|exact H]. intros d0. apply keeps_commit_body.
Qed.

Lemma commit_attempts_admitted W fuel n p opts h s r s' :
  guarded W -> commit_attempts W fuel n p opts h s = (r, s') -> admitted (db s) (db s').
Proof.
  intros HW. revert n s. induction fuel as [|fuel IH]; intros n s; cbn [commit_attempts]; [by intros [= <- <-]|].
  destruct (commitOnce (attempt_env W n) p opts h (db s)) as [r1 d1] eqn:Hc.
  apply commitOnce_admitted in Hc; [|done]. destruct r1 as [t|e]; [by intros [= <- <-]|].
  destruct (retryable e); [destruct (cancelled W n)|]; [by intros [= <- <-]| |by intros [= <- <-]].
  intros H%IH. by etrans.
Qed.

Lemma commit_admitted W p opts s r s' :
  guarded W -> CommitTransaction W p opts s = (r, s') -> admitted (db s) (db s').
Proof.
  intros HW. unfold CommitTransaction, refuse. case_bool_decide; [by intros [= <- <-]|].
  destruct (Validate p) as [[i e]|]; [by intros [= <- <-]|].
  destruct (checkAssets (check_faults W) p s) as [[u|e] s1] eqn:Hca; apply checkAssets_db in Hca as [<- _];
    [|by intros [= <- <-]].
  destruct (idempotencyHash p opts); [by apply commit_attempts_admitted|by intros [= <- <-]].
Qed.

Lemma revert_admitted W fuel n id opts s r s' :
  guarded W -> revert_attempts W fuel n id opts s = (r, s') -> admitted (db s) (db s').
Proof.
  intros HW. revert n s. induction fuel as [|fuel IH]; intros n s; cbn [revert_attempts]; [by intros [= <- <-]|].
  destruct (revertOnce (attempt_env W n) id opts (db s)) as [r1 d1] eqn:Hc.
  assert (admitted (db s) d1) as H1.
  { revert Hc. unfold revertOnce. destruct (fault _ SBegin); [by intros [= <- <-]|]. intros H.
    etrans; [apply (HW n)|]. eapply transact_admitted; [|exact H]. intros d0. apply keeps_revert_body. }
  destruct r1 as [t|e]; [by intros [= <- <-]|].
  destruct (retryable e); [destruct (cancelled W n)|]; [by intros [= <- <-]| |by intros [= <- <-]].
  intros H%IH. by etrans.
Qed.

Lemma batch_admitted W fuel n items opts h s r s' :
  guarded W -> batch_attempts W fuel n items opts h s = (r, s') -> admitted (db s) (db s').
Proof.
  intros HW. revert n s. induction fuel as [|fuel IH]; intros n s; cbn [batch_attempts]; [by intros [= <- <-]|].
  destruct (commitBatchOnce (attempt_env W n) items opts h (db s)) as [r1 d1] eqn:Hc.
  assert (admitted (db s) d1) as H1.
  { revert Hc. unfold commitBatchOnce. destruct (fault _ SBegin); [by intros [= <- <-]|].
    destruct (batch_fast_path _ _ _ _) as [[|x l]|e]; [|by intros [= <- <-]..]. intros H.
    etrans; [apply (HW n)|]. eapply transact_admitted; [|exact H]. intros d0. apply keeps_batch_body. }
  destruct r1 as [t|e]; [by intros [= <- <-]|].
  destruct (retryable e); [destruct (cancelled W n)|]; [by intros [= <- <-]| |by intros [= <- <-]].
  intros H%IH. by etrans.
Qed.

Lemma mutate_admitted W n apply p d :
  guarded W -> (forall d0, keeps (admitted d0) apply) ->
  admitted d (mutateMetadata (attempt_env W n) apply p d).2.
Proof.
  intros HW Ha. destruct (mutateMetadata _ apply p d) as [r d'] eqn:H. simpl. revert H. unfold mutateMetadata.
  destruct (fault _ SBegin); [by intros [= <- <-]|]. intros H. etrans; [apply (HW n)|].
  eapply transact_admitted; [|exact H]. intros d0. by apply keeps_mutate_body.
Qed.

(** The metadata operations end by reading back. *)
Lemma then_read_admitted {A} W n apply p d (read : Database -> res error A) :
  guarded W -> (forall d0, keeps (admitted d0) apply) ->
  admitted d (then_read (mutateMetadata (attempt_env W n) apply p d) read).2.
Proof. intros HW Ha. rewrite then_read_db. by apply mutate_admitted. Qed.

Lemma keeps_affected d0 s (run : Database -> bool * Database) :
  (forall d, admitted d (run d).2) -> keeps (admitted d0) (stmt s (affected run)).
Proof. intros Hr. apply keeps_returning. intros d a d' [= H]. specialize (Hr d). by rewrite H in Hr. Qed.

Lemma keeps_lockAndMerge d0 id m : keeps (admitted d0) (lockAndMerge id m).
Proof.
  unfold lockAndMerge. apply keeps_bind; [apply keeps_lockTarget|intros _]. apply keeps_returning.
  intros d a d' H. apply rbind_Ok in H as (raw & _ & [= H]).
  pose proof (merge_transaction_admitted id raw d) as Hm. by rewrite H in Hm.
Qed.

Lemma keeps_lockAndDeleteKey d0 found k drop :
  (forall d, admitted d (drop d).2) -> keeps (admitted d0) (lockAndDeleteKey found k drop).
Proof.
  intros Hd. unfold lockAndDeleteKey. apply keeps_bind; [apply keeps_lockTarget|intros _]. apply keeps_returning.
  intros d a d' H. apply rbind_Ok in H as (u & _ & [= H]). specialize (Hd d). by rewrite H in Hd.
Qed.

Lemma metadata_admitted W n d :
  guarded W ->
  (forall id m, admitted d (SetTransactionMetadata (attempt_env W n) id m d).2) /\
  (forall id k, admitted d (DeleteTransactionMetadataKey (attempt_env W n) id k d).2) /\
  (forall a m, admitted d (SetAccountMetadata (attempt_env W n) a m d).2) /\
  (forall a k, admitted d (DeleteAccountMetadataKey (attempt_env W n) a k d).2).
Proof.
  intros HW. split_and!.
  - intros id m. unfold SetTransactionMetadata. destruct (validateMetadata m); [|reflexivity].
    apply then_read_admitted; [done|intros; apply keeps_lockAndMerge].
  - intros id k. unfold DeleteTransactionMetadataKey. case_bool_decide; [reflexivity|].
    apply then_read_admitted; [done|]. intros d0. apply keeps_lockAndDeleteKey. apply drop_transaction_key_admitted.
  - intros a m. unfold SetAccountMetadata. destruct (negb _); [reflexivity|]. destruct (validateMetadata m); [|reflexivity].
    apply then_read_admitted; [done|]. intros d0. apply keeps_returning. intros d1 b d' H.
    apply rbind_Ok in H as (raw & _ & [= H]).
    pose proof (upsert_account_metadata_admitted a raw (Truncate (now (attempt_env W n)) microsecond) d1) as Hu.
    by rewrite H in Hu.
  - intros a k. unfold DeleteAccountMetadataKey. case_bool_decide; [reflexivity|].
    apply then_read_admitted; [done|]. intros d0. apply keeps_lockAndDeleteKey. apply drop_account_key_admitted.
Qed.

Lemma permission_admitted f flip k d :
  (forall r, volumes_of (flip r) = volumes_of r) ->
  admitted d (autocommit f (exec SExec (upsert_permission flip k)) d).2.
Proof.
  intros Hf. destruct (autocommit _ _ d) as [r d'] eqn:H. simpl. eapply autocommit_admitted; [|exact H].
  intros d0. apply keeps_run. intros d1 d2. by apply upsert_permission_admitted.
Qed.

Lemma closure_admitted W n a d :
  guarded W ->
  admitted d (CloseAccount (attempt_env W n) id a d).2 /\ admitted d (ReopenAccount (attempt_env W n) a d).2.
Proof.
  intros HW. split.
  - unfold CloseAccount. destruct (negb _); [reflexivity|]. destruct (is_world a); [reflexivity|].
    destruct (fault _ SBegin); [reflexivity|].
    destruct (query _ _ _ _) as [[[|x l] d1]|e]; [|apply (HW n)..].
    destruct (transact _ _ _) as [r d'] eqn:H. simpl. etrans; [apply (HW n)|].
    eapply transact_admitted; [|exact H]. intros d0. apply keeps_bind; [|intros _; apply keeps_commit].
    apply keeps_run. intros d2 d3 [= <-]. apply mark_account_closed_admitted.
  - unfold ReopenAccount. destruct (negb _); [reflexivity|].
    destruct (autocommit _ _ d) as [[[|m]|e] d'] eqn:H; simpl; (eapply autocommit_admitted; [|exact H]);
      intros d0; apply keeps_returning; intros d1 x d2 [= H1];
      pose proof (reopen_row_admitted a (db_now (attempt_env W n)) d1) as Hr; by rewrite H1 in Hr.
Qed.

(** Any request, served while others hold to the guards as well. *)
Lemma serve_admitted W r s : guarded W -> admitted (db s) (db (serve W r s).2).
Proof.
  intros HW. destruct (metadata_admitted W 0 (db s) HW) as (Hm1 & Hm2 & Hm3 & Hm4).
  destruct r as [p opts|id opts|items opts|id m|id k|a m|a k|a c b|a c b|a|a|a|name w note]; cbn [serve].
  - destruct (CommitTransaction W p opts s) as [x s'] eqn:H. by apply commit_admitted in H.
  - destruct (RevertTransaction W id opts s) as [x s'] eqn:H. by apply revert_admitted in H.
  - destruct (CommitBatch W items opts s) as [x s'] eqn:H. simpl. revert H. unfold CommitBatch.
    case_bool_decide; [by intros [= <- <-]|]. destruct (_ <? _)%nat; [by intros [= <- <-]|].
    destruct (check_items _ 0 items s) as [[u|e] s1] eqn:Hc; apply check_items_db in Hc as [<- _]; [|by intros [= <- <-]].
    destruct (batchIdempotencyHash items opts); [by apply batch_admitted|by intros [= <- <-]].
  - specialize (Hm1 id m). unfold on_db. by destruct (SetTransactionMetadata _ _ _ _).
  - specialize (Hm2 id k). unfold on_db. by destruct (DeleteTransactionMetadataKey _ _ _ _).
  - specialize (Hm3 a m). unfold on_db. by destruct (SetAccountMetadata _ _ _ _).
  - specialize (Hm4 a k). unfold on_db. by destruct (DeleteAccountMetadataKey _ _ _ _).
  - unfold on_db, SetAllowNegative. destruct (policy_target a c b); [|reflexivity].
    pose proof (permission_admitted (fault (attempt_env W 0)) (permit_negative b) (a, c) (db s)) as H.
    destruct (autocommit _ _ _). by apply H.
  - unfold on_db, SetAllowPositive. destruct (policy_target a c b); [|reflexivity].
    pose proof (permission_admitted (fault (attempt_env W 0)) (permit_positive b) (a, c) (db s)) as H.
    destruct (autocommit _ _ _). by apply H.
  - destruct (closure_admitted W 0 a (db s) HW) as [H _]. unfold on_db. by destruct (CloseAccount _ _ _ _).
  - destruct (closure_admitted W 0 a (db s) HW) as [_ H]. unfold on_db. by destruct (ReopenAccount _ _ _).
  - unfold on_db, RegisterAsset. destruct (negb _); [reflexivity|].
    destruct (autocommit _ _ (db s)) as [r d'] eqn:H.
    assert (admitted (db s) d') as Ha.
    { eapply autocommit_admitted; [|exact H]. intros d0. apply keeps_run. intros. by eapply insert_asset_admitted. }
    destruct r; [done|]. destruct (fault _ SAssetWithCode), (assetWithCodeOf d' a); exact Ha.
  - unfold on_db, RecordRecovery. destruct (ChainTip name (db s)); [|reflexivity]. destruct (past _ _ _); [reflexivity|].
    destruct (fault _ SBegin); [reflexivity|]. destruct (transact _ _ _) as [r d'] eqn:H. simpl.
    etrans; [apply (HW 0%nat)|]. eapply transact_admitted; [|exact H]. intros d0. apply keeps_recovery_body.
Qed.

(** Requests of any kind, whatever others commit under the guards. *)
Lemma serve_all_admitted (calls : list (Weather * Request)) (s : Store) :
  Forall (fun call => guarded call.1) calls -> admitted (db s) (db (serve_all calls s)).
Proof.
  revert s. induction calls as [|[W r] calls IH]; intros s; [reflexivity|].
  intros [HW Hc]%Forall_cons. simpl. etrans; [by apply serve_admitted|by apply IH].
Qed.

(** C6: Nothing recorded is ever rewritten. Between the tables before and after
    any sequence of requests, whatever fails, and whatever others commit under
    the same guards: every log entry and every asset stays as it was; every
    transaction keeps everything but its mark and its metadata, every move
    everything but its effective snapshot, every account its address and date;
    moves only grow at the end; no volume and no counter goes back. Each of these
    is the guard its table's trigger puts on a row. *)
Theorem nothing_is_rewritten (calls : list (Weather * Request)) (s : Store) :
  Forall (fun call => guarded call.1) calls -> admitted (db s) (db (serve_all calls s)).
Proof. apply serve_all_admitted. Qed.

(** C32: a tip remembers. Recorded from a log that verifies, it checks after any
    requests of any kind, whatever others commit under the append-only guards.
    And of any log that verifies -- a restored one -- if neither it nor the first
    declares a gap: where the tip checks, every entry up to it is byte for byte
    the entry it was, or the two logs exhibit two different texts with the same
    SHA-256; where it does not, the log is reported as behind for having no entry
    at the tip's id, or as forked for having another hash there. *)
Theorem tip_remembers (name : string) (s : Store) (t : Tip) (calls : list (Weather * Request)) :
  log_ok (db s) -> ChainTip name (db s) = Ok t -> Forall (fun call => guarded call.1) calls ->
  CheckTip name t (db (serve_all calls s)) = Ok tt /\
  forall d, snd (VerifyLog d) = Ok tt -> is_Some (ledger_row d) ->
    no_recovery (log_rows (db s)) -> no_recovery (log_rows d) ->
    match CheckTip name t d with
    | Ok _ =>
        take (length (log_rows (db s))) (entry_data (log_rows d)) = entry_data (log_rows (db s)) \/
        exists i s1 s2, preimage (log_rows (db s)) i = Some s1 /\ preimage (log_rows d) i = Some s2 /\
                        s1 <> s2 /\ Sha256.sum256 s1 = Sha256.sum256 s2
    | Err e =>
        (logs d !! TLogID t = None /\ errors_Is e ErrChainBehind = true) \/
        (exists r, logs d !! TLogID t = Some r /\ hash r <> THash t /\ errors_Is e ErrChainForked = true)
    end.
Proof.
  intros Hlog Ht Hc. pose proof (serve_all_admitted calls s Hc) as Hadm. split.
  - pose proof Ht as Hl. unfold ChainTip in Hl. destruct (ledger_row (db s)) as [l|] eqn:Hrow; [|done].
    destruct (adm_ledger _ _ Hadm l Hrow) as (l' & Hl' & _). unfold CheckTip, ChainTip. rewrite Hl'. cbn [rbind].
    destruct (tip_entry _ _ _ Hlog Ht) as [-> |(r & Hr & <-)]; [done|]. destruct (_ =? 0); [done|].
    rewrite (adm_logs _ _ Hadm _ _ Hr). by rewrite bool_decide_true.
  - intros d Hv Hl H0 Hd. by apply check_tip_tells.
Qed.

End codec.

(** ** At a concrete ledger *)

Lemma nothing_is_rewritten_witness : admitted new_ledger (db (serve_all a_day new_store)).
Proof.
  assert (guarded calm) as HW by (intros n d; reflexivity).
  assert (Forall (fun call => guarded call.1) a_day) as Hc by (unfold a_day; rewrite !Forall_cons; split_and!; [exact HW..|constructor]).
  exact (nothing_is_rewritten a_day new_store Hc).
Defined.

(** The guards do stop something: an edited posting, a lowered counter. *)
Example edits_refused :
  let edited := {| timestamp := 0; inserted_at := 0; reverted_at := None; reference := None; postings := [];
                   tx_metadata := ∅; sources := []; destinations := []; pc_volumes := ∅ |} in
  let recorded := {| timestamp := 0; inserted_at := 0; reverted_at := None; reference := None; postings := deposit;
                     tx_metadata := ∅; sources := []; destinations := []; pc_volumes := ∅ |} in
  giro_only_change strip_transaction recorded edited = Err (PgError restrictViolation).
Proof. reflexivity. Qed.

(** The tip of a day's log, checked against another day after it. *)
Definition evening : Store := serve_all a_day new_store.

Definition evening_tip : Tip :=
  match ChainTip "main" (db evening) with Ok t => t | Err _ => {| TLedger := "main"; TTxID := 0; TLogID := 0; THash := EmptyString |} end.

Definition next_day : list (Weather * Request) := [(calm, DoCommit deposit no_options); (calm, DoSetTransactionMetadata 1 {[ "note" := "seen" ]})].

Lemma tip_remembers_witness :
  CheckTip "main" evening_tip (db (serve_all next_day evening)) = Ok tt /\ TLogID evening_tip = 2 /\
  last_log_id <$> ledger_row (db (serve_all next_day evening)) = Some 4.
Proof.
  assert (guarded calm) as HW by (intros n d; reflexivity).
  assert (Forall (fun call => guarded call.1) next_day) as Hc by (unfold next_day; rewrite !Forall_cons; split_and!; [exact HW..|constructor]).
  assert (service_ok (db evening)) as [[Hled _] _] by exact (serve_all_ok a_day new_store a_day_honest new_ledger_service).
  pose proof (lo_log _ Hled) as Hlog.
  assert (ChainTip "main" (db evening) = Ok evening_tip) as Ht.
  { unfold evening_tip. destruct (ChainTip "main" (db evening)) eqn:H; [reflexivity|].
    assert (is_ok (ChainTip "main" (db evening)) = true) as Hok by (vm_compute; reflexivity). rewrite H in Hok. discriminate Hok. }
  split; [exact (proj1 (tip_remembers "main" evening evening_tip next_day Hlog Ht Hc))|].
  split; vm_compute; reflexivity.
Defined.
