(* ===== verification/Counters.v ===== *)
(** * Ids are never issued twice

    Transaction and log ids come from two counters on the ledger's row. Whatever
    is asked of the engine, whatever fails and whoever else is writing, neither
    counter ever goes back; and because every transaction writes an entry the
    first never overtakes the second, which [giro recover resume] relies on. *)

From S2P Require Import Prelude Identifiers Text Posting Volumes Sha256 GoTime Transaction Codec Encoding Errors Schema Txn Locking Guards Moves History Log Observer Commit Committed Book Chain Sample CommitSpec Replay Effective Read Verify Invariant Revert Bulk MetadataOps Policy Closure Registry Recovery Ledger Refinement VerifyRuns Service.

Section codec.
Context {codec : Codec}.

(** A posting and its entry, and whatever keeps the ids between and after. *)
Lemma posted_advances now db_now p opts us t alloc d d1 d2 :
  applied now db_now p opts us t alloc d d1 ->
  (exists l h, ledger_row d1 = Some l /\ ledger_row d2 = Some (set_hash h l)) ->
  (forall id, is_Some (transactions d2 !! id) -> is_Some (transactions d1 !! id)) ->
  (exists x, logs d2 = <[logID alloc := x]> (logs d)) -> advances d d2.
Proof.
  intros Ha (l1 & h & Hl1 & Hl2) Ht [x Hx].
  destruct (applied_ledger _ _ _ _ _ _ _ _ _ Ha) as (l & Hl & Hb & -> & Hid & _).
  destruct (applied_transaction _ _ _ _ _ _ _ _ _ Ha) as (_ & m & _ & Htx). simplify_eq.
  eapply (advances_bump _ _ l 1); [done|lia|by eexists|]. split.
  - intros id Hi%Ht. rewrite Htx, Hid in Hi. apply insert_above in Hi as [Hi|Hi]; [by left|right; lia].
  - intros id Hi. rewrite Hx in Hi. apply insert_above in Hi as [Hi|Hi]; [by left|right; simpl in Hi; lia].
Qed.

(** The entry of a posting, after nothing but marks. *)
Lemma entry_advances now db_now p opts us t alloc d d1 d1' d2 pl dt key h :
  applied now db_now p opts us t alloc d d1 -> same_ids d1 d1' -> entry_appended alloc pl dt key h d1' d2 -> advances d d2.
Proof.
  intros Ha (Hl & Ht & Hg) (bytes & _ & _ & _ & ->). eapply posted_advances; [exact Ha| |exact Ht|].
  - destruct (applied_ledger _ _ _ _ _ _ _ _ _ Ha) as (l & _ & Hb & _). cbn. rewrite Hl, Hb. by eexists _, _.
  - cbn. rewrite Hg. destruct (applied_rest _ _ _ _ _ _ _ _ _ Ha) as [-> _]. by eexists.
Qed.

Lemma batch_chain_advances E opts h i d items ts d' : batch_chain E opts h i d items ts d' -> advances d d'.
Proof.
  induction 1 as [|i d d1 d2 d' it items t ts us alloc Ha He _ IH]; [done|].
  etrans; [|exact IH]. eapply entry_advances; [exact Ha| |exact He]. by split.
Qed.

Lemma commit_advances E p opts h d0 t d' : landed_commit E p opts h d0 t d' -> advances d0 d'.
Proof.
  intros [(us & alloc & d1 & Ha & bytes & _ & _ & _ & ->) _].
  destruct (applied_ledger _ _ _ _ _ _ _ _ _ Ha) as (l & _ & Hb & _).
  eapply posted_advances; [exact Ha| |done|by eexists]. cbn. rewrite Hb. by eexists _, _.
Qed.

Lemma revert_advances E id opts d0 rev d' : landed_revert E id opts d0 rev d' -> advances d0 d'.
Proof.
  intros [(row & us & alloc & d1 & d2 & _ & _ & _ & (inv & _ & Ha) & He & ->)].
  etrans; [|by apply (advances_same d2)]. eapply entry_advances; [exact Ha| |exact He]. apply same_ids_map.
Qed.

Lemma batch_advances E items opts h d0 ts d' : landed_batch E items opts h d0 ts d' -> advances d0 d'.
Proof.
  intros [(d1 & d2 & [Hsm _] & Hch & ->) _]. etrans; [apply (advances_same _ d1)|].
  { split_and!; [apply Hsm| |apply Hsm]. by rewrite (sm_transactions _ _ Hsm). }
  etrans; [by eapply batch_chain_advances|]. by apply advances_same.
Qed.

(** A watermark whose transaction id is no higher than its log id. *)
Definition tip_paced (r : Request) : Prop :=
  match r with DoRecordRecovery _ w _ => TTxID w <= TLogID w | _ => True end.

Lemma recovered_advances E w note d d' :
  recovered E w note d d' -> TTxID w <= TLogID w -> int64_ok (TLogID w) -> settled_ok d -> advances d d'.
Proof.
  intros [(l & bytes & id & Hl & _ & _ & Hid & Hge & _ & ->)] Hw Hi Hok.
  destruct Hok as [[_ Hlog _ _ _] _]. unfold log_ok in Hlog. rewrite Hl in Hlog.
  apply next_above_watermark in Hid; [|by eapply tip_nonneg|done..].
  split.
  - intros l0 Hl0. simplify_eq. eexists. split_and!; [done|simpl; lia..|]. split; [by left|].
    cbn. intros i Hin%insert_above. destruct Hin; [by left|right; lia].
  - intros Hp l' [= <-]. specialize (Hp l Hl). simpl in *. lia.
Qed.

Lemma recovery_advances E name w note d :
  TTxID w <= TLogID w -> int64_ok (TLogID w) -> settled_ok (landed E d) ->
  advances d (RecordRecovery E name w note d).2 \/ advances (landed E d) (RecordRecovery E name w note d).2.
Proof.
  intros Hw Hi Hok. destruct (RecordRecovery E name w note d) as [r d'] eqn:H. simpl.
  apply RecordRecovery_cases in H as [[-> | ->]|[_ H]]; [by left|by right|right]. by eapply recovered_advances.
Qed.

(** ** Every request *)

Lemma on_db_db {A} inj (run : Database -> res error A * Database) s : db (on_db inj run s).2 = (run (db s)).2.
Proof. unfold on_db. by destruct (run (db s)). Qed.

(** The other sessions leave a sound ledger, with counters no lower. *)
Definition onward (W : Weather) : Prop :=
  neighbourly W /\ forall n d, service_ok d -> advances d (landed (attempt_env W n) d).

Lemma serve_advances W r s :
  request_ok r -> tip_paced r -> onward W -> service_ok (db s) -> advances (db s) (db (serve W r s).2).
Proof.
  intros Hr Ht [HW HA] Hs. pose proof (service_settled W r s Hr HW Hs) as Hend. set (E := attempt_env W 0).
  set (I := fun d => service_ok d /\ advances (db s) d).
  assert (I (db s)) as Hi by by split.
  assert (forall n d, I d -> I (landed (attempt_env W n) d)) as HI.
  { intros n d [Hd Hadv]. split; [by apply HW|]. etrans; [exact Hadv|]. by apply HA. }
  pose proof (posting_keeps I W r s HI (fun d H => proj1 H) Hr) as Hpost.
  assert (forall d', advances (db s) d' \/ advances (landed E (db s)) d' -> advances (db s) d') as Hmove.
  { intros d' [H|H]; [done|]. etrans; [by apply HA|exact H]. }
  assert (forall d', steady (db s) d' \/ steady (landed E (db s)) d' -> advances (db s) d') as Hmeta.
  { intros d' [[_ H]|[_ H]]; apply Hmove; auto. }
  destruct r as [p opts|id opts|items opts|id m|id k|a m|a k|a c allow|a c allow|a|a|a|name w note].
  - apply Hpost; [|done]. intros n d0 d' [_ H0] Hd (h & t & Hc). split; [done|]. etrans; [exact H0|by eapply commit_advances].
  - apply Hpost; [|done]. intros n d0 d' [_ H0] Hd (rev & Hc). split; [done|]. etrans; [exact H0|by eapply revert_advances].
  - apply Hpost; [|done]. intros n d0 d' [_ H0] Hd (h & ts & Hc). split; [done|]. etrans; [exact H0|by eapply batch_advances].
  - unfold serve. rewrite on_db_db. apply Hmeta, (metadata_steady E id "" m "").
  - unfold serve. rewrite on_db_db. apply Hmeta, (metadata_steady E id "" ∅ k).
  - unfold serve. rewrite on_db_db. apply Hmeta, (metadata_steady E 0 a m "").
  - unfold serve. rewrite on_db_db. apply Hmeta, (metadata_steady E 0 a ∅ k).
  - unfold serve. rewrite on_db_db. apply Hmeta. left. apply permission_steady.
  - unfold serve. rewrite on_db_db. apply Hmeta. left. apply permission_steady.
  - unfold serve. rewrite on_db_db. apply Hmeta, closure_steady.
  - unfold serve. rewrite on_db_db. apply Hmeta. left. apply closure_steady.
  - unfold serve. rewrite on_db_db. apply Hmeta. left. apply register_steady.
  - unfold serve. rewrite on_db_db. destruct Hr. apply Hmove, recovery_advances; [done..|]. by apply HW.
Qed.

Definition dutiful (call : Weather * Request) : Prop := request_ok call.2 /\ tip_paced call.2 /\ onward call.1.

Lemma serve_all_advances calls s :
  Forall dutiful calls -> service_ok (db s) -> service_ok (db (serve_all calls s)) /\ advances (db s) (db (serve_all calls s)).
Proof.
  revert s. induction calls as [|[W r] calls IH]; intros s; [done|]. intros [(Hr & Ht & HW) Hall]%Forall_cons Hs.
  simpl. destruct (IH (serve W r s).2 Hall) as [Hok Hadv]; [by apply service_settled; [|apply HW|]|].
  split; [done|]. etrans; [by apply serve_advances|exact Hadv].
Qed.

(** C13: an id is never issued twice. Whatever is asked of a sound ledger, under
    whatever failures and beside whoever else: neither counter goes back, and
    every transaction or entry that was not there is under an id above the
    counter as it stood; and when the ledger had no more transactions than
    entries it still has not, which is what lets [giro recover resume] take the
    log id it was given for a transaction id. *)
Theorem ids_never_reissued (calls : list (Weather * Request)) (s : Store) (l : LedgerRow) :
  Forall dutiful calls -> service_ok (db s) -> ledger_row (db s) = Some l ->
  let d' := db (serve_all calls s) in
  (exists l', ledger_row d' = Some l' /\ last_tx_id l <= last_tx_id l' /\ last_log_id l <= last_log_id l') /\
  (forall id, is_Some (transactions d' !! id) -> transactions (db s) !! id = None -> last_tx_id l < id) /\
  (forall id, is_Some (logs d' !! id) -> logs (db s) !! id = None -> last_log_id l < id) /\
  (paced (db s) -> paced d').
Proof.
  intros Hc Hs Hl d'. destruct (serve_all_advances calls s Hc Hs) as (_ & [Hadv Hp]).
  destruct (Hadv l Hl) as (l' & Hl' & ? & ? & Ht & Hg). split_and!; [by exists l'| | |done].
  - intros id Hi Hn. apply Ht in Hi as [[r Hr]|Hi]; [congruence|done].
  - intros id Hi Hn. apply Hg in Hi as [[r Hr]|Hi]; [congruence|done].
Qed.

End codec.

(** ** At a concrete ledger *)

(** The day, and a restore that is resumed above the ids it lost. *)
Definition restored_day : list (Weather * Request) :=
  a_day ++ [(calm, DoRecordRecovery "main" {| TLedger := "main"; TLogID := 40; THash := EmptyString; TTxID := 40 |} "restored");
            (calm, DoCommit deposit no_options)].

Lemma restored_day_dutiful : Forall dutiful restored_day.
Proof.
  assert (onward calm) as Hn by (split; [by intros n d|intros n d _; apply advances_same; by split]).
  apply Forall_app. split.
  - pose proof a_day_honest as Ha. unfold a_day in *.
    assert (Forall (fun c => tip_paced c.2 /\ onward c.1) a_day) as Hp by (repeat (constructor; [done|]); constructor).
    apply Forall_forall. intros c Hc. rewrite Forall_forall in Ha, Hp. split; [by apply Ha|by apply Hp].
  - constructor; [|apply Forall_singleton].
    + split; [by split|]. by split.
    + split; [apply map_Forall_empty|]. by split.
Qed.

(** The deposit after the recovery is under an id above the forty lost. *)
Example resumes_above_the_lost :
  let d := db (serve_all restored_day new_store) in
  (fun id => bool_decide (is_Some (transactions d !! id))) <$> [2; 3; 40; 41] = [true; false; false; true].
Proof. vm_compute. reflexivity. Qed.

Lemma ids_never_reissued_witness :
  exists l : LedgerRow, ledger_row (db new_store) = Some l /\
    exists l' : LedgerRow, ledger_row (db (serve_all restored_day new_store)) = Some l' /\
      last_tx_id l <= last_tx_id l' /\ last_log_id l <= last_log_id l'.
Proof.
  eexists. split; [reflexivity|].
  exact (proj1 (ids_never_reissued restored_day new_store _ restored_day_dutiful new_ledger_service eq_refl)).
Defined.
