(* ===== verification/Api.v ===== *)
(** * The HTTP API

    [internal/api/server.go] and [internal/api/handlers.go]: the routes, the key
    a write must carry, and each handler from the bytes of its request to the
    response and the ledger it leaves. A request's path comes as the segments
    [http.ServeMux] cut and unescaped; its body and query as they were sent. *)

From S2P Require Import Prelude Identifiers Text Posting Volumes Decimal GoTime Json Transaction Codec Errors Schema Txn Locking Log Observer Commit Read Effective Revert Bulk MetadataOps Registry Page Lists Params Body Wire Ledger.

Record HttpRequest := {
  Method : string;
  Path : list string;
  RawQuery : string;
  IdempotencyKey : string;
  (** -1 when the client did not say *)
  ContentLength : Z;
  RequestBody : string;
}.

(** [Server], apart from its mux. *)
Record Server := { allowUnkeyed : bool }.

(** A handler's early return is the [Err] of what it read so far. *)
Definition need {A} (x : option A) (complaint : string) : res Response A :=
  match x with Some a => Ok a | None => Err (refusal VALIDATION complaint) end.

Definition query (r : HttpRequest) : res Response (list (string * string)) :=
  let '(values, ok) := ParseQuery (RawQuery r) in
  if ok then Ok values else Err (refusal VALIDATION "malformed query string").

Definition requireKey (srv : Server) (r : HttpRequest) : res Response unit :=
  if allowUnkeyed srv || negb (bool_decide (IdempotencyKey r = EmptyString)) then Ok tt
  else if bool_decide (Get (ParseQuery (RawQuery r)).1 "dryRun" = "true") then Ok tt
  else Err (refusal IDEMPOTENCYKEYREQUIRED "this endpoint moves money and requires an Idempotency-Key header").

Definition read_body {A} `{Unmarshal A} (r : HttpRequest) : res Response A :=
  need (decodeJSON (RequestBody r)) "malformed request body".

Definition dry_run (q : list (string * string)) : res Response bool :=
  need (boolParam q "dryRun") "dryRun must be true or false".

Definition limit_of (q : list (string * string)) : res Response Z := need (intParam q "limit") "limit must be an integer".

(** [r.PathValue] *)
Definition PathValue (args : list (string * string)) (name : string) : string := Get args name.

Definition path_id (args : list (string * string)) : res Response Z :=
  need (transactionID (PathValue args "id")) "id must be an integer".

Definition created (dryRun : bool) : Z := if dryRun then StatusOK else StatusCreated.

(** What a handler writes for an operation's result. *)
Definition reply {A} (code : Z) (inj : A -> body) (x : res error A) : Response :=
  match x with Ok a => writeJSON code (inj a) | Err e => writeError e end.

Definition handle {A} (parsed : res Response A) (run : A -> Store -> Response * Store) (s : Store) : Response * Store :=
  match parsed with Err resp => (resp, s) | Ok a => run a s end.

(** A read changes nothing. *)
Definition reads {A} (parsed : res Response A) (show : A -> Database -> Response) : Store -> Response * Store :=
  handle parsed (fun a s => (show a (db s), s)).

Definition writes {A B} (code : Z) (inj : B -> body) (parsed : res Response A)
    (run : A -> Database -> res error B * Database) : Store -> Response * Store :=
  handle parsed (fun a s => let '(x, d) := run a (db s) in (reply code inj x, with_db d s)).

(** ** Ledgers and assets *)

Definition createLedger (E : Env) (name : string) : Store -> Response * Store :=
  writes StatusCreated (fun l => BLedger (toAPILedger l)) (Ok tt) (fun _ => CreateLedger E name).

Definition getLedger (name : string) : Store -> Response * Store :=
  reads (Ok tt) (fun _ d => reply StatusOK (fun l => BLedger (toAPILedger l)) (GetLedger name d)).

Definition registerAsset (E : Env) (r : HttpRequest) : Store -> Response * Store :=
  writes StatusCreated BAssets (read_body (A := RegisterAssetJSONBody) r)
    (fun body d => match RegisterAsset E (RAsset body) d with
                   | (Err e, d) => (Err e, d)
                   | (Ok _, d) => (Ok (Assets d), d)
                   end).

Definition listAssets : Store -> Response * Store :=
  reads (Ok tt) (fun _ d => writeJSON StatusOK (BAssets (Assets d))).

(** ** Reading *)

Definition next_of (s : string) : option string := if_text s.

Definition page_of {T U} (f : T -> U) (p : Page T) : WirePage U := {| WItems := f <$> Items p; WNext := next_of (Next p) |}.

Definition transactions_query (r : HttpRequest) : res Response ListTransactionsQuery :=
  let! q := query r in
  let! limit := limit_of q in
  Ok {| TQLimit := limit; TQCursor := Get q "cursor";
        TQFilter := {| FAccount := Get q "account"; AccountPrefix := Get q "accountPrefix";
                       FReference := Get q "reference" |} |}.

Definition listTransactions (r : HttpRequest) : Store -> Response * Store :=
  reads (transactions_query r)
    (fun q d => reply StatusOK (fun p => BTransactionPage (page_of toAPITransaction p)) (ListTransactions d q)).

Definition getTransaction (args : list (string * string)) : Store -> Response * Store :=
  reads (path_id args)
    (fun id d => reply StatusOK (fun t => BTransaction (toAPITransaction t)) (GetTransaction d id)).

(** An expansion that is not known is refused rather than ignored. *)
Fixpoint expand (at_ : Time) (wants : list string) (o : accountOptions) : res Response accountOptions :=
  match wants with
  | [] => Ok o
  | want :: wants =>
      let w := TrimSpace (runes want) in
      if bool_decide (w = []) then expand at_ wants o
      else if bool_decide (w = runes "volumes") then
        expand at_ wants {| with_volumes := true; with_effective := with_effective o |}
      else if bool_decide (w = runes "effectiveVolumes") then
        expand at_ wants {| with_volumes := with_volumes o; with_effective := Some at_ |}
      else Err (refusal VALIDATION "unknown expand value")
  end.

Definition effective_date (q : list (string * string)) : res Response Time :=
  need (effectiveDate q) "at must be an RFC 3339 timestamp".

Definition getAccount (E : Env) (args : list (string * string)) (r : HttpRequest) : Store -> Response * Store :=
  reads (let! q := query r in
         let! at_ := effective_date q in
         expand at_ (split_on "," (Get q "expand")) no_volumes)
    (fun o d => reply StatusOK (fun a => BAccount (toAPIAccount a)) (GetAccount (now E) d (PathValue args "address") o)).

Definition getBalances (args : list (string * string)) (r : HttpRequest) : Store -> Response * Store :=
  reads (let! q := query r in effective_date q)
    (fun at_ d =>
       let address := PathValue args "address" in
       reply StatusOK BBalances
         (let! _ := text_arg address in
          Ok (if IsZero at_ then GetBalances d address else GetBalancesAt d address (UTC at_)))).

Definition aggregateBalances (r : HttpRequest) : Store -> Response * Store :=
  reads (query r) (fun q d => reply StatusOK BBalances (AggregateBalances d (Get q "prefix"))).

Definition listLogs (r : HttpRequest) : Store -> Response * Store :=
  reads (let! q := query r in
         let! limit := limit_of q in
         Ok {| LQLimit := limit; LQCursor := Get q "cursor" |})
    (fun q d => reply StatusOK (fun p => BLogPage (page_of toAPILog p)) (ListLogs d q)).

Definition optional_date (q : list (string * string)) (name : string) : res Response (option Time) :=
  need (optionalDate q name) "must be an RFC 3339 timestamp".

Definition listMoves (args : list (string * string)) (r : HttpRequest) : Store -> Response * Store :=
  reads (let! q := query r in
         let! limit := limit_of q in
         let! from := optional_date q "from" in
         let! to := optional_date q "to" in
         Ok {| MQLimit := limit; MQCursor := Get q "cursor";
               MQFilter := {| MFAddress := PathValue args "address"; MFAsset := Get q "asset";
                              MFFrom := from; MFTo := to |} |})
    (fun q d => reply StatusOK (fun p => BMovePage (page_of toAPIMove p)) (ListMoves d q)).

(** ** Writing *)

Section codec.
Context {codec : Codec}.

Definition commit_options (key : string) (dryRun : bool) (b : CreateTransactionRequest) : CommitOptions :=
  {| OTimestamp := default no_time (CTimestamp b); OReference := default EmptyString (CReference b);
     OMetadata := CMetadata b; OIdempotencyKey := key; ODryRun := dryRun |}.

(** The key is the header's, never the body's: it is no part of what is hashed. *)
Definition write_request {A} `{Unmarshal A} (srv : Server) (r : HttpRequest) : res Response (bool * A) :=
  let! _ := requireKey srv r in
  let! q := query r in
  let! dryRun := dry_run q in
  let! body := read_body r in
  Ok (dryRun, body).

Definition createTransaction (srv : Server) (W : Weather) (r : HttpRequest) : Store -> Response * Store :=
  handle (write_request srv r) (fun '(dryRun, body) s =>
    let '(x, s) := CommitTransaction W (fromAPIPostings (elems (CPostings body)))
                     (commit_options (IdempotencyKey r) dryRun body) s in
    (reply (created dryRun) (fun t => BTransaction (toAPITransaction t)) x, s)).

Definition batch_item (b : CreateTransactionRequest) : BatchItem :=
  {| BPostings := fromAPIPostings (elems (CPostings b)); BTimestamp := default no_time (CTimestamp b);
     BReference := default EmptyString (CReference b); BMetadata := CMetadata b |}.

Definition batch_options (key : string) (dryRun : bool) : CommitOptions :=
  {| OTimestamp := no_time; OReference := EmptyString; OMetadata := None; OIdempotencyKey := key; ODryRun := dryRun |}.

Definition commitBatch (srv : Server) (W : Weather) (r : HttpRequest) : Store -> Response * Store :=
  handle (write_request srv r) (fun '(dryRun, body) s =>
    let '(x, s) := CommitBatch W (batch_item <$> elems (BTransactions body)) (batch_options (IdempotencyKey r) dryRun) s in
    (reply (created dryRun) (fun ts => BBatch (toAPITransaction <$> ts)) x, s)).

(** The body is read only when a length was announced. *)
Definition revert_body_of (r : HttpRequest) : res Response RevertRequest :=
  if 0 <? ContentLength r then read_body r else Ok zero.

Definition revertTransaction (W : Weather) (args : list (string * string)) (r : HttpRequest) : Store -> Response * Store :=
  handle (let! id := path_id args in let! body := revert_body_of r in Ok (id, body)) (fun '(id, body) s =>
    let '(x, s) := RevertTransaction W id {| AtEffectiveDate := default false (RAtEffectiveDate body) |} s in
    (reply StatusCreated (fun rev => BReversal (toAPITransaction (Original rev)) (toAPITransaction (TReversal rev))) x, s)).

Definition setTransactionMetadata (E : Env) (args : list (string * string)) (r : HttpRequest) : Store -> Response * Store :=
  writes StatusOK (fun t => BTransaction (toAPITransaction t))
    (let! id := path_id args in let! m := read_body (A := Metadata) r in Ok (id, m))
    (fun '(id, m) => SetTransactionMetadata E id m).

Definition deleteTransactionMetadata (E : Env) (args : list (string * string)) : Store -> Response * Store :=
  writes StatusOK (fun t => BTransaction (toAPITransaction t)) (path_id args)
    (fun id => DeleteTransactionMetadataKey E id (PathValue args "key")).

Definition setAccountMetadata (E : Env) (args : list (string * string)) (r : HttpRequest) : Store -> Response * Store :=
  writes StatusOK (fun a => BAccount (toAPIAccount a)) (read_body (A := Metadata) r)
    (fun m => SetAccountMetadata E (PathValue args "address") m).

Definition deleteAccountMetadata (E : Env) (args : list (string * string)) : Store -> Response * Store :=
  writes StatusOK (fun a => BAccount (toAPIAccount a)) (Ok tt)
    (fun _ => DeleteAccountMetadataKey E (PathValue args "address") (PathValue args "key")).

(** ** Routes *)

Inductive segment := Lit (s : string) | Wild (name : string).

Inductive Handler :=
| HCreateLedger | HGetLedger | HRegisterAsset | HListAssets
| HCreateTransaction | HListTransactions | HCommitBatch | HGetTransaction
| HRevertTransaction | HSetTransactionMetadata | HDeleteTransactionMetadata
| HGetAccount | HSetAccountMetadata | HDeleteAccountMetadata | HGetBalances | HListMoves | HAggregateBalances
| HListLogs | HSpec | HDocs | HHealth.

Definition on_ledger (rest : list segment) : list segment := Lit "v1" :: Lit "ledgers" :: Wild "ledger" :: rest.

Definition routes : list (string * list segment * Handler) :=
  let tx := [Lit "transactions"] in
  let id := [Lit "transactions"; Wild "id"] in
  let account := [Lit "accounts"; Wild "address"] in
  [("POST", on_ledger [], HCreateLedger);
   ("GET", on_ledger [], HGetLedger);
   ("POST", on_ledger [Lit "assets"], HRegisterAsset);
   ("GET", on_ledger [Lit "assets"], HListAssets);
   ("POST", on_ledger tx, HCreateTransaction);
   ("GET", on_ledger tx, HListTransactions);
   ("POST", on_ledger (tx ++ [Lit "bulk"]), HCommitBatch);
   ("GET", on_ledger id, HGetTransaction);
   ("POST", on_ledger (id ++ [Lit "revert"]), HRevertTransaction);
   ("POST", on_ledger (id ++ [Lit "metadata"]), HSetTransactionMetadata);
   ("DELETE", on_ledger (id ++ [Lit "metadata"; Wild "key"]), HDeleteTransactionMetadata);
   ("GET", on_ledger account, HGetAccount);
   ("POST", on_ledger (account ++ [Lit "metadata"]), HSetAccountMetadata);
   ("DELETE", on_ledger (account ++ [Lit "metadata"; Wild "key"]), HDeleteAccountMetadata);
   ("GET", on_ledger (account ++ [Lit "balances"]), HGetBalances);
   ("GET", on_ledger (account ++ [Lit "moves"]), HListMoves);
   ("GET", on_ledger [Lit "balances"], HAggregateBalances);
   ("GET", on_ledger [Lit "logs"], HListLogs);
   ("GET", [Lit "openapi.yaml"], HSpec);
   ("GET", [Lit "docs"], HDocs);
   ("GET", [Lit "healthz"], HHealth)].

(** The wildcards of a pattern that a path matches. *)
Fixpoint match_path (pattern : list segment) (path : list string) : option (list (string * string)) :=
  match pattern, path with
  | [], [] => Some []
  | Lit s :: pattern, x :: path => if bool_decide (s = x) then match_path pattern path else None
  | Wild n :: pattern, x :: path => args ← match_path pattern path; Some ((n, x) :: args)
  | _, _ => None
  end.

(** A pattern for GET also serves HEAD. *)
Definition method_matches (pattern method : string) : bool :=
  bool_decide (pattern = method) || (bool_decide (pattern = "GET") && bool_decide (method = "HEAD")).

(** No two patterns of one method match the same path, so the order is free. *)
Definition route (r : HttpRequest) : option (Handler * list (string * string)) :=
  find_map (fun '(m, pattern, h) =>
              if method_matches m (Method r) then (fun args => (h, args)) <$> match_path pattern (Path r) else None) routes.

(** [handleHome], the pattern every path matches. *)
Definition handleHome (r : HttpRequest) : Response :=
  if bool_decide (Path r = []) then writeJSON StatusOK (BStatic "demo.html")
  else writeJSON StatusNotFound (BStatic "404 page not found").

(** The embedded pages, by the name of what is served. *)
Definition handleSpec : Response := writeJSON StatusOK (BStatic "openapi.yaml").
Definition handleDocs : Response := writeJSON StatusOK (BStatic "docs").
Definition handleHealth : Response := writeJSON StatusOK BHealth.

Definition serve_ledger (srv : Server) (W : Weather) (r : HttpRequest) (h : Handler) (args : list (string * string))
    : Store -> Response * Store :=
  let E := attempt_env W 0 in
  let name := PathValue args "ledger" in
  let static page := reads (Ok tt) (fun _ _ => page) in
  match h with
  | HCreateLedger => createLedger E name
  | HGetLedger => getLedger name
  | HRegisterAsset => registerAsset E r
  | HListAssets => listAssets
  | HCreateTransaction => createTransaction srv W r
  | HListTransactions => listTransactions r
  | HCommitBatch => commitBatch srv W r
  | HGetTransaction => getTransaction args
  | HRevertTransaction => revertTransaction W args r
  | HSetTransactionMetadata => setTransactionMetadata E args r
  | HDeleteTransactionMetadata => deleteTransactionMetadata E args
  | HGetAccount => getAccount E args r
  | HSetAccountMetadata => setAccountMetadata E args r
  | HDeleteAccountMetadata => deleteAccountMetadata E args
  | HGetBalances => getBalances args r
  | HListMoves => listMoves args r
  | HAggregateBalances => aggregateBalances r
  | HListLogs => listLogs r
  | HSpec => static handleSpec
  | HDocs => static handleDocs
  | HHealth => static handleHealth
  end.

(** The whole server: the name in the path selects the store, and nothing else
    of another ledger is in reach. *)
Definition ServeHTTP (srv : Server) (W : Weather) (r : HttpRequest) (stores : string -> Store)
    : Response * (string -> Store) :=
  match route r with
  | Some (h, args) =>
      let name := PathValue args "ledger" in
      let '(resp, s) := serve_ledger srv W r h args (stores name) in
      (resp, update stores name s)
  | None =>
      if method_matches "GET" (Method r) then (handleHome r, stores)
      else (writeJSON StatusMethodNotAllowed (BStatic "Method Not Allowed"), stores)
  end.

End codec.
