(* ===== verification/Contract.v ===== *)
(** * Parameters, as the contract types them

    The parameter types of [internal/api/gen.go] and the query a client writes
    from one, in whatever order; the handlers read from it exactly the values in
    the parameters. The escaping is [url.QueryEscape]. *)

From S2P Require Import Prelude Identifiers Text Decimal GoTime Json Base64 Transaction Codec Errors Schema Txn Observer Commit Read Effective Revert Bulk MetadataOps Page Lists Params Body Wire Api.

(** ** [url.QueryEscape] *)

Definition unreserved (c : ascii) : bool := url_char c || Ascii.eqb c "." || Ascii.eqb c "~".

Definition upper_hex (n : Z) : ascii := byte_char (if n <? 10 then 48 + n else 55 + n).

Fixpoint QueryEscape (s : string) : string :=
  match s with
  | EmptyString => EmptyString
  | String c s =>
      if unreserved c then String c (QueryEscape s)
      else if Ascii.eqb c " " then String "+" (QueryEscape s)
      else String "%" (String (upper_hex (byte_of c / 16)) (String (upper_hex (byte_of c mod 16)) (QueryEscape s)))
  end.

Lemma unescape_escape s : QueryUnescape (QueryEscape s) = Some s.
Proof.
  induction s as [|c s IH]; [done|].
  destruct c as [[] [] [] [] [] [] [] []]; cbn -[QueryUnescape QueryEscape];
    match goal with |- QueryUnescape (QueryEscape (String ?c s)) = _ =>
      let e := eval vm_compute in (QueryEscape (String c EmptyString)) in
      change (QueryEscape (String c s)) with (e +:+ QueryEscape s)
    end; cbn [String.append QueryUnescape]; rewrite ?IH; reflexivity.
Qed.

(** The characters of an escaped text. *)
Definition query_char (c : ascii) : bool := unreserved c || Ascii.eqb c "+" || Ascii.eqb c "%".

Lemma escape_chars s : forall_char query_char (QueryEscape s) = true.
Proof.
  assert (forall n, 0 <= n < 16 -> query_char (upper_hex n) = true) as Hhex.
  { intros n Hn. assert (forallb (fun k => query_char (upper_hex (Z.of_nat k))) (List.seq 0 16) = true) as H by (by vm_compute).
    rewrite forallb_forall in H. rewrite <-(Z2Nat.id n) by lia. apply H, in_seq. lia. }
  induction s as [|c s IH]; [done|]. cbn [QueryEscape]. destruct (unreserved c) eqn:Hc.
  - cbn [forall_char]. unfold query_char at 1. by rewrite Hc, IH.
  - case_match; cbn [forall_char]; rewrite IH, ?Hhex; try done; [apply Z.mod_pos_bound; lia|].
    assert (0 <= byte_of c < 256) by (unfold byte_of; pose proof (N_ascii_bounded c); lia).
    split; [apply Z.div_pos; lia|apply Z.div_lt_upper_bound; lia].
Qed.

Lemma escape_free sep s : query_char sep = false -> free_of sep (QueryEscape s) = true.
Proof.
  intros Hsep. eapply forall_char_impl; [|apply escape_chars]. intros c Hc. apply bool_decide_eq_true. intros ->. congruence.
Qed.

(** ** Writing a query *)

Definition write_pair (kv : string * string) : string := QueryEscape kv.1 +:+ String "=" (QueryEscape kv.2).

Definition write_query (l : list (string * string)) : string := join_with "&" (write_pair <$> l).

Lemma pair_free sep kv : query_char sep = false -> sep <> "="%char -> free_of sep (write_pair kv) = true.
Proof.
  intros Hsep Heq. unfold write_pair, free_of. rewrite forall_char_app. cbn [forall_char].
  fold (free_of sep (QueryEscape kv.1)) (free_of sep (QueryEscape kv.2)). rewrite !escape_free by done.
  by rewrite bool_decide_true by congruence.
Qed.

Lemma parse_write_pair kv : parse_pair (write_pair kv) = Some kv.
Proof.
  unfold parse_pair. rewrite pair_free by done. cbn [negb]. unfold write_pair. rewrite cut_app_sep by (by apply escape_free).
  rewrite !unescape_escape. by destruct kv.
Qed.

(** Any list of parameters is read back as it was written. *)
Lemma parse_write_query l : ParseQuery (write_query l) = (l, true).
Proof.
  unfold ParseQuery, write_query.
  assert (filter (fun p => p <> EmptyString) (split_on "&" (join_with "&" (write_pair <$> l))) = write_pair <$> l) as ->.
  { assert (forall kv, write_pair kv <> EmptyString) as Hne by (intros [k v]; unfold write_pair; cbn [fst]; destruct (QueryEscape k); discriminate).
    destruct l as [|kv l]; [done|]. rewrite split_join.
    - induction (kv :: l) as [|x l' IH]; [done|]. rewrite fmap_cons, filter_cons_True by apply Hne. by rewrite IH.
    - done.
    - apply forallb_forall. intros p (x & -> & _)%list_elem_of_In%list_elem_of_fmap. apply pair_free; [reflexivity|discriminate]. }
  induction l as [|kv l IH]; [done|]. rewrite fmap_cons. cbn [omap list_omap forallb]. rewrite parse_write_pair.
  injection IH as -> ->. done.
Qed.

(** ** A form: parameters that are there or not *)

Definition given (form : list (string * option string)) : list (string * string) := omap (fun nv => pair nv.1 <$> nv.2) form.

(** [runtime.StyleParam]'s texts. *)
Definition int_text (z : Z) : string := print_Z z.
Definition bool_text (b : bool) : string := if b then "true" else "false".
Definition time_text (t : Time) : string := format_time t.

(** The request's query holds a form's parameters, in some order. *)
Definition carries (r : HttpRequest) (form : list (string * option string)) : Prop :=
  exists q, q ≡ₚ given form /\ RawQuery r = write_query q.

Lemma elem_of_given form n x : (n, x) ∈ given form <-> (n, Some x) ∈ form.
Proof.
  unfold given. rewrite list_elem_of_omap. split.
  - intros ([m [y|]] & Hin & Hy); [|done]. by injection Hy as -> ->.
  - intros Hin. by exists (n, Some x).
Qed.

Lemma form_unique {A} (form : list (string * A)) n v w : NoDup form.*1 -> (n, v) ∈ form -> (n, w) ∈ form -> v = w.
Proof.
  induction form as [|[m x] form IH]; [by intros _ ?%not_elem_of_nil|]. rewrite fmap_cons. intros [Hni Hnd]%NoDup_cons.
  rewrite !elem_of_cons. intros [[= -> ->]|Hv] [[= He]|Hw]; subst; try done.
  - by destruct Hni; apply list_elem_of_fmap; exists (m, w).
  - by destruct Hni; apply list_elem_of_fmap; exists (m, v).
  - by apply IH.
Qed.

Lemma Get_given form q n v : NoDup form.*1 -> q ≡ₚ given form -> (n, v) ∈ form -> Get q n = default EmptyString v.
Proof.
  intros Hnd Hq Hin. unfold Get. destruct (find_map _ q) as [y|] eqn:Hy.
  - apply find_map_Some in Hy as (l1 & [m x] & l2 & -> & Hx & _). case_bool_decide as Hm; [|done]. simpl in Hm. subst m. injection Hx as <-.
    assert ((n, x) ∈ given form) as Hg%elem_of_given by (rewrite <-Hq; apply elem_of_app; right; left).
    by rewrite (form_unique form n v (Some x)).
  - destruct v as [x|]; [|done]. rewrite find_map_None in Hy. specialize (Hy (n, x)).
    rewrite Hq, elem_of_given in Hy. specialize (Hy Hin). simpl in Hy. by rewrite bool_decide_true in Hy.
Qed.

Lemma carries_query r form : carries r form -> exists q, query r = Ok q /\ q ≡ₚ given form.
Proof. intros (q & Hq & Hr). exists q. split; [|done]. unfold query. by rewrite Hr, parse_write_query. Qed.

Lemma int_given q n (z : option Z) :
  Get q n = default EmptyString (int_text <$> z) -> from_option (fun z => - 2 ^ 63 <= z <= max_int64) True z -> intParam q n = Some (default 0 z).
Proof.
  intros Hg Hz. unfold intParam. rewrite Hg. destruct z as [z|]; [|done]. simpl.
  rewrite bool_decide_false by apply print_Z_nonempty. by apply parse_print_int64.
Qed.

Lemma bool_given q n (b : option bool) : Get q n = default EmptyString (bool_text <$> b) -> boolParam q n = Some (default false b).
Proof. intros Hg. unfold boolParam. rewrite Hg. by destruct b as [[]|]. Qed.

(** What RFC 3339 can write is read by [time.Parse] too. *)
Lemma lenient_parts s n s' o :
  parse_fraction s = Some (n, s') -> parse_zone s' = Some o -> lenient_fraction s = (n, s') /\ lenient_zone s' = Some o.
Proof.
  intros Hf Hz. assert (lenient_zone s' = Some o) as ->.
  { destruct s' as [|c s']; [done|]. unfold parse_zone, lenient_zone in *.
    assert (forall sign s0, ('(h, s) ← take_digits 2 0 s0; s ← expect ":" s; '(m, s) ← take_digits 2 0 s;
              if bool_decide (s = EmptyString) && (h <=? 23) && (m <=? 59) then Some (sign * (h * 3600 + m * 60)) else None) = Some o ->
            ('(h, s) ← take_digits 2 0 s0; s ← expect ":" s; '(m, s) ← take_digits 2 0 s;
              if bool_decide (s = EmptyString) && (h <=? 24) && (m <=? 60) then Some (sign * (h * 3600 + m * 60)) else None) = Some o) as Hw.
    { intros sign s0 H. destruct (take_digits 2 0 s0) as [[h s1]|]; [|done]. cbn [mbind option_bind] in *.
      destruct (expect ":" s1) as [s2|]; [|done]. cbn [mbind option_bind] in *.
      destruct (take_digits 2 0 s2) as [[m s3]|]; [|done]. cbn [mbind option_bind] in *. destruct (bool_decide (s3 = EmptyString)); simpl in H |- *; [|done].
      destruct (Z.leb_spec h 23), (Z.leb_spec m 59), (Z.leb_spec h 24), (Z.leb_spec m 60); simpl in *; try done; lia. }
    destruct c as [[] [] [] [] [] [] [] []], s' as [|c' s']; try done; by apply Hw. }
  split; [|done]. unfold parse_fraction in Hf. unfold lenient_fraction.
  destruct s as [|p s]; [by simplify_eq|].
  destruct p as [[] [] [] [] [] [] [] []]; destruct s as [|c s]; simpl in Hf |- *; simplify_eq/=; try done;
    try (by destruct (is_digit c); simplify_eq/=).
Qed.

Lemma lenient_time s t : parse_time s = Some t -> ParseRFC3339 s = Some t.
Proof.
  unfold parse_time, ParseRFC3339. intros H.
  repeat match goal with
  | H : (?x ≫= _) = Some _ |- _ => destruct x as [[? ?]|] eqn:?; [|done]; cbn [mbind option_bind] in H |- *
  | H : (?x ≫= _) = Some _ |- _ => destruct x eqn:?; [|done]; cbn [mbind option_bind] in H |- *
  end.
  repeat match goal with
  | Hd : take_digits 2 0 ?x = Some (?n, ?y) |- context [take_hour ?x] =>
      replace (take_hour x) with (Some (n, y)) by (unfold take_hour; by rewrite Hd); cbn [mbind option_bind]
  | Hd : ?x = Some _ |- context [?x] => rewrite Hd; cbn [mbind option_bind]
  end.
  match goal with Hf : parse_fraction _ = Some _, Hz : parse_zone _ = Some _ |- _ =>
    destruct (lenient_parts _ _ _ _ Hf Hz) as [-> Hlz] end.
  rewrite Hlz. exact H.
Qed.

(** A time the contract can say: RFC 3339, whole minutes from UTC. *)
Definition sayable (t : Time) : Prop := is_Some (marshal_time t) /\ t.(zone) mod 60 = 0.

Lemma parse_time_text t : sayable t -> ParseRFC3339 (time_text t) = Some t /\ time_text t <> EmptyString.
Proof.
  intros [[s Hs] Hz]. pose proof (parse_format_time t s Hs Hz) as Hp. unfold marshal_time in Hs.
  destruct (_ && _); [|done]. injection Hs as Hs. unfold time_text. rewrite Hs.
  split; [by apply lenient_time|]. by intros ->.
Qed.

Lemma at_given q (t : option Time) :
  Get q "at" = default EmptyString (time_text <$> t) -> from_option sayable True t -> effectiveDate q = Some (default no_time t).
Proof.
  intros Hg Ht. unfold effectiveDate. rewrite Hg. destruct t as [t|]; [|done]. destruct (parse_time_text t Ht) as [Hp Hne]. cbv zeta.
  change (default _ (time_text <$> Some t)) with (time_text t). by rewrite bool_decide_false.
Qed.

Lemma date_given q n (t : option Time) :
  Get q n = default EmptyString (time_text <$> t) -> from_option sayable True t -> optionalDate q n = Some t.
Proof.
  intros Hg Ht. unfold optionalDate. rewrite Hg. destruct t as [t|]; [|done]. destruct (parse_time_text t Ht) as [Hp Hne]. cbv zeta.
  change (default _ (time_text <$> Some t)) with (time_text t). by rewrite bool_decide_false, Hp.
Qed.

(** ** The parameter types of gen.go *)

Record GetAccountParams := { GAExpand : option string; GAAt : option Time }.
Record GetBalancesParams := { GBAt : option Time }.
Record ListMovesParams := {
  LMAsset : option string; LMFrom : option Time; LMTo : option Time; LMLimit : option Z; LMCursor : option string }.
Record AggregateBalancesParams := { ABPrefix : option string }.
Record ListLogsParams := { LLLimit : option Z; LLCursor : option string }.
Record ListTransactionsParams := {
  LTAccount : option string; LTAccountPrefix : option string; LTReference : option string; LTLimit : option Z;
  LTCursor : option string }.
Record CreateTransactionParams := { CTDryRun : option bool; CTIdempotencyKey : string }.
Record CommitBatchParams := { CBDryRun : option bool; CBIdempotencyKey : string }.

(** The [form] tags. *)
Definition account_form (p : GetAccountParams) := [("expand", GAExpand p); ("at", time_text <$> GAAt p)].
Definition balances_form (p : GetBalancesParams) := [("at", time_text <$> GBAt p)].
Definition moves_form (p : ListMovesParams) :=
  [("asset", LMAsset p); ("from", time_text <$> LMFrom p); ("to", time_text <$> LMTo p); ("limit", int_text <$> LMLimit p);
   ("cursor", LMCursor p)].
Definition aggregate_form (p : AggregateBalancesParams) := [("prefix", ABPrefix p)].
Definition logs_form (p : ListLogsParams) := [("limit", int_text <$> LLLimit p); ("cursor", LLCursor p)].
Definition transactions_form (p : ListTransactionsParams) :=
  [("account", LTAccount p); ("accountPrefix", LTAccountPrefix p); ("reference", LTReference p);
   ("limit", int_text <$> LTLimit p); ("cursor", LTCursor p)].
Definition create_form (p : CreateTransactionParams) := [("dryRun", bool_text <$> CTDryRun p)].
Definition batch_form (p : CommitBatchParams) := [("dryRun", bool_text <$> CBDryRun p)].

Definition int_ok (z : option Z) : Prop := from_option (fun z => - 2 ^ 63 <= z <= max_int64) True z.
Definition time_ok (t : option Time) : Prop := from_option sayable True t.
Definition text_of (s : option string) : string := default EmptyString s.

(** ** What the handlers make of them *)

Ltac in_form :=
  cbv beta delta [account_form balances_form moves_form aggregate_form logs_form transactions_form create_form batch_form];
  repeat first [by left|right].

Ltac get_given := eapply Get_given; [|eassumption|in_form]; apply (bool_decide_unpack _); by vm_compute.

Section handlers.
Context {codec : Codec}.

(** Each listing and each read answers for the values in the parameters, absent
    ones for their defaults. *)
Theorem list_transactions_understood (p : ListTransactionsParams) (r : HttpRequest) (s : Store) :
  carries r (transactions_form p) -> int_ok (LTLimit p) ->
  listTransactions r s =
    (reply StatusOK (fun page => BTransactionPage (page_of toAPITransaction page))
       (ListTransactions (db s) {| TQLimit := default 0 (LTLimit p); TQCursor := text_of (LTCursor p);
          TQFilter := {| FAccount := text_of (LTAccount p); AccountPrefix := text_of (LTAccountPrefix p);
                         FReference := text_of (LTReference p) |} |}), s).
Proof.
  intros (q & Hr & Hq)%carries_query Hl. unfold listTransactions, transactions_query, limit_of. rewrite Hr. cbn [rbind].
  rewrite (int_given q "limit" (LTLimit p)) by (try done; get_given). cbn [need rbind].
  unfold reads, handle, text_of. repeat f_equal; get_given.
Qed.

Theorem list_moves_understood (p : ListMovesParams) (args : list (string * string)) (r : HttpRequest) (s : Store) :
  carries r (moves_form p) -> int_ok (LMLimit p) -> time_ok (LMFrom p) -> time_ok (LMTo p) ->
  listMoves args r s =
    (reply StatusOK (fun page => BMovePage (page_of toAPIMove page))
       (ListMoves (db s) {| MQLimit := default 0 (LMLimit p); MQCursor := text_of (LMCursor p);
          MQFilter := {| MFAddress := PathValue args "address"; MFAsset := text_of (LMAsset p);
                         MFFrom := LMFrom p; MFTo := LMTo p |} |}), s).
Proof.
  intros (q & Hr & Hq)%carries_query Hl Hf Ht. unfold listMoves, limit_of, optional_date. rewrite Hr. cbn [rbind].
  rewrite (int_given q "limit" (LMLimit p)) by (try done; get_given). cbn [need rbind].
  rewrite (date_given q "from" (LMFrom p)) by (try done; get_given). cbn [need rbind].
  rewrite (date_given q "to" (LMTo p)) by (try done; get_given). cbn [need rbind].
  unfold reads, handle, text_of. repeat f_equal; get_given.
Qed.

Theorem list_logs_understood (p : ListLogsParams) (r : HttpRequest) (s : Store) :
  carries r (logs_form p) -> int_ok (LLLimit p) ->
  listLogs r s =
    (reply StatusOK (fun page => BLogPage (page_of toAPILog page))
       (ListLogs (db s) {| LQLimit := default 0 (LLLimit p); LQCursor := text_of (LLCursor p) |}), s).
Proof.
  intros (q & Hr & Hq)%carries_query Hl. unfold listLogs, limit_of. rewrite Hr. cbn [rbind].
  rewrite (int_given q "limit" (LLLimit p)) by (try done; get_given). cbn [need rbind].
  unfold reads, handle, text_of. repeat f_equal; get_given.
Qed.

Theorem aggregate_understood (p : AggregateBalancesParams) (r : HttpRequest) (s : Store) :
  carries r (aggregate_form p) ->
  aggregateBalances r s = (reply StatusOK BBalances (AggregateBalances (db s) (text_of (ABPrefix p))), s).
Proof.
  intros (q & Hr & Hq)%carries_query. unfold aggregateBalances. rewrite Hr. unfold reads, handle, text_of. repeat f_equal. get_given.
Qed.

(** No date, or the zero time, asks for now. *)
Theorem get_balances_understood (p : GetBalancesParams) (args : list (string * string)) (r : HttpRequest) (s : Store) :
  carries r (balances_form p) -> time_ok (GBAt p) ->
  let address := PathValue args "address" in
  getBalances args r s =
    (reply StatusOK BBalances
       (let! _ := text_arg address in
        Ok (match GBAt p with
            | Some t => if IsZero t then GetBalances (db s) address else GetBalancesAt (db s) address (UTC t)
            | None => GetBalances (db s) address
            end)), s).
Proof.
  intros (q & Hr & Hq)%carries_query Ht address. unfold getBalances, effective_date. rewrite Hr. cbn [rbind].
  rewrite (at_given q (GBAt p)) by (try done; get_given). cbn [need]. unfold reads, handle. fold address. by destruct (GBAt p).
Qed.

Theorem get_account_understood (p : GetAccountParams) (E : Env) (args : list (string * string)) (r : HttpRequest) (s : Store) :
  carries r (account_form p) -> time_ok (GAAt p) ->
  getAccount E args r s =
    match expand (default no_time (GAAt p)) (split_on "," (text_of (GAExpand p))) no_volumes with
    | Ok o => (reply StatusOK (fun a => BAccount (toAPIAccount a)) (GetAccount (now E) (db s) (PathValue args "address") o), s)
    | Err resp => (resp, s)
    end.
Proof.
  intros (q & Hr & Hq)%carries_query Ht. unfold getAccount, effective_date. rewrite Hr. cbn [rbind].
  rewrite (at_given q (GAAt p)) by (try done; get_given). cbn [need rbind].
  assert (Get q "expand" = text_of (GAExpand p)) as -> by get_given. unfold reads, handle. by destruct (expand _ _ _).
Qed.

(** A write: without a key only where the server takes them, or for a dry run. *)
Lemma write_understood {A} `{Unmarshal A} srv (r : HttpRequest) (b : option bool) q :
  query r = Ok q -> Get q "dryRun" = default EmptyString (bool_text <$> b) ->
  write_request (A := A) srv r =
    if allowUnkeyed srv || negb (bool_decide (IdempotencyKey r = EmptyString)) || default false b
    then (let! body := read_body r in Ok (default false b, body))
    else Err (refusal IDEMPOTENCYKEYREQUIRED "this endpoint moves money and requires an Idempotency-Key header").
Proof.
  intros Hr Hg. unfold write_request, requireKey, dry_run. rewrite Hr.
  assert ((ParseQuery (RawQuery r)).1 = q) as ->.
  { unfold query in Hr. destruct (ParseQuery (RawQuery r)) as [v []]; [|done]. by injection Hr as ->. }
  destruct (allowUnkeyed srv || negb (bool_decide (IdempotencyKey r = EmptyString))); cbn [rbind orb].
  - by rewrite (bool_given q "dryRun" b) by done.
  - rewrite Hg. destruct b as [[]|]; cbn [rbind need default]; try done. rewrite bool_decide_true by done. cbn [rbind].
    by rewrite (bool_given q "dryRun" (Some true)) by done.
Qed.

Theorem create_understood (p : CreateTransactionParams) (srv : Server) (W : Weather) (r : HttpRequest) (s : Store) :
  carries r (create_form p) -> IdempotencyKey r = CTIdempotencyKey p ->
  createTransaction srv W r s =
    if allowUnkeyed srv || negb (bool_decide (CTIdempotencyKey p = EmptyString)) || default false (CTDryRun p) then
      match read_body r with
      | Ok body =>
          let '(x, s) := CommitTransaction W (fromAPIPostings (elems (CPostings body)))
                           (commit_options (CTIdempotencyKey p) (default false (CTDryRun p)) body) s in
          (reply (created (default false (CTDryRun p))) (fun t => BTransaction (toAPITransaction t)) x, s)
      | Err resp => (resp, s)
      end
    else (refusal IDEMPOTENCYKEYREQUIRED "this endpoint moves money and requires an Idempotency-Key header", s).
Proof.
  intros (q & Hr & Hq)%carries_query <-. unfold createTransaction.
  rewrite (write_understood srv r (CTDryRun p) q) by (try done; get_given). destruct (_ || _); [|done]. by destruct (read_body r).
Qed.

Theorem batch_understood (p : CommitBatchParams) (srv : Server) (W : Weather) (r : HttpRequest) (s : Store) :
  carries r (batch_form p) -> IdempotencyKey r = CBIdempotencyKey p ->
  commitBatch srv W r s =
    if allowUnkeyed srv || negb (bool_decide (CBIdempotencyKey p = EmptyString)) || default false (CBDryRun p) then
      match read_body r with
      | Ok body =>
          let '(x, s) := CommitBatch W (batch_item <$> elems (BTransactions body))
                           (batch_options (CBIdempotencyKey p) (default false (CBDryRun p))) s in
          (reply (created (default false (CBDryRun p))) (fun ts => BBatch (toAPITransaction <$> ts)) x, s)
      | Err resp => (resp, s)
      end
    else (refusal IDEMPOTENCYKEYREQUIRED "this endpoint moves money and requires an Idempotency-Key header", s).
Proof.
  intros (q & Hr & Hq)%carries_query <-. unfold commitBatch.
  rewrite (write_understood srv r (CBDryRun p) q) by (try done; get_given). destruct (_ || _); [|done]. by destruct (read_body r).
Qed.

End handlers.

Example alices_page :
  write_query (given (transactions_form {| LTAccount := Some "users:alice"; LTAccountPrefix := None; LTReference := Some "a b";
    LTLimit := Some 5; LTCursor := None |})) = "account=users%3Aalice&reference=a+b&limit=5".
Proof. by vm_compute. Qed.
