(* ===== verification/Http.v ===== *)
(** * What the API promises

    Theorems about [Api.ServeHTTP]: whatever bytes arrive, the books of every
    ledger stay sound; the status of a response says whether money moved; a
    write without a key moves none; a client that follows [next] sees every
    transaction once; what a client writes is what is committed. *)

From S2P Require Import Prelude Identifiers Text Posting Volumes Sha256 Decimal GoTime Json Transaction Codec Encoding Errors Schema Txn Locking Guards Moves History Log Observer Commit Committed Book Chain Sample CommitSpec Replay Effective Read Verify Invariant Revert Bulk MetadataOps Policy Closure Registry Recovery Base64 Page Lists Reader Params Body Client Wire Ledger Refinement VerifyRuns Service Api.

(** ** Creating a ledger *)

Lemma create_ledger_cases E name d x d' :
  CreateLedger E name d = (x, d') ->
  d' = d \/ (ledger_row d = None /\ d' = set_pending [] (set_ledger_row (Some (fresh_ledger_row (db_now E))) d)).
Proof.
  unfold CreateLedger. destruct (autocommit _ _ d) as [r d1] eqn:Hac.
  apply autocommit_cases in Hac as [(e & -> & ->)|(l & d2 & -> & Hs & ->)]; intros [= _ <-]; [by left|right].
  apply stmt_Ok in Hs as [_ Hs]. unfold insert_ledger in Hs. inv_ok. destruct (ledger_row d) eqn:Hl; [done|]. by simplify_eq.
Qed.

Section codec.
Context {codec : Codec}.

Lemma map_rows_nothing {V} : map_rows Z.le (∅ : gmap Z V) = [].
Proof. apply map_rows_empty; apply _. Qed.

Lemma fresh_chain d at_ : logs d = ∅ -> transactions d = ∅ -> chain_ok d (fresh_ledger_row at_).
Proof.
  intros Hl Ht. split; unfold log_rows; rewrite ?Hl, ?Ht, ?map_rows_nothing; try done.
  - unfold VerifyLog. by rewrite Hl, map_rows_nothing.
  - intros id [r Hr]. by rewrite lookup_empty in Hr.
  - intros id [r Hr]. by rewrite lookup_empty in Hr.
Qed.

Lemma create_service_ok E name d x d' : CreateLedger E name d = (x, d') -> service_ok d -> service_ok d'.
Proof.
  intros [-> |[Hn ->]]%create_ledger_cases Hs; [done|]. destruct Hs as [[[Hsound Hlog Hk Hp Hst] Hpend] Hnum].
  split; [|by apply (numbered_ext d)]. split; [|done]. split; [by destruct Hsound; split| | | |].
  - unfold log_ok in *. rewrite Hn in Hlog. destruct Hlog. by apply fresh_chain.
  - exact Hk.
  - by eapply projection_ext; [..|exact Hp].
  - exact Hst.
Qed.

Lemma create_abs E name d x d' : CreateLedger E name d = (x, d') -> abs d ≡ abs d'.
Proof. intros [-> |[_ ->]]%create_ledger_cases; [done|]. by apply abs_ext. Qed.

(** ** The request behind a request *)

(** What a parsed request asks of the engine, and whether it is a dry run. *)
Definition asked (srv : Server) (r : HttpRequest) (h : Handler) (args : list (string * string)) : res Response (Request * bool) :=
  match h with
  | HCreateTransaction =>
      let! b := write_request srv r in
      Ok (DoCommit (fromAPIPostings (elems (CPostings b.2))) (commit_options (IdempotencyKey r) b.1 b.2), b.1)
  | HCommitBatch =>
      let! b := write_request srv r in
      Ok (DoBatch (batch_item <$> elems (BTransactions b.2)) (batch_options (IdempotencyKey r) b.1), b.1)
  | HRevertTransaction =>
      let! id := path_id args in
      let! b := revert_body_of r in
      Ok (DoRevert id {| AtEffectiveDate := default false (RAtEffectiveDate b) |}, false)
  | HRegisterAsset => let! b := Api.read_body r in Ok (DoRegisterAsset (RAsset b), false)
  | HSetTransactionMetadata =>
      let! id := path_id args in let! m := Api.read_body r in Ok (DoSetTransactionMetadata id m, false)
  | HDeleteTransactionMetadata =>
      let! id := path_id args in Ok (DoDeleteTransactionMetadataKey id (PathValue args "key"), false)
  | HSetAccountMetadata => let! m := Api.read_body r in Ok (DoSetAccountMetadata (PathValue args "address") m, false)
  | HDeleteAccountMetadata =>
      Ok (DoDeleteAccountMetadataKey (PathValue args "address") (PathValue args "key"), false)
  | _ => Err (writeJSON StatusOK BHealth)
  end.

Definition changes_ledger (h : Handler) : bool :=
  match h with
  | HCreateTransaction | HCommitBatch | HRevertTransaction | HRegisterAsset | HSetTransactionMetadata
  | HDeleteTransactionMetadata | HSetAccountMetadata | HDeleteAccountMetadata => true
  | _ => false
  end.

(** What is shown of an answer. *)
Definition shown (dry : bool) (a : Answer) (d : Database) : Response :=
  match a with
  | ATransaction t => writeJSON (created dry) (BTransaction (toAPITransaction t))
  | AReversal rev => writeJSON StatusCreated (BReversal (toAPITransaction (Original rev)) (toAPITransaction (TReversal rev)))
  | ATransactions ts => writeJSON (created dry) (BBatch (toAPITransaction <$> ts))
  | AAccount a => writeJSON StatusOK (BAccount (toAPIAccount a))
  | ADone => writeJSON StatusCreated (BAssets (Assets d))
  end.

(** Annotating a transaction answers 200. *)
Definition annotates (h : Handler) : bool :=
  match h with HSetTransactionMetadata | HDeleteTransactionMetadata => true | _ => false end.

Lemma serve_asked srv W r h args s resp s' :
  serve_ledger srv W r h args s = (resp, s') ->
  match asked srv r h args with
  | Ok (q, dry) =>
      exists o, serve W q s = (o, s') /\
        match o with Err e => resp = writeError e | Ok a => resp = shown (annotates h || dry) a (db s') end
  | Err resp' =>
      if changes_ledger h then s' = s /\ resp = resp'
      else s' = s \/ h = HCreateLedger /\ exists x, CreateLedger (attempt_env W 0) (PathValue args "ledger") (db s) = (x, db s')
  end.
Proof.
  destruct h; unfold serve_ledger, asked, changes_ledger, annotates, serve, on_db;
    try (intros [= <- <-]; by left);
    unfold getLedger, listAssets, listTransactions, getTransaction, getAccount, getBalances, listMoves, aggregateBalances,
      listLogs, createTransaction, commitBatch, revertTransaction, registerAsset, setTransactionMetadata,
      deleteTransactionMetadata, setAccountMetadata, deleteAccountMetadata, createLedger, reads, writes, handle.
  all: repeat match goal with
       | |- context [write_request ?v ?x] => destruct (write_request v x) as [[dry b]|resp0]; simpl
       | |- context [path_id ?x] => destruct (path_id x) as [id|resp0]; simpl
       | |- context [revert_body_of ?x] => destruct (revert_body_of x) as [b|resp0]; simpl
       | |- context [Api.read_body ?x] => destruct (Api.read_body x) as [b|resp0]; simpl
       end; try (intros [= <- <-]; by split).
  all: try (match goal with |- context [match ?x with Ok _ => _ | Err _ => _ end = _] => destruct x end; intros [= _ <-]; by left).
  all: try (intros [= _ <-]; by left).
  - destruct (CreateLedger _ _ _) as [x d] eqn:H. intros [= _ <-]. right. split; [done|]. by exists x.
  - destruct (RegisterAsset _ _ _) as [[u|e] d] eqn:H; intros [= <- <-]; eexists; split; try done; done.
  - destruct (CommitTransaction _ _ _ _) as [[t|e] s1]; intros [= <- <-]; eexists; split; try done; done.
  - destruct (CommitBatch _ _ _ _) as [[t|e] s1]; intros [= <- <-]; eexists; split; try done; done.
  - destruct (RevertTransaction _ _ _ _) as [[t|e] s1]; intros [= <- <-]; eexists; split; try done; done.
  - destruct (SetTransactionMetadata _ _ _ _) as [[t|e] d]; intros [= <- <-]; eexists; split; try done; done.
  - destruct (DeleteTransactionMetadataKey _ _ _ _) as [[t|e] d]; intros [= <- <-]; eexists; split; try done; done.
  - destruct (SetAccountMetadata _ _ _ _) as [[t|e] d]; intros [= <- <-]; eexists; split; try done; done.
  - destruct (DeleteAccountMetadataKey _ _ _ _) as [[t|e] d]; intros [= <- <-]; eexists; split; try done; done.
Qed.

Lemma path_id_int64 args id : path_id args = Ok id -> int64_ok id.
Proof.
  unfold path_id, need, transactionID, parse_int64. destruct (parse_Z _) as [z|]; [|done]. simpl.
  destruct (_ && _) eqn:Hz; [|done]. intros [= <-]. unfold int64_ok. lia.
Qed.

Lemma write_request_body {A} `{Unmarshal A} srv r dry (b : A) :
  write_request srv r = Ok (dry, b) ->
  decodeJSON (RequestBody r) = Some b /\ requireKey srv r = Ok tt /\
  exists q, query r = Ok q /\ boolParam q "dryRun" = Some dry.
Proof.
  unfold write_request. intros H'. inv_ok. unfold Api.read_body, dry_run, need in *.
  match goal with u : unit |- _ => destruct u end. destruct (decodeJSON _) eqn:Hd, (boolParam _ _) eqn:Hb; simplify_eq. eauto.
Qed.

(** Whatever was sent, the engine is asked nothing that could break its books:
    what JSON decodes to is text, and an id in a path is one. *)
Lemma asked_ok srv r h args q dry : asked srv r h args = Ok (q, dry) -> request_ok q.
Proof.
  unfold asked. destruct h; try done; intros H; inv_ok; try done.
  - destruct x as [d b]. match goal with H : write_request _ _ = _ |- _ => apply write_request_body in H as [Hd _] end.
    by apply decode_create_text in Hd.
  - destruct x as [d b]. match goal with H : write_request _ _ = _ |- _ => apply write_request_body in H as [Hd _] end.
    apply decode_batch_text in Hd. apply Forall_fmap. eapply Forall_impl; [exact Hd|]. done.
  - by eapply path_id_int64.
Qed.

Lemma serve_ledger_ok srv W r h args s resp s' :
  serve_ledger srv W r h args s = (resp, s') -> neighbourly W -> service_ok (db s) -> service_ok (db s').
Proof.
  intros H HW Hs. apply serve_asked in H. destruct (asked srv r h args) as [[q dry]|e] eqn:Ha.
  - destruct H as (o & Ho & _). pose proof (service_settled W q s (asked_ok _ _ _ _ _ _ Ha) HW Hs) as Hk. by rewrite Ho in Hk.
  - destruct (changes_ledger h); [by destruct H as [-> _]|]. destruct H as [-> |[_ [x Hc]]]; [done|].
    by eapply create_service_ok.
Qed.

(** ** Any traffic *)

Fixpoint serve_http_all (srv : Server) (calls : list (Weather * HttpRequest)) (stores : string -> Store) : string -> Store :=
  match calls with
  | [] => stores
  | (W, r) :: calls => serve_http_all srv calls (ServeHTTP srv W r stores).2
  end.

Lemma ServeHTTP_cases srv W r (stores : string -> Store) l :
  let s' := (ServeHTTP srv W r stores).2 l in
  s' = stores l \/ exists h args, route r = Some (h, args) /\ l = PathValue args "ledger" /\
    exists resp, serve_ledger srv W r h args (stores l) = (resp, s') /\ resp = (ServeHTTP srv W r stores).1.
Proof.
  unfold ServeHTTP. destruct (route r) as [[h args]|]; [|left; by destruct (method_matches _ _)].
  destruct (serve_ledger _ _ _ _ _ _) as [resp s] eqn:H. simpl. unfold update. destruct (decide _) as [-> |]; [right|by left].
  exists h, args. split_and!; [done|done|]. by exists resp.
Qed.

Lemma ServeHTTP_ok srv W r (stores : string -> Store) :
  neighbourly W -> (forall l, service_ok (db (stores l))) -> forall l, service_ok (db ((ServeHTTP srv W r stores).2 l)).
Proof.
  intros HW Hs l. destruct (ServeHTTP_cases srv W r stores l) as [-> |(h & args & _ & _ & resp & Hserve & _)]; [done|].
  by eapply serve_ledger_ok.
Qed.

Lemma traffic_service srv (calls : list (Weather * HttpRequest)) (stores : string -> Store) :
  Forall (fun call => neighbourly call.1) calls -> (forall l, service_ok (db (stores l))) ->
  forall l, service_ok (db (serve_http_all srv calls stores l)).
Proof.
  revert stores. induction calls as [|[W r] calls IH]; intros stores Hc Hs; [exact Hs|]. apply Forall_cons in Hc as [HW Hc].
  simpl. apply IH; [done|]. by apply ServeHTTP_ok.
Qed.

(** C3: No traffic can unbalance a book. Start with ledgers that were never
    created, let any bytes arrive as any number of HTTP requests, under any
    failures and beside any well behaved neighbours: in every ledger
    conservation, the hash chain, the projection of the log and the effective
    snapshots still verify. *)
Theorem http_keeps_books (srv : Server) (calls : list (Weather * HttpRequest)) (stores : string -> Store) (l : string) :
  Forall (fun call => neighbourly call.1) calls -> (forall l, db (stores l) = empty_database) ->
  let d := db (serve_http_all srv calls stores l) in
  Forall (fun c => c.2.2 = None) (take 4 (checks d)) /\
  (take 4 (checks d)).*1 = ["conservation"; "log"; "projection"; "effective_volumes"].
Proof.
  intros Hc Hs d. destruct (service_verifies d) as (H1 & H2 & _); [|done].
  apply traffic_service; [done|]. intros l'. rewrite Hs. apply empty_service.
Qed.

(** ** Statuses *)

Lemma classify_status e : 400 <= (classify e).1.
Proof.
  unfold classify, StatusUnprocessableEntity, StatusBadRequest, StatusNotFound, StatusConflict, StatusInternalServerError.
  repeat case_match; simpl; lia.
Qed.

Lemma writeError_status e : 400 <= status (writeError e).
Proof. pose proof (classify_status e) as H. unfold writeError. by destruct (classify e). Qed.

(** An early return: a complaint, and no details. *)
Definition refused (e : Response) : Prop := exists c words, e = refusal c words.

Lemma refused_status e : refused e -> status e = 400.
Proof. by intros (c & words & ->). Qed.

Lemma need_refuses {A} (x : option A) c e : need x c = Err e -> refused e.
Proof. unfold need. destruct x; [done|]. intros [= <-]; by eexists _, _. Qed.

Lemma query_refuses r e : query r = Err e -> refused e.
Proof. unfold query. destruct (ParseQuery _) as [q []]; [done|]. intros [= <-]; by eexists _, _. Qed.

Lemma requireKey_refuses srv r e : requireKey srv r = Err e -> refused e.
Proof. unfold requireKey. repeat case_match; try done; intros [= <-]; by eexists _, _. Qed.

Lemma rbind_refuses {A B} (x : res Response A) (f : A -> res Response B) (P : Response -> Prop) :
  (forall e, x = Err e -> P e) -> (forall a e, f a = Err e -> P e) -> forall e, rbind x f = Err e -> P e.
Proof. intros Hx Hf e. destruct x; simpl; [apply Hf|]. intros [= <-]. by apply Hx. Qed.

Lemma revert_body_refuses r e : revert_body_of r = Err e -> refused e.
Proof. unfold revert_body_of. destruct (0 <? _); [apply need_refuses|done]. Qed.

Lemma asked_refuses srv r h args e : asked srv r h args = Err e -> changes_ledger h = true -> refused e.
Proof.
  intros H Hh. revert e H. destruct h; try done; unfold asked;
    repeat (apply rbind_refuses; [intros ?|intros ?]); try done;
    first [apply need_refuses|apply requireKey_refuses|apply query_refuses|apply revert_body_refuses].
Qed.

(** ** What a response says of the books *)

Definition moves_money (h : Handler) : bool :=
  match h with HCreateTransaction | HCommitBatch | HRevertTransaction => true | _ => false end.

(** The actions a response with status 201 stands for, between the tables the
    request found and the ones it left. Under a key that was used before there
    are none, and what is shown is what is recorded under it. *)
Definition accounts_for (W : Weather) (r : HttpRequest) (h : Handler) (args : list (string * string))
    (d d' : Database) (b : body) (acts : list action) : Prop :=
  let k := IdempotencyKey r in
  match h, b with
  | HCreateTransaction, BTransaction t =>
      exists req, decodeJSON (RequestBody r) = Some req /\
        (acts = [Post (WId t) (fromAPIPostings (elems (CPostings req)))] \/
         (acts = [] /\ k <> EmptyString /\
            exists print t0, check_replay d' k print = Ok (Some t0) /\ t = toAPITransaction t0))
  | HCommitBatch, BBatch ts =>
      exists req, decodeJSON (RequestBody r) = Some req /\
        (acts = zip_with Post (WId <$> ts) ((fun t => fromAPIPostings (elems (CPostings t))) <$> elems (BTransactions req)) \/
         (acts = [] /\ k <> EmptyString /\
            exists print d0, foreign W d d0 /\ ts = toAPITransaction <$> tagged d0 print))
  | HRevertTransaction, BReversal _ rev =>
      exists id, transactionID (PathValue args "id") = Some id /\ acts = [Undo (WId rev) id]
  | _, _ => acts = []
  end.

Definition accounted (W : Weather) (r : HttpRequest) (h : Handler) (args : list (string * string)) (d d' : Database)
    (resp : Response) (acts : list action) : Prop :=
  (status resp <> StatusCreated -> acts = []) /\
  (status resp = StatusCreated -> accounts_for W r h args d d' (payload resp) acts).

Lemma answer_accounts srv W r h args q dry o d d' acts :
  asked srv r h args = Ok (q, dry) -> promised W q d o d' acts ->
  accounted W r h args d d' (match o with Err e => writeError e | Ok a => shown (annotates h || dry) a d' end) acts.
Proof.
  intros Ha Hp. destruct o as [a|e].
  2:{ split.
      - intros _. by destruct q.
      - intros Hs. pose proof (writeError_status e). unfold StatusCreated in Hs. lia. }
  assert (forall b, acts = [] -> moves_money h = false -> accounts_for W r h args d d' b acts) as Hquiet by (by destruct h).
  unfold accounted. destruct (moves_money h) eqn:Hh.
  2:{ assert (acts = []) as Hacts; [|by split; [|intros _; apply Hquiet]].
      revert Ha Hp. destruct h; try done; unfold asked; intros Ha; inv_ok; done. }
  clear Hquiet. destruct h; try done; unfold asked in Ha; inv_ok; cbn [annotates orb promised fst snd] in *.
  - destruct x as [dry b]. match goal with H : write_request _ _ = _ |- _ => apply write_request_body in H as (Hd & _) end.
    cbn [fst snd ODryRun commit_options OIdempotencyKey remembered] in *. destruct a as [t| | | |]; try (by subst acts; split; [|by intros []]).
    simpl. destruct dry; split; intros Hs; try done.
    + by destruct Hp as [[_ ?]|[? _]].
    + exists b. split; [done|]. destruct Hp as [[? _]|[? [?|(Hk & p & _ & Hr)]]]; [by left|done|right].
      split_and!; [done..|]. by exists p, t.
  - destruct x as [dry b]. match goal with H : write_request _ _ = _ |- _ => apply write_request_body in H as (Hd & _) end.
    cbn [fst snd ODryRun batch_options OIdempotencyKey recalled] in *. destruct a as [| |ts| |]; try (by subst acts; split; [|by intros []]).
    simpl. destruct dry; split; intros Hs; try done.
    + by destruct Hp as [[_ ?]|[? _]].
    + exists b. split; [done|]. rewrite <-!list_fmap_compose in *. destruct Hp as [[? _]|[? [?|(Hk & p & d0 & _ & Hf & ->)]]]; [by left|done|right].
      split_and!; [done..|]. by exists p, d0.
  - destruct a as [|rev| | |]; try (by subst acts; split; [|by intros []]).
    split; [intros Hs; by contradict Hs|]. intros _. exists x. split; [|done].
    unfold path_id, need in *. destruct (transactionID _); by simplify_eq.
Qed.


(** C17: No key, no money. On a server that was not told otherwise, a write
    without an Idempotency-Key commits nothing, whatever else it says: it is
    refused, or it is a dry run; only other users' commits reach the ledger. *)
Theorem unkeyed_write_moves_nothing (srv : Server) (W : Weather) (r : HttpRequest) (h : Handler)
    (args : list (string * string)) (s : Store) (resp : Response) (s' : Store) :
  allowUnkeyed srv = false -> IdempotencyKey r = EmptyString -> h = HCreateTransaction \/ h = HCommitBatch ->
  serve_ledger srv W r h args s = (resp, s') ->
  status resp <> StatusCreated /\ foreign W (db s) (db s').
Proof.
  intros Hno Hk Hh H.
  assert (forall {A} `{Unmarshal A} dry (b : A), write_request srv r = Ok (dry, b) -> dry = true) as Hdry.
  { intros A UA dry b Hw. apply write_request_body in Hw as (_ & Hkey & q & Hq & Hb).
    unfold requireKey in Hkey. rewrite Hno, Hk, bool_decide_true in Hkey by done. cbn [orb negb] in Hkey.
    unfold query in Hq. destruct (ParseQuery _) as [q' ok]. destruct ok; [|done]. simplify_eq. cbn [fst] in Hkey.
    case_bool_decide as Hget; [|done]. unfold boolParam in Hb. rewrite Hget in Hb. vm_compute in Hb. congruence. }
  apply serve_asked in H. destruct (asked srv r h args) as [[q dry]|e] eqn:Ha.
  - destruct H as (o & Ho & Hresp). pose proof (writeError_status) as He.
    destruct Hh as [-> | ->]; unfold asked in Ha; inv_ok; destruct x as [dry b]; cbn [fst snd] in *;
      match goal with Hw : write_request _ _ = _ |- _ => apply Hdry in Hw as -> end; unfold serve in Ho.
    + destruct (CommitTransaction _ _ _ _) as [x s1] eqn:Hc. injection Ho as <- <-. split.
      * destruct x as [t|e]; simpl in Hresp; subst resp; [done|]. pose proof (He e). unfold StatusCreated. lia.
      * apply commit_outcome in Hc as [[Hf _]|(t & n & hh & d0 & _ & _ & _ & Hl)]; [done|].
        by apply lc_real in Hl.
    + destruct (CommitBatch _ _ _ _) as [x s1] eqn:Hc. injection Ho as <- <-. split.
      * destruct x as [t|e]; simpl in Hresp; subst resp; [done|]. pose proof (He e). unfold StatusCreated. lia.
      * apply batch_outcome_valid in Hc as [[Hf _]|(t & n & hh & d0 & _ & _ & _ & Hl)]; [done|].
        by apply lb_real in Hl.
  - assert (changes_ledger h = true) as Hc by (by destruct Hh as [-> | ->]). rewrite Hc in H. destruct H as [-> ->].
    pose proof (refused_status _ (asked_refuses _ _ _ _ _ Ha Hc)) as Hst. split; [unfold StatusCreated; lia|apply rtc_refl].
Qed.

(** ** Following pages *)

Definition get_transactions (l raw : string) : HttpRequest :=
  {| Method := "GET"; Path := ["v1"; "ledgers"; l; "transactions"]; RawQuery := raw; IdempotencyKey := EmptyString;
     ContentLength := 0; RequestBody := EmptyString |}.

(** A client that pastes [next] into the next URL as it is. *)
Fixpoint follow (srv : Server) (W : Weather) (stores : string -> Store) (l : string) (fuel : nat) (raw : string)
    : option (list WireTransaction) :=
  match fuel with
  | O => None
  | S fuel =>
      match payload (ServeHTTP srv W (get_transactions l raw) stores).1 with
      | BTransactionPage p =>
          match WNext p with
          | None => Some (WItems p)
          | Some next =>
              rest ← follow srv W stores l fuel (String.append "cursor=" next);
              Some (WItems p ++ rest)
          end
      | _ => None
      end
  end.

Lemma get_transactions_answer srv W stores l raw q :
  transactions_query (get_transactions l raw) = Ok q ->
  (ServeHTTP srv W (get_transactions l raw) stores).1 =
  reply StatusOK (fun p => BTransactionPage (page_of toAPITransaction p)) (ListTransactions (db (stores l)) q).
Proof.
  intros Hq. change (ServeHTTP srv W (get_transactions l raw) stores)
    with (let '(resp, s) := listTransactions (get_transactions l raw) (stores l) in (resp, update stores l s)).
  unfold listTransactions, reads, handle. by rewrite Hq.
Qed.

Lemma cursor_query l next :
  forall_char url_char next = true ->
  exists f, transactions_query (get_transactions l (String.append "cursor=" next)) =
    Ok {| TQLimit := 0; TQCursor := next; TQFilter := f |}.
Proof.
  intros Hn. unfold transactions_query, query. cbn [RawQuery get_transactions].
  change (String.append "cursor=" next) with (String.append "cursor" (String "=" next)).
  rewrite single_parameter by done. cbn [rbind limit_of need intParam Get find_map]. by eexists.
Qed.

Lemma list_page_cursor d (f f' : TransactionFilter) limit limit' s :
  s <> EmptyString -> list_page (T:=Transaction) d f limit s = list_page d f' limit' s.
Proof. intros Hs. unfold list_page, start. by rewrite !bool_decide_false. Qed.

Lemma walk_cursor d (f f' : TransactionFilter) limit limit' fuel s :
  s <> EmptyString -> walk (T:=Transaction) fuel d f limit s = walk fuel d f' limit' s.
Proof.
  revert s. induction fuel as [|fuel IH]; intros s Hs; [done|]. cbn [walk]. rewrite (list_page_cursor d f f' limit limit') by done.
  destruct (list_page d f' limit' s) as [page|]; [|done]. cbn [rbind]. case_bool_decide; [done|]. by rewrite IH.
Qed.

Lemma list_page_next d (f : TransactionFilter) limit s page :
  list_page (T:=Transaction) d f limit s = Ok page -> Next page <> EmptyString -> forall_char url_char (Next page) = true.
Proof.
  unfold list_page. intros H Hn. inv_ok. unfold finish in H. destruct (_ <=? _); [by simplify_eq|].
  destruct (last _); [|done]. destruct (encodeCursor _) as [next|] eqn:He; [|done]. simplify_eq/=.
  unfold encodeCursor in He. apply fmap_Some in He as (v & _ & ->). apply encode_url.
Qed.

Lemma follow_walk srv W stores l fuel raw q items :
  transactions_query (get_transactions l raw) = Ok q ->
  walk fuel (db (stores l)) (TQFilter q) (TQLimit q) (TQCursor q) = Ok items ->
  follow srv W stores l fuel raw = Some (toAPITransaction <$> items).
Proof.
  revert raw q items. induction fuel as [|fuel IH]; intros raw q items Hq Hw; [done|]. cbn [walk follow] in *.
  rewrite (get_transactions_answer _ _ _ _ _ _ Hq). unfold ListTransactions.
  destruct (list_page _ _ _ _) as [page|] eqn:Hp; [|done]. cbn [rbind reply payload page_of WNext WItems writeJSON] in *.
  unfold next_of, if_text. case_bool_decide as Hn; [by simplify_eq|].
  destruct (cursor_query l (Next page) (list_page_next _ _ _ _ _ Hp Hn)) as [f Hf].
  inv_ok. match goal with H : walk fuel _ _ _ (Next page) = Ok ?rest |- _ => rename H into Hrest end.
  rewrite (walk_cursor _ _ f _ 0) in Hrest by done. rewrite (IH _ _ _ Hf Hrest). simpl. by rewrite fmap_app.
Qed.

(** C18: A client that follows [next] sees every transaction once. From any
    first URL without a cursor -- any filter PostgreSQL takes, any page size --
    pasting each [next] into the following URL as it came, unescaped, ends, and
    has shown every matching transaction exactly once, by increasing id. *)
Theorem http_pages_complete (srv : Server) (W : Weather) (stores : string -> Store) (l raw : string)
    (q : ListTransactionsQuery) :
  let d := db (stores l) in
  transactions_query (get_transactions l raw) = Ok q -> TQCursor q = EmptyString ->
  filter_refused (T:=Transaction) (TQFilter q) = false ->
  (forall id, is_Some (transactions d !! id) -> 1 <= id <= max_int64) ->
  exists fuel, follow srv W stores l fuel raw =
    Some (toAPITransaction <$> ((fun kv => hydrateTransaction kv.1 kv.2) <$>
      filter (fun kv : Z * TransactionRow => transaction_matches (TQFilter q) kv.2 = true) (map_rows Z.le (transactions d)))).
Proof.
  intros d Hq Hc Href Hids. eexists. eapply follow_walk; [exact Hq|]. rewrite Hc. by apply transactions_walk.
Qed.

End codec.

(** ** Errors *)

Lemma errors_Is_item i e t : BatchItemError i e <> t -> errors_Is (BatchItemError i e) t = errors_Is e t.
Proof.
  intros Hne. unfold errors_Is. cbn [chain]. apply bool_decide_ext. rewrite elem_of_cons. naive_solver.
Qed.

Lemma is_any_item i e ts : Forall (fun t => BatchItemError i e <> t) ts -> is_any (BatchItemError i e) ts = is_any e ts.
Proof.
  unfold is_any. induction 1 as [|t ts Ht _ IH]; [done|]. cbn [existsb]. by rewrite IH, errors_Is_item.
Qed.

Lemma classify_item i e : classify (BatchItemError i e) = classify e.
Proof.
  unfold classify. rewrite !is_any_item by (by repeat constructor). by rewrite !errors_Is_item.
Qed.

(** The errors the mapping names. *)
Definition named_errors : list error :=
  not_found_errors ++ [ErrIdempotencyMismatch] ++ conflict_errors ++ [ErrUnknownAsset] ++ validation_errors.

Lemma is_any_false e ts : is_any e ts = false <-> forall t, t ∈ ts -> t ∉ chain e.
Proof.
  unfold is_any, errors_Is. rewrite <-not_true_iff_false, existsb_exists. split.
  - intros H t Ht Hc. apply H. exists t. split; [by apply list_elem_of_In|by apply bool_decide_eq_true].
  - intros H (t & Ht%list_elem_of_In & Hc%bool_decide_eq_true). by eapply H.
Qed.

Lemma is_any_app e ts us : is_any e (ts ++ us) = is_any e ts || is_any e us.
Proof. apply existsb_app. Qed.

Lemma classify_internal e :
  (classify e).1 = StatusInternalServerError <->
  errors_As as_insufficient e = None /\ errors_As as_posting e = None /\ is_any e named_errors = false.
Proof.
  unfold classify, named_errors. rewrite !is_any_app. cbn [is_any existsb]. rewrite !orb_false_r, !orb_false_iff.
  destruct (errors_As as_insufficient e), (errors_As as_posting e), (is_any e not_found_errors), (errors_Is e ErrIdempotencyMismatch),
    (is_any e conflict_errors), (errors_Is e ErrUnknownAsset), (is_any e validation_errors); cbn; naive_solver.
Qed.

Lemma classify_funds e : (classify e).1 = StatusUnprocessableEntity <-> is_Some (errors_As as_insufficient e).
Proof.
  unfold classify. destruct (errors_As as_insufficient e); [by split; [eexists|]|].
  split; [|by intros []]. repeat case_match; done.
Qed.

Lemma details_of_funds e : is_Some (detailsFor e) <-> is_Some (errors_As as_insufficient e).
Proof.
  unfold detailsFor. destruct (errors_As as_insufficient e) as [[[[? ?] ?] ?]|]; simpl; [by split; eexists|by split; intros []].
Qed.

Lemma classify_internal_code e : (classify e).1 = StatusInternalServerError -> (classify e).2 = INTERNAL.
Proof. unfold classify. repeat case_match; done. Qed.


(** ** Traffic *)

Definition keyed_server : Server := {| allowUnkeyed := false |}.

Definition post (path : list string) (key body : string) : HttpRequest :=
  {| Method := "POST"; Path := "v1" :: "ledgers" :: path; RawQuery := EmptyString; IdempotencyKey := key;
     ContentLength := Z.of_nat (String.length body); RequestBody := body |}.

Definition deposit_body : string :=
  render (default JNull (create_json {| CMetadata := None; CPostings := slice_of (toAPIPostings deposit);
                                        CReference := None; CTimestamp := None |})).

Definition post_deposit (key : string) : HttpRequest := post ["main"; "transactions"] key deposit_body.

Definition no_ledgers (l : string) : Store :=
  {| db := empty_database; seen_assets := ∅; ledgerSeen := false; retries := 0; observing := false; events := [] |}.

Definition one_ledger (l : string) : Store := if bool_decide (l = "main") then new_store else no_ledgers l.

(** A ledger is opened, an asset registered, a deposit posted, posted again and
    reverted. *)
Definition opening_day : list HttpRequest :=
  [post ["main"] EmptyString EmptyString;
   post ["main"; "assets"] EmptyString (render (JObj [("asset", JStr "USD/2")]));
   post_deposit "k1"; post_deposit "k1"; post_deposit EmptyString;
   post ["main"; "transactions"; "1"; "revert"] EmptyString EmptyString;
   post ["main"; "transactions"; "1"; "revert"] EmptyString EmptyString;
   post ["other"; "transactions"; "1"; "revert"] EmptyString EmptyString;
   post ["main"; "transactions"; "one"; "revert"] EmptyString EmptyString;
   get_transactions "main" "limit=1"].

Fixpoint statuses (srv : Server) (rs : list HttpRequest) (stores : string -> Store) : list Z :=
  match rs with
  | [] => []
  | r :: rs => let '(resp, stores) := ServeHTTP srv calm r stores in status resp :: statuses srv rs stores
  end.

Example opening_day_statuses :
  statuses keyed_server opening_day no_ledgers = [201; 201; 201; 201; 400; 201; 409; 404; 400; 200].
Proof. vm_compute. reflexivity. Qed.

Lemma http_keeps_books_witness :
  Forall (fun c => c.2.2 = None) (take 4 (checks (db (serve_http_all keyed_server (pair calm <$> opening_day) no_ledgers "main")))).
Proof.
  refine (proj1 (http_keeps_books keyed_server (pair calm <$> opening_day) no_ledgers "main" _ _)).
  - apply Forall_fmap, Forall_true. intros r n d H. exact H.
  - reflexivity.
Defined.

(** A body sent without its length is not read: the reversal lands at the time
    of the request, not at the effective date that was asked for. *)
Definition revert_chunked : HttpRequest :=
  {| Method := "POST"; Path := ["v1"; "ledgers"; "main"; "transactions"; "1"; "revert"]; RawQuery := EmptyString;
     IdempotencyKey := EmptyString; ContentLength := -1;
     RequestBody := render (JObj [("atEffectiveDate", JBool true)]) |}.

Example chunked_body_ignored :
  (RAtEffectiveDate <$> decodeJSON (RequestBody revert_chunked) = Some (Some true)) /\
  rmap RAtEffectiveDate (revert_body_of revert_chunked) = Ok None.
Proof. split; vm_compute; reflexivity. Qed.

Definition deposited_response : Response * (string -> Store) := ServeHTTP keyed_server calm (post_deposit "k1") one_ledger.

Definition deposit_args : list (string * string) := [("ledger", "main")].


Lemma unkeyed_write_moves_nothing_witness :
  status (serve_ledger keyed_server calm (post_deposit EmptyString) HCreateTransaction deposit_args new_store).1 <> StatusCreated.
Proof.
  exact (proj1 (unkeyed_write_moves_nothing keyed_server calm (post_deposit EmptyString) HCreateTransaction deposit_args
    new_store _ _ eq_refl eq_refl (or_introl eq_refl) (surjective_pairing _))).
Defined.

Definition two_stored (l : string) : Store := with_db two_transactions new_store.

Definition first_page : ListTransactionsQuery :=
  {| TQLimit := 1; TQCursor := EmptyString; TQFilter := all_transactions |}.

Lemma http_pages_complete_witness : exists fuel, follow keyed_server calm two_stored "main" fuel "limit=1" =
  Some (toAPITransaction <$> ((fun kv => hydrateTransaction kv.1 kv.2) <$>
    filter (fun kv : Z * TransactionRow => transaction_matches all_transactions kv.2 = true)
      (map_rows Z.le (transactions two_transactions)))).
Proof.
  apply (http_pages_complete keyed_server calm two_stored "main" "limit=1" first_page); try reflexivity.
  exact two_transactions_ids.
Defined.

(** A cursor carries its filter, so the account of the path is not looked at; the
    parameters beside it are not used, but must parse. *)
Definition get_moves (account raw : string) : HttpRequest :=
  {| Method := "GET"; Path := ["v1"; "ledgers"; "main"; "accounts"; account; "moves"]; RawQuery := raw; IdempotencyKey := EmptyString;
     ContentLength := 0; RequestBody := EmptyString |}.

Definition after_opening : string -> Store := serve_http_all keyed_server (pair calm <$> opening_day) no_ledgers.

Definition moves_answer (account raw : string) : Response := (ServeHTTP keyed_server calm (get_moves account raw) after_opening).1.

Definition alices_cursor : string :=
  "cursor=" +:+ match payload (moves_answer "users:alice" "limit=1") with BMovePage p => default EmptyString (WNext p) | _ => EmptyString end.

Example cursor_overrides_path :
  moves_answer "nobody" alices_cursor = moves_answer "users:alice" alices_cursor /\
  match payload (moves_answer "nobody" alices_cursor) with BMovePage p => WMSeq <$> WItems p = [3] | _ => False end.
Proof. vm_compute. done. Qed.

Example cursor_checks_limit : status (moves_answer "users:alice" (alices_cursor +:+ "&limit=some")) = 400.
Proof. vm_compute. done. Qed.

(** The two spellings of a dry run: one needs a key, the other does not. *)
Definition dry_deposit (spelling : string) : HttpRequest :=
  {| Method := "POST"; Path := ["v1"; "ledgers"; "main"; "transactions"]; RawQuery := String.append "dryRun=" spelling;
     IdempotencyKey := EmptyString; ContentLength := -1; RequestBody := deposit_body |}.

Example dry_run_one_needs_key :
  statuses keyed_server [dry_deposit "true"; dry_deposit "1"] one_ledger = [200; 400].
Proof. vm_compute. reflexivity. Qed.
