(* ===== verification/Laws.v ===== *)
(** * What no traffic can undo

    Laws of [Ledger]'s actions, and through the refinement laws of the tables:
    what is recorded is well formed, and stays as it was recorded; and a
    transaction is reversed once, whatever is served between. *)

From S2P Require Import Prelude Identifiers Text Posting Volumes GoTime Transaction Codec Encoding Errors Schema Txn Locking Guards Moves History Log Observer Commit CommitSpec Book Sample Revert Bulk MetadataOps Closure Invariant Params Body Client Wire Ledger Refinement Service Api Http.

(** ** Of the ledger *)

(** A posting as a ledger records it: both sides and the asset are valid, the
    amount is settled and never negative. *)
Definition recorded (x : Posting) : Prop :=
  Address_Valid (Source x) = true /\ Address_Valid (Destination x) = true /\ Asset_Valid (PAsset x) = true /\
  (exists a, Amount x = Some a /\ 0 <= a) /\ UpTo x = false.

Definition entries_recorded (L : Ledger) : Prop :=
  forall id ps b, entries L id = Some (ps, b) -> Forall recorded ps.

Lemma settled_recorded x available : posting_ok x -> recorded (settled x available).
Proof.
  intros (Hs & Hd & Ha & Hm). unfold settled. destruct (UpTo x) eqn:Hu; split_and!; try done; simpl.
  - eexists. split; [done|]. unfold capped. destruct (Amount x); repeat case_match; lia.
  - destruct (Amount x) as [a|]; [|done]. exists a. split; [done|lia].
Qed.

Lemma settle_recorded bal req : Forall posting_ok req -> Forall recorded (settle bal req).
Proof.
  revert bal. induction req as [|x req IH]; intros bal H; [constructor|]. apply Forall_cons in H as [Hx H].
  constructor; [by apply settled_recorded|by apply IH].
Qed.

Lemma reverse_recorded ps inverse : Reverse ps = Ok inverse -> Forall recorded ps -> Forall recorded inverse.
Proof.
  intros [_ ->]%reverse_from_Ok Hps. rewrite app_nil_r, Forall_reverse, Forall_fmap. eapply Forall_impl; [exact Hps|].
  intros x (Hs & Hd & Ha & (a & Hm & Hle) & _). split_and!; try done. exists a. unfold amount_of. by rewrite Hm.
Qed.

Lemma record_entry_recorded id e L : Forall recorded e.1 -> entries_recorded L -> entries_recorded (record_entry id e L).
Proof.
  intros He HL i ps b. cbn. destruct (i =? id); [|apply HL]. destruct e as [ps' b']. by intros [= <- <-].
Qed.

Lemma step_recorded a L M : step a L M -> entries_recorded L -> entries_recorded M.
Proof.
  destruct 1 as [id req L M Hv _ (_ & _ & ->)%post_Some|id orig ps inverse L M Ho Hr (_ & _ & ->)%post_Some| | | |];
    intros HL; try exact HL.
  - apply record_entry_recorded; [|exact HL]. apply settle_recorded. by eapply validate_from_None.
  - apply HL in Ho as Hps. apply record_entry_recorded; [done|]. apply record_entry_recorded; [|exact HL].
    by eapply reverse_recorded.
Qed.

(** What was recorded is kept; at most it is marked as reversed. *)
Definition keeps_entries (L M : Ledger) : Prop :=
  forall id ps b, entries L id = Some (ps, b) -> exists b', entries M id = Some (ps, b') /\ (b = true -> b' = true).

#[export] Instance keeps_entries_preorder : PreOrder keeps_entries.
Proof.
  split; [by intros L id ps b H; exists b|]. intros L M N H1 H2 id ps b (b1 & Hb1 & Hi1)%H1.
  apply H2 in Hb1 as (b2 & Hb2 & Hi2). exists b2. auto.
Qed.

Lemma keeps_fresh id e L : entries L id = None -> keeps_entries L (record_entry id e L).
Proof. intros Hn i ps b Hi. exists b. cbn. destruct (Z.eqb_spec i id) as [->|]; [congruence|done]. Qed.

Lemma step_keeps a L M : step a L M -> keeps_entries L M.
Proof.
  destruct 1 as [id req L M _ _ (Hn & _ & ->)%post_Some|id orig ps inverse L M Ho _ (Hn & _ & ->)%post_Some| | | |];
    try (intros i ps b Hi; by exists b).
  - by apply (keeps_fresh id _ L).
  - intros i q b Hi. cbn. destruct (Z.eqb_spec i orig) as [->|]; [simplify_eq; by eexists|].
    by apply (keeps_fresh id (inverse, false) L Hn) in Hi.
Qed.

Lemma plays_invariant (P : Ledger -> Prop) acts L M :
  (forall L M, L ≡ M -> P L -> P M) -> (forall a L M, step a L M -> P L -> P M) -> plays acts L M -> P L -> P M.
Proof. intros He Hs. induction 1; eauto. Qed.

Lemma recorded_proper L M : L ≡ M -> entries_recorded L -> entries_recorded M.
Proof. intros (_ & He & _) HL id ps b Hi. rewrite <-He in Hi. by eapply HL. Qed.

Lemma plays_keeps acts L M : plays acts L M -> keeps_entries L M.
Proof.
  intros H. eapply (plays_invariant (keeps_entries L)); [| |exact H|done].
  - intros N N' (_ & He & _) HN id ps b Hi. destruct (HN id ps b Hi) as (b' & Hb & ?). exists b'. by rewrite <-He.
  - intros a N N' Hs HN. etrans; [exact HN|]. by eapply step_keeps.
Qed.

(** ** Of the tables *)

Section codec.
Context {codec : Codec}.

Definition welcome (call : Weather * HttpRequest) : Prop := neighbourly call.1 /\ fellow_users call.1.

Lemma serve_ledger_plays srv W r h args s resp s' :
  serve_ledger srv W r h args s = (resp, s') -> fellow_users W -> settled_ok (db s) ->
  exists acts, plays acts (abs (db s)) (abs (db s')).
Proof.
  intros H HW Hs. apply serve_asked in H. destruct (asked srv r h args) as [[q dry]|e] eqn:Ha.
  - destruct H as (o & Ho & _). pose proof (serve_refines W q s (asked_ok _ _ _ _ _ _ Ha) HW Hs) as Href.
    rewrite Ho in Href. destruct Href as (acts & [others Hp]%adds_plays & _). by eexists.
  - exists []. apply plays_nil. destruct (changes_ledger h); [by destruct H as [-> _]|].
    destruct H as [-> |[_ [x Hc]]]; [done|]. by eapply create_abs.
Qed.

Lemma traffic_plays srv calls stores l :
  Forall welcome calls -> (forall l, service_ok (db (stores l))) ->
  exists acts, plays acts (abs (db (stores l))) (abs (db (serve_http_all srv calls stores l))).
Proof.
  intros Hc. revert stores. induction calls as [|[W r] calls IH]; intros stores Hs; [exists []; by apply plays_nil|].
  apply Forall_cons in Hc as [[HW HF] Hc]. simpl.
  destruct (IH Hc _ (ServeHTTP_ok srv W r stores HW Hs)) as [acts2 H2].
  destruct (ServeHTTP_cases srv W r stores l) as [He|(h & args & _ & _ & resp & Hserve & _)].
  - exists acts2. by rewrite He in H2.
  - destruct (serve_ledger_plays _ _ _ _ _ _ _ _ Hserve HF (proj1 (Hs l))) as [acts1 H1]. exists (acts1 ++ acts2). by eapply plays_app.
Qed.

Lemma entries_abs d id r :
  transactions d !! id = Some r -> entries (abs d) id = Some (postings r, bool_decide (is_Some (reverted_at r))).
Proof. intros H. cbn. by rewrite H. Qed.

(** Of the requests of package storage, the operator's included. *)
Definition courteous (call : Weather * Request) : Prop := honest call /\ fellow_users call.1.

Lemma requests_play calls s :
  Forall courteous calls -> service_ok (db s) -> exists acts, plays acts (abs (db s)) (abs (db (serve_all calls s))).
Proof.
  intros Hc. revert s. induction Hc as [|[W r] calls [[Hr HW] HF] _ IH]; intros s Hs; [exists []; by apply plays_nil|].
  simpl in *. pose proof (serve_refines W r s Hr HF (proj1 Hs)) as Href.
  pose proof (service_settled W r s Hr HW Hs) as Hs1. destruct (serve W r s) as [o s1]. simpl in Hs1 |- *.
  destruct Href as (acts & [others H1]%adds_plays & _). destruct (IH s1 Hs1) as [acts2 H2].
  eexists. by eapply plays_app.
Qed.

(** A transaction marked as reversed. *)
Definition reversed (d : Database) (id : Z) : Prop :=
  exists row, transactions d !! id = Some row /\ is_Some (reverted_at row).

Lemma reversed_plays acts d d' id : plays acts (abs d) (abs d') -> reversed d id -> reversed d' id.
Proof.
  intros Hp%plays_keeps (row & Hrow & Hm). apply entries_abs, Hp in Hrow as (b & Hb & Himp).
  rewrite bool_decide_true in Himp by done. cbn in Hb. apply fmap_Some in Hb as (row' & Hrow' & [= _ Hb]).
  exists row'. split; [done|]. rewrite Himp in Hb by done. by eapply bool_decide_eq_true.
Qed.

(** C23: a transaction is reverted at most once. After a reversal, and after any
    requests of any kind that were served since, among users like these,
    reversing the transaction again never succeeds: it posts nothing, leaving
    only what others committed meanwhile, and as long as its transaction begins
    and reads the row the answer is [ErrAlreadyReverted]. *)
Theorem revert_only_once (W W2 : Weather) (id : Z) (opts opts2 : RevertOptions) (s s' : Store) (rev : Reversal)
    (calls : list (Weather * Request)) :
  RevertTransaction W id opts s = (Ok rev, s') ->
  int64_ok id -> neighbourly W -> service_ok (db s) -> Forall courteous calls -> fellow_users W2 ->
  let s2 := serve_all calls s' in
  let '(r, s3) := RevertTransaction W2 id opts2 s2 in
  is_ok r = false /\ foreign W2 (db s2) (db s3) /\
  (fault (attempt_env W2 0) SBegin = None -> fault (attempt_env W2 0) SLockTransaction = None ->
   r = Err ErrAlreadyReverted).
Proof.
  intros H Hid HW Hs Hc HW2 s2. pose proof (service_settled W (DoRevert id opts) s Hid HW Hs) as Hs1.
  unfold serve in Hs1. rewrite H in Hs1. simpl in Hs1.
  assert (service_ok (db s2)) as Hs2 by (apply serve_all_ok; [eapply Forall_impl; [exact Hc|by intros c [? _]]|done]).
  destruct (requests_play calls s' Hc Hs1) as [acts Hp]. apply (reversed_plays _ _ _ id) in Hp; [|by eapply reverted_marked].
  fold s2 in Hp.
  assert (forall d, foreign W2 (db s2) d -> reversed d id) as Hlater.
  { intros d Hf. destruct (foreign_plays W2 _ _ HW2 Hf (proj1 Hs2)) as (_ & others & Ho). by eapply reversed_plays. }
  destruct (RevertTransaction W2 id opts2 s2) as [r s3] eqn:H2. pose proof H2 as Hends.
  unfold RevertTransaction in Hends. apply revert_attempts_cases in Hends as [He Hok]. destruct r as [rev2|e].
  - exfalso. destruct (Hok rev2 eq_refl) as (n & d0 & Hf & [(row & ? & ? & ? & ? & Hrow & Hnone & _)]).
    destruct (Hlater d0 Hf) as (row' & Hrow' & Hm). rewrite Hrow in Hrow'. injection Hrow' as <-.
    rewrite Hnone in Hm. by destruct Hm.
  - split; [done|]. split; [by eapply He|]. intros Hb Hl.
    destruct (Hlater _ (foreign_landed W2 0 (db s2))) as (row & Hrow & Hm).
    pose proof (marked_refused _ id opts2 _ row Hrow Hm Hb Hl) as Ho.
    unfold RevertTransaction, maxAttempts in H2. cbn [revert_attempts] in H2. rewrite Ho in H2.
    change (retryable ErrAlreadyReverted) with false in H2. by injection H2 as <- _.
Qed.

(** C7: every recorded posting is well formed. Whatever bytes arrive, from ledgers
    that were never created on: each posting of each transaction in the tables
    has valid addresses on both sides, a valid asset, a settled amount that is
    not negative, and is no sweep any more. *)
Theorem recorded_postings_typed (srv : Server) (calls : list (Weather * HttpRequest)) (stores : string -> Store) (l : string) :
  Forall welcome calls -> (forall l, db (stores l) = empty_database) ->
  map_Forall (fun _ r => Forall recorded (postings r)) (transactions (db (serve_http_all srv calls stores l))).
Proof.
  intros Hc Hs id r Hr. destruct (traffic_plays srv calls stores l Hc) as [acts Hp].
  { intros l'. rewrite Hs. apply empty_service. }
  assert (entries_recorded (abs (db (stores l)))) as H0 by (intros i ps b; rewrite Hs; cbn; by rewrite lookup_empty).
  eapply (plays_invariant _ _ _ _ recorded_proper step_recorded Hp) in H0. eapply H0. by apply entries_abs.
Qed.

(** C5: history is not rewritten. A transaction in the tables is there after any
    traffic, with the same postings in the same order, and once marked as
    reversed it stays marked. *)
Theorem history_is_kept (srv : Server) (calls : list (Weather * HttpRequest)) (stores : string -> Store) (l : string)
    (id : Z) (r : TransactionRow) :
  Forall welcome calls -> (forall l, service_ok (db (stores l))) -> transactions (db (stores l)) !! id = Some r ->
  exists r', transactions (db (serve_http_all srv calls stores l)) !! id = Some r' /\ postings r' = postings r /\
    (is_Some (reverted_at r) -> is_Some (reverted_at r')).
Proof.
  intros Hc Hs Hr. destruct (traffic_plays srv calls stores l Hc Hs) as [acts Hp%plays_keeps].
  apply entries_abs, Hp in Hr as (b' & Hb & Himp). cbn in Hb. apply fmap_Some in Hb as (r' & Hr' & [= Hps Hb]).
  exists r'. split_and!; [done|done|]. intros Hm. rewrite bool_decide_true in Himp by done.
  rewrite Himp in Hb by done. by eapply bool_decide_eq_true.
Qed.

End codec.

(** ** At a concrete service *)

Definition welcomed_day : list (Weather * HttpRequest) := pair calm <$> opening_day.

Lemma day_welcome : Forall welcome welcomed_day.
Proof. apply Forall_fmap, Forall_true. intros r. split; [intros n d H; exact H|exact one_user]. Qed.

Lemma recorded_postings_typed_witness :
  map_Forall (fun _ r => Forall recorded (postings r))
    (transactions (db (serve_http_all keyed_server welcomed_day no_ledgers "main"))).
Proof. exact (recorded_postings_typed keyed_server welcomed_day no_ledgers "main" day_welcome (fun _ => eq_refl)). Defined.

Lemma day_service l : service_ok (db (serve_http_all keyed_server welcomed_day no_ledgers l)).
Proof.
  apply traffic_service; [|intros l'; apply empty_service]. eapply Forall_impl; [exact day_welcome|]. by intros c [? _].
Qed.

Definition day_end : string -> Store := serve_http_all keyed_server welcomed_day no_ledgers.

Lemma day_deposited : is_Some (transactions (db (day_end "main")) !! 1).
Proof. apply (bool_decide_unpack _). vm_compute. exact I. Qed.

Lemma history_is_kept_witness :
  exists r r' : TransactionRow, transactions (db (day_end "main")) !! 1 = Some r /\
    transactions (db (serve_http_all keyed_server welcomed_day day_end "main")) !! 1 = Some r' /\ postings r' = postings r.
Proof.
  destruct day_deposited as [r Hr].
  destruct (history_is_kept keyed_server welcomed_day day_end "main" 1 r day_welcome day_service Hr) as (r' & Hr' & Hp & _).
  exists r, r'. exact (conj Hr (conj Hr' Hp)).
Defined.

(** The reversed deposit, tagged, paid again and closed since. *)
Definition since_reversal : list (Weather * Request) :=
  [(calm, DoSetTransactionMetadata 1 ∅); (calm, DoCommit deposit no_options); (calm, DoCloseAccount empty_account)].

Lemma since_courteous : Forall courteous since_reversal.
Proof.
  assert (neighbourly calm) as Hn by (intros n d H; exact H).
  unfold since_reversal. rewrite !Forall_cons. split_and!; try (split; [split|]; try exact Hn; try exact one_user); [exact I|apply map_Forall_empty|exact I|constructor].
Qed.

Lemma funded_service : service_ok (db funded_store).
Proof.
  pose proof (service_settled calm (DoCommit deposit no_options) new_store (map_Forall_empty _) (fun n d H => H) new_ledger_service) as H.
  unfold serve in H. unfold funded_store. destruct (CommitTransaction calm deposit no_options new_store). exact H.
Qed.

Lemma revert_only_once_witness :
  is_ok (RevertTransaction calm 1 {| AtEffectiveDate := true |} (serve_all since_reversal reverted_deposit.2)).1 = false /\
  (RevertTransaction calm 1 {| AtEffectiveDate := true |} (serve_all since_reversal reverted_deposit.2)).1 = Err ErrAlreadyReverted.
Proof.
  destruct reverted_deposit_lands as [rev H].
  assert (int64_ok 1) as Hid by (split; vm_compute; discriminate).
  pose proof (revert_only_once calm calm 1 {| AtEffectiveDate := false |} {| AtEffectiveDate := true |} funded_store
    reverted_deposit.2 rev since_reversal H Hid (fun n d Hd => Hd) funded_service since_courteous one_user) as Hr.
  cbv zeta in Hr. generalize dependent (serve_all since_reversal reverted_deposit.2). intros s2 Hr.
  destruct (RevertTransaction calm 1 {| AtEffectiveDate := true |} s2) as [r s3].
  exact (conj (proj1 Hr) (proj2 (proj2 Hr) eq_refl eq_refl)).
Defined.
