(* ===== verification/Readable.v ===== *)
(** * What the tables hold can be written

    Every row of a ledger in service is one the API can put into JSON and a
    client can read back: its strings are text, its times are within the years
    RFC 3339 writes, its ids are of 64 bits, its log data is JSON the encoder
    leaves as it is. Each operation of package storage keeps it so. *)

From S2P Require Import Prelude Identifiers Text Posting Volumes Sha256 Decimal GoTime Json Transaction Codec Encoding Errors Schema Txn Locking Guards Moves History Log Observer Commit Committed Book Chain Sample CommitSpec Replay Effective Read Verify Invariant Revert Bulk MetadataOps Policy Closure Registry Recovery Page Lists Reader Body Client Formats Ledger Refinement Service.

(** ** Times *)

Definition dated (t : Instant) : Prop := is_Some (instant_json t).

Lemma dated_second t u : t / second = u / second -> dated t -> dated u.
Proof.
  unfold dated, instant_json, time_json, marshal_time, local_year, local_seconds. cbn [unix_nano zone]. intros ->.
  case_match; [by eexists|by intros []].
Qed.

Lemma dated_truncate t : dated t -> dated (Truncate t microsecond).
Proof.
  apply dated_second. unfold Truncate, microsecond, second.
  replace 1000000000 with (1000 * 1000000) by lia. rewrite <-!Z.div_div by lia. by rewrite Z.div_mul.
Qed.

Lemma dated_min t u : dated t -> dated u -> dated (Z.min t u).
Proof. intros. by destruct (Z.min_dec t u) as [-> | ->]. Qed.

(** ** Rows *)

Record shows (t : Transaction) : Prop := {
  shows_storable : storable t;
  shows_timestamp : dated (Timestamp t);
  shows_inserted : dated (InsertedAt t);
  shows_reverted : forall r, RevertedAt t = Some r -> dated r;
}.

(** The bytes of one JSON value, as [encoding/json] prints it. *)
Definition compact (s : string) : Prop := good raw s.

Definition entry_shows (id : Z) (r : LogRow) : Prop :=
  int64_ok id /\ compact (data r) /\ dated (date r) /\
  forall k, idempotency_key r = Some k ->
    utf8_valid k = true /\ forall t, unmarshal_transaction (data r) = Some t -> shows t.

Definition move_shows (m : MoveRow) : Prop :=
  int64_ok (tx_id m) /\ utf8_valid (move_key m).2 = true /\ dated (effective_date m) /\ dated (move_inserted m).

Definition account_shows (a : Address) (r : AccountRow) : Prop :=
  utf8_valid a = true /\ text_map_ok (metadata r) /\ dated (first_usage r) /\ dated (insertion_date r) /\ dated (updated_at r).

Record readable (d : Database) : Prop := {
  rd_ledger : forall l, ledger_row d = Some l -> dated (added_at l);
  rd_transactions : map_Forall (fun id r => shows (hydrateTransaction id r)) (transactions d);
  rd_logs : map_Forall entry_shows (logs d);
  rd_moves : Forall move_shows (moves d);
  rd_accounts : map_Forall account_shows (accounts d);
  rd_volumes : map_Forall (fun k _ => utf8_valid k.2 = true) (volumes d);
  rd_assets : map_Forall (fun a _ => utf8_valid a = true) (assets d);
}.

(** ** What a payload is written as *)

Definition payload_text (p : payload) : Prop :=
  match p with
  | PTransaction t | PReverted _ t => storable t
  | PSetMetadata _ id m => utf8_valid id = true /\ text_map_ok m
  | PDeleteMetadata _ id k => utf8_valid id = true /\ utf8_valid k = true
  | PRecovery r => utf8_valid (Note r) = true
  end.

Lemma payload_json_ok p v : payload_text p -> payload_json p = Some v -> json_ok v = true /\ v <> JNull.
Proof.
  destruct p as [t|id t|tg id m|tg id k|r]; intros Hp Hv; split.
  - by eapply transaction_json_ok.
  - by destruct (transaction_json_object t v Hv) as [fs ->].
  - by eapply reverted_json_ok.
  - cbn [payload_json] in Hv. destruct (transaction_json t); [|done]. by injection Hv as <-.
  - injection Hv as <-. destruct Hp as [Hid Hm]. pose proof (metadata_json_ok m Hm) as Hj.
    destruct tg; cbn [json_ok forallb fst snd target_json] in *; by rewrite Hid, Hj.
  - by injection Hv as <-.
  - injection Hv as <-. destruct Hp as [Hid Hk]. destruct tg; cbn [json_ok forallb fst snd target_json]; by rewrite Hid, Hk.
  - by injection Hv as <-.
  - injection Hv as <-. by apply recovery_json_ok.
  - by injection Hv as <-.
Qed.

Lemma marshal_compact p bytes : payload_text p -> marshal p = Some bytes -> compact bytes.
Proof.
  intros Hp H. apply fmap_Some in H as (v & Hv & ->). destruct (payload_json_ok p v Hp Hv). by exists v.
Qed.

(** Marshalling fails on a time that cannot be written. *)
Lemma marshal_dated t p bytes :
  p = PTransaction t \/ (exists id, p = PReverted id t) -> marshal p = Some bytes ->
  dated (Timestamp t) /\ dated (InsertedAt t).
Proof.
  intros Hp H. apply fmap_Some in H as (v & Hv & _).
  assert (is_Some (transaction_json t)) as [w Hw].
  { destruct Hp as [-> |[id ->]]; [by eexists|]. cbn [payload_json] in Hv. destruct (transaction_json t); [by eexists|done]. }
  unfold transaction_json in Hw. unfold dated. destruct (instant_json (Timestamp t)); [|done].
  destruct (instant_json (InsertedAt t)); [|done]. split; by eexists.
Qed.

(** ** A transaction *)

Lemma distinct_accounts_in us last a : a ∈ distinct_accounts us last -> a ∈ Volumes.Account <$> us.
Proof.
  revert last. induction us as [|u us IH]; intros last; [by intros ?%not_elem_of_nil|]. cbn [distinct_accounts]. csimpl.
  case_bool_decide; [intros ?%IH; by right|]. intros [->|?%IH]%elem_of_cons; [by left|by right].
Qed.

Lemma used_rows_show l ts now m :
  Forall (fun a => utf8_valid a = true) l -> dated ts -> dated now -> map_Forall account_shows m ->
  map_Forall account_shows (used_rows l ts now m).
Proof.
  intros Hl Hts Hnow. revert m. induction Hl as [|a l Ha _ IH]; intros m Hm; [done|]. apply IH. apply map_Forall_insert_2; [|done].
  destruct (m !! a) as [r|] eqn:Hr.
  - destruct (Hm a r Hr) as (_ & ? & ? & ? & ?). split_and!; [done..|by apply dated_min|done|done].
  - split_and!; [done|apply map_Forall_empty|done..].
Qed.

Lemma shift_all_shows us at_ m : move_shows m -> move_shows (shift_all us at_ m).
Proof.
  unfold shift_all. revert m. induction us as [|u us IH]; intros m Hm; [done|]. apply IH. unfold shift_move. by destruct (_ && _).
Qed.

Section applied.
Context (now_ db_now_ : Instant) (p : Postings) (opts : applyOptions) (us : list VolumeUpdate) (t : Transaction)
  (alloc : allocation) (d d' : Database).
Context (Ha : applied now_ db_now_ p opts us t alloc d d') (Hrec : recorded (TPostings t))
  (Hmeta : text_map_ok (AOMetadata opts)).

Lemma applied_shows pl bytes :
  log_ok d -> pl = PTransaction t \/ (exists id, pl = PReverted id t) -> marshal pl = Some bytes -> shows t.
Proof.
  intros Hlog Hpl Hm. destruct (marshal_dated t pl bytes Hpl Hm). split; [by eapply applied_storable|done..|].
  destruct (applied_fields _ _ _ _ _ _ _ _ _ Ha) as (_ & _ & -> & _). done.
Qed.

Context (Hshow : shows t) (Hnow : dated db_now_) (Hd : readable d).

Lemma update_text u : u ∈ us -> utf8_valid (Volumes.Account u) = true /\ utf8_valid (UAsset u) = true.
Proof.
  intros Hu. apply (touched_utf8 (TPostings t) (update_key u) Hrec).
  apply (updates_touched _ _ (applied_updates _ _ _ _ _ _ _ _ _ Ha)). by apply list_elem_of_fmap_2.
Qed.

Lemma row_of_shows m : stored_metadata (TMetadata t) = Ok m -> shows (hydrateTransaction (TxID t) (row_of t db_now_ m)).
Proof.
  destruct (applied_fields _ _ _ _ _ _ _ _ _ Ha) as (_ & _ & _ & _ & Hm). rewrite Hm.
  intros ->%stored_metadata_text; [|done]. destruct Hshow as [[Hid Hps Href Hmd Hpcv] Hts Hins _].
  split; [|done|done|done]. split; [done|done| |done|done]. cbn. by case_bool_decide.
Qed.

Lemma halves_text h : h ∈ halves (TPostings t) -> utf8_valid (hkey h).2 = true.
Proof.
  unfold halves. intros (x & Hx & Hh)%list_elem_of_In%in_flat_map. apply list_elem_of_In in Hx.
  apply (touched_utf8 (TPostings t) (hkey h) Hrec). exists x. split; [done|]. destruct Hh as [<-|[<-|[]]]; auto.
Qed.

Lemma applied_readable : readable d'.
Proof.
  destruct (applied_rest _ _ _ _ _ _ _ _ _ Ha) as [Hlogs Hassets].
  destruct (applied_fields _ _ _ _ _ _ _ _ _ Ha) as (_ & Hins & _).
  pose proof Hshow as [Hst Hts _ _]. destruct Hd as [Hl Ht Hg Hm Hacc Hv Has]. split.
  - destruct (applied_ledger _ _ _ _ _ _ _ _ _ Ha) as (l & Hrow & -> & _). intros l' [= <-]. exact (Hl l Hrow).
  - destruct (applied_transaction _ _ _ _ _ _ _ _ _ Ha) as (_ & m & Hsm & ->). apply map_Forall_insert_2; [|done].
    by apply row_of_shows.
  - by rewrite Hlogs.
  - destruct (applied_moves _ _ _ _ _ _ _ _ _ Ha) as (before & effb & _ & _ & -> & _).
    apply Forall_fmap, Forall_forall. intros m Hin. apply shift_all_shows.
    apply elem_of_app in Hin as [Hin|Hin]; [by apply (proj1 (Forall_forall _ _) Hm)|].
    apply elem_of_lookup_imap in Hin as (i & h & -> & Hh). split_and!; cbn.
    + apply (storable_id _ Hst).
    + apply halves_text. by eapply list_elem_of_lookup_2.
    + done.
    + by rewrite Hins.
  - rewrite (applied_accounts _ _ _ _ _ _ _ _ _ Ha). apply used_rows_show; [|done|done|done].
    apply Forall_forall. intros a (u & -> & Hu)%distinct_accounts_in%list_elem_of_fmap. by apply update_text.
  - intros k r. rewrite (applied_rows _ _ _ _ _ _ _ _ _ Ha). case_decide as Hk; [|by apply Hv]. intros _.
    apply list_elem_of_fmap in Hk as (u & -> & Hu). by apply update_text.
  - by rewrite Hassets.
Qed.
End applied.

(** ** An entry of the log *)

Lemma readable_pending l d : readable d -> readable (set_pending l d).
Proof. intros [Hl Ht Hg Hm Hacc Hv Has]. by split. Qed.

Lemma entry_readable a pl dt key h d d' :
  entry_appended a pl dt key h d d' -> payload_text pl -> int64_ok (logID a) -> dated dt ->
  (key <> EmptyString -> exists t, pl = PTransaction t /\ shows t) -> readable d -> readable d'.
Proof.
  intros (bytes & Hm & _ & Hk & ->) Hp Hid Hdt Hkey [Hl Ht Hg Hmv Hacc Hv Has]. split; try done.
  - cbn. intros l' (l & Hrow & ->)%fmap_Some. exact (Hl l Hrow).
  - apply map_Forall_insert_2; [|done]. split_and!; [done|by eapply marshal_compact|done|].
    intros k Hrow. unfold entry_row in Hrow. cbn [idempotency_key] in Hrow. case_bool_decide as Hne; [done|]. injection Hrow as <-.
    destruct (Hk Hne) as [Hpg _]. split; [by apply pg_text_utf8|]. destruct (Hkey Hne) as (t & -> & Hs). intros t' Ht'.
    assert (Some t' = Some t) as [= ->]; [|done]. rewrite <-Ht'. by apply unmarshal_marshal_transaction; [apply shows_storable|].
Qed.

Lemma log_watermark d l : log_ok d -> ledger_row d = Some l -> 0 <= last_log_id l.
Proof.
  unfold log_ok. intros H Hl. rewrite Hl in H. destruct H as [_ Htip _ Hids _ _]. rewrite Htip.
  destruct (log_rows d) as [|[id r] rows] eqn:Hrows; [done|]. rewrite <-Htip.
  assert ((id, r) ∈ log_rows d) as Hin by (rewrite Hrows; left). apply elem_of_map_rows in Hin.
  assert (1 <= id <= last_log_id l) by (apply Hids; by eexists). lia.
Qed.

Lemma applied_log_id now_ db_now_ p opts us t alloc d d' :
  applied now_ db_now_ p opts us t alloc d d' -> log_ok d -> int64_ok (logID alloc).
Proof.
  intros Ha Hok. destruct (applied_ledger _ _ _ _ _ _ _ _ _ Ha) as (l & Hl & _ & -> & _ & _ & Hmax).
  pose proof (log_watermark d l Hok Hl). unfold int64_ok. cbn. lia.
Qed.

(** ** Commits, batches, reversals *)

Lemma landed_commit_readable E p opts h d0 t d' :
  landed_commit E p opts h d0 t d' -> Validate p = None -> text_map_ok (default ∅ (OMetadata opts)) -> dated (db_now E) ->
  log_ok d0 -> readable d0 -> readable d' /\ shows t.
Proof.
  intros (us & alloc & d1 & d2 & Ha & He & ->)%landed_commit_parts Hv Hmeta Hnow Hlog Hd.
  assert (recorded (TPostings t)) as Hrec by by eapply applied_recorded.
  pose proof He as (bytes & Hm & _).
  pose proof (applied_shows _ _ _ _ _ _ _ _ _ Ha Hrec Hmeta _ _ Hlog (or_introl eq_refl) Hm) as Hs. split; [|done].
  apply readable_pending. eapply entry_readable; [exact He|apply (shows_storable t Hs)|by eapply applied_log_id|done|by exists t|].
  by eapply applied_readable.
Qed.

Lemma batch_chain_readable E opts h i d items ts d' :
  batch_chain E opts h i d items ts d' ->
  Forall (fun it => Validate (BPostings it) = None /\ text_map_ok (AOMetadata (item_options opts h it))) items ->
  dated (db_now E) -> ledger_ok d -> readable d -> readable d' /\ Forall shows ts.
Proof.
  induction 1 as [|i d d1 d2 d' it items t ts us alloc Ha He Hc IH]; [done|].
  intros [[Hv Hm] Hall]%Forall_cons Hnow Hok Hd. pose proof (lo_log _ Hok) as Hlog.
  assert (recorded (TPostings t)) as Hrec by by eapply applied_recorded.
  pose proof He as (bytes & Hb & _).
  pose proof (applied_shows _ _ _ _ _ _ _ _ _ Ha Hrec Hm _ _ Hlog (or_introl eq_refl) Hb) as Hs.
  destruct (applied_fields _ _ _ _ _ _ _ _ _ Ha) as (_ & Hins & _).
  destruct IH as [Hd' Hts]; [done|done| | |by split; [|constructor]].
  - eapply (transaction_step_ok d d2 t); [|done]. split. do 12 eexists.
    split_and!; [exact Ha|exact Hrec|exact Hm|apply annotated_refl|exact He|by left].
  - eapply entry_readable; [exact He|apply (shows_storable t Hs)|by eapply applied_log_id|by rewrite Hins|by exists t|].
    by eapply applied_readable.
Qed.

Lemma same_money_readable ks d d' : same_money d d' -> materialised ks d d' -> readable d -> readable d'.
Proof.
  intros Hsm [Hov Hv] [Hl Ht Hg Hm Hacc Hvol Has]. rewrite Hov. split; try done. cbn. intros k r Hr.
  destruct (sm_registered _ _ Hsm k) as [[r' Hr']|Hreg]; [by eexists|by apply (Hvol k r')|].
  apply bool_decide_eq_true in Hreg as [at_ Hat]. by apply (Has _ at_).
Qed.

Lemma batch_rehearsed_readable E items opts h d0 ts d2 :
  batch_rehearsed E items opts h d0 ts d2 ->
  Forall (fun it => Validate (BPostings it) = None /\ text_map_ok (AOMetadata (item_options opts h it))) items ->
  dated (db_now E) -> ledger_ok d0 -> readable d0 -> readable d2 /\ Forall shows ts.
Proof.
  intros (d1 & [Hsm [ks Hm]] & Hc) Hall Hnow Hok Hd. eapply batch_chain_readable; [exact Hc|done|done| |].
  - by eapply same_money_ok.
  - by eapply same_money_readable.
Qed.

Lemma mark_readable id at_ d : dated at_ -> readable d -> readable (mark_row id at_ d).
Proof.
  intros Hat [Hl Ht Hg Hm Hacc Hv Has]. split; try done. intros i r. cbn. rewrite lookup_alter. case_decide as Hi; [|apply Ht].
  subst i. intros (r0 & Hr & ->)%fmap_Some. destruct (Ht _ _ Hr) as [[Hid Hps Href Hmd Hpcv] Hts Hins _]. split; [by split|done|done|].
  by intros at' [= <-].
Qed.

Lemma landed_revert_readable E id opts d0 rev d' :
  landed_revert E id opts d0 rev d' -> ledger_ok d0 -> dated (db_now E) -> readable d0 ->
  readable d' /\ shows (Original rev) /\ shows (TReversal rev).
Proof.
  intros [(row & us & alloc & d1 & d2 & Hrow & _ & Ho & (inverse & Hi & Ha) & He & ->)] Hok Hnow Hd.
  pose proof (lo_stored _ Hok id row Hrow) as Hst. pose proof (lo_log _ Hok) as Hlog.
  assert (recorded (TPostings (TReversal rev))) as Hrec by (eapply applied_plain; [exact Ha|]; by eapply reversed_recorded).
  pose proof He as (bytes & Hm & _).
  pose proof (applied_shows _ _ _ _ _ _ _ _ _ Ha Hrec (reverts_metadata_text id) _ _ Hlog
                (or_intror (ex_intro _ id eq_refl)) Hm) as Hs.
  pose proof Hs as [Hstor Hts Hins _]. split_and!; [|rewrite Ho|done].
  - apply readable_pending. eapply entry_readable; [exact He|exact Hstor|by eapply applied_log_id|done|done|].
    apply mark_readable; [done|]. eapply applied_readable; [exact Ha|done|apply reverts_metadata_text|done|done|done].
  - destruct (rd_transactions _ Hd id row Hrow) as [[Hid Hps Href Hmd Hpcv] Hts0 Hins0 _].
    split; [by split|done|done|by intros at' [= <-]].
Qed.

(** ** Metadata *)

Lemma mutate_readable E apply p d :
  (forall c d1, apply (fault E) (landed E d) = Ok (c, d1) ->
     benign (landed E d) d1 /\ readable d1 /\ (c = true -> payload_text p)) ->
  dated (now E) -> log_ok (landed E d) -> readable d -> readable (landed E d) -> readable (mutateMetadata E apply p d).2.
Proof.
  intros Happ Hnow Hlog Hd Hl. destruct (mutateMetadata E apply p d) as [r d'] eqn:H. simpl.
  apply mutate_cases in H as [(e & -> & [-> | ->])|(c & d1 & d2 & -> & Ha & -> & Hc)]; [done..|].
  destruct (Happ c d1 Ha) as (Hb & Hr & Hp). apply readable_pending. destruct c; [|by subst].
  destruct Hc as (a & d3 & (l & Hrow & -> & -> & _ & Hmax)%allocate_row_Ok & He).
  eapply entry_readable; [exact He|by apply Hp| |by apply dated_truncate|done|].
  - rewrite (be_ledger _ _ Hb) in Hrow. pose proof (log_watermark _ _ Hlog Hrow). unfold int64_ok. cbn. lia.
  - destruct Hr as [Hled Ht Hg Hm Hacc Hv Has]. split; try done. intros l' [= <-]. exact (Hled l Hrow).
Qed.

Lemma text_map_union m1 m2 : text_map_ok m1 -> text_map_ok m2 -> text_map_ok (m1 ∪ m2).
Proof. apply map_Forall_union_2. Qed.

Lemma with_metadata_readable id r m d :
  transactions d !! id = Some r -> text_map_ok m -> readable d ->
  readable (set_transactions (<[id := with_metadata m r]> (transactions d)) d).
Proof.
  intros Hr Hm [Hl Ht Hg Hmv Hacc Hv Has]. split; try done. apply map_Forall_insert_2; [|done].
  destruct (Ht id r Hr) as [[Hid Hps Href Hmd Hpcv] Hts Hins Hrev]. by split.
Qed.

Lemma accounts_readable a r d : account_shows a r -> readable d -> readable (set_accounts (<[a := r]> (accounts d)) d).
Proof. intros Ha [Hl Ht Hg Hmv Hacc Hv Has]. split; try done. by apply map_Forall_insert_2. Qed.

Lemma merge_readable id m f d b d1 :
  lockAndMerge id m f d = Ok (b, d1) -> text_map_ok m -> readable d -> readable d1.
Proof.
  unfold lockAndMerge. intros H Hm Hd. apply bind_Ok in H as (u & d2 & [-> _]%lockTarget_benign & H).
  apply stmt_Ok in H as [_ H]. apply rbind_Ok in H as (raw & Hraw & H). apply stored_metadata_text in Hraw as ->; [|done].
  unfold affected, merge_transaction in H. destruct (transactions d !! id) as [r|] eqn:Hr; [case_bool_decide|]; simplify_eq; try done.
  apply with_metadata_readable; [done| |done]. apply text_map_union; [done|]. apply (rd_transactions _ Hd id r Hr).
Qed.

Lemma drop_readable found k drop f d b d1 :
  lockAndDeleteKey found k drop f d = Ok (b, d1) ->
  found d = Ok true /\ utf8_valid k = true /\ (b, d1) = drop d.
Proof.
  unfold lockAndDeleteKey. intros H. apply bind_Ok in H as (u & d2 & [-> Hf]%lockTarget_benign & H).
  apply stmt_Ok in H as [_ H]. apply rbind_Ok in H as (u' & Hw & H). destruct u'. apply when_Ok, negb_false_iff in Hw.
  unfold affected in H. injection H as H. split_and!; [done|by apply pg_text_utf8|done].
Qed.

Lemma upsert_readable a m at_ f d b d1 :
  stmt SMetadata (fun d => let! raw := stored_metadata m in affected (upsert_account_metadata a raw at_) d) f d = Ok (b, d1) ->
  utf8_valid a = true -> text_map_ok m -> dated at_ -> readable d -> readable d1.
Proof.
  intros [_ H]%stmt_Ok Ha Hm Hat Hd. apply rbind_Ok in H as (raw & Hraw & H). apply stored_metadata_text in Hraw as ->; [|done].
  unfold affected, upsert_account_metadata in H. destruct (accounts d !! a) as [r|] eqn:Hr.
  - destruct (rd_accounts _ Hd a r Hr) as (_ & Hmd & ? & ? & ?). case_bool_decide; simplify_eq; [done|].
    apply accounts_readable; [|done]. split_and!; [done|by apply text_map_union|done..].
  - simplify_eq. by apply accounts_readable.
Qed.

(** Setting metadata: the change, and what the log is to say of it. *)
Lemma set_metadata_readable E id a m d :
  text_map_ok m -> dated (now E) -> log_ok (landed E d) -> readable d -> readable (landed E d) ->
  readable (SetTransactionMetadata E id m d).2 /\ readable (SetAccountMetadata E a m d).2.
Proof.
  intros Hm Hnow Hlog Hd Hl. split.
  - unfold SetTransactionMetadata. destruct (validateMetadata m); [|done]. rewrite then_read_db. apply mutate_readable; [|done..].
    intros c d1 H. split_and!; [by eapply merge_benign|by eapply merge_readable|]. intros _. split; [|done].
    apply basic_utf8, print_Z_basic.
  - unfold SetAccountMetadata. destruct (Address_Valid a) eqn:Ha; [|done]. cbn [negb]. destruct (validateMetadata m); [|done].
    apply address_utf8 in Ha. rewrite then_read_db. apply mutate_readable; [|done..].
    intros c d1 H. split_and!; [by eapply upsert_benign|by eapply upsert_readable; [..|apply dated_truncate| ]|done].
Qed.

Lemma delete_metadata_readable E id a k d :
  dated (now E) -> dated (db_now E) -> log_ok (landed E d) -> readable d -> readable (landed E d) ->
  readable (DeleteTransactionMetadataKey E id k d).2 /\ readable (DeleteAccountMetadataKey E a k d).2.
Proof.
  intros Hnow Hdb Hlog Hd Hl. split.
  - unfold DeleteTransactionMetadataKey. case_bool_decide as Hne; [done|]. rewrite then_read_db. apply mutate_readable; [|done..].
    intros c d1 H. split; [by eapply drop_benign; [intros *; apply drop_transaction_benign|]|].
    apply drop_readable in H as (_ & Hk & Hdrop). split.
    + unfold drop_transaction_key in Hdrop. destruct (transactions (landed E d) !! id) as [r|] eqn:Hr; [case_bool_decide|]; simplify_eq; try done.
      apply with_metadata_readable; [done| |done]. apply map_Forall_delete. apply (rd_transactions _ Hl id r Hr).
    + intros _. split; [|done]. apply basic_utf8, print_Z_basic.
  - unfold DeleteAccountMetadataKey. case_bool_decide as Hne; [done|]. rewrite then_read_db. apply mutate_readable; [|done..].
    intros c d1 H. split; [by eapply drop_benign; [intros *; apply drop_account_benign|]|].
    apply drop_readable in H as (Hf & Hk & Hdrop). split.
    + unfold drop_account_key in Hdrop. destruct (accounts (landed E d) !! a) as [r|] eqn:Hr; [case_bool_decide|]; simplify_eq; try done.
      apply accounts_readable; [|done]. destruct (rd_accounts _ Hl a r Hr) as (? & Hmd & ? & ? & _).
      split_and!; [done|by apply map_Forall_delete|done..].
    + intros _. split; [|done]. unfold account_exists in Hf. apply rbind_Ok in Hf as (u & Hw & _). destruct u.
      apply when_Ok, negb_false_iff in Hw. by apply pg_text_utf8.
Qed.

(** ** Permissions, closures, assets, the ledger's row *)

Lemma autocommit_readable {A} f (m : Txn A) d :
  (forall a d1, m f d = Ok (a, d1) -> readable d1) -> readable d -> readable (autocommit f m d).2.
Proof.
  intros Hm Hd. destruct (autocommit f m d) as [r d'] eqn:H. simpl.
  apply autocommit_cases in H as [(e & -> & ->)|(a & d1 & -> & Ha & ->)]; [done|]. by eapply readable_pending, Hm.
Qed.

Lemma permission_readable f a c allow d :
  readable d -> readable (SetAllowNegative f a c allow d).2 /\ readable (SetAllowPositive f a c allow d).2.
Proof.
  intros Hd. assert (forall flip, (forall r, volumes_of (flip r) = volumes_of r) -> Asset_Valid c = true ->
    readable (autocommit f (exec SExec (upsert_permission flip (a, c))) d).2) as H.
  { intros flip Hf Hc. apply autocommit_readable; [|done]. intros u d1 [_ [_ ->]%upsert_permission_Ok]%exec_Ok; [|done].
    destruct Hd as [Hl Ht Hg Hm Hacc Hv Has]. split; try done. apply map_Forall_insert_2; [by apply asset_utf8|done]. }
  unfold SetAllowNegative, SetAllowPositive. destruct (policy_target a c allow) as [[]|] eqn:Hp; [|done].
  unfold policy_target in Hp. inv_ok. split; apply H; try done; by apply negb_false_iff.
Qed.

Lemma closure_readable E a d :
  dated (db_now E) -> readable d -> readable (landed E d) ->
  readable (CloseAccount E id a d).2 /\ readable (ReopenAccount E a d).2.
Proof.
  intros Hnow Hd Hl. split.
  - unfold CloseAccount. destruct (Address_Valid a) eqn:Ha; [|done]. apply address_utf8 in Ha. cbn [negb].
    destruct (is_world a), (fault E SBegin); try done. unfold query, stmt. destruct (fault E SLockRows); [done|].
    destruct (held _ _); [|done]. unfold transact, close_body, id.
    destruct (bind _ _ (fault E) (landed E d)) as [[o d']|e] eqn:Hb; [|done].
    apply bind_Ok in Hb as (u & d1 & He & Hb). apply exec_Ok in He as [_ [= <-]].
    apply commit_Ok in Hb as (_ & _ & -> & ->). apply readable_pending, accounts_readable; [|done].
    destruct (accounts (landed E d) !! a) as [r|] eqn:Hr; [|by split_and!].
    destruct (rd_accounts _ Hl a r Hr) as (_ & ? & ? & ? & _). by split_and!.
  - unfold ReopenAccount. destruct (negb (Address_Valid a)); [done|].
    assert (readable (autocommit (fault E) (stmt SExec (fun d => Ok (reopen_row a (db_now E) d))) d).2) as Hk.
    { apply autocommit_readable; [|done]. intros n d1 [_ [= H]]%stmt_Ok. unfold reopen_row in H.
      destruct (accounts d !! a) as [r|] eqn:Hr; [destruct (closed r)|]; simplify_eq; try done. apply accounts_readable; [|done].
      destruct (rd_accounts _ Hd a r Hr) as (? & ? & ? & ? & _). by split_and!. }
    by repeat case_match.
Qed.

Lemma register_readable E a d : readable d -> readable (RegisterAsset E a d).2.
Proof.
  intros Hd. unfold RegisterAsset. destruct (Asset_Valid a) eqn:Ha; [|done]. cbn [negb].
  assert (readable (autocommit (fault E) (exec SExec (insert_asset a (db_now E))) d).2) as Hk.
  { apply autocommit_readable; [|done]. intros u d1 [_ [[_ ->]|(_ & _ & ->)]%insert_asset_Ok]%exec_Ok; [done|].
    destruct Hd as [Hl Ht Hg Hm Hacc Hv Has]. split; try done. apply map_Forall_insert_2; [by apply asset_utf8|done]. }
  by repeat case_match.
Qed.

Lemma create_readable E name d : dated (db_now E) -> readable d -> readable (CreateLedger E name d).2.
Proof.
  intros Hnow Hd. unfold CreateLedger.
  assert (readable (autocommit (fault E) (stmt SExec (insert_ledger name (db_now E))) d).2) as Hk.
  { apply autocommit_readable; [|done]. intros l d1 [_ H]%stmt_Ok. unfold insert_ledger in H. inv_ok.
    destruct (ledger_row d) eqn:Hr; [done|]. simplify_eq. destruct Hd as [Hl Ht Hg Hm Hacc Hv Has]. split; try done.
    by intros l [= <-]. }
  by repeat case_match.
Qed.

Lemma recovery_readable E name w note d :
  utf8_valid note = true -> dated (now E) -> readable d -> readable (landed E d) ->
  readable (RecordRecovery E name w note d).2.
Proof.
  intros Hnote Hnow Hd Hl. destruct (RecordRecovery E name w note d) as [r d'] eqn:H. simpl.
  apply RecordRecovery_cases in H as [[-> | ->]|[_ [(l & bytes & id & Hrow & _ & Hm & Hid & _ & _ & ->)]]]; [done..|].
  apply readable_pending. destruct Hl as [Hled Ht Hg Hmv Hacc Hv Has]. split; try done.
  - intros l' [= <-]. exact (Hled l Hrow).
  - apply map_Forall_insert_2; [|done]. split_and!; [|by eapply marshal_compact; [|exact Hm]|by apply dated_truncate|done].
    rewrite Hid. apply wrap64_range.
Qed.

(** ** Any request *)

(** The request's own texts. The metadata of a commit is in [request_ok]. *)
Definition request_readable (q : Request) : Prop :=
  request_ok q /\
  match q with DoSetTransactionMetadata _ m | DoSetAccountMetadata _ m => text_map_ok m | _ => True end.

(** A ledger whose books are sound and whose rows can be written. *)
Definition kept (d : Database) : Prop := service_ok d /\ readable d.

(** Neighbours that keep both, and clocks within the years RFC 3339 writes. *)
Record hospitable (W : Weather) : Prop := {
  hp_sound : neighbourly W;
  hp_readable : forall n d, kept d -> readable (landed (attempt_env W n) d);
  hp_now : forall n, dated (now (attempt_env W n));
  hp_db_now : forall n, dated (db_now (attempt_env W n));
}.

Lemma empty_kept : kept empty_database.
Proof.
  split; [apply empty_service|]. split; try apply map_Forall_empty; [done|constructor].
Qed.

Lemma hospitable_kept W n d : hospitable W -> kept d -> kept (landed (attempt_env W n) d).
Proof. intros [Hs Hr _ _] Hd. split; [apply Hs, Hd|by apply Hr]. Qed.

Lemma batch_items_text items opts h :
  Forall (fun it => Validate (BPostings it) = None) items -> Forall (fun it => text_map_ok (default ∅ (BMetadata it))) items ->
  batchIdempotencyHash items opts = Ok h ->
  Forall (fun it => Validate (BPostings it) = None /\ text_map_ok (AOMetadata (item_options opts h it))) items.
Proof. intros Hv Hm Hh. apply Forall_and. split; [done|by apply batch_metadata_ok]. Qed.

Lemma landed_batch_rehearsed E items opts h d0 ts d' :
  landed_batch E items opts h d0 ts d' -> exists d2, batch_rehearsed E items opts h d0 ts d2 /\ d' = set_pending [] d2.
Proof. intros [(d1 & d2 & Hsm & Hc & ->) _]. exists d2. split; [|done]. by exists d1. Qed.

(** Commits, reversals and batches keep what can be written. *)
Lemma posting_kept W q s :
  request_ok q -> hospitable W -> kept (db s) ->
  match q with DoCommit _ _ | DoRevert _ _ | DoBatch _ _ => kept (db (serve W q s).2) | _ => True end.
Proof.
  intros Hr HW Hs. pose proof (fun n d => hospitable_kept W n d HW) as Hl. pose proof (hp_db_now W HW) as Hnow.
  destruct q as [p opts|id opts|items opts|id m|id k|a m|a k|a c allow|a c allow|a|a|a|name w note]; try done; unfold serve.
  - destruct (CommitTransaction W p opts s) as [x s'] eqn:H. apply (commit_keeps kept W p opts s x s' H Hl); [|done].
    intros n h d0 t d' Hv _ Hc [Hd Hrd]. split; [by eapply landed_commit_service|].
    eapply landed_commit_readable; [exact Hc|done|done|done|apply Hd|done].
  - pose proof (revert_keeps_any kept W id opts s Hl) as H. destruct (RevertTransaction W id opts s). apply H; [|done].
    intros n d0 rev d' Hc [Hd Hrd]. split; [by eapply landed_revert_service|].
    eapply landed_revert_readable; [exact Hc|apply Hd|done|done].
  - pose proof (batch_keeps_any kept W items opts s Hl) as H. destruct (CommitBatch W items opts s). apply H; [|done].
    intros n h d0 ts d' Hval Hh Hc [Hd Hrd]. split; [by eapply landed_batch_service|].
    apply landed_batch_rehearsed in Hc as (d2 & Hc & ->). apply readable_pending.
    eapply batch_rehearsed_readable; [exact Hc|by apply batch_items_text|done|apply Hd|done].
Qed.

(** Sound and writable stays so, whatever is asked and whatever fails. *)
Lemma serve_kept W q s : request_readable q -> hospitable W -> kept (db s) -> kept (db (serve W q s).2).
Proof.
  intros [Hr Htext] HW Hs. pose proof (posting_kept W q s Hr HW Hs) as Hpost.
  assert (service_ok (db (serve W q s).2)) as Hsound by (apply service_settled; [done|apply HW|apply Hs]).
  destruct Hs as [Hok Hd]. pose proof (hospitable_kept W 0 (db s) HW (conj Hok Hd)) as [[[Hlok _] _] Hld].
  apply lo_log in Hlok. pose proof (hp_now W HW 0%nat) as Hn. pose proof (hp_db_now W HW 0%nat) as Hdb.
  destruct q as [p opts|id opts|items opts|id m|id k|a m|a k|a c allow|a c allow|a|a|a|name w note];
    try exact Hpost; (split; [exact Hsound|]); clear Hpost Hsound; unfold serve, on_db.
  - pose proof (set_metadata_readable _ id "" m _ Htext Hn Hlok Hd Hld) as [H _]. by destruct (SetTransactionMetadata _ _ _ _).
  - pose proof (delete_metadata_readable _ id "" k _ Hn Hdb Hlok Hd Hld) as [H _]. by destruct (DeleteTransactionMetadataKey _ _ _ _).
  - pose proof (set_metadata_readable _ 0 a m _ Htext Hn Hlok Hd Hld) as [_ H]. by destruct (SetAccountMetadata _ _ _ _).
  - pose proof (delete_metadata_readable _ 0 a k _ Hn Hdb Hlok Hd Hld) as [_ H]. by destruct (DeleteAccountMetadataKey _ _ _ _).
  - pose proof (permission_readable (fault (attempt_env W 0)) a c allow _ Hd) as [H _]. by destruct (SetAllowNegative _ _ _ _ _).
  - pose proof (permission_readable (fault (attempt_env W 0)) a c allow _ Hd) as [_ H]. by destruct (SetAllowPositive _ _ _ _ _).
  - pose proof (closure_readable _ a _ Hdb Hd Hld) as [H _]. by destruct (CloseAccount _ _ _ _).
  - pose proof (closure_readable _ a _ Hdb Hd Hld) as [_ H]. by destruct (ReopenAccount _ _ _).
  - pose proof (register_readable (attempt_env W 0) a _ Hd) as H. by destruct (RegisterAsset _ _ _).
  - destruct Hr as [_ Hnote]. pose proof (recovery_readable _ name w note _ Hnote Hn Hd Hld) as H. by destruct (RecordRecovery _ _ _ _ _).
Qed.
