(* ===== verification/Answers.v ===== *)
(** * Every answer can be read

    The bytes of a response, whatever the traffic before it: a client
    with the types of gen.go reads from them exactly what was answered. *)

From S2P Require Import Prelude Identifiers Text Posting Volumes Sha256 Decimal GoTime Json Transaction Codec Encoding Errors Schema Txn Locking Guards Moves History Log Observer Commit Committed Book Chain Sample CommitSpec Replay Effective Read Verify Invariant Revert Bulk MetadataOps Policy Closure Registry Recovery Base64 Page Lists Reader Params Body Client Formats Wire Replies Ledger Refinement Service Api Http Laws Readable.

(** ** Rows as the API shows them *)

Lemma if_any_good {K} `{Countable K} {V} (P : gmap K V -> Prop) m :
  P m -> from_option P True (if_any m).
Proof. unfold if_any. by case_bool_decide. Qed.

Lemma if_text_good s : utf8_valid s = true -> from_option (good text) True (if_text s).
Proof. unfold if_text. by case_bool_decide. Qed.

Lemma pcv_good v : pcv_text_ok v -> good (map_of (map_of volumes_format)) v.
Proof.
  intros Hv a m Ha. destruct (Hv a m Ha) as [Hu Hm]. split; [done|]. intros c x Hc. split; [by apply (Hm c x)|]. done.
Qed.

Lemma postings_good ps : Forall posting_text_ok ps -> good (list_of posting_format) (toAPIPostings ps).
Proof.
  intros Hps. apply Forall_fmap. eapply Forall_impl; [exact Hps|]. intros x (Hs & Hd & Ha). cbn. split_and!; try done.
  by destruct (Amount x).
Qed.

Lemma shows_good t : shows t -> good transaction_format (toAPITransaction t).
Proof.
  intros [[Hid Hps Href Hmd Hpcv] Hts Hins Hrev]. cbn. split_and!; try done.
  - by apply (if_any_good (good metadata_format)).
  - by apply (if_any_good (good (map_of (map_of volumes_format)))), pcv_good.
  - by apply postings_good.
  - by apply if_text_good.
  - destruct (RevertedAt t) as [r|]; [by apply Hrev|done].
Qed.

Lemma entry_good id r : entry_shows id r -> good log_format (toAPILog (scan_log (id, r))).
Proof.
  intros (Hid & Hdata & Hdate & Hkey). cbn. split_and!; try done. apply if_text_good.
  destruct (idempotency_key r) as [k|]; [by apply (Hkey k)|done].
Qed.

Lemma move_good m : move_shows m -> int64_ok (seq m) -> good move_format (toAPIMove (scan_move m)).
Proof. intros (Htx & Ha & He & Hi) Hs. cbn. by split_and!. Qed.

Definition volumes_map_good (m : gmap string Volumes) : Prop := good (map_of volumes_format) m.

Lemma account_good a :
  utf8_valid (AAddress a) = true -> text_map_ok (AMetadata a) -> dated (FirstUsage a) -> dated (InsertionDate a) ->
  dated (UpdatedAt a) -> (forall v, AVolumes a = Some v -> volumes_map_good v) ->
  (forall v, AEffectiveVolumes a = Some v -> volumes_map_good v) -> good account_format (toAPIAccount a).
Proof.
  intros Ha Hm Hf Hi Hu Hv He. cbn. split_and!; try done.
  - destruct (AEffectiveVolumes a); [by apply He|done].
  - by apply (if_any_good (good metadata_format)).
  - destruct (AVolumes a); [by apply Hv|done].
Qed.

Lemma balances_good (m : gmap string Z) : map_Forall (fun a _ => utf8_valid a = true) m -> good balances_format m.
Proof. intros Hm a x Ha. split; [by apply (Hm a x)|done]. Qed.

Lemma volumes_good (m : gmap string Volumes) : map_Forall (fun a _ => utf8_valid a = true) m -> volumes_map_good m.
Proof. intros Hm a x Ha. split; [by apply (Hm a x)|done]. Qed.

Lemma list_to_map_keys {V} (P : string -> Prop) (l : list (string * V)) :
  Forall (fun kv => P kv.1) l -> map_Forall (fun k _ => P k) (list_to_map l : gmap string V).
Proof.
  intros Hl k x Hk%elem_of_list_to_map_2. exact (proj1 (Forall_forall _ _) Hl (k, x) Hk).
Qed.

(** ** Reads *)

Section reads.
Context (d : Database) (Hd : readable d).

Lemma rows_of_text address : Forall (fun ar : Asset * VolumeRow => utf8_valid ar.1 = true) (rows_of d address).
Proof.
  apply Forall_forall. intros [a r] ([k r'] & Hin & He)%list_elem_of_omap. cbn in He. case_bool_decide; [|done].
  injection He as <- <-. apply elem_of_map_rows in Hin. by apply (rd_volumes d Hd k r').
Qed.

Lemma effective_rows_text address at_ : Forall (fun ar : Asset * Volumes => utf8_valid ar.1 = true) (effective_rows d address at_).
Proof.
  apply Forall_forall. intros [a v] (c & _ & He)%list_elem_of_omap. apply fmap_Some in He as (m & Hm & [= -> ->]).
  pose proof (latest_at_spec (moves d) (address, c) at_) as Hs. rewrite Hm in Hs. destruct Hs as (Hin & Hk & _).
  destruct (proj1 (Forall_forall _ _) (rd_moves d Hd) m Hin) as (_ & Ha & _). by rewrite Hk in Ha.
Qed.

Lemma GetVolumes_good address : volumes_map_good (GetVolumes d address).
Proof. apply volumes_good, list_to_map_keys, Forall_fmap. exact (rows_of_text address). Qed.

Lemma GetEffectiveVolumesAt_good address at_ : volumes_map_good (GetEffectiveVolumesAt d address at_).
Proof. apply volumes_good, list_to_map_keys. exact (effective_rows_text address at_). Qed.

Lemma GetBalances_good address : good balances_format (GetBalances d address).
Proof. apply balances_good, list_to_map_keys, Forall_fmap. exact (rows_of_text address). Qed.

Lemma GetBalancesAt_good address at_ : good balances_format (GetBalancesAt d address at_).
Proof. apply balances_good, list_to_map_keys, Forall_fmap. exact (effective_rows_text address at_). Qed.

Lemma AggregateBalances_good prefix m : AggregateBalances d prefix = Ok m -> good balances_format m.
Proof.
  unfold AggregateBalances. intros H. inv_ok. apply balances_good, list_to_map_keys, Forall_fmap, Forall_forall.
  intros a Ha. rewrite elem_of_remove_dups in Ha. apply list_elem_of_fmap in Ha as ([k r] & -> & Hin). unfold rows_under in Hin.
  apply list_elem_of_filter in Hin as [_ Hin%elem_of_map_to_list]. by apply (rd_volumes d Hd k r).
Qed.

Lemma Assets_good : good (list_of text) (Assets d).
Proof.
  apply Forall_forall. intros a ([b at_] & -> & Hin)%list_elem_of_fmap. rewrite merge_sort_Permutation in Hin.
  apply elem_of_map_to_list in Hin. exact (rd_assets d Hd b at_ Hin).
Qed.

Lemma GetTransaction_good id t : GetTransaction d id = Ok t -> shows t.
Proof. unfold GetTransaction. destruct (transactions d !! id) eqn:Hr; [|done]. intros [= <-]. by apply (rd_transactions d Hd id). Qed.

Lemma GetAccount_good now_ address o a : GetAccount now_ d address o = Ok a -> good account_format (toAPIAccount a).
Proof.
  unfold GetAccount. intros (u & _ & H)%rbind_Ok. destruct (accounts d !! address) as [r|] eqn:Hr; [|done]. injection H as <-.
  destruct (rd_accounts d Hd address r Hr) as (Ha & Hm & Hf & Hi & Hu). apply account_good; try done; cbn.
  - intros v. destruct (with_volumes o); [|done]. intros [= <-]. apply GetVolumes_good.
  - intros v. destruct (with_effective o); [|done]. intros [= <-]. apply GetEffectiveVolumesAt_good.
Qed.

Lemma GetLedger_good name l : GetLedger name d = Ok l -> good ledger_format (toAPILedger l).
Proof.
  unfold GetLedger, text_arg. intros H. inv_ok. destruct (ledger_row d) as [r|] eqn:Hr; [|done]. simplify_eq. cbn.
  split_and!; [exact (rd_ledger d Hd r Hr)| |done]. by apply pg_text_utf8, negb_false_iff.
Qed.

End reads.

(** ** Pages *)

Lemma url_text s : forall_char url_char s = true -> utf8_valid s = true.
Proof.
  intros H. apply ascii_utf8_valid. induction s as [|c s IH]; [done|]. cbn [forall_char] in *. apply andb_true_iff in H as [Hc Hs].
  rewrite IH, andb_true_r by done. by destruct c as [[] [] [] [] [] [] [] []].
Qed.

(** A page has rows of the listing, and a cursor that is text. *)
Lemma list_page_rows {F T} `{Listing F T} d f limit s page :
  list_page (F:=F) (T:=T) d f limit s = Ok page ->
  (exists f', Forall (fun x => x ∈ rows_matching d f') (Items page)) /\ utf8_valid (Next page) = true.
Proof.
  unfold list_page. intros (c & _ & Hp)%rbind_Ok. apply rbind_Ok in Hp as (u & _ & Hp).
  assert (Forall (fun x => x ∈ rows_matching d (CFilter c)) (fetch d c)) as Hall.
  { apply Forall_take, Forall_forall. intros x [_ Hx]%list_elem_of_filter. exact Hx. }
  unfold finish in Hp. destruct (_ <=? _); [injection Hp as <-; split; [by eexists|done]|].
  destruct (last _); [|done]. destruct (encodeCursor _) as [next|] eqn:He; [|done]. injection Hp as <-. split.
  - exists (CFilter c). by apply Forall_take.
  - apply fmap_Some in He as (v & _ & ->). apply url_text, encode_url.
Qed.

Lemma page_good {F T U} `{Listing F T} (G : Format U) (shown_as : T -> U) d f limit s page :
  list_page (F:=F) (T:=T) d f limit s = Ok page ->
  (forall f' x, x ∈ rows_matching d f' -> good G (shown_as x)) -> good (page_format G) (page_of shown_as page).
Proof.
  intros [[f' Hrows] Hnext]%list_page_rows Hgood. split; [|by split; [exact (if_text_good (Next page) Hnext)|]].
  apply Forall_fmap. eapply Forall_impl; [exact Hrows|]. intros x Hx. exact (Hgood f' x Hx).
Qed.

Section pages.
Context (d : Database) (Hd : kept d).

Lemma transactions_good q page :
  ListTransactions d q = Ok page -> good (page_format transaction_format) (page_of toAPITransaction page).
Proof.
  intros Hp. eapply page_good; [exact Hp|]. intros f x ([id r] & -> & Hin)%list_elem_of_fmap. apply shows_good.
  apply list_elem_of_filter in Hin as [_ Hin%elem_of_map_rows]. exact (rd_transactions d (proj2 Hd) id r Hin).
Qed.

Lemma logs_good q page : ListLogs d q = Ok page -> good (page_format log_format) (page_of toAPILog page).
Proof.
  intros Hp. eapply page_good; [exact Hp|]. intros f x ([id r] & -> & Hin)%list_elem_of_fmap. apply entry_good.
  apply elem_of_map_rows in Hin. exact (rd_logs d (proj2 Hd) id r Hin).
Qed.

Lemma moves_good q page :
  next_seq d <= max_int64 + 1 -> ListMoves d q = Ok page -> good (page_format move_format) (page_of toAPIMove page).
Proof.
  intros Hseq Hp. eapply page_good; [exact Hp|]. intros f x (m & -> & Hin)%list_elem_of_fmap.
  rewrite merge_sort_Permutation in Hin. apply list_elem_of_filter in Hin as [_ Hin]. apply move_good.
  - by apply (proj1 (Forall_forall _ _) (rd_moves d (proj2 Hd))).
  - destruct Hd as [[_ Hnum] _]. pose proof (nb_range d Hnum m Hin). unfold int64_ok. lia.
Qed.

End pages.

(** ** Writes *)

Definition answer_shows (a : Answer) : Prop :=
  match a with
  | ATransaction t => shows t
  | AReversal rev => shows (Original rev) /\ shows (TReversal rev)
  | ATransactions ts => Forall shows ts
  | AAccount a => good account_format (toAPIAccount a)
  | ADone => True
  end.

(** What a key replays was written by a commit. *)
Lemma replay_shows d key h t : readable d -> check_replay d key h = Ok (Some t) -> shows t.
Proof.
  intros Hd H. unfold check_replay in H. apply rbind_Ok in H as (u & _ & H).
  destruct (find_key d key) as [r|] eqn:Hf; [|done]. case_bool_decide; [|done].
  destruct (unmarshal_transaction (data r)) as [t'|] eqn:Hu; [|done]. injection H as ->.
  unfold find_key in Hf. apply find_map_Some in Hf as (l1 & [id x] & l2 & Hl & Hx & _). simpl in Hx.
  case_bool_decide as Hk; [|done]. injection Hx as ->.
  assert ((id, r) ∈ map_rows Z.le (logs d)) as Hin by (rewrite Hl; set_solver). apply elem_of_map_rows in Hin.
  destruct (rd_logs d Hd id r Hin) as (_ & _ & _ & Hkey). by apply (Hkey key Hk).
Qed.

Lemma commit_shows W p opts s t s' :
  CommitTransaction W p opts s = (Ok t, s') -> text_map_ok (default ∅ (OMetadata opts)) -> hospitable W -> kept (db s) -> shows t.
Proof.
  intros H Hm HW Hs. pose proof (fun n d => hospitable_kept W n d HW) as Hl.
  apply commit_told in H as [Hv [(h & Hf & Hr)|(n & d0 & Hf & us & alloc & d1 & Ha & bytes & Hb)]].
  - eapply replay_shows; [|exact Hr]. apply (foreign_keeps kept W _ _ Hl Hf Hs).
  - destruct (foreign_keeps kept W _ _ Hl Hf Hs) as [[[Hok _] _] _].
    eapply (applied_shows _ _ _ _ _ _ _ _ _ Ha); [by eapply applied_recorded|exact Hm|apply Hok|by left|exact Hb].
Qed.

Lemma tagged_shows d h : readable d -> Forall shows (tagged d h).
Proof.
  intros Hd. apply Forall_forall. intros t ([id r] & Hin & Ht)%list_elem_of_omap. cbn in Ht. case_bool_decide; [|done].
  injection Ht as <-. apply elem_of_map_rows in Hin. exact (rd_transactions d Hd id r Hin).
Qed.

Lemma batch_shows W items opts s ts s' :
  CommitBatch W items opts s = (Ok ts, s') -> Forall (fun it => text_map_ok (default ∅ (BMetadata it))) items ->
  hospitable W -> kept (db s) -> Forall shows ts.
Proof.
  intros H Hm HW Hs. pose proof (fun n d => hospitable_kept W n d HW) as Hl. pose proof (hp_db_now W HW) as Hnow.
  assert (forall h n d0 d2, batchIdempotencyHash items opts = Ok h -> Forall (fun it => Validate (BPostings it) = None) items ->
    foreign W (db s) d0 -> batch_rehearsed (attempt_env W n) items opts h d0 ts d2 -> Forall shows ts) as Hreh.
  { intros h n d0 d2 Hh Hv Hf Hr. destruct (foreign_keeps kept W _ _ Hl Hf Hs) as [[[Hok _] _] Hd].
    eapply batch_rehearsed_readable; [exact Hr|by apply batch_items_text|done|done|done]. }
  apply batch_ends in H as [(e & ? & _)|(h & Hh & Hv & [[_ Hr]|(ts' & n & d0 & [= <-] & Hf & Hland)])]; [done|..].
  - destruct (Hr ts eq_refl) as [(_ & n & d0 & d2 & Hf & Hrh)|(_ & d0 & Hf & ->)]; [by eapply Hreh|].
    apply tagged_shows, (foreign_keeps kept W _ _ Hl Hf Hs).
  - apply landed_batch_rehearsed in Hland as (d2 & Hland & _). by eapply Hreh.
Qed.

Lemma revert_shows W id opts s rev s' :
  RevertTransaction W id opts s = (Ok rev, s') -> hospitable W -> kept (db s) ->
  shows (Original rev) /\ shows (TReversal rev).
Proof.
  intros H HW Hs. pose proof (fun n d => hospitable_kept W n d HW) as Hl.
  unfold RevertTransaction in H. apply revert_attempts_cases in H as [_ Hr]. destruct (Hr rev eq_refl) as (n & d0 & Hf & Hland).
  destruct (foreign_keeps kept W _ _ Hl Hf Hs) as [[[Hok _] _] Hd].
  by eapply landed_revert_readable; [..|apply (hp_db_now W HW)|].
Qed.

(** A change that answers with a read of what it left. *)
Lemma then_read_answer {A} (x : res error bool * Database) (read_ : Database -> res error A) a d' :
  then_read x read_ = (Ok a, d') -> read_ d' = Ok a.
Proof. destruct x as [[b|e] d]; [|done]. by intros [= H <-]. Qed.

Lemma metadata_answers E id a m k d d' :
  (forall t, SetTransactionMetadata E id m d = (Ok t, d') \/ DeleteTransactionMetadataKey E id k d = (Ok t, d') ->
     GetTransaction d' id = Ok t) /\
  (forall r, SetAccountMetadata E a m d = (Ok r, d') \/ DeleteAccountMetadataKey E a k d = (Ok r, d') ->
     GetAccount (now E) d' a no_volumes = Ok r).
Proof.
  split; intros x; unfold SetTransactionMetadata, DeleteTransactionMetadataKey, SetAccountMetadata, DeleteAccountMetadataKey;
    intros [H|H]; repeat case_match; try done; by apply then_read_answer in H.
Qed.

(** Every answer of the engine is one the API can write. *)
Lemma serve_shows W q s a s' :
  serve W q s = (Ok a, s') -> request_readable q -> hospitable W -> kept (db s) -> answer_shows a.
Proof.
  intros H Hq HW Hs. pose proof (serve_kept W q s Hq HW Hs) as [_ Hd]. rewrite H in Hd. simpl in Hd. destruct Hq as [Hr _].
  destruct q as [p opts|id opts|items opts|id m|id k|ac m|ac k|ac c allow|ac c allow|ac|ac|ac|name w note];
    unfold serve, on_db in H.
  - destruct (CommitTransaction W p opts s) as [[t|e] s1] eqn:Hc; [|done]. injection H as <- <-. by eapply commit_shows.
  - destruct (RevertTransaction W id opts s) as [[t|e] s1] eqn:Hc; [|done]. injection H as <- <-. by eapply revert_shows.
  - destruct (CommitBatch W items opts s) as [[t|e] s1] eqn:Hc; [|done]. injection H as <- <-. by eapply batch_shows.
  - destruct (SetTransactionMetadata _ id m _) as [[t|e] d1] eqn:Hc; [|done]. injection H as <- <-.
    eapply GetTransaction_good, (metadata_answers _ id "" m "" _ d1); [exact Hd|by left].
  - destruct (DeleteTransactionMetadataKey _ id k _) as [[t|e] d1] eqn:Hc; [|done]. injection H as <- <-.
    eapply GetTransaction_good, (metadata_answers _ id "" ∅ k _ d1); [exact Hd|by right].
  - destruct (SetAccountMetadata _ ac m _) as [[t|e] d1] eqn:Hc; [|done]. injection H as <- <-.
    eapply GetAccount_good, (metadata_answers _ 0 ac m "" _ d1); [exact Hd|by left].
  - destruct (DeleteAccountMetadataKey _ ac k _) as [[t|e] d1] eqn:Hc; [|done]. injection H as <- <-.
    eapply GetAccount_good, (metadata_answers _ 0 ac ∅ k _ d1); [exact Hd|by right].
  - destruct (SetAllowNegative _ _ _ _ _) as [[t|e] d1]; [|done]. by injection H as <- <-.
  - destruct (SetAllowPositive _ _ _ _ _) as [[t|e] d1]; [|done]. by injection H as <- <-.
  - destruct (CloseAccount _ _ _ _) as [[t|e] d1]; [|done]. by injection H as <- <-.
  - destruct (ReopenAccount _ _ _) as [[t|e] d1]; [|done]. by injection H as <- <-.
  - destruct (RegisterAsset _ _ _) as [[t|e] d1]; [|done]. by injection H as <- <-.
  - destruct (RecordRecovery _ _ _ _ _) as [[t|e] d1]; [|done]. by injection H as <- <-.
Qed.

(** ** Over HTTP *)

Definition well_told (resp : Response) : Prop := body_good (payload resp).

Lemma shown_well dry a d : answer_shows a -> readable d -> well_told (shown dry a d).
Proof.
  intros Ha Hd. destruct a as [t|rev|ts|ac|]; cbn [shown payload writeJSON body_good].
  - by apply shows_good.
  - destruct Ha. split; [by apply shows_good|]. split; [by apply shows_good|done].
  - split; [|done]. apply Forall_fmap. eapply Forall_impl; [exact Ha|]. intros t Ht. by apply shows_good.
  - exact Ha.
  - by apply Assets_good.
Qed.

Lemma refused_well resp : refused resp -> well_told resp.
Proof. by intros (c & words & ->). Qed.

(** The details of a refusal for lack of funds. *)
Lemma details_plain e : plain_keys (detailsFor e).
Proof.
  unfold detailsFor. destruct (errors_As _ _) as [[[[a c] x] y]|]; [|done]. cbn.
  repeat (apply map_Forall_insert_2; [done|]). apply map_Forall_empty.
Qed.

Lemma error_well e : well_told (writeError e).
Proof. unfold writeError. destruct (classify e). exact (details_plain e). Qed.

Lemma reply_well {A} code (inj : A -> body) x :
  (forall a, x = Ok a -> body_good (inj a)) -> well_told (reply code inj x).
Proof. intros H. destruct x as [a|e]; [by apply H|apply error_well]. Qed.

Lemma reads_well {A} (parsed : res Response A) show s resp s' :
  reads parsed show s = (resp, s') -> (forall e, parsed = Err e -> refused e) ->
  (forall a, well_told (show a (db s))) -> s' = s /\ well_told resp.
Proof.
  unfold reads, handle. destruct parsed as [a|e]; intros [= <- <-] He Hs; split; try done. by apply refused_well, He.
Qed.

Lemma expand_refuses at_ wants o e : expand at_ wants o = Err e -> refused e.
Proof.
  revert o. induction wants as [|w wants IH]; intros o; [done|]. cbn [expand].
  destruct (bool_decide _); [apply IH|]. destruct (bool_decide _); [apply IH|]. destruct (bool_decide _); [apply IH|]. intros [= <-]; by eexists _, _.
Qed.

(** Each read's early returns. *)
Ltac refuses := repeat first [apply rbind_refuses; [intros ?|intros ?] | progress intros ? | done
  | by eapply need_refuses | by eapply query_refuses | by eapply expand_refuses ].

Lemma create_well E name s resp s' :
  createLedger E name s = (resp, s') -> dated (db_now E) -> well_told resp.
Proof.
  unfold createLedger, writes, handle. destruct (CreateLedger E name (db s)) as [x d] eqn:H. intros [= <- _] Hnow.
  apply reply_well. intros l ->. unfold CreateLedger in H. destruct (autocommit _ _ _) as [r d1] eqn:Hac.
  apply autocommit_cases in Hac as [(e & -> & ->)|(l' & d2 & -> & Hs & ->)]; [done|]. injection H as <- _.
  apply stmt_Ok in Hs as [_ Hs]. unfold insert_ledger in Hs. inv_ok. destruct (ledger_row (db s)); [done|]. simplify_eq.
  split; [done|]. split; [|done]. cbn. by apply pg_text_utf8, negb_false_iff.
Qed.

Lemma read_well srv W r h args s resp s' :
  serve_ledger srv W r h args s = (resp, s') -> changes_ledger h = false -> h <> HCreateLedger ->
  kept (db s) -> next_seq (db s) <= max_int64 + 1 -> well_told resp.
Proof.
  intros H Hh Hc Hs Hseq. pose proof Hs as [_ Hd].
  destruct h; try done; unfold serve_ledger, getLedger, listAssets, listTransactions, getTransaction, getAccount, getBalances,
    listMoves, aggregateBalances, listLogs, transactions_query, effective_date, limit_of, optional_date, path_id in H;
    eapply reads_well in H; try (apply H); try (by refuses); intros a; try done; try (apply reply_well; intros x Hx).
  - by eapply GetLedger_good.
  - by apply Assets_good.
  - by eapply transactions_good.
  - by apply shows_good; eapply GetTransaction_good.
  - by eapply GetAccount_good.
  - unfold text_arg in Hx. inv_ok. destruct (IsZero a); [by apply GetBalances_good|by apply GetBalancesAt_good].
  - by eapply moves_good.
  - by eapply AggregateBalances_good.
  - by eapply logs_good.
Qed.

Lemma asked_readable srv r h args q dry : asked srv r h args = Ok (q, dry) -> request_readable q.
Proof.
  intros Ha. split; [by eapply asked_ok|]. destruct q as [| | |id m| |a m| | | | | | |]; try done;
    destruct h; try done; unfold asked in Ha; inv_ok;
    match goal with H : Api.read_body _ = _ |- _ => unfold Api.read_body, need in H; destruct (decodeJSON _) eqn:Hd; [|done] end;
    simplify_eq; by apply decode_metadata_text in Hd.
Qed.

Lemma serve_ledger_kept srv W r h args s resp s' :
  serve_ledger srv W r h args s = (resp, s') -> hospitable W -> kept (db s) -> kept (db s').
Proof.
  intros H HW Hs. split; [eapply serve_ledger_ok; [exact H|apply HW|apply Hs]|]. apply serve_asked in H.
  destruct (asked srv r h args) as [[q dry]|e] eqn:Ha.
  - destruct H as (o & Ho & _). pose proof (serve_kept W q s (asked_readable _ _ _ _ _ _ Ha) HW Hs) as [_ Hk]. by rewrite Ho in Hk.
  - destruct (changes_ledger h); [destruct H as [-> _]; apply Hs|]. destruct H as [-> |[_ [x Hc]]]; [apply Hs|].
    pose proof (create_readable (attempt_env W 0) (PathValue args "ledger") (db s) (hp_db_now W HW 0) (proj2 Hs)) as Hk.
    by rewrite Hc in Hk.
Qed.

Lemma serve_ledger_well srv W r h args s resp s' :
  serve_ledger srv W r h args s = (resp, s') -> hospitable W -> kept (db s) -> next_seq (db s') <= max_int64 + 1 ->
  well_told resp.
Proof.
  intros H HW Hs Hseq. pose proof (serve_ledger_kept _ _ _ _ _ _ _ _ H HW Hs) as [_ Hd]. pose proof H as Hasked. apply serve_asked in Hasked.
  destruct (asked srv r h args) as [[q dry]|e] eqn:Ha.
  - destruct Hasked as (o & Ho & Hresp). destruct o as [a|e]; subst resp; [|apply error_well]. apply shown_well; [|done].
    eapply serve_shows; [exact Ho|by eapply asked_readable|done|done].
  - destruct (changes_ledger h) eqn:Hh.
    + destruct Hasked as [_ ->]. apply refused_well. by eapply asked_refuses.
    + assert (h = HCreateLedger \/ h <> HCreateLedger) as [-> |Hc] by (clear; destruct h; first [by left|by right]).
      * eapply create_well; [exact H|apply (hp_db_now W HW)].
      * eapply read_well; [exact H|done|done|done|]. destruct Hasked as [-> |[? _]]; done.
Qed.

Lemma traffic_kept srv (calls : list (Weather * HttpRequest)) (stores : string -> Store) :
  Forall (fun call => hospitable call.1) calls -> (forall l, kept (db (stores l))) ->
  forall l, kept (db (serve_http_all srv calls stores l)).
Proof.
  revert stores. induction calls as [|[W r] calls IH]; intros stores Hc Hs; [exact Hs|]. apply Forall_cons in Hc as [HW Hc].
  simpl. apply IH; [done|]. intros l. destruct (ServeHTTP_cases srv W r stores l) as [-> |(h & args & _ & _ & resp & H & _)]; [done|].
  by eapply serve_ledger_kept.
Qed.

(** C9: every answer can be read. After any traffic, from ledgers that were never
    created on, under any failures and beside neighbours whose rows can be
    written too: the bytes of a response are JSON from which a client with the
    types of gen.go reads exactly the value that was answered -- amounts of any
    size digit for digit, text of any language, the log's data byte for byte;
    of an error, its code, and its words and details with U+FFFD for what is no
    text. The sequence of the moves has not run out, and the
    response is not to a HEAD, which has no bytes. *)
Theorem answers_are_read (words : message -> string) (page : string -> string) (srv : Server)
    (calls : list (Weather * HttpRequest)) (stores after : string -> Store) (W : Weather) (r : HttpRequest) (resp : Response) :
  Forall (fun call => hospitable call.1) calls -> hospitable W -> (forall l, db (stores l) = empty_database) ->
  ServeHTTP srv W r (serve_http_all srv calls stores) = (resp, after) ->
  (forall h args, route r = Some (h, args) -> next_seq (db (after (PathValue args "ledger"))) <= max_int64 + 1) ->
  Method r <> "HEAD" ->
  understood words page (payload resp) (body_text words page (payload resp)).
Proof.
  intros Hc HW Hs H Hseq _. apply response_roundtrip.
  assert (forall l, kept (db (serve_http_all srv calls stores l))) as Hk.
  { apply traffic_kept; [done|]. intros l. rewrite Hs. apply empty_kept. }
  unfold ServeHTTP in H. destruct (route r) as [[h args]|] eqn:Hr.
  - destruct (serve_ledger _ _ _ _ _ _) as [resp' s'] eqn:Hserve. injection H as -> <-.
    eapply serve_ledger_well; [exact Hserve|done|apply Hk|]. specialize (Hseq h args eq_refl).
    unfold update in Hseq. by rewrite decide_True in Hseq.
  - destruct (method_matches _ _); injection H as <- _; [|done]. unfold handleHome. by destruct (bool_decide _).
Qed.

(** ** At a concrete service *)

Lemma calm_hospitable : hospitable calm.
Proof.
  split; [intros n d H; exact H|intros n d [_ H]; exact H|intros n; by eexists; vm_compute|intros n; by eexists; vm_compute].
Qed.

Definition a_listing : HttpRequest := get_transactions "main" "limit=1".

Definition listed : Response * (string -> Store) := 
  ServeHTTP keyed_server calm a_listing (serve_http_all keyed_server welcomed_day no_ledgers).

Definition one_item (b : body) : bool :=
  match b with BTransactionPage p => (length (WItems p) =? 1)%nat | _ => false end.

Lemma answers_are_read_witness :
  exists p : WirePage WireTransaction, payload listed.1 = BTransactionPage p /\ length (WItems p) = 1%nat /\
    read_as (page_format transaction_format) (body_text (fun _ => "") (fun _ => "") (payload listed.1)) = Some p.
Proof.
  assert (Forall (fun call : Weather * HttpRequest => hospitable call.1) welcomed_day) as Hday.
  { apply Forall_fmap, Forall_true. intros r. exact calm_hospitable. }
  pose proof (answers_are_read (fun _ => "") (fun _ => "") keyed_server welcomed_day no_ledgers listed.2 calm a_listing listed.1
    Hday calm_hospitable (fun _ => eq_refl) (surjective_pairing _)
    ltac:(intros h args [= <- <-]; vm_compute; discriminate) ltac:(done)) as H.
  assert (one_item (payload listed.1) = true) as H1 by (vm_compute; reflexivity).
  destruct (payload listed.1) as [| | | | |p| | | | | | |]; try discriminate H1.
  exists p. exact (conj eq_refl (conj (proj1 (Nat.eqb_eq _ _) H1) H)).
Defined.
