(* ===== verification/Live.v ===== *)
(** * What the ledger admits, the service commits

    The converse of [Refinement]: on a working service that nobody else is
    using, a request the abstract ledger has an action for is not refused. *)

From S2P Require Import Prelude Identifiers Text Posting Volumes Sha256 GoTime Transaction Codec Encoding Errors Schema Txn Locking Guards Moves History Log Observer Commit Committed Book Chain Sample CommitSpec Replay Effective Read Verify Invariant Revert Bulk MetadataOps Policy Closure Registry Recovery Ledger Refinement VerifyRuns Service.

(** ** No statement fails that has no reason to *)

Lemma insert_zero_rows_total ks d :
  (forall k, k ∈ ks -> registered d k.2 = true) -> exists d', insert_zero_rows ks d = Ok d'.
Proof.
  revert d. induction ks as [|k ks IH]; intros d Hr; [by eexists|]. simpl.
  destruct (volumes d !! k); simpl; [by apply IH; set_solver|].
  unfold insert_volume. rewrite zero_row_permitted. simpl. rewrite (Hr k) by set_solver. simpl.
  apply IH. intros k' Hk'. unfold registered. simpl. by apply (Hr k'); right.
Qed.

Lemma lockVolumes_total us d :
  (forall k, k ∈ update_key <$> us -> registered d k.2 = true) ->
  exists before d', lockVolumes us no_faults d = Ok (before, d').
Proof.
  intros Hr. destruct (insert_zero_rows_total _ d Hr) as [d1 H1]. unfold lockVolumes, bind, exec, query, stmt.
  simpl. rewrite H1. simpl. by do 2 eexists.
Qed.

Lemma resolve_total p us before :
  (forall x, x ∈ p -> unbounded before x = false) -> Forall resolvable p ->
  (forall q, resolveUpTo p before = Ok q -> Forall resolvable q) ->
  exists q us', resolve p us before = Ok (q, us').
Proof.
  intros Hu Hp Hq. unfold resolve. destruct (HasUpTo p); [|by do 2 eexists].
  destruct (resolveUpTo p before) as [q|e] eqn:Hr; simpl.
  - destruct (volume_updates_total q (Hq q eq_refl)) as [us' ->]. simpl. by do 2 eexists.
  - exfalso. apply resolve_from_Err in Hr as (l1 & x & l2 & -> & Hx & _). rewrite Hu in Hx; [done|set_solver].
Qed.

Lemma resolved_resolvable p before q :
  resolveUpTo p before = Ok q -> Forall resolvable p -> Forall resolvable q.
Proof.
  intros (Hl & _ & Hi & _ & _)%resolveUpTo_Ok Hp. apply Forall_lookup. intros i y Hy.
  destruct (lookup_lt_is_Some_2 p i ltac:(rewrite <-Hl; by eapply lookup_lt_Some)) as [x Hx].
  rewrite (Hi i x Hx) in Hy. injection Hy as <-. pose proof (Forall_lookup_1 _ _ _ _ Hp Hx) as Hrx.
  unfold settled. destruct (UpTo x) eqn:Hu; [left; by eexists|exact Hrx].
Qed.

Lemma allocate_total d l :
  ledger_row d = Some l -> last_tx_id l + 1 <= max_int64 -> last_log_id l + 1 <= max_int64 ->
  exists a d', allocate no_faults d = Ok (a, d').
Proof.
  intros Hl Ht Hlog. unfold allocate, stmt, allocate_row, update_ledger. simpl. rewrite Hl. simpl.
  destruct (Z.ltb_spec max_int64 (last_tx_id l + 1)); [lia|].
  destruct (Z.ltb_spec max_int64 (last_log_id l + 1)); [lia|]. simpl. unfold counters_monotonic. simpl.
  destruct (Z.ltb_spec (last_tx_id l + 1) (last_tx_id l)); [lia|].
  destruct (Z.ltb_spec (last_log_id l + 1) (last_log_id l)); [lia|]. simpl. by do 2 eexists.
Qed.

Definition no_nul (m : Metadata) : Prop := is_ok (stored_metadata m) = true.

Lemma insertTransaction_total db_now t d :
  transactions d !! TxID t = None -> no_nul (TMetadata t) ->
  (Reference t = EmptyString \/ (pg_text (Reference t) = true /\ reference_taken d (Reference t) = false)) ->
  exists t' d', insertTransaction db_now t no_faults d = Ok (t', d').
Proof.
  intros Hn Hm Href. unfold no_nul in Hm. destruct (stored_metadata (TMetadata t)) as [m|] eqn:Hs; [|done].
  unfold insertTransaction, bind, map_err, exec, stmt. cbn [no_faults]. rewrite Hs. cbn [rbind].
  unfold insert_transaction_row. cbn [reference row_of].
  case_bool_decide as Hr; cbn [rbind when].
  - rewrite (bool_decide_false (is_Some _)) by (rewrite Hn; by intros []). cbn. by do 2 eexists.
  - destruct Href as [?|[-> ->]]; [done|]. cbn [negb when rbind].
    rewrite (bool_decide_false (is_Some _)) by (rewrite Hn; by intros []). cbn. by do 2 eexists.
Qed.

(** A batch of statements that only need the rows it does not touch. *)
Lemma run_batch_total (P : Database -> Prop) i ws d :
  P d -> Forall (fun w : write => forall d, P d -> exists d', w d = Ok d' /\ P d') ws ->
  exists d', run_batch i ws no_faults d = Ok (tt, d').
Proof.
  revert i d. induction ws as [|w ws IH]; intros i d Hd Hall; [by eexists|]. apply Forall_cons in Hall as [Hw Hall].
  destruct (Hw d Hd) as (d1 & H1 & Hd1). cbn [run_batch]. unfold bind, exec, stmt. cbn [no_faults]. rewrite H1. cbn [rbind].
  by apply IH.
Qed.

Lemma writes_total t before effb us ts now d :
  is_Some (transactions d !! TxID t) -> (forall k, touched (TPostings t) k -> registered d k.2 = true) ->
  exists d', run_batch 0 (queueAccounts us ts now ++ queueMoves t before effb us) no_faults d = Ok (tt, d').
Proof.
  intros Ht Hr. apply (run_batch_total (fun d1 => transactions d1 = transactions d /\ assets d1 = assets d)); [done|].
  rewrite (queueMoves_rows _ _ _ _ 0). apply Forall_app. split; [|apply Forall_app; split].
  - apply Forall_fmap, Forall_forall. intros a _ d1 Hd1. by eexists.
  - apply Forall_fmap, Forall_lookup. intros i m Hm d1 [Ht1 Ha1]. unfold insert_row.
    unfold new_moves in Hm. rewrite list_lookup_imap in Hm.
    destruct (halves (TPostings t) !! i) as [h|] eqn:Hh; simpl in Hm; [|done]. injection Hm as <-. simpl.
    unfold insert_move. rewrite Ht1. rewrite bool_decide_true by done. simpl.
    unfold registered. rewrite Ha1. fold (registered d (hkey h).2).
    rewrite Hr by (apply halves_touched; exists h; split; [by eapply list_elem_of_lookup_2|done]). simpl. by eexists.
  - apply Forall_fmap, Forall_forall. intros u _ d1 Hd1. by eexists.
Qed.

(** ** A whole transaction *)

(** The postings the locks resolve are the ones the ledger settles. *)
Lemma resolved_settle p us0 d d1 before q us :
  VolumeUpdates p = Ok us0 -> resolve p us0 before = Ok (q, us) ->
  (forall k, k ∈ update_key <$> us0 -> before !! k = Some (locked_at_commit d k)) ->
  materialised (update_key <$> us0) d d1 -> q = settle (balance (abs d)) p.
Proof.
  intros Hv Hr Hb _. destruct (resolve_Ok _ _ _ _ _ Hv Hr) as (_ & Ht & Hlen & Hexact & Hup & Hk).
  destruct (HasUpTo p) eqn:Hu; [|rewrite settle_plain by done; by apply Hexact].
  destruct (resolveUpTo_Ok _ _ _ (Hup eq_refl)) as (_ & _ & Hi & _ & _).
  apply settle_unique; [done|]. intros i x Hx. rewrite (Hi i x Hx). do 3 f_equal.
  apply (held_locked us before d); [by rewrite Hk|]. rewrite Hk.
  apply (updates_touched _ _ (volume_updates_Ok _ _ Hv)). exists x. split; [by eapply list_elem_of_lookup_2|by left].
Qed.

Lemma validated_resolvable p : Validate p = None -> Forall resolvable p.
Proof.
  intros Hv%validate_from_None. eapply Forall_impl; [exact Hv|]. intros x (_ & _ & _ & Ha). unfold resolvable.
  destruct (Amount x); [left; by eexists|by right].
Qed.

Lemma settled_nonneg p d : Validate p = None -> nonneg (settle (balance (abs d)) p).
Proof.
  intros Hv%validate_from_None. generalize (balance (abs d)). induction Hv as [|x p (_ & _ & _ & Ha) _ IH]; intros bal.
  - constructor.
  - simpl. constructor; [|apply IH]. unfold settled, amount_of. destruct (UpTo x); simpl.
    + apply capped_bounds. intros c Hc. rewrite Hc in Ha. lia.
    + destruct (Amount x); simpl; lia.
Qed.

(** What the guards ask of one update is what the ledger asks of its pair. *)
Lemma admits_guards d q us u :
  updates_of q us -> u ∈ us -> admits (abs d) (carry q (counters (abs d))) (update_key u) = true ->
  is_closed d (update_key u).1 = false /\ check_balance (locked_at_commit d (update_key u)) u = Ok tt.
Proof.
  intros Hus Hu Ha. unfold admits in Ha. cbn [shut abs may_owe may_hold counters] in Ha. rewrite carry_deltas in Ha.
  apply andb_true_iff in Ha as [[Hs Hn]%andb_true_iff Hp]. apply negb_true_iff in Hs. split; [exact Hs|].
  apply check_balance_Ok. simpl. rewrite volume_at_row.
  rewrite (updates_input _ _ Hus u Hu), (updates_output _ _ Hus u Hu).
  apply orb_true_iff in Hn. apply orb_true_iff in Hp. unfold Balance, vadd in *. cbn [Input Output] in *.
  split; [destruct Hn as [Hn|Hn]; [by left|right; lia]|destruct Hp as [Hp|Hp]; [by left|right; lia]].
Qed.

Lemma apply_admitted d d1 q us :
  updates_of q us -> nonneg q -> materialised (update_key <$> us) d d1 ->
  (forall u, u ∈ us -> check_balance (locked_at_commit d (update_key u)) u = Ok tt) ->
  exists d2, applyVolumes us no_faults d1 = Ok (tt, d2).
Proof.
  intros Hus Hq [_ Hv] Hc. apply apply_updates_total; [by eapply updates_NoDup|]. intros u Hu.
  exists (row_at d (update_key u)). pose proof (delta_nonneg q (update_key u) Hq) as [Hin Hout].
  rewrite <-(updates_input _ _ Hus u Hu) in Hin. rewrite <-(updates_output _ _ Hus u Hu) in Hout. split_and!.
  - rewrite Hv. unfold row_at. destruct (volumes d !! update_key u); [done|].
    by rewrite decide_True by (by apply list_elem_of_fmap_2).
  - by apply volumes_monotonic_delta.
  - apply (no_overdraw_when_checked (locked_at_commit d (update_key u))); [done|by apply Hc].
Qed.

Lemma applyTransaction_total now_ db_now_ p opts d l M :
  ledger_row d = Some l -> last_tx_id l + 1 <= max_int64 -> last_log_id l + 1 <= max_int64 ->
  Validate p = None -> (forall a, a ∈ PAsset <$> p -> registered d a = true) ->
  (forall x, x ∈ p -> UpTo x = true -> may_owe (abs d) (source_key x) = false) ->
  post (last_tx_id l + 1) (settle (balance (abs d)) p) (abs d) = Some M ->
  no_nul (AOMetadata opts) ->
  (AOReference opts = EmptyString \/ (pg_text (AOReference opts) = true /\ reference_taken d (AOReference opts) = false)) ->
  exists x d', applyTransaction now_ db_now_ p opts no_faults d = Ok (x, d').
Proof.
  intros Hl Hid1 Hid2 Hv Hreg Hup Hpost Hm Href. apply post_Some in Hpost as (Hnone & Hadm & _).
  destruct (volume_updates_total p (validated_resolvable p Hv)) as [us0 Hus0].
  pose proof (volume_updates_Ok _ _ Hus0) as Hu0.
  assert (forall k, touched p k -> registered d k.2 = true) as Hregk.
  { intros k (x & Hx & Hk). apply Hreg. assert (k.2 = PAsset x) as -> by (by destruct Hk as [<- | <-]).
    by apply list_elem_of_fmap_2. }
  destruct (lockVolumes_total us0 d) as (before & d1 & Hlock).
  { intros k Hk. by apply Hregk, (updates_touched _ _ Hu0). }
  destruct (lockVolumes_spec _ _ _ _ _ Hlock) as (Hmat & Hb0 & _ & _).
  assert (forall k, k ∈ update_key <$> us0 -> before !! k = Some (locked_at_commit d k)) as Hb
    by (intros k Hk; by eapply locked_lookup).
  destruct (resolve_total p us0 before) as (q & us & Hres).
  { intros x Hx. unfold unbounded. destruct (UpTo x) eqn:Hux; [|done]. rewrite Hb; [exact (Hup x Hx Hux)|].
    apply (updates_touched _ _ Hu0). exists x. split; [done|by left]. }
  { by apply validated_resolvable. }
  { intros q Hq. eapply resolved_resolvable; [done|]. by apply validated_resolvable. }
  destruct (resolve_Ok _ _ _ _ _ Hus0 Hres) as (Hus & Ht & _ & _ & _ & Hkeys).
  pose proof (resolved_settle _ _ _ _ _ _ _ Hus0 Hres Hb Hmat) as Hq. rewrite <-Hkeys in Hb, Hmat.
  assert (forall u, u ∈ us -> is_closed d (update_key u).1 = false /\
            check_balance (locked_at_commit d (update_key u)) u = Ok tt) as Hguards.
  { intros u Hu. apply (admits_guards d q us u Hus Hu). rewrite Hq. apply Hadm. rewrite <-Hq.
    apply (updates_touched _ _ Hus). by apply list_elem_of_fmap_2. }
  assert (checkClosed before us = Ok tt) as Hclosed.
  { apply checkClosed_Ok. intros u Hu. unfold locked_at. rewrite Hb by (by apply list_elem_of_fmap_2).
    apply (Hguards u Hu). }
  assert (checkBalances before us = Ok tt) as Hbal.
  { apply checkBalances_Ok. intros u Hu. unfold locked_at. rewrite Hb by (by apply list_elem_of_fmap_2).
    apply (Hguards u Hu). }
  assert (nonneg q) as Hnn by (rewrite Hq; by apply settled_nonneg).
  destruct (apply_admitted d d1 q us Hus Hnn Hmat) as [d2 Happ]; [intros u Hu; by apply Hguards|].
  destruct (apply_updates_spec _ _ _ _ _ _ (updates_NoDup _ _ Hus) Happ) as (Hov2 & _ & _ & _).
  destruct Hmat as [Hov1 _]. assert (only_volumes d d2) as Hov by (etrans; eassumption).
  destruct (allocate_total d2 l) as (alloc & d3 & Hal); [by rewrite Hov|done|done|].
  pose proof Hal as Hal'. unfold allocate in Hal'. apply stmt_Ok in Hal' as [_ Hal'].
  apply allocate_row_Ok in Hal' as (l' & Hl' & Hd3 & Ha & _).
  assert (l' = l) as -> by (rewrite Hov in Hl'; simpl in Hl'; congruence).
  set (t := {| TxID := transactionID alloc; TPostings := q; Timestamp := effective_timestamp now_ (AOTimestamp opts);
               InsertedAt := 0; RevertedAt := None; Reference := AOReference opts; TMetadata := AOMetadata opts;
               TPostCommitVolumes := postCommitVolumes before us |}).
  assert (transactions d3 = transactions d /\ assets d3 = assets d) as [Htx3 Has3] by (by rewrite Hd3, Hov).
  assert (TxID t = last_tx_id l + 1) as Hidt by (unfold t; by rewrite Ha).
  destruct (insertTransaction_total db_now_ t d3) as (t' & d4 & Hins).
  { rewrite Htx3, Hidt. cbn in Hnone. by destruct (transactions d !! (last_tx_id l + 1)). }
  { done. }
  { unfold reference_taken. by rewrite Htx3. }
  destruct (insertTransaction_Ok _ _ _ _ _ _ Hins) as (m & _ & _ & _ & Hd4 & Ht').
  destruct (writes_total t' before
    (list_to_map ((fun u => (update_key u, volumes_at (moves d2) (Timestamp t) (update_key u))) <$> us)) us (Timestamp t) db_now_ d4)
    as [d5 Hw].
  { rewrite Hd4, Ht'. simpl. rewrite lookup_insert_eq. by eexists. }
  { intros k Hk. rewrite Ht' in Hk. simpl in Hk. apply Ht, Hregk in Hk. unfold registered in *.
    rewrite Hd4. simpl. by rewrite Has3. }
  exists (t', alloc), d5. unfold applyTransaction. unfold bind at 1, lift at 1. rewrite Hus0. cbn [ledger_res rbind].
  unfold bind at 1. rewrite Hlock. cbn [rbind]. unfold bind at 1, lift at 1. rewrite Hres. cbn [rbind].
  unfold bind at 1, lift at 1. rewrite Hclosed. cbn [rbind]. unfold bind at 1, lift at 1. rewrite Hbal. cbn [rbind].
  unfold bind at 1. rewrite Happ. cbn [rbind]. unfold bind at 1, effectiveVolumesAt, query, stmt. cbn [no_faults rbind].
  unfold bind at 1. rewrite Hal. cbn [rbind]. unfold bind at 1. fold t. rewrite Hins. cbn [rbind].
  unfold bind at 1. change (effective_timestamp now_ (AOTimestamp opts)) with (Timestamp t). rewrite Hw. done.
Qed.

(** ** The log entry and the COMMIT *)

Section codec.
Context {codec : Codec}.

Definition key_fresh (d : Database) (k : string) : Prop :=
  k = EmptyString \/ (pg_varchar 256 k = Ok tt /\ find_key d k = None).

Lemma find_key_free d k : find_key d k = None -> key_taken d k = false.
Proof.
  unfold find_key, key_taken. intros Hf. apply not_true_is_false. intros (x & Hin & Hx)%existsb_exists.
  apply list_elem_of_In in Hin. rewrite <-(map_rows_perm Z.le) in Hin. revert Hf Hin.
  induction (map_rows Z.le (logs d)) as [|y l IH]; simpl; [by intros _ ?%not_elem_of_nil|].
  destruct (bool_decide (idempotency_key y.2 = Some k)) eqn:Hy; [done|].
  intros Hf [-> |Hin]%elem_of_cons; [congruence|by apply IH].
Qed.

Lemma appendLog_total t alloc k h d :
  is_Some (marshal (PTransaction t)) -> logs d !! logID alloc = None -> key_fresh d k ->
  exists d', appendLog t alloc k h no_faults d = Ok (tt, d').
Proof.
  intros [bytes Hb] Hn Hk. unfold appendLog, appendLogEntry. rewrite Hb. unfold insertLog, exec, stmt.
  cbn [no_faults]. unfold insert_log_row. cbn [idempotency_key].
  rewrite (bool_decide_false (is_Some _)) by (rewrite Hn; by intros []).
  assert (forall r, exists d', (let! d1 := Ok (set_logs (<[logID alloc := r]> (logs d)) d) in
            match ledger_row d1 with None => Ok d1 | Some l => update_ledger (set_hash (hash r) l) d1 end) = Ok d') as Hup.
  { intros r. cbn [rbind]. destruct (ledger_row (set_logs _ d)) as [l|] eqn:Hl; [|by eexists].
    unfold update_ledger. rewrite Hl. unfold counters_monotonic, set_hash. cbn [last_tx_id last_log_id].
    rewrite !Z.ltb_irrefl. cbn. by eexists. }
  case_bool_decide as Hke; cbn [rbind when].
  - match goal with |- context [set_logs (<[_ := ?r]> _) _] => destruct (Hup r) as [d' Hd'] end.
    cbn [rbind] in Hd'. rewrite Hd'. by eexists.
  - destruct Hk as [?|[-> Hfree%find_key_free]]; [done|]. cbn [rbind]. rewrite Hfree. cbn [rbind when].
    match goal with |- context [set_logs (<[_ := ?r]> _) _] => destruct (Hup r) as [d' Hd'] end.
    cbn [rbind] in Hd'. rewrite Hd'. by eexists.
Qed.

(** A service that works, and nobody else at it. *)
Record alone (W : Weather) (d : Database) : Prop := {
  al_faults : fault (attempt_env W 0) = no_faults;
  al_checks : check_faults W = no_faults;
  al_seam : beforeCommit (attempt_env W 0) = None;
  al_landed : landed (attempt_env W 0) d = d;
}.

(** What storage asks of a request besides what the ledger does. *)
Record storable_request (E : Env) (p : Postings) (opts : CommitOptions) (d : Database) : Prop := {
  sr_assets : forall a, a ∈ PAsset <$> p -> registered d a = true;
  sr_metadata : no_nul (default ∅ (OMetadata opts));
  sr_reference : OReference opts = EmptyString \/
    (pg_text (OReference opts) = true /\ reference_taken d (OReference opts) = false);
  sr_key : key_fresh d (OIdempotencyKey opts);
  sr_timestamp : writable (OTimestamp opts);
  sr_effective : writable {| unix_nano := effective_timestamp (now E) (OTimestamp opts); zone := 0 |};
  sr_inserted : writable {| unix_nano := db_now E; zone := 0 |};
}.

Lemma commit_body_total E p opts h d l M :
  service_ok d -> fault E = no_faults -> beforeCommit E = None -> storable_request E p opts d ->
  ledger_row d = Some l -> last_tx_id l + 1 <= max_int64 -> last_log_id l + 1 <= max_int64 ->
  step (Post (last_tx_id l + 1) p) (abs d) M ->
  exists o d', commit_body E d p opts h (fault E) d = Ok (o, d').
Proof.
  intros [[Hok _] _] Hf Hbc [Ha Hm Hr Hk _ Hts Hins] Hl H1 H2 Hs. inversion Hs as [id req L N Hv Hup Hp| | | | |]; subst.
  rewrite Hf. unfold commit_body.
  destruct (applyTransaction_total (now E) (db_now E) p (apply_options opts) d l M Hl H1 H2 Hv Ha Hup Hp Hm Hr)
    as ([t alloc] & d1 & Happ).
  unfold bind at 1. rewrite Happ. cbn [rbind]. apply applyTransaction_spec in Happ as [us Happ].
  destruct (applied_fields _ _ _ _ _ _ _ _ _ Happ) as (Ht1 & Ht2 & Ht3 & _).
  destruct (applied_ledger _ _ _ _ _ _ _ _ _ Happ) as (l' & Hl' & _ & Halloc & _).
  assert (l' = l) as -> by congruence. destruct (applied_rest _ _ _ _ _ _ _ _ _ Happ) as [Hlogs _].
  destruct (appendLog_total t alloc (OIdempotencyKey opts) h d1) as [d2 Hlog].
  { apply marshal_transaction_total; [by rewrite Ht1|by rewrite Ht2|done]. }
  { rewrite Hlogs, Halloc. simpl. apply eq_None_not_Some. pose proof (lo_log _ Hok) as Hc. unfold log_ok in Hc.
    rewrite Hl in Hc. intros Hi%(chain_ids _ _ Hc). lia. }
  { unfold key_fresh, find_key. rewrite Hlogs. exact Hk. }
  unfold bind at 1, appendLog_or_race. rewrite Hlog. cbn [rbind]. rewrite Hbc.
  destruct (ODryRun opts); [by do 2 eexists|].
  assert (giro_conservation d2 = Ok tt) as Hcons.
  { pose proof (applied_commits _ _ _ _ _ _ _ _ _ Happ (lo_sound _ Hok)) as Hc.
    apply appendLogEntry_Ok in Hlog as (bytes & _ & _ & _ & ->). exact Hc. }
  unfold commit, stmt. cbn [no_faults]. rewrite Hcons. cbn [rbind]. by do 2 eexists.
Qed.

(** The assets are known, cached or not. *)
Lemma checkAssets_total p s :
  ledger_row (db s) <> None -> (forall a, a ∈ PAsset <$> p -> registered (db s) a = true) ->
  exists s1, checkAssets no_faults p s = (Ok tt, s1) /\ db s1 = db s.
Proof.
  intros Hl Ha. unfold checkAssets. destruct (_ && _); [by eexists|]. cbn [no_faults].
  destruct (ledger_row (db s)) as [l|]; [|done].
  destruct (find _ (unknown_assets (seen_assets s) p)) as [a|] eqn:Hf; [|by eexists].
  exfalso. apply find_some in Hf as [Hin Hn]. apply list_elem_of_In in Hin.
  unfold unknown_assets in Hin. apply list_elem_of_filter in Hin as [_ Hin]. apply first_seen_subset in Hin.
  by rewrite (Ha a Hin) in Hn.
Qed.

(** C8: what the ledger admits, the service commits. On a working service
    that nobody else is using, a request whose posting is an action of the
    abstract ledger -- every bound respected once its sweeps are settled, no
    closed account touched -- and that storage can hold, is committed at the
    first attempt under the next id, records exactly the settled postings, and
    leaves the ledger the action leads to; a dry run answers the same and
    leaves nothing. *)
Theorem admitted_is_committed (W : Weather) (p : Postings) (opts : CommitOptions) (s : Store) (l : LedgerRow) (M : Ledger) :
  service_ok (db s) -> p <> [] -> alone W (db s) -> storable_request (attempt_env W 0) p opts (db s) ->
  ledger_row (db s) = Some l -> last_tx_id l < max_int64 -> last_log_id l < max_int64 ->
  step (Post (last_tx_id l + 1) p) (abs (db s)) M ->
  exists t s', CommitTransaction W p opts s = (Ok t, s') /\ retries s' = retries s /\
    TxID t = last_tx_id l + 1 /\ TPostings t = settle (balance (abs (db s))) p /\
    if ODryRun opts then db s' = db s else abs (db s') ≡ M.
Proof.
  intros Hok Hne [Hf Hcf Hbc Hland] Hsr Hl H1 H2 Hs.
  destruct (idempotencyHash p opts) as [h|e] eqn:Hh.
  2:{ exfalso. unfold idempotencyHash in Hh. destruct (marshal_input_total (input_of p opts) (sr_timestamp _ _ _ _ Hsr)) as [b Hb].
      by rewrite Hb in Hh. }
  destruct (commit_body_total (attempt_env W 0) p opts h (db s) l M) as (o & d' & Hbody); [done..|lia|lia|done|].
  pose proof (commit_body_cases _ _ _ _ _ _ _ _ Hbody) as Hcases.
  inversion Hs as [id req L N Hv Hup Hp| | | | |]; subst.
  destruct (checkAssets_total p s) as (s1 & Hca & Hdb); [congruence|apply Hsr|].
  assert (fast_path (fault (attempt_env W 0)) opts h (db s) = Ok None) as Hfp.
  { unfold fast_path. case_bool_decide as Hk; [done|]. destruct (sr_key _ _ _ _ Hsr) as [?|[Hpg Hfree]]; [done|].
    unfold findByIdempotencyKey, stmt. rewrite Hf. cbn [no_faults]. unfold check_replay. unfold pg_varchar in Hpg.
    inv_ok. rewrite Hfree. by destruct (pg_text _). }
  assert (check_replay (db s) (OIdempotencyKey opts) h = Ok None \/ OIdempotencyKey opts = EmptyString) as Hnoreplay.
  { destruct (sr_key _ _ _ _ Hsr) as [?|[Hpg Hfree]]; [by right|left]. unfold check_replay, pg_varchar in *.
    inv_ok. rewrite Hfree. by destruct (pg_text _). }
  assert (forall t us alloc d1, applied (now (attempt_env W 0)) (db_now (attempt_env W 0)) p (apply_options opts) us t alloc (db s) d1 ->
            TxID t = last_tx_id l + 1 /\ TPostings t = settle (balance (abs (db s))) p /\ abs d1 ≡ M) as Hwhat.
  { intros t us alloc d1 Ha. destruct (applied_post _ _ _ _ _ _ _ _ _ Ha) as (_ & Hq & M' & Hp' & HM').
    destruct (applied_ledger _ _ _ _ _ _ _ _ _ Ha) as (l' & Hl' & _ & _ & Hid & _).
    assert (l' = l) as -> by congruence. rewrite Hq, Hid, Hp in Hp'. injection Hp' as ->. done. }
  set (t := outcome_value o).
  assert (commitOnce (attempt_env W 0) p opts h (db s) = (Ok t, if ODryRun opts then db s else d')) as Honce.
  { unfold commitOnce. rewrite Hf in *. cbn [no_faults]. rewrite Hfp, Hland. unfold transact. rewrite Hbody.
    unfold t. destruct o as [t'|t']; simpl.
    - by rewrite (lc_real _ _ _ _ _ _ _ Hcases).
    - destruct Hcases as [[? Hr]|[-> _]]; [destruct Hnoreplay; congruence|done]. }
  exists t. eexists. unfold CommitTransaction. rewrite (bool_decide_false (p = [])), Hv, Hcf, Hca, Hh by done.
  unfold maxAttempts. cbn [commit_attempts]. rewrite Hdb, Honce. split; [reflexivity|].
  pose proof (checkAssets_db _ _ _ _ _ Hca) as [_ Hret]. unfold t. simpl. split; [done|].
  destruct o as [t'|t']; simpl.
  - pose proof (lc_real _ _ _ _ _ _ _ Hcases) as Hreal. rewrite Hreal.
    destruct Hcases as [(us & alloc & d1 & Ha & bytes & _ & _ & _ & ->) _].
    destruct (Hwhat _ _ _ _ Ha) as (Hid & Hq & HM). split_and!; [done|done|]. by rewrite <-(abs_ext d1).
  - destruct Hcases as [[? Hr]|[-> (us & alloc & d1 & Ha & _)]]; [destruct Hnoreplay; congruence|].
    destruct (Hwhat _ _ _ _ Ha) as (Hid & Hq & _). done.
Qed.

End codec.

(** ** At a concrete ledger *)

Lemma alone_calm : alone calm (db new_store).
Proof. by split. Qed.

Lemma deposit_storable : storable_request (attempt_env calm 0) deposit no_options (db new_store).
Proof.
  split; [|vm_compute; reflexivity|by left|by left|vm_compute; by eexists..].
  intros a. simpl. intros [-> | Ha%elem_of_nil]%elem_of_cons; [reflexivity|done].
Qed.

Definition deposited : Ledger :=
  default (abs new_ledger) (post 1 (settle (balance (abs new_ledger)) deposit) (abs new_ledger)).

Lemma deposit_is_an_action : step (Post (0 + 1) deposit) (abs (db new_store)) deposited.
Proof.
  apply step_post; [reflexivity| |].
  - intros x. simpl. intros [-> | Hx%elem_of_nil]%elem_of_cons; [discriminate|done].
  - unfold deposited. change (db new_store) with new_ledger.
    destruct (post (0 + 1) _ _) as [M|] eqn:Hp; [|vm_compute in Hp; discriminate].
    by change (0 + 1) with 1 in Hp; rewrite Hp.
Qed.

Lemma admitted_is_committed_witness :
  exists t s', CommitTransaction calm deposit no_options new_store = (Ok t, s') /\ retries s' = retries new_store /\
    TxID t = 0 + 1 /\ TPostings t = settle (balance (abs (db new_store))) deposit /\ abs (db s') ≡ deposited.
Proof.
  exact (admitted_is_committed calm deposit no_options new_store _ deposited new_ledger_service
    ltac:(discriminate) alone_calm deposit_storable eq_refl eq_refl eq_refl deposit_is_an_action).
Defined.
