(* ===== verification/Rational.v ===== *)
(** * Exact rationals

    [big.Rat.SetString] of Go's math/big on a text with no [/], as package fx
    calls it: a sign, a mantissa with an optional base prefix, [_] separators
    and one radix point, then an optional exponent. A [big.Rat] is kept in
    lowest terms, so it is a [Q] that [Qred] fixes. *)

From Stdlib Require Import QArith.
From S2P Require Import Prelude Identifiers Text Decimal.

Open Scope Z_scope.

(** ** Scanning *)

(** [scanSign] *)
Definition scan_sign (s : string) : bool * string :=
  match s with
  | String "-" s' => (true, s')
  | String "+" s' => (false, s')
  | _ => (false, s)
  end.

(** What [nat.scan] knows of the digits read so far. [prev] is one of ["_"],
    ["0"] for a digit and ["."] for anything else. *)
Record scanned := {
  prev : ascii;
  invalSep : bool;
  dcount : Z;
  dp : option Z;
  mantissa : Z;
}.

Definition digit_of (c : ascii) : option Z :=
  if in_range "0" "9" c then Some (Z.of_N (N_of_ascii c) - 48)
  else if in_range "a" "z" c then Some (Z.of_N (N_of_ascii c) - 97 + 10)
  else if in_range "A" "Z" c then Some (Z.of_N (N_of_ascii c) - 65 + 10)
  else None.

Fixpoint scan_digits (b : Z) (st : scanned) (s : string) : scanned * string :=
  match s with
  | EmptyString => (st, EmptyString)
  | String c s' =>
      if Ascii.eqb c "." && bool_decide (dp st = None) then
        scan_digits b {| prev := "."; invalSep := invalSep st || Ascii.eqb (prev st) "_";
                         dcount := dcount st; dp := Some (dcount st); mantissa := mantissa st |} s'
      else if Ascii.eqb c "_" then
        scan_digits b {| prev := "_"; invalSep := invalSep st || negb (Ascii.eqb (prev st) "0");
                         dcount := dcount st; dp := dp st; mantissa := mantissa st |} s'
      else match digit_of c with
           | Some v =>
               if v <? b then
                 scan_digits b {| prev := "0"; invalSep := invalSep st; dcount := dcount st + 1;
                                  dp := dp st; mantissa := mantissa st * b + v |} s'
               else (st, s)
           | None => (st, s)
           end
  end.

Definition fresh_scan (p : ascii) (n : Z) : scanned :=
  {| prev := p; invalSep := false; dcount := n; dp := None; mantissa := 0 |}.

(** The base, from a prefix or 10. *)
Definition base_prefix (s : string) : Z * scanned * string :=
  match s with
  | String "0" (String c s') =>
      if Ascii.eqb c "b" || Ascii.eqb c "B" then (2, fresh_scan "0" 0, s')
      else if Ascii.eqb c "o" || Ascii.eqb c "O" then (8, fresh_scan "0" 0, s')
      else if Ascii.eqb c "x" || Ascii.eqb c "X" then (16, fresh_scan "0" 0, s')
      else (10, fresh_scan "0" 1, String c s')
  | String "0" EmptyString => (10, fresh_scan "0" 1, EmptyString)
  | _ => (10, fresh_scan "." 0, s)
  end.

(** [nat.scan] with base 0 and a fraction allowed: the mantissa, its base, how
    many of its digits follow the radix point, negated, and what is left. *)
Definition scan_nat (s : string) : option (Z * Z * Z * string) :=
  let '(b, st, s) := base_prefix s in
  let '(st, rest) := scan_digits b st s in
  if (dcount st =? 0) || invalSep st || Ascii.eqb (prev st) "_" then None
  else Some (mantissa st, b, match dp st with Some p => p - dcount st | None => 0 end, rest).

Fixpoint exponent_digits (p : ascii) (inval : bool) (digits s : string) : string * ascii * bool * string :=
  match s with
  | String c s' =>
      if is_digit c then exponent_digits "0" inval (String.append digits (String c EmptyString)) s'
      else if Ascii.eqb c "_" then exponent_digits "_" (inval || negb (Ascii.eqb p "0")) digits s'
      else (digits, p, inval, s)
  | EmptyString => (digits, p, inval, s)
  end.

(** [scanExponent] with binary exponents and separators allowed: the exponent
    and its base. *)
Definition scan_exponent (s : string) : option (Z * Z * string) :=
  match s with
  | EmptyString => Some (0, 10, s)
  | String c s' =>
      let base := if Ascii.eqb c "e" || Ascii.eqb c "E" then 10
                  else if Ascii.eqb c "p" || Ascii.eqb c "P" then 2 else 0 in
      if base =? 0 then Some (0, 10, s)
      else
        let '(neg, s') := scan_sign s' in
        let '(digits, p, inval, rest) := exponent_digits "." false EmptyString s' in
        if bool_decide (digits = EmptyString) then None
        else match parse_int64 (if neg then String "-" digits else digits) with
             | None => None
             | Some e => if Ascii.eqb p "_" || inval then None else Some (e, base, rest)
             end
  end.

(** ** The value *)

(** [mantissa * 5^exp5 * 2^exp2], in lowest terms. *)
Definition scaled (m exp5 exp2 : Z) : Q :=
  Qred (Qmake (m * 5 ^ Z.max exp5 0 * 2 ^ Z.max exp2 0)
              (Z.to_pos (5 ^ Z.max (- exp5) 0 * 2 ^ Z.max (- exp2) 0))).

Definition bits_per_digit (b : Z) : Z :=
  if b =? 8 then 3 else if b =? 16 then 4 else 1.

(** [Rat.SetString] *)
Definition Rat_SetString (s : string) : option Q :=
  match s with
  | EmptyString => None
  | _ =>
      let '(neg, s) := scan_sign s in
      match scan_nat s with
      | None => None
      | Some (m, b, fcount, s) =>
          match scan_exponent s with
          | Some (e, ebase, EmptyString) =>
              if m =? 0 then Some 0%Q
              else
                let exp5 := (if b =? 10 then fcount else 0) + (if ebase =? 10 then e else 0) in
                let exp2 := wrap64 (fcount * bits_per_digit b + e) in
                if (1000000 <? Z.abs exp5) || (10000000 <? Z.abs exp2) then None
                else Some (if neg then Qopp (scaled m exp5 exp2) else scaled m exp5 exp2)
          | _ => None
          end
      end
  end.

(** [Rat.SetInt], [Mul], [Quo], [Sign], [IsInt]: every result in lowest
    terms. *)
Definition Rat_SetInt (z : Z) : Q := inject_Z z.
Definition Rat_Mul (x y : Q) : Q := Qred (Qmult x y).
Definition Rat_Quo (x y : Q) : Q := Qred (Qdiv x y).
Definition Rat_Sign (x : Q) : Z := Z.sgn (Qnum x).
Definition Rat_IsInt (x : Q) : bool := Pos.eqb (Qden x) 1.

Example rat_decimal : Rat_SetString "0.99960" = Some (2499 # 2500)%Q.
Proof. vm_compute. reflexivity. Qed.

Example rat_hex : Rat_SetString "0x10" = Some 16%Q /\ Rat_SetString "0x1p-2" = Some (1 # 4)%Q /\
  Rat_SetString "1_000" = Some 1000%Q /\ Rat_SetString "1__0" = None /\ Rat_SetString "." = None.
Proof. vm_compute. done. Qed.

(** ** What a decimal means *)

Lemma scaled_eq m f : 0 <= f -> (scaled m (- f) (- f) == Qmake m (Z.to_pos (10 ^ f)))%Q.
Proof.
  intros Hf. unfold scaled. rewrite Qred_correct, !Z.max_r, !Z.opp_involutive, !Z.max_l by lia.
  rewrite Z.pow_0_r, !Z.mul_1_r, <-Z.pow_mul_l. done.
Qed.

Lemma digit_of_digit c : is_digit c = true -> digit_of c = Some (digit_value c).
Proof. intros H. unfold digit_of. unfold is_digit in H. by rewrite H. Qed.

(** [scan_digits] over plain decimal digits. *)
Lemma scan_digits_plain s st rest :
  forall_char is_digit s = true ->
  scan_digits 10 st (String.append s rest) =
  scan_digits 10 {| prev := match s with EmptyString => prev st | _ => "0" end; invalSep := invalSep st;
                    dcount := dcount st + Z.of_nat (String.length s); dp := dp st;
                    mantissa := digits_value (mantissa st) s |} rest.
Proof.
  revert st. induction s as [|c s IH]; intros st Hs.
  - simpl. rewrite Z.add_0_r. by destruct st.
  - simpl in Hs. apply andb_true_iff in Hs as [Hc Hs]. cbn [String.append scan_digits].
    pose proof (digit_value_range c Hc) as Hr.
    rewrite (digit_of_digit c Hc).
    assert (Ascii.eqb c "." = false) as -> by (by destruct (Ascii.eqb_spec c "."); [subst|]).
    assert (Ascii.eqb c "_" = false) as -> by (by destruct (Ascii.eqb_spec c "_"); [subst|]).
    assert ((digit_value c <? 10) = true) as -> by lia. cbn [andb]. rewrite IH by done. cbn [prev invalSep dcount dp mantissa].
    f_equal. f_equal; [by destruct s|cbn [String.length]; lia|cbn [digits_value]; f_equal; lia].
Qed.

(** A plain decimal: digits, and perhaps a point and digits. *)
Definition decimal (whole frac : string) : string :=
  match frac with EmptyString => whole | _ => String.append whole (String "." frac) end.

Lemma digits_value_app acc s t : digits_value acc (String.append s t) = digits_value (digits_value acc s) t.
Proof. revert acc. induction s as [|c s IH]; intros acc; [done|]. simpl. apply IH. Qed.

Lemma scan_digits_point b st s :
  dp st = None ->
  scan_digits b st (String "." s) =
  scan_digits b {| prev := "."; invalSep := invalSep st || Ascii.eqb (prev st) "_";
                   dcount := dcount st; dp := Some (dcount st); mantissa := mantissa st |} s.
Proof. intros H. destruct st as [p i n o m]. simpl in H. by subst o. Qed.

Lemma scan_decimal whole frac st :
  forall_char is_digit whole = true -> forall_char is_digit frac = true ->
  dp st = None -> invalSep st = false -> prev st <> "_"%char ->
  exists st', scan_digits 10 st (decimal whole frac) = (st', EmptyString) /\
    prev st' <> "_"%char /\ invalSep st' = false /\
    dcount st' = dcount st + Z.of_nat (String.length whole) + Z.of_nat (String.length frac) /\
    match dp st' with Some p => p - dcount st' | None => 0 end = - Z.of_nat (String.length frac) /\
    mantissa st' = digits_value (mantissa st) (String.append whole frac).
Proof.
  intros Hw Hf Hd Hi Hp. unfold decimal. destruct frac as [|c frac].
  { pose proof (scan_digits_plain whole st EmptyString Hw) as Hs. rewrite append_nil_r in Hs. rewrite Hs, append_nil_r.
    eexists. split; [done|]. cbn [prev invalSep dcount dp mantissa]. rewrite Hd.
    split_and!; [by destruct whole|done|cbn [String.length]; lia|done|done]. }
  rewrite (scan_digits_plain whole st _ Hw), scan_digits_point by exact Hd. cbn [prev invalSep dcount mantissa]. rewrite Hi.
  assert (Ascii.eqb match whole with EmptyString => prev st | String _ _ => "0"%char end "_" = false) as ->.
  { destruct whole; [by apply Ascii.eqb_neq|done]. }
  cbn [orb]. match goal with |- context [scan_digits 10 ?st _] => pose proof (scan_digits_plain (String c frac) st EmptyString Hf) as Hs end.
  rewrite append_nil_r in Hs. rewrite Hs. eexists. split; [done|]. cbn [prev invalSep dcount dp mantissa].
  split_and!; [done|done|done|lia|by rewrite digits_value_app].
Qed.

(** What a decimal scans as, its leading zeros included. *)
Lemma scan_nat_decimal whole frac :
  forall_char is_digit whole = true -> forall_char is_digit frac = true -> (whole <> EmptyString \/ frac <> EmptyString) ->
  scan_nat (decimal whole frac) =
  Some (digits_value 0 (String.append whole frac), 10, - Z.of_nat (String.length frac), EmptyString).
Proof.
  intros Hw Hf Hne.
  assert (exists st w, base_prefix (decimal whole frac) = (10, st, decimal w frac) /\
      prev st <> "_"%char /\ dp st = None /\ invalSep st = false /\ mantissa st = 0 /\ forall_char is_digit w = true /\
      dcount st + Z.of_nat (String.length w) = Z.of_nat (String.length whole) /\
      digits_value 0 w = digits_value 0 whole) as (st & w & Hb & Hp & Hd & Hi & Hm & Hdw & Hc & Hv).
  { destruct whole as [|c w].
    - exists (fresh_scan "." 0), EmptyString. destruct frac as [|c f]; [naive_solver|]. by split_and!.
    - simpl in Hw. apply andb_true_iff in Hw as [Hc Hw]. destruct (ascii_dec c "0") as [-> | Hnz].
      + exists (fresh_scan "0" 1), w. split_and!; try done; [|cbn [String.length dcount fresh_scan]; lia].
        unfold decimal. destruct w as [|c' w]; [by destruct frac|]. simpl in Hw. apply andb_true_iff in Hw as [Hc' _].
        destruct frac; cbn [String.append base_prefix]; destruct c' as [[] [] [] [] [] [] [] []]; done.
      + exists (fresh_scan "." 0), (String c w). split_and!; try done; [|by simpl; rewrite Hc, Hw].
        unfold decimal. destruct frac; cbn [String.append base_prefix]; destruct c as [[] [] [] [] [] [] [] []]; done. }
  unfold scan_nat. rewrite Hb. destruct (scan_decimal w frac st Hdw Hf Hd Hi Hp) as (st' & -> & Hp' & Hi' & Hc' & Hdp & Hm').
  rewrite Hi', (proj2 (Ascii.eqb_neq _ _) Hp'), Hdp, Hm', Hm.
  assert ((dcount st' =? 0) = false) as ->.
  { apply Z.eqb_neq. rewrite Hc', Hc. destruct Hne; [destruct whole|destruct frac]; simpl; try done; lia. }
  cbn [orb]. by rewrite !digits_value_app, Hv.
Qed.

(** A decimal is read exactly. *)
Lemma Rat_SetString_decimal whole frac :
  forall_char is_digit whole = true -> forall_char is_digit frac = true ->
  (whole <> EmptyString \/ frac <> EmptyString) -> Z.of_nat (String.length frac) <= 1000000 ->
  exists q, Rat_SetString (decimal whole frac) = Some q /\
    (q == Qmake (digits_value 0 (String.append whole frac)) (Z.to_pos (10 ^ Z.of_nat (String.length frac))))%Q /\ Qred q = q.
Proof.
  intros Hw Hf Hne Hlen. pose proof (scan_nat_decimal whole frac Hw Hf Hne) as Hscan.
  set (n := digits_value 0 (String.append whole frac)) in *.
  assert (exists c s, decimal whole frac = String c s) as (c & s & Hcs).
  { unfold decimal. destruct frac, whole; eauto; naive_solver. }
  assert (scan_sign (decimal whole frac) = (false, decimal whole frac)) as Hsign.
  { unfold decimal. destruct whole as [|c' w]; [by destruct frac|]. simpl in Hw. apply andb_true_iff in Hw as [Hc _].
    destruct frac; destruct c' as [[] [] [] [] [] [] [] []]; done. }
  unfold Rat_SetString. rewrite Hcs, <-Hcs, Hsign, Hscan. cbn [scan_exponent].
  destruct (Z.eqb_spec n 0) as [Hz|Hz].
  { exists 0%Q. split_and!; [done| |done]. by rewrite Hz. }
  change (bits_per_digit 10) with 1. cbn [Z.eqb Pos.eqb].
  rewrite Z.mul_1_r, !Z.add_0_r, (wrap64_id (- _)) by (unfold max_int64; lia).
  rewrite !Z.abs_opp, (Z.abs_eq (Z.of_nat _)) by lia.
  assert ((1000000 <? Z.of_nat (String.length frac)) = false) as -> by lia.
  assert ((10000000 <? Z.of_nat (String.length frac)) = false) as -> by lia. cbn [orb].
  eexists. split_and!; [done| |apply Qred_complete, Qred_correct]. apply scaled_eq. lia.
Qed.
