(* ===== verification/Fx.v ===== *)
(** * Conversions at a stated rate

    Package fx ([fx/conversion.go], [fx/verify.go]): what a conversion receives,
    the two postings it is, the metadata that states its rate, and the check
    that what a transaction moved is what its rate says. *)

From Stdlib Require Import QArith Qpower Qround.
From S2P Require Import Prelude Identifiers Text Decimal Rational Posting Volumes GoTime Transaction Codec Encoding Errors Schema Txn Locking Guards Moves History Log Observer Commit Committed Book Chain Sample CommitSpec.

Open Scope Z_scope.

Definition ConversionRateKey : string := "giro/conversion.rate".
Definition ConversionFromKey : string := "giro/conversion.from".
Definition ConversionToKey : string := "giro/conversion.to".

(** [FxPanic]: the method of a nil [*big.Int] the code does not guard. *)
Inductive fx_error :=
| ErrInvalidRate
| ErrSameAsset
| ErrConversionRounding
| FxLedger (e : ledger_error)
| FxQuery (code : string)
| FxPanic.

#[export] Instance fx_error_eq_dec : EqDecision fx_error.
Proof. solve_decision. Defined.

Record Conversion := {
  CFrom : Asset;
  Seller : Address;
  SoldTo : Address;
  CTo : Asset;
  BoughtFrom : Address;
  Buyer : Address;
  CAmount : option Z;
  Rate : string;
}.

Definition contains_any (chars s : string) : bool :=
  negb (forall_char (fun c => forall_char (fun x => negb (Ascii.eqb x c)) chars) s).

Definition parseRate (s : string) : res fx_error Q :=
  if bool_decide (s = EmptyString) then Err ErrInvalidRate
  else if contains_any "eE/ " s then Err ErrInvalidRate
  else match Rat_SetString s with
       | None => Err ErrInvalidRate
       | Some r => if Rat_Sign r <=? 0 then Err ErrInvalidRate else Ok r
       end.

Definition ten : Q := inject_Z 10.

(** The loop over [abs(shift)]. *)
Definition rescale (shift : Z) (value : Q) : Q :=
  Nat.iter (Z.to_nat (Z.abs shift)) (fun v => if 0 <? shift then Rat_Mul v ten else Rat_Quo v ten) value.

Definition Receives (c : Conversion) : res fx_error (Z * bool) :=
  let! rate := parseRate (Rate c) in
  match Scale (CFrom c) with
  | None => Err (FxLedger ErrInvalidAsset)
  | Some fromScale =>
      match Scale (CTo c) with
      | None => Err (FxLedger ErrInvalidAsset)
      | Some toScale =>
          match CAmount c with
          | None => Err (FxLedger ErrInvalidAmount)
          | Some amount =>
              if amount <=? 0 then Err (FxLedger ErrInvalidAmount)
              else
                let value := rescale (toScale - fromScale) (Rat_Mul (Rat_SetInt amount) rate) in
                Ok (Z.quot (Qnum value) (QDen value), Rat_IsInt value)
          end
      end
  end.

Definition conversion_postings (c : Conversion) : res fx_error Postings :=
  if bool_decide (CFrom c = CTo c) then Err ErrSameAsset
  else
    let! ' (received, _) := Receives c in
    if received <=? 0 then Err (FxLedger ErrInvalidAmount)
    else
      Ok [ {| Source := Seller c; Destination := SoldTo c; PAsset := CFrom c; Amount := CAmount c; UpTo := false |};
           {| Source := BoughtFrom c; Destination := Buyer c; PAsset := CTo c; Amount := Some received; UpTo := false |} ].

(** The map passed in is the one that is returned. *)
Definition conversion_metadata (c : Conversion) (into : option Metadata) : Metadata :=
  <[ConversionToKey := CTo c]> (<[ConversionFromKey := CFrom c]> (<[ConversionRateKey := Rate c]> (default ∅ into))).

(** The two sums of [Check]; a nil amount of either asset panics. *)
Fixpoint sold_bought (from to : Asset) (p : Postings) (acc : Z * Z) : option (Z * Z) :=
  match p with
  | [] => Some acc
  | x :: p =>
      if bool_decide (PAsset x = from) then
        a ← Amount x; sold_bought from to p (acc.1 + a, acc.2)
      else if bool_decide (PAsset x = to) then
        a ← Amount x; sold_bought from to p (acc.1, acc.2 + a)
      else sold_bought from to p acc
  end.

Definition claim (from to : Asset) (sold : Z) (rate : string) : Conversion :=
  {| CFrom := from; Seller := EmptyString; SoldTo := EmptyString; CTo := to;
     BoughtFrom := EmptyString; Buyer := EmptyString; CAmount := Some sold; Rate := rate |}.

Definition Check_conversion (t : Transaction) (tolerance : Z) : res fx_error unit :=
  match TMetadata t !! ConversionRateKey with
  | None => Ok tt
  | Some rate =>
      let from := default EmptyString (TMetadata t !! ConversionFromKey) in
      let to := default EmptyString (TMetadata t !! ConversionToKey) in
      if bool_decide (from = EmptyString) || bool_decide (to = EmptyString) then Err ErrConversionRounding
      else match sold_bought from to (TPostings t) (0, 0) with
           | None => Err FxPanic
           | Some (sold, bought) =>
               if (sold =? 0) || (bought =? 0) then Err ErrConversionRounding
               else
                 let! ' (want, _) := Receives (claim from to sold rate) in
                 if tolerance <? Z.abs (bought - want) then Err ErrConversionRounding else Ok tt
           end
  end.

Definition DefaultTolerance : Z := 1.

(** The transaction [Verify] scans a row into: its id, its postings and its
    metadata, everything else zero. *)
Definition scanned_transaction (id : Z) (r : TransactionRow) : Transaction :=
  {| TxID := id; TPostings := postings r; Timestamp := zero_instant; InsertedAt := zero_instant;
     RevertedAt := None; Reference := EmptyString; TMetadata := tx_metadata r; TPostCommitVolumes := ∅ |}.

Definition states_rate (r : TransactionRow) : bool := bool_decide (is_Some (tx_metadata r !! ConversionRateKey)).

Definition conversion_rows (d : Database) : list (Z * TransactionRow) :=
  filter (fun kv : Z * TransactionRow => states_rate kv.2 = true) (map_rows Z.le (transactions d)).

Fixpoint verify_conversions (tolerance : Z) (rows : list (Z * TransactionRow)) : res fx_error (list (Z * fx_error)) :=
  match rows with
  | [] => Ok []
  | (id, r) :: rows =>
      match Check_conversion (scanned_transaction id r) tolerance with
      | Ok _ => verify_conversions tolerance rows
      | Err FxPanic => Err FxPanic
      | Err e => let! found := verify_conversions tolerance rows in Ok ((id, e) :: found)
      end
  end.

(** [fx.Verify]: transactions examined, and what was found or why it
    stopped. *)
Definition Verify_conversions (fault : option string) (d : Database) (tolerance : Z)
    : nat * res fx_error (list (Z * fx_error)) :=
  match fault with
  | Some code => (0%nat, Err (FxQuery code))
  | None => (length (conversion_rows d), verify_conversions tolerance (conversion_rows d))
  end.

(** ** The exact value *)

Lemma rescale_spec k v : (rescale k v == v * Qpower ten k)%Q.
Proof.
  assert (forall n w, Nat.iter n (fun v => Rat_Mul v ten) w == w * Qpower ten (Z.of_nat n))%Q as Hmul.
  { induction n as [|n IH]; intros w; [by rewrite Qmult_1_r|].
    rewrite Nat2Z.inj_succ, <-Z.add_1_r, Qpower_plus by done. cbn [Nat.iter nat_rect]. unfold Rat_Mul at 1.
    rewrite Qred_correct. change (nat_rect _ _ _ n) with (Nat.iter n (fun v => Rat_Mul v ten) w).
    rewrite IH. change (Qpower ten 1) with ten. ring. }
  assert (forall n w, Nat.iter n (fun v => Rat_Quo v ten) w == w * Qpower ten (- Z.of_nat n))%Q as Hquo.
  { induction n as [|n IH]; intros w; [by rewrite Qmult_1_r|].
    replace (- Z.of_nat (S n)) with (- Z.of_nat n + -1) by lia. rewrite Qpower_plus by done.
    cbn [Nat.iter nat_rect]. unfold Rat_Quo at 1. rewrite Qred_correct.
    change (nat_rect _ _ _ n) with (Nat.iter n (fun v => Rat_Quo v ten) w).
    rewrite IH. change (Qpower ten (-1)) with (/ ten)%Q. unfold Qdiv. ring. }
  unfold rescale. destruct (Z.ltb_spec 0 k) as [Hk|Hk].
  - rewrite Z.abs_eq by lia. rewrite Hmul, Z2Nat.id by lia. done.
  - rewrite Z.abs_neq by lia. rewrite Hquo, Z2Nat.id by lia. by rewrite Z.opp_involutive.
Qed.

(** Truncation and [IsInt] on a positive fraction, by its numerator and
    denominator however it is written. *)
Lemma quotient_of (q : Q) n d :
  0 <= n -> 0 < d -> (q == Qmake n (Z.to_pos d))%Q -> Z.quot (Qnum q) (QDen q) = n / d.
Proof.
  intros Hn Hd Hq. assert (Qfloor q = n / d) as <-.
  { rewrite Hq. simpl. by rewrite Z2Pos.id. }
  destruct q as [a b]. simpl. apply Z.quot_div_nonneg; [|lia].
  unfold Qeq in Hq. simpl in Hq. rewrite Z2Pos.id in Hq by done. nia.
Qed.

Lemma integral_of (q : Q) n d :
  0 < d -> Qred q = q -> (q == Qmake n (Z.to_pos d))%Q -> Rat_IsInt q = (n mod d =? 0).
Proof.
  intros Hd Hr Hq. unfold Rat_IsInt. apply eq_true_iff_eq. rewrite Pos.eqb_eq, Z.eqb_eq. split; intros H.
  - destruct q as [a b]. simpl in H. subst b. unfold Qeq in Hq. simpl in Hq. rewrite Z2Pos.id, Z.mul_1_r in Hq by done.
    rewrite <-Hq. by apply Z.mod_mul, Z.neq_sym, Z.lt_neq.
  - assert (q == inject_Z (n / d))%Q as Hi.
    { rewrite Hq. unfold Qeq. simpl. rewrite Z2Pos.id, Z.mul_1_r by done. rewrite (Z.div_mod n d) at 1 by lia. lia. }
    apply Qred_complete in Hi. rewrite Hr in Hi. rewrite Hi.
    unfold inject_Z. assert (Qred (n / d # 1) = (n / d # 1))%Q as ->; [|done].
    unfold Qred. pose proof (Z.ggcd_gcd (n / d) 1) as Hg. pose proof (Z.ggcd_correct_divisors (n / d) 1) as Hc.
    destruct (Z.ggcd (n / d) 1) as (g & a & b). simpl in Hg. rewrite Z.gcd_1_r in Hg. subst g. destruct Hc as [Ha Hb].
    rewrite !Z.mul_1_l in *. by subst a b.
Qed.

Lemma Receives_value c r fs ts a n d :
  parseRate (Rate c) = Ok r -> Scale (CFrom c) = Some fs -> Scale (CTo c) = Some ts -> CAmount c = Some a -> 0 < a ->
  0 <= n -> 0 < d -> (inject_Z a * r * Qpower ten (ts - fs) == Qmake n (Z.to_pos d))%Q ->
  Receives c = Ok (n / d, n mod d =? 0).
Proof.
  intros Hr Hf Ht Ha Hpos Hn Hd Hv. unfold Receives. rewrite Hr. cbn [rbind]. rewrite Hf, Ht, Ha.
  rewrite (proj2 (Z.leb_gt a 0)) by done.
  set (value := rescale _ _).
  assert (value == Qmake n (Z.to_pos d))%Q as Hq.
  { unfold value. rewrite rescale_spec. unfold Rat_Mul, Rat_SetInt. by rewrite Qred_correct. }
  rewrite (quotient_of value n d), (integral_of value n d); try done.
  unfold value, rescale. destruct (Z.to_nat _); cbn [Nat.iter nat_rect].
  - apply Qred_complete, Qred_correct.
  - destruct (0 <? ts - fs); apply Qred_complete, Qred_correct.
Qed.

(** A rate written as a decimal number, and what it is worth. *)
Record plain_rate (rate whole frac : string) : Prop := {
  pr_text : rate = decimal whole frac;
  pr_whole : forall_char is_digit whole = true;
  pr_frac : forall_char is_digit frac = true;
  pr_positive : 0 < digits_value 0 (String.append whole frac);
  pr_length : Z.of_nat (String.length frac) <= 1000000;
}.

Lemma digits_clean s : forall_char is_digit s = true -> contains_any "eE/ " s = false.
Proof.
  intros H. unfold contains_any. apply negb_false_iff.
  apply (forall_char_impl is_digit); [|done]. intros c Hc.
  by destruct c as [[] [] [] [] [] [] [] []].
Qed.

Lemma parseRate_plain rate whole frac :
  plain_rate rate whole frac ->
  exists r, parseRate rate = Ok r /\
    (r == Qmake (digits_value 0 (String.append whole frac)) (Z.to_pos (10 ^ Z.of_nat (String.length frac))))%Q.
Proof.
  intros [-> Hw Hf Hpos Hlen].
  assert (whole <> EmptyString \/ frac <> EmptyString) as Hne.
  { destruct whole; [|by left]. destruct frac; [done|by right]. }
  destruct (Rat_SetString_decimal whole frac Hw Hf Hne Hlen) as (q & Hs & Hq & _).
  exists q. split; [|done]. unfold parseRate. rewrite bool_decide_false.
  2:{ unfold decimal. destruct frac, whole; naive_solver. }
  assert (contains_any "eE/ " (decimal whole frac) = false) as ->.
  { unfold contains_any. apply negb_false_iff. unfold decimal. destruct frac as [|c frac].
    - by apply negb_false_iff, digits_clean.
    - rewrite forall_char_app. apply andb_true_iff. split; [by apply negb_false_iff, digits_clean|].
      by apply (digits_clean (String c frac)), negb_false_iff in Hf. }
  rewrite Hs. assert (0 < Qnum q) as Hn; [|by destruct q as [[] ?]].
  destruct q as [n d]. unfold Qeq in Hq. simpl in *. rewrite Z2Pos.id in Hq by lia. nia.
Qed.

(** C34: what a conversion receives is integer arithmetic. At a rate written as
    a decimal, the amount that arrives is the amount that leaves, times the
    rate's digits and the scale difference, divided by the powers of ten below
    them and truncated: never a unit more than the exact value, and [exact]
    exactly when nothing was cut off. *)
Theorem receives_exact c whole frac fs ts a :
  plain_rate (Rate c) whole frac -> Scale (CFrom c) = Some fs -> Scale (CTo c) = Some ts ->
  CAmount c = Some a -> 0 < a ->
  let n := a * digits_value 0 (String.append whole frac) * 10 ^ Z.max (ts - fs) 0 in
  let d := 10 ^ (Z.of_nat (String.length frac) + Z.max (fs - ts) 0) in
  Receives c = Ok (n / d, n mod d =? 0) /\ n / d * d <= n < (n / d + 1) * d.
Proof.
  intros Hrate Hf Ht Ha Hpos n d. destruct (parseRate_plain _ _ _ Hrate) as (r & Hr & Hq).
  destruct Hrate as [_ _ _ Hv _]. assert (0 < d) as Hd by (unfold d; lia).
  assert (0 <= n) as Hn by (unfold n; nia).
  split; [|pose proof (Z.div_mod n d); pose proof (Z.mod_pos_bound n d); nia].
  apply (Receives_value c r fs ts a n d); try done. rewrite Hq.
  set (v := digits_value 0 _) in *. set (k := Z.of_nat (String.length frac)) in *. assert (0 <= k) as Hk by lia.
  assert (Qpower ten (ts - fs) == Qmake (10 ^ Z.max (ts - fs) 0) (Z.to_pos (10 ^ Z.max (fs - ts) 0)))%Q as ->.
  { destruct (Z.le_ge_cases 0 (ts - fs)) as [H|H].
    - rewrite (Z.max_l (ts - fs)), (Z.max_r (fs - ts)) by lia. unfold ten. rewrite <-Zpower_Qpower by done. done.
    - rewrite (Z.max_r (ts - fs)), (Z.max_l (fs - ts)) by lia. replace (ts - fs) with (- (fs - ts)) by lia.
      rewrite Qpower_opp. unfold ten. rewrite <-Zpower_Qpower by lia. unfold Qinv, inject_Z, Qeq. simpl.
      pose proof (Z.pow_pos_nonneg 10 (fs - ts)). destruct (10 ^ (fs - ts)) eqn:E; simpl; lia. }
  unfold Qeq, Qmult, inject_Z. simpl. unfold n, d. rewrite Z.pow_add_r by lia.
  rewrite !Pos2Z.inj_mul, !Z2Pos.id by lia. ring.
Qed.

(** ** The check *)

Lemma Receives_claim c a : CAmount c = Some a -> Receives (claim (CFrom c) (CTo c) a (Rate c)) = Receives c.
Proof. intros Ha. unfold Receives. simpl. by rewrite Ha. Qed.

Lemma Receives_Ok c out exact_ :
  Receives c = Ok (out, exact_) ->
  CFrom c <> EmptyString /\ CTo c <> EmptyString /\ exists a, CAmount c = Some a /\ 0 < a.
Proof.
  unfold Receives. intros H. inv_ok.
  destruct (Scale (CFrom c)) as [fs|] eqn:Hf; [|done]. destruct (Scale (CTo c)) as [ts|] eqn:Ht; [|done].
  destruct (CAmount c) as [a|]; [|done]. destruct (Z.leb_spec a 0); [done|].
  split_and!; [by intros E; rewrite E in Hf|by intros E; rewrite E in Ht|eauto].
Qed.

Lemma conversion_metadata_claims c into :
  conversion_metadata c into !! ConversionRateKey = Some (Rate c) /\
  conversion_metadata c into !! ConversionFromKey = Some (CFrom c) /\
  conversion_metadata c into !! ConversionToKey = Some (CTo c).
Proof. unfold conversion_metadata. split_and!; by simplify_map_eq. Qed.

Lemma conversion_postings_Ok c ps :
  conversion_postings c = Ok ps ->
  CFrom c <> CTo c /\ exists received exact_, Receives c = Ok (received, exact_) /\ 0 < received /\
    forall a, CAmount c = Some a -> sold_bought (CFrom c) (CTo c) ps (0, 0) = Some (a, received).
Proof.
  unfold conversion_postings. case_bool_decide as Hne; [done|]. intros H. inv_ok.
  match goal with H : Receives c = Ok ?x |- _ => destruct x as [received e] end. cbn beta iota in *.
  destruct (Z.leb_spec received 0); [done|]. inv_ok. split; [done|]. exists received, e. split_and!; [done|done|].
  intros a Ha. simpl. rewrite bool_decide_true, Ha by done. simpl.
  rewrite bool_decide_false, bool_decide_true by congruence. by rewrite !Z.add_0_l.
Qed.

(** What [Check] computes on a transaction that states [c]'s rate. *)
Lemma check_stated c into received exact_ t sold bought tolerance :
  Receives c = Ok (received, exact_) -> TMetadata t = conversion_metadata c into ->
  sold_bought (CFrom c) (CTo c) (TPostings t) (0, 0) = Some (sold, bought) -> CAmount c = Some sold -> bought <> 0 ->
  Check_conversion t tolerance = if tolerance <? Z.abs (bought - received) then Err ErrConversionRounding else Ok tt.
Proof.
  intros Hr Hm Hs Ha Hb. destruct (Receives_Ok _ _ _ Hr) as (Hf & Ht & a & Ha' & Hpos).
  destruct (conversion_metadata_claims c into) as (H1 & H2 & H3). unfold Check_conversion.
  rewrite Hm, H1, H2, H3. cbn [default]. rewrite !bool_decide_false by done. cbn [orb].
  change (from_option id ?x (Some ?y)) with y in *. cbn [from_option id] in *. rewrite Hs.
  assert (a = sold) as -> by congruence. rewrite (proj2 (Z.eqb_neq sold 0)), (proj2 (Z.eqb_neq bought 0)) by lia.
  cbn [orb]. by rewrite (Receives_claim c sold Ha), Hr.
Qed.

Lemma check_built c into ps t tolerance :
  conversion_postings c = Ok ps -> TMetadata t = conversion_metadata c into -> TPostings t = ps -> 0 <= tolerance ->
  Check_conversion t tolerance = Ok tt.
Proof.
  intros Hps Hm Ht Htol. destruct (conversion_postings_Ok _ _ Hps) as (_ & received & e & Hr & Hpos & Hsum).
  destruct (Receives_Ok _ _ _ Hr) as (_ & _ & a & Ha & _).
  rewrite (check_stated c into received e t a received); try done; [|by rewrite Ht; apply Hsum|lia].
  by rewrite Z.sub_diag, (proj2 (Z.ltb_ge _ _)).
Qed.

(** The check accepts what the package builds and measures the rest. The
    two postings of a conversion, stated with its metadata, pass with no
    tolerance at all; if the same claim came with another amount received, the
    check refuses it exactly when it is off by more than the tolerance. *)
Theorem conversion_checks (c : Conversion) (into : option Metadata) (ps : Postings) (t : Transaction) :
  conversion_postings c = Ok ps -> TMetadata t = conversion_metadata c into ->
  (TPostings t = ps -> Check_conversion t 0 = Ok tt) /\
  forall received exact_ sold bought tolerance,
    Receives c = Ok (received, exact_) ->
    sold_bought (CFrom c) (CTo c) (TPostings t) (0, 0) = Some (sold, bought) -> CAmount c = Some sold -> bought <> 0 ->
    Check_conversion t tolerance = if tolerance <? Z.abs (bought - received) then Err ErrConversionRounding else Ok tt.
Proof.
  intros Hps Hm. split; [|by eauto using check_stated]. intros Ht. by eapply check_built.
Qed.

(** ** A ledger of conversions *)

Lemma verify_conversions_silent tolerance rows :
  verify_conversions tolerance rows = Ok [] <->
  Forall (fun kv => Check_conversion (scanned_transaction kv.1 kv.2) tolerance = Ok tt) rows.
Proof.
  induction rows as [|[id r] rows IH]; [by split|]. rewrite Forall_cons. cbn [verify_conversions fst snd].
  destruct (Check_conversion _ _) as [[]|e] eqn:Hc; [rewrite IH; naive_solver|].
  split; [|naive_solver]. destruct e; try done; destruct (verify_conversions tolerance rows); done.
Qed.

(** Transactions that state no rate pass. *)
Lemma conversions_silent d tolerance :
  (Verify_conversions None d tolerance).2 = Ok [] <->
  forall id r, transactions d !! id = Some r -> Check_conversion (scanned_transaction id r) tolerance = Ok tt.
Proof.
  unfold Verify_conversions. cbn [snd]. rewrite verify_conversions_silent, Forall_forall. unfold conversion_rows. split.
  - intros H id r Hr. destruct (states_rate r) eqn:Hs.
    + apply (H (id, r)). by rewrite list_elem_of_filter, elem_of_map_rows.
    + unfold Check_conversion. simpl. unfold states_rate in Hs. apply bool_decide_eq_false, eq_None_not_Some in Hs. by rewrite Hs.
  - intros H [id r] [_ Hin%elem_of_map_rows]%list_elem_of_filter. by apply H.
Qed.

(** What a request may say of a rate: nothing, or what [Conversion] writes. *)
Inductive stated : Postings -> Metadata -> Prop :=
| stated_nothing p m : m !! ConversionRateKey = None -> stated p m
| stated_conversion c into p : conversion_postings c = Ok p -> stated p (conversion_metadata c into).

Section codec.
Context {codec : Codec}.

(** C35: a ledger of conversions keeps verifying. If [fx.Verify] finds nothing,
    it finds nothing after any request that states no rate or is a conversion
    as the package builds it -- committed, refused, retried or replayed --
    whatever the service and the other sessions did, provided they keep it
    too. *)
Theorem conversions_stay_clean (W : Weather) (p : Postings) (opts : CommitOptions) (s : Store) (tolerance : Z) :
  0 <= tolerance -> stated p (default ∅ (OMetadata opts)) -> text_map_ok (default ∅ (OMetadata opts)) ->
  (forall n d, (Verify_conversions None d tolerance).2 = Ok [] ->
     (Verify_conversions None (landed (attempt_env W n) d) tolerance).2 = Ok []) ->
  (Verify_conversions None (db s) tolerance).2 = Ok [] ->
  (Verify_conversions None (db (CommitTransaction W p opts s).2) tolerance).2 = Ok [].
Proof.
  intros Htol Hst Hm HW Hs. destruct (CommitTransaction W p opts s) as [r s'] eqn:H.
  apply (commit_keeps (fun d => (Verify_conversions None d tolerance).2 = Ok []) W p opts s r s' H HW); [|done].
  intros n h d0 t d' Hv _ [(us & alloc & d1 & Ha & bytes & _ & _ & _ & ->) _]. rewrite !conversions_silent.
  intros H0 id row. cbn [transactions set_pending set_ledger_row set_logs].
  destruct (applied_transaction _ _ _ _ _ _ _ _ _ Ha) as (_ & m & Hsm & ->).
  destruct (applied_fields _ _ _ _ _ _ _ _ _ Ha) as (_ & _ & _ & _ & Hmeta).
  intros [[<- <-]|[_ Hrow]]%lookup_insert_Some; [|by apply H0].
  rewrite Hmeta in Hsm. cbn [apply_options AOMetadata] in Hsm. apply stored_metadata_text in Hsm as ->; [|done].
  inversion Hst as [p' m' Hn|c into p' Hps]; subst p'.
  - unfold Check_conversion. cbn [scanned_transaction TMetadata row_of tx_metadata]. by rewrite Hn.
  - eapply (check_built c into p); [done|by symmetry| |done]. cbn [scanned_transaction TPostings row_of postings].
    apply (applied_exact _ _ _ _ _ _ _ _ _ Ha). unfold conversion_postings in Hps.
    case_bool_decide; [done|]. inv_ok. destruct x as [received e]. destruct (received <=? 0); [done|]. by inv_ok.
Qed.

End codec.

(** ** At concrete conversions *)

Definition off_ramp : Conversion :=
  {| CFrom := "USDT/6"; Seller := "treasury:usdt"; SoldTo := "external:kraken:USDT"; CTo := "USD/2";
     BoughtFrom := "external:kraken:USD"; Buyer := "ops:usd"; CAmount := Some 100000000000; Rate := "0.99960" |}.

Lemma off_ramp_rate : plain_rate (Rate off_ramp) "0" "99960".
Proof. by split. Qed.

Lemma receives_exact_witness : Receives off_ramp = Ok (9996000, true).
Proof. exact (proj1 (receives_exact off_ramp "0" "99960" 6 2 _ off_ramp_rate eq_refl eq_refl eq_refl eq_refl)). Defined.

(** An amount that lands between cents is cut off and says so. *)
Example receives_truncates :
  Receives (claim "USDT/6" "USD/2" 42317482915 "1") = Ok (4231748, false) /\
  Receives (claim "TOKEN/18" "USD/2" 20000000000000000000 "2") = Ok (4000, true).
Proof. vm_compute. done. Qed.

(** [parseRate] means to accept plain decimals only; it also reads the base
    prefixes, separators and binary exponents of [big.Rat]. *)
Example rate_not_decimal :
  is_ok (parseRate "0x10") = true /\ is_ok (parseRate "0x1p-2") = true /\ is_ok (parseRate "1_000") = true /\
  parseRate "1e-3" = Err ErrInvalidRate /\ parseRate "2/3" = Err ErrInvalidRate /\ parseRate "-1" = Err ErrInvalidRate.
Proof. vm_compute. done. Qed.

Definition off_ramp_postings : Postings :=
  match conversion_postings off_ramp with Ok p => p | Err _ => [] end.

Lemma off_ramp_built : conversion_postings off_ramp = Ok off_ramp_postings.
Proof. vm_compute. reflexivity. Qed.

Definition off_ramp_transaction : Transaction :=
  {| TxID := 1; TPostings := off_ramp_postings; Timestamp := 0; InsertedAt := 0; RevertedAt := None;
     Reference := EmptyString; TMetadata := conversion_metadata off_ramp None; TPostCommitVolumes := ∅ |}.

Lemma conversion_checks_witness : Check_conversion off_ramp_transaction 0 = Ok tt.
Proof. exact (proj1 (conversion_checks off_ramp None off_ramp_postings off_ramp_transaction off_ramp_built eq_refl) eq_refl). Defined.

Definition off_ramp_options : CommitOptions :=
  {| OTimestamp := {| unix_nano := zero_instant; zone := 0 |}; OReference := EmptyString;
     OMetadata := Some (conversion_metadata off_ramp None); OIdempotencyKey := EmptyString; ODryRun := false |}.

Lemma off_ramp_stated : stated off_ramp_postings (default ∅ (OMetadata off_ramp_options)).
Proof. exact (stated_conversion off_ramp None off_ramp_postings off_ramp_built). Qed.

Lemma off_ramp_text : text_map_ok (default ∅ (OMetadata off_ramp_options)).
Proof.
  cbn [off_ramp_options OMetadata default]. unfold text_map_ok, conversion_metadata.
  repeat (apply map_Forall_insert_2; [by vm_compute|]). apply map_Forall_empty.
Qed.

Lemma conversions_stay_clean_witness :
  (Verify_conversions None (db (CommitTransaction calm off_ramp_postings off_ramp_options new_store).2) 1).2 = Ok [].
Proof.
  exact (conversions_stay_clean calm off_ramp_postings off_ramp_options new_store 1 ltac:(lia) off_ramp_stated
    off_ramp_text (fun _ _ H => H) eq_refl).
Defined.
