(* ===== verification/Numeric.v ===== *)
(** * PostgreSQL's numeric, at the driver

    [pgtype.Numeric] as the engine and the reconciler meet it: an unscaled
    integer and a power of ten. [numeric] writes one, [bigInt] of
    [storage/volumes.go] and [pgNumeric] of [recon/match.go] read one. *)

From S2P Require Import Prelude.

Record Numeric := { NInt : Z; NExp : Z; NValid : bool }.

Definition numeric (i : Z) : Numeric := {| NInt := i; NExp := 0; NValid := true |}.

Inductive numeric_error := HasFraction.

Definition bigInt (n : Numeric) : res numeric_error Z :=
  if negb (NValid n) then Ok 0
  else if NExp n =? 0 then Ok (NInt n)
  else if 0 <? NExp n then Ok (NInt n * 10 ^ NExp n)
  else Err HasFraction.

(** [for range v.Exp] runs no times on a negative exponent. *)
Definition ScanNumeric (n : Numeric) : Z :=
  if negb (NValid n) then 0 else Nat.iter (Z.to_nat (NExp n)) (fun v => v * 10) (NInt n).

(** What the driver may hand over for an integer: any exponent that divides
    it. *)
Definition stands_for (n : Numeric) (z : Z) : Prop :=
  NValid n = true /\ 0 <= NExp n /\ NInt n * 10 ^ NExp n = z.

Lemma numeric_stands z : stands_for (numeric z) z.
Proof. split_and!; [done|done|]. simpl. lia. Qed.

Lemma bigInt_exact n z : stands_for n z -> bigInt n = Ok z.
Proof.
  intros (Hv & He & Hz). unfold bigInt. rewrite Hv. simpl.
  destruct (Z.eqb_spec (NExp n) 0) as [H0|H0]; [f_equal; rewrite <-Hz, H0; lia|].
  rewrite (proj2 (Z.ltb_lt 0 _)) by lia. by rewrite Hz.
Qed.

Lemma ScanNumeric_exact n z : stands_for n z -> ScanNumeric n = z.
Proof.
  intros (Hv & He & Hz). unfold ScanNumeric. rewrite Hv. simpl. rewrite <-Hz, <-(Z2Nat.id (NExp n)) by done.
  rewrite Nat2Z.id. generalize (NInt n). induction (Z.to_nat (NExp n)) as [|k IH]; intros i; [simpl; lia|].
  cbn [Nat.iter nat_rect]. change (nat_rect _ _ _ k) with (Nat.iter k (fun v => v * 10) i).
  rewrite IH, Nat2Z.inj_succ, Z.pow_succ_r by lia. lia.
Qed.

(** The two readers part on a fraction: one refuses it, the other drops the
    exponent. *)
Example fraction_dropped :
  bigInt {| NInt := 125; NExp := -2; NValid := true |} = Err HasFraction /\
  ScanNumeric {| NInt := 125; NExp := -2; NValid := true |} = 125.
Proof. done. Qed.
