(* ===== verification/Recon.v ===== *)
(** * Reconciliation

    Package recon: the staged statement lines, staging them
    ([recon/ingest.go]), pairing them with movements on boundary accounts
    ([recon/match.go]), what stays unmatched ([recon/verify.go]) and comparing
    whole positions ([recon/balance.go]), on the tables of
    [20260904061206_reconciliation.sql] for one ledger. The book is only read:
    no operation here returns a [Database]. *)

From S2P Require Import Prelude Identifiers Text Numeric Posting Volumes GoTime Transaction Codec Errors Schema Read.

(** ** Lines and tables *)

Definition DUnknown : string := EmptyString.
Definition DIn : string := "in".
Definition DOut : string := "out".

(** [Record] *)
Record StatementLine := {
  LID : string;
  LReference : string;
  LAsset : Asset;
  LAmount : option Z;
  LDirection : string;
  LOccurredAt : Time;
  LRaw : string;
}.

Inductive line_error :=
| NoLineID
| BadLineAsset
| BadLineAmount
| BadLineDirection.

Inductive recon_error :=
| InvalidLine (index : nat) (e : line_error)
| NoSourceID
| ReconQuery (code : string)
| FetchFailed (message : string)
| NegativeAge
| NoBalance
| BalanceFailed (message : string).

#[export] Instance line_error_eq_dec : EqDecision line_error.
Proof. solve_decision. Defined.
#[export] Instance recon_error_eq_dec : EqDecision recon_error.
Proof. solve_decision. Defined.

Definition validate_line (r : StatementLine) : option line_error :=
  if bool_decide (LID r = EmptyString) then Some NoLineID
  else if negb (Asset_Valid (LAsset r)) then Some BadLineAsset
  else if match LAmount r with None => true | Some a => a <=? 0 end then Some BadLineAmount
  else if negb (bool_decide (LDirection r = DUnknown)) && negb (bool_decide (LDirection r = DIn))
          && negb (bool_decide (LDirection r = DOut)) then Some BadLineDirection
  else None.

(** A row of recon_records; its key is (source, record_id). *)
Record ReconRow := {
  rr_reference : option string;
  rr_asset : Asset;
  rr_amount : Z;
  rr_direction : option string;
  occurred_at : option Instant;
  raw : option string;
  ingested_at : Instant;
  matched_count : Z;
  matched_at : option Instant;
}.

(** A row of recon_matches, in the order of its id. *)
Record MatchRow := {
  mt_source : string;
  mt_record : string;
  move_seq : Z;
  variance : Z;
  set_size : Z;
  rule : string;
  mt_at : Instant;
}.

Abbreviation line_key := (string * string)%type (only parsing).

Record Recon := {
  recon_sources : gmap string string;
  recon_records : gmap line_key ReconRow;
  recon_matches : list MatchRow;
}.

Definition no_recon : Recon := {| recon_sources := ∅; recon_records := ∅; recon_matches := [] |}.

Definition ExternalRefKey : string := "giro/external.ref".
Definition DefaultBoundaryPrefix : string := "external:".

Record Config := { BoundaryPrefix : string; Tolerance : option Z }.

Definition boundaryPrefix (c : Config) : string :=
  if bool_decide (BoundaryPrefix c = EmptyString) then DefaultBoundaryPrefix else BoundaryPrefix c.

Definition tolerance (c : Config) : Z := default 0 (Tolerance c).

(** ** Staging *)

(** The service's failures, by statement, and its clock. *)
Record ReconEnv := {
  rfault : nat -> option string;
  rnow : nat -> Instant;
}.

Definition run_stmt {A} (f : option string) (x : res recon_error A) : res recon_error A :=
  match f with Some code => Err (ReconQuery code) | None => x end.

(** [Register]: [on conflict (ledger, id) do nothing]. *)
Definition Register (E : ReconEnv) (id name : string) (R : Recon) : res recon_error unit * Recon :=
  if bool_decide (id = EmptyString) then (Err NoSourceID, R)
  else match run_stmt (rfault E 0)
               (when (negb (pg_text id && pg_text name)) (ReconQuery invalidText)) with
       | Err e => (Err e, R)
       | Ok _ =>
           (Ok tt, {| recon_sources := match recon_sources R !! id with
                                       | Some _ => recon_sources R
                                       | None => <[id := name]> (recon_sources R)
                                       end;
                      recon_records := recon_records R; recon_matches := recon_matches R |})
       end.

(** What one line is staged as. *)
Definition staged_row (r : StatementLine) (at_ : Instant) : ReconRow :=
  {| rr_reference := if bool_decide (LReference r = EmptyString) then None else Some (LReference r);
     rr_asset := LAsset r; rr_amount := default 0 (LAmount r);
     rr_direction := if bool_decide (LDirection r = EmptyString) then None else Some (LDirection r);
     occurred_at := if IsZero (LOccurredAt r) then None else Some (Truncate (UTC (LOccurredAt r)) microsecond);
     raw := if bool_decide (LRaw r = EmptyString) then None else Some (LRaw r);
     ingested_at := at_; matched_count := 0; matched_at := None |}.

Definition set_records (m : gmap line_key ReconRow) (R : Recon) : Recon :=
  {| recon_sources := recon_sources R; recon_records := m; recon_matches := recon_matches R |}.

Section staging.
(** PostgreSQL's json input: which texts it accepts. *)
Context (pg_json : string -> bool).

Definition line_text_ok (source : string) (r : StatementLine) : bool :=
  pg_text source && pg_text (LID r) && pg_text (LReference r) && pg_text (LRaw r).

Definition invalidTextRepresentation : string := "22P02".

(** One insert, [on conflict do nothing], and the rows it affected. *)
Definition stage (source : string) (at_ : Instant) (d : Database) (r : StatementLine) (R : Recon)
    : res recon_error (Z * Recon) :=
  if negb (line_text_ok source r) then Err (ReconQuery invalidText)
  else if negb (bool_decide (LRaw r = EmptyString) || pg_json (LRaw r)) then Err (ReconQuery invalidTextRepresentation)
  else match recon_records R !! (source, LID r) with
       | Some _ => Ok (0, R)
       | None =>
           if negb (bool_decide (is_Some (recon_sources R !! source))) || negb (registered d (LAsset r))
           then Err (ReconQuery foreignKeyViolation)
           else Ok (1, set_records (<[(source, LID r) := staged_row r at_]> (recon_records R)) R)
       end.

Fixpoint stage_lines (E : ReconEnv) (i : nat) (source : string) (d : Database) (rs : list StatementLine)
    (staged : Z) (R : Recon) : Z * res recon_error unit * Recon :=
  match rs with
  | [] => (staged, Ok tt, R)
  | r :: rs =>
      match run_stmt (rfault E i) (stage source (rnow E i) d r R) with
      | Err e => (staged, Err e, R)
      | Ok (n, R) => stage_lines E (S i) source d rs (staged + n) R
      end
  end.

Fixpoint first_invalid (i : nat) (rs : list StatementLine) : option recon_error :=
  match rs with
  | [] => None
  | r :: rs => match validate_line r with
               | Some e => Some (InvalidLine i e)
               | None => first_invalid (S i) rs
               end
  end.

(** [Ingest]: how many were staged, even when it then failed. *)
Definition Ingest (E : ReconEnv) (source : string) (d : Database) (rs : list StatementLine) (R : Recon)
    : Z * res recon_error unit * Recon :=
  match first_invalid 0 rs with
  | Some e => (0, Err e, R)
  | None => stage_lines E 0 source d rs 0 R
  end.

(** [Source]: its identifier and what it says happened since. *)
Record LineSource := {
  SourceID : string;
  SourceName : string;
  Fetch : Instant -> res string (list StatementLine);
}.

Definition Pull (E : ReconEnv) (s : LineSource) (since : Instant) (d : Database) (R : Recon)
    : Z * res recon_error unit * Recon :=
  match Fetch s since with
  | Err m => (0, Err (FetchFailed m), R)
  | Ok rs => Ingest E (SourceID s) d rs R
  end.
End staging.

(** ** Matching *)

Definition RuleExact : string := "exact_ref".
Definition RuleConsolidated : string := "consolidated_ref".

(** A staged line and a boundary movement its reference could name. *)
Record Candidate := {
  c_source : string;
  c_record : string;
  line_amount : Z;
  c_move : Z;
  move_amount : Z;
}.

Definition c_key (c : Candidate) : line_key := (c_source c, c_record c).
Definition mt_key (x : MatchRow) : line_key := (mt_source x, mt_record x).

Definition names_reference (t : TransactionRow) (ref : string) : bool :=
  bool_decide (reference t = Some ref) || bool_decide (tx_metadata t !! ExternalRefKey = Some ref).

Definition direction_agrees (direction : option string) (m : MoveRow) : bool :=
  match direction with
  | None => true
  | Some s => (bool_decide (s = DIn) && is_source m) || (bool_decide (s = DOut) && negb (is_source m))
  end.

Definition already_matched (ms : list MatchRow) (source : string) (move : Z) : bool :=
  existsb (fun x => bool_decide (mt_source x = source) && (move_seq x =? move)) ms.

Definition candidate (prefix : string) (d : Database) (ms : list MatchRow) (k : line_key) (r : ReconRow) (m : MoveRow)
    : option Candidate :=
  match rr_reference r, transactions d !! tx_id m with
  | Some ref, Some t =>
      if (matched_count r =? 0) && names_reference t ref && bool_decide ((move_key m).2 = rr_asset r)
         && like (String.append prefix "%") (move_key m).1 && direction_agrees (rr_direction r) m
         && negb (already_matched ms k.1 (seq m))
      then Some {| c_source := k.1; c_record := k.2; line_amount := rr_amount r;
                   c_move := seq m; move_amount := amount m |}
      else None
  | _, _ => None
  end.

Definition line_candidates (prefix : string) (d : Database) (R : Recon) (kr : line_key * ReconRow) : list Candidate :=
  omap (candidate prefix d (recon_matches R) kr.1 kr.2) (moves d).

Definition candidates (prefix : string) (d : Database) (R : Recon) : list Candidate :=
  map_to_list (recon_records R) ≫= line_candidates prefix d R.

(** [count( * )] and [sum(move_amount)] of a candidate's line. *)
Definition same_line (cs : list Candidate) (k : line_key) : list Candidate :=
  filter (fun x => c_key x = k) cs.
Definition sized (cs : list Candidate) (c : Candidate) : Z := Z.of_nat (length (same_line cs (c_key c))).
Definition total_of (cs : list Candidate) (c : Candidate) : Z := sumZ move_amount (same_line cs (c_key c)).

(** [order by c.move_seq, c.record_id] *)
Definition pick_le : relation Candidate := fun a b =>
  c_move a < c_move b \/ (c_move a = c_move b /\ String.le (c_record a) (c_record b)).

#[export] Instance pick_le_dec : RelDecision pick_le.
Proof. intros a b. unfold pick_le. apply _. Defined.

(** [distinct on (c.move_seq)]: the first row of each. *)
Fixpoint distinct_on (seen : list Z) (cs : list Candidate) : list Candidate :=
  match cs with
  | [] => []
  | c :: cs => if bool_decide (c_move c ∈ seen) then distinct_on seen cs
               else c :: distinct_on (c_move c :: seen) cs
  end.

Definition picks (cs : list Candidate) : list Candidate :=
  distinct_on [] (merge_sort pick_le (filter (fun c => sized cs c = 1) cs)).

Definition sets (cs : list Candidate) : list Candidate :=
  filter (fun c => 1 < sized cs c /\ total_of cs c = line_amount c) cs.

(** The insert into recon_matches under its unique index on (source,
    move_seq), and the update of recon_records it feeds. *)
Fixpoint insert_matches (new ms : list MatchRow) : res recon_error (list MatchRow) :=
  match new with
  | [] => Ok ms
  | x :: new => if already_matched ms (mt_source x) (move_seq x) then Err (ReconQuery uniqueViolation)
                else insert_matches new (ms ++ [x])
  end.

Definition matched (n : Z) (at_ : Instant) (r : ReconRow) : ReconRow :=
  {| rr_reference := rr_reference r; rr_asset := rr_asset r; rr_amount := rr_amount r;
     rr_direction := rr_direction r; occurred_at := occurred_at r; raw := raw r;
     ingested_at := ingested_at r; matched_count := n; matched_at := Some at_ |}.

Definition mark_records (at_ : Instant) (new : list MatchRow) (m : gmap line_key ReconRow) : gmap line_key ReconRow :=
  foldr (fun x m => alter (matched (set_size x) at_) (mt_key x) m) m new.

Definition record_pairs (at_ : Instant) (new : list MatchRow) (R : Recon) : res recon_error Recon :=
  let! ms := insert_matches new (recon_matches R) in
  Ok {| recon_sources := recon_sources R; recon_records := mark_records at_ new (recon_records R); recon_matches := ms |}.

Definition match_row (c : Candidate) (v n : Z) (rule : string) (at_ : Instant) : MatchRow :=
  {| mt_source := c_source c; mt_record := c_record c; move_seq := c_move c; variance := v; set_size := n;
     rule := rule; mt_at := at_ |}.

(** What the planner decides: the order a statement's candidates come in; and
    how the driver hands over an integer. Either is whatever it is. *)
Record Planner := {
  order : nat -> list Candidate -> list Candidate;
  wire : Z -> Numeric;
}.

Definition exact_rows (at_ : Instant) (cs : list Candidate) : list MatchRow :=
  (fun c => match_row c (line_amount c - move_amount c) 1 RuleExact at_) <$> picks cs.

Definition matchExact (E : ReconEnv) (P : Planner) (cfg : Config) (d : Database) (R : Recon)
    : res recon_error (Z * Z) * Recon :=
  let cs := order P 0 (candidates (boundaryPrefix cfg) d R) in
  match run_stmt (rfault E 0) (record_pairs (rnow E 0) (exact_rows (rnow E 0) cs) R) with
  | Err e => (Err e, R)
  | Ok R' =>
      let vs := (fun x => ScanNumeric (wire P (variance x))) <$> exact_rows (rnow E 0) cs in
      let over v := Z.abs (tolerance cfg) <? Z.abs v in
      (Ok (Z.of_nat (length (filter (fun v => over v = false) vs)), Z.of_nat (length (filter (fun v => over v = true) vs))), R')
  end.

Definition set_rows (at_ : Instant) (cs : list Candidate) : list MatchRow :=
  (fun c => match_row c 0 (sized cs c) RuleConsolidated at_) <$> sets cs.

Definition matchConsolidated (E : ReconEnv) (P : Planner) (cfg : Config) (d : Database) (R : Recon)
    : res recon_error Z * Recon :=
  let cs := order P 1 (candidates (boundaryPrefix cfg) d R) in
  match run_stmt (rfault E 1) (record_pairs (rnow E 1) (set_rows (rnow E 1) cs) R) with
  | Err e => (Err e, R)
  | Ok R' => (Ok (Z.of_nat (length (remove_dups (c_key <$> sets cs)))), R')
  end.

(** [Break] *)
Definition NoReference : string := "no_reference".
Definition NotFound : string := "reference_not_found".
Definition Ambiguous : string := "reference_ambiguous".
Definition Contested : string := "movement_already_matched".

Definition contested (d : Database) (R : Recon) (source : string) (ref : string) : bool :=
  existsb (fun x => bool_decide (mt_source x = source) &&
    existsb (fun m => (seq m =? move_seq x) &&
      match transactions d !! tx_id m with Some t => names_reference t ref | None => false end) (moves d)) (recon_matches R).

Definition reason (d : Database) (R : Recon) (cs : list Candidate) (kr : line_key * ReconRow) : string :=
  match rr_reference kr.2 with
  | None => NoReference
  | Some ref =>
      match same_line cs kr.1 with
      | [] => if contested d R kr.1.1 ref then Contested else NotFound
      | _ => Ambiguous
      end
  end.

Definition unmatched_rows (R : Recon) : list (line_key * ReconRow) :=
  map_to_list (filter (fun kr : line_key * ReconRow => matched_count kr.2 = 0) (recon_records R)).

(** [Summary.count] *)
Definition count (b : string) (n : Z) (m : gmap string Z) : gmap string Z := <[b := default 0 (m !! b) + n]> m.

Definition classify (E : ReconEnv) (P : Planner) (cfg : Config) (d : Database) (R : Recon)
    : res recon_error (gmap string Z) :=
  let cs := order P 2 (candidates (boundaryPrefix cfg) d R) in
  run_stmt (rfault E 2) (Ok (foldr (fun kr m => count (reason d R cs kr) 1 m) ∅ (unmatched_rows R))).

Record Summary := { Matched : Z; Variance : Z; Unmatched : gmap string Z }.

Definition Match (E : ReconEnv) (P : Planner) (cfg : Config) (d : Database) (R : Recon)
    : Summary * res recon_error unit * Recon :=
  let '(x, R) := matchExact E P cfg d R in
  match x with
  | Err e => ({| Matched := 0; Variance := 0; Unmatched := ∅ |}, Err e, R)
  | Ok (m, v) =>
      let '(y, R) := matchConsolidated E P cfg d R in
      match y with
      | Err e => ({| Matched := m; Variance := v; Unmatched := ∅ |}, Err e, R)
      | Ok m' =>
          match classify E P cfg d R with
          | Err e => ({| Matched := m + m'; Variance := v; Unmatched := ∅ |}, Err e, R)
          | Ok breaks =>
              ({| Matched := m + m'; Variance := v;
                  Unmatched := foldr (fun bn u => count bn.1 bn.2 u) ∅ (map_to_list breaks) |}, Ok tt, R)
          end
      end
  end.

(** ** What is left, and the position as a whole *)

Record StaleBreak := {
  SBSource : string;
  SBRecordID : string;
  SBReference : string;
  SBAsset : Asset;
  SBAmount : Z;
  SBSince : Instant;
}.

Definition stale_break (kr : line_key * ReconRow) : StaleBreak :=
  {| SBSource := kr.1.1; SBRecordID := kr.1.2; SBReference := default EmptyString (rr_reference kr.2);
     SBAsset := rr_asset kr.2; SBAmount := rr_amount kr.2; SBSince := ingested_at kr.2 |}.

(** [order by ingested_at, source, record_id] *)
Definition break_le : relation (line_key * ReconRow) := fun a b =>
  ingested_at a.2 < ingested_at b.2 \/
  (ingested_at a.2 = ingested_at b.2 /\
   (String.le a.1.1 b.1.1 /\ a.1.1 <> b.1.1 \/ (a.1.1 = b.1.1 /\ String.le a.1.2 b.1.2))).

#[export] Instance break_le_dec : RelDecision break_le.
Proof. intros a b. unfold break_le. apply _. Defined.

(** [Unmatched]: lines staged, and those left, oldest first; the clock is
    PostgreSQL's parameter, so truncated to its precision. *)
Definition find_unmatched (E : ReconEnv) (i : nat) (now_ : Instant) (olderThan : Z) (R : Recon)
    : Z * res recon_error (list StaleBreak) :=
  if olderThan <? 0 then (0, Err NegativeAge)
  else
    let cutoff := Truncate (now_ - olderThan) microsecond in
    let found := stale_break <$> merge_sort break_le
                   (filter (fun kr : line_key * ReconRow => (ingested_at kr.2 <? cutoff) = true) (unmatched_rows R)) in
    match run_stmt (rfault E i) (Ok tt) with
    | Err e => (0, Err e)
    | Ok _ => match run_stmt (rfault E (S i)) (Ok tt) with
              | Err e => (0, Err e)
              | Ok _ => (Z.of_nat (size (recon_records R)), Ok found)
              end
    end.

Definition Check_recon (E : ReconEnv) (P : Planner) (cfg : Config) (d : Database) (now_ : Instant) (olderThan : Z) (R : Recon)
    : Z * res recon_error (list StaleBreak) * Recon :=
  let '(_, r, R) := Match E P cfg d R in
  match r with
  | Err e => (0, Err e, R)
  | Ok _ => (find_unmatched E 3 now_ olderThan R, R)
  end.

Record BalanceComparison := {
  BCSource : string;
  BCAccount : Address;
  BCAsset : Asset;
  Ours : Z;
  Theirs : Z;
  Difference : Z;
}.

Definition Agrees (c : BalanceComparison) : bool := Z.sgn (Difference c) =? 0.

(** [CompareBalance]; the source's own figure is what it answers, or nothing. *)
Definition CompareBalance (fault : option string) (source : string) (answer : res string (option Z))
    (account : Address) (asset : Asset) (d : Database) : res recon_error BalanceComparison :=
  match answer with
  | Err m => Err (BalanceFailed m)
  | Ok None => Err NoBalance
  | Ok (Some theirs) =>
      let balance := match volumes d !! (account, asset) with
                     | Some r => Balance (volumes_of r)
                     | None => 0
                     end in
      run_stmt fault (Ok {| BCSource := source; BCAccount := account; BCAsset := asset;
                            Ours := - balance; Theirs := theirs; Difference := theirs - (- balance) |})
  end.
