(* ===== verification/Matching.v ===== *)
(** * What a matching run does

    The evidence of package recon -- a movement matched at most once per
    source, every line's count the number of its matches -- and that a run
    keeps it, accounts for every line and eventually has nothing left to do. *)

From S2P Require Import Prelude Identifiers Text Numeric Posting Volumes GoTime Transaction Codec Errors Schema Read Recon.

(** ** Lists with keys *)

Section keyed.
Context {A B : Type} `{!EqDecision B} (f : A -> B).
Implicit Types (l : list A) (x : A).

Definition with_key_of (b : B) l : list A := filter (fun y => f y = b) l.

Lemma one_of_NoDup l x : NoDup (f <$> l) -> x ∈ l -> length (with_key_of (f x) l) = 1%nat.
Proof.
  unfold with_key_of. induction l as [|y l IH]; [by intros _ ?%not_elem_of_nil|].
  rewrite fmap_cons, NoDup_cons, elem_of_cons, filter_cons. intros [Hn Hl] [-> | Hx].
  - rewrite decide_True by done. simpl. f_equal. apply length_zero_iff_nil, elem_of_nil_inv.
    intros z [Hz Hin]%list_elem_of_filter. apply Hn. rewrite <-Hz. by apply list_elem_of_fmap_2.
  - rewrite decide_False; [by apply IH|]. intros E. apply Hn. rewrite E. by apply list_elem_of_fmap_2.
Qed.

Lemma NoDup_of_one l : (forall x, x ∈ l -> (length (with_key_of (f x) l) <= 1)%nat) -> NoDup (f <$> l).
Proof.
  unfold with_key_of. induction l as [|y l IH]; intros H; [constructor|]. rewrite fmap_cons, NoDup_cons. split.
  - intros (z & Hz & Hin)%list_elem_of_fmap. specialize (H y (list_elem_of_here _ _)). rewrite filter_cons in H.
    rewrite decide_True in H by done. simpl in H.
    assert (z ∈ filter (fun x => f x = f y) l) as Hf by (by apply list_elem_of_filter).
    destruct (filter _ l); [by apply not_elem_of_nil in Hf|simpl in H; lia].
  - apply IH. intros x Hx. specialize (H x (list_elem_of_further _ _ _ Hx)). rewrite filter_cons in H.
    case_decide; simpl in H; lia.
Qed.

Lemma with_key_elem l x : x ∈ l -> (1 <= length (with_key_of (f x) l))%nat.
Proof.
  intros Hx. assert (x ∈ with_key_of (f x) l) as H by (by apply list_elem_of_filter).
  destruct (with_key_of _ l); [by apply not_elem_of_nil in H|simpl; lia].
Qed.

Lemma filter_iff_in (P Q : A -> Prop) `{!forall x, Decision (P x)} `{!forall x, Decision (Q x)} l :
  (forall x, x ∈ l -> P x <-> Q x) -> filter P l = filter Q l.
Proof.
  induction l as [|x l IH]; intros Hpq; [done|]. rewrite !filter_cons.
  rewrite IH by (intros y Hy; apply Hpq; by right). pose proof (Hpq x (list_elem_of_here _ _)).
  repeat case_decide; naive_solver.
Qed.

Lemma filter_sublist (P : A -> Prop) `{!forall x, Decision (P x)} l l' : sublist l l' -> sublist (filter P l) (filter P l').
Proof.
  induction 1 as [|x l l' _ IH|x l l' _ IH]; [done|..]; rewrite !filter_cons.
  - case_decide; [by apply sublist_skip|done].
  - case_decide; [by apply sublist_cons|done].
Qed.

End keyed.

Lemma with_key_fmap {A B C} `{EqDecision C} (g : A -> B) (f : B -> C) (c : C) (l : list A) :
  length (with_key_of f c (g <$> l)) = length (with_key_of (fun x => f (g x)) c l).
Proof.
  unfold with_key_of. induction l as [|x l IH]; [done|]. rewrite fmap_cons, !filter_cons.
  repeat case_decide; simpl; naive_solver.
Qed.

(** ** The two writes *)

Definition pair_of (x : MatchRow) : string * Z := (mt_source x, move_seq x).

Lemma already_matched_spec (ms : list MatchRow) s n : already_matched ms s n = true <-> (s, n) ∈ pair_of <$> ms.
Proof.
  unfold already_matched. rewrite existsb_exists, list_elem_of_fmap. split.
  - intros (x & Hx & [Hs%bool_decide_eq_true Hn%Z.eqb_eq]%andb_true_iff). exists x.
    by rewrite <-list_elem_of_In in Hx; unfold pair_of; rewrite Hs, Hn.
  - intros (x & E & Hx). exists x. rewrite <-list_elem_of_In. unfold pair_of in E. simplify_eq.
    by rewrite bool_decide_true, Z.eqb_refl.
Qed.

Lemma insert_matches_Ok (new ms ms' : list MatchRow) :
  insert_matches new ms = Ok ms' ->
  ms' = ms ++ new /\ (NoDup (pair_of <$> ms) -> NoDup (pair_of <$> ms')).
Proof.
  revert ms. induction new as [|x new IH]; intros ms; simpl; [intros [= <-]; by rewrite app_nil_r|].
  destruct (already_matched ms _ _) eqn:Ha; [done|]. intros (-> & Hnd)%IH. rewrite <-app_assoc in *. split; [done|].
  intros H. apply Hnd. rewrite fmap_app, NoDup_app. split_and!; [done| |apply NoDup_singleton].
  intros p Hp. simpl. intros ->%list_elem_of_singleton. apply not_true_iff_false in Ha. by rewrite already_matched_spec in Ha.
Qed.

Lemma insert_matches_total (new ms : list MatchRow) :
  NoDup (pair_of <$> ms ++ new) -> insert_matches new ms = Ok (ms ++ new).
Proof.
  revert ms. induction new as [|x new IH]; intros ms Hnd; simpl; [by rewrite app_nil_r|].
  assert (already_matched ms (mt_source x) (move_seq x) = false) as ->.
  { apply not_true_iff_false. rewrite already_matched_spec. rewrite fmap_app, NoDup_app in Hnd.
    intros Hin. apply (proj1 (proj2 Hnd) _ Hin). rewrite fmap_cons. apply list_elem_of_here. }
  rewrite IH; rewrite <-app_assoc; done.
Qed.

Lemma mark_records_lookup (at_ : Instant) (new : list MatchRow) (m : gmap line_key ReconRow) k n :
  (forall x, x ∈ new -> mt_key x = k -> set_size x = n) ->
  mark_records at_ new m !! k = if decide (k ∈ mt_key <$> new) then matched n at_ <$> m !! k else m !! k.
Proof.
  induction new as [|x new IH]; intros Hn; [by rewrite decide_False by apply not_elem_of_nil|]. simpl.
  assert (forall y, y ∈ new -> mt_key y = k -> set_size y = n) as Hn' by (intros y Hy; apply Hn; by right).
  destruct (decide (mt_key x = k)) as [E|Hne].
  - rewrite <-E, lookup_alter_eq, E, IH by done. rewrite (Hn x (list_elem_of_here _ _) E).
    repeat case_decide; try done; [by destruct (m !! k)|set_solver|set_solver].
  - rewrite lookup_alter_ne, IH by done. repeat case_decide; set_solver.
Qed.

(** ** Evidence *)

Record evidence (d : Database) (R : Recon) : Prop := {
  ev_once : NoDup (pair_of <$> recon_matches R);
  ev_moves : forall x, x ∈ recon_matches R -> exists m, m ∈ moves d /\ seq m = move_seq x;
  ev_staged : forall x, x ∈ recon_matches R ->
    exists r, recon_records R !! mt_key x = Some r /\ set_size x = matched_count r;
  ev_count : forall k r, recon_records R !! k = Some r ->
    matched_count r = Z.of_nat (length (with_key_of mt_key k (recon_matches R)));
}.

(** Rows about to be inserted: of unmatched lines and known movements, each
    carrying the size of its set. *)
Definition fresh_rows (d : Database) (R : Recon) (new : list MatchRow) : Prop :=
  forall x, x ∈ new ->
    (exists r, recon_records R !! mt_key x = Some r /\ matched_count r = 0) /\
    (exists m, m ∈ moves d /\ seq m = move_seq x) /\
    set_size x = Z.of_nat (length (with_key_of mt_key (mt_key x) new)).

(** What [record_pairs] leaves. *)
Record recorded_pairs (at_ : Instant) (new : list MatchRow) (R R' : Recon) : Prop := {
  rp_sources : recon_sources R' = recon_sources R;
  rp_matches : recon_matches R' = recon_matches R ++ new;
  rp_once : NoDup (pair_of <$> recon_matches R) -> NoDup (pair_of <$> recon_matches R');
  rp_records : forall k, recon_records R' !! k =
    if decide (k ∈ mt_key <$> new)
    then matched (Z.of_nat (length (with_key_of mt_key k new))) at_ <$> recon_records R !! k
    else recon_records R !! k;
}.

Lemma record_pairs_Ok d (at_ : Instant) (new : list MatchRow) R R' :
  fresh_rows d R new -> record_pairs at_ new R = Ok R' -> recorded_pairs at_ new R R'.
Proof.
  intros Hf. unfold record_pairs. intros H. inv_ok. match goal with H : insert_matches _ _ = Ok _ |- _ => apply insert_matches_Ok in H as [-> Hnd] end.
  split; simpl; [done|done|done|]. intros k. apply mark_records_lookup. intros x Hx <-. by apply Hf.
Qed.

Lemma recorded_keeps d (at_ : Instant) (new : list MatchRow) R R' :
  fresh_rows d R new -> recorded_pairs at_ new R R' -> evidence d R -> evidence d R'.
Proof.
  intros Hf [_ Hm Hnd Hr] [Honce Hmv Hst Hc]. split; [by apply Hnd|..].
  - rewrite Hm. intros x [Hx|Hx]%elem_of_app; [by apply Hmv|by apply Hf].
  - rewrite Hm. intros x [Hx|Hx]%elem_of_app; rewrite Hr.
    + destruct (Hst x Hx) as (r & Hrx & Hs). exists r. case_decide as Hin; [exfalso|done].
      apply list_elem_of_fmap in Hin as (y & E & Hy). destruct (Hf y Hy) as ((r' & Hr' & Hz) & _).
      rewrite <-E, Hrx in Hr'. injection Hr' as <-. specialize (Hc _ _ Hrx). rewrite Hz in Hc.
      pose proof (with_key_elem mt_key _ _ Hx). lia.
    + destruct (Hf x Hx) as ((r & Hrx & _) & _ & Hs). rewrite decide_True by (by apply list_elem_of_fmap_2).
      rewrite Hrx. by eexists.
  - intros k r. rewrite Hr, Hm. unfold with_key_of in *. rewrite filter_app, length_app, Nat2Z.inj_add.
    case_decide as Hin.
    + intros (r0 & Hr0 & ->)%fmap_Some. apply list_elem_of_fmap in Hin as (y & -> & Hy).
      destruct (Hf y Hy) as ((r' & Hr' & Hz) & _). assert (r' = r0) as -> by congruence.
      pose proof (Hc _ _ Hr') as Hc'. rewrite Hz in Hc'. simpl. lia.
    + intros Hr0. rewrite (Hc _ _ Hr0). assert (filter (fun y => mt_key y = k) new = []) as ->; [|simpl; lia].
      apply elem_of_nil_inv. intros y [<- Hy]%list_elem_of_filter. apply Hin. by apply list_elem_of_fmap_2.
Qed.

(** ** Candidates *)

(** A movement a line may be paired with: its transaction carries the line's
    reference, and it moved the line's asset on a boundary account, the way
    the line says if it says. *)
Record pairs_up (prefix : string) (d : Database) (r : ReconRow) (m : MoveRow) : Prop := {
  pu_reference : exists ref t, rr_reference r = Some ref /\ transactions d !! tx_id m = Some t /\
    (reference t = Some ref \/ tx_metadata t !! ExternalRefKey = Some ref);
  pu_asset : (move_key m).2 = rr_asset r;
  pu_boundary : like (String.append prefix "%") (move_key m).1 = true;
  pu_direction : direction_agrees (rr_direction r) m = true;
}.

Lemma candidate_Some prefix d (ms : list MatchRow) k r m c :
  candidate prefix d ms k r m = Some c ->
  pairs_up prefix d r m /\ matched_count r = 0 /\ already_matched ms k.1 (seq m) = false /\
  c = {| c_source := k.1; c_record := k.2; line_amount := rr_amount r; c_move := seq m; move_amount := amount m |}.
Proof.
  unfold candidate. destruct (rr_reference r) as [ref|] eqn:Hr; [|done].
  destruct (transactions d !! tx_id m) as [t|] eqn:Ht; [|done].
  destruct (_ && _) eqn:Hb; [|done]. intros [= <-].
  rewrite !andb_true_iff, bool_decide_eq_true, negb_true_iff, Z.eqb_eq in Hb. destruct Hb as (((((H0 & Hn) & Ha) & Hl) & Hd) & Hm).
  split; [|done]. split; [|done..]. exists ref, t. split_and!; [done|done|].
  unfold names_reference in Hn. rewrite orb_true_iff, !bool_decide_eq_true in Hn. done.
Qed.

Lemma elem_of_candidates prefix d R c :
  c ∈ candidates prefix d R <->
  exists k r m, recon_records R !! k = Some r /\ m ∈ moves d /\ candidate prefix d (recon_matches R) k r m = Some c.
Proof.
  unfold candidates, line_candidates. rewrite list_elem_of_bind. setoid_rewrite list_elem_of_omap. split.
  - intros ([k r] & (m & Hm & Hc) & Hin%elem_of_map_to_list). by exists k, r, m.
  - intros (k & r & m & Hr & Hm & Hc). exists (k, r). rewrite elem_of_map_to_list. naive_solver.
Qed.

Lemma candidate_facts prefix d R c :
  c ∈ candidates prefix d R ->
  exists r m, recon_records R !! c_key c = Some r /\ matched_count r = 0 /\ m ∈ moves d /\ seq m = c_move c /\
    pairs_up prefix d r m /\ line_amount c = rr_amount r /\ move_amount c = amount m /\
    already_matched (recon_matches R) (c_source c) (c_move c) = false.
Proof.
  rewrite elem_of_candidates. intros ([s i] & r & m & Hr & Hm & (Hp & H0 & Ha & ->)%candidate_Some). by exists r, m.
Qed.

(** ** The two selections *)

Lemma elem_of_distinct_on (seen : list Z) cs c : c ∈ distinct_on seen cs -> c ∈ cs /\ c_move c ∉ seen.
Proof.
  revert seen. induction cs as [|x cs IH]; intros seen; [by intros ?%not_elem_of_nil|]. simpl.
  case_bool_decide as Hx; [intros [? ?]%IH; split; [by right|done]|].
  intros [-> |[Hin Hn]%IH]%elem_of_cons; split; [by left|done|by right|]. set_solver.
Qed.

Lemma distinct_on_NoDup (seen : list Z) cs : NoDup (c_move <$> distinct_on seen cs).
Proof.
  revert seen. induction cs as [|x cs IH]; intros seen; [constructor|]. simpl.
  case_bool_decide; [done|]. rewrite fmap_cons. constructor; [|done].
  intros (y & E & [_ Hy]%elem_of_distinct_on)%list_elem_of_fmap. rewrite E in Hy. set_solver.
Qed.

Lemma distinct_on_sublist (seen : list Z) cs : distinct_on seen cs `sublist_of` cs.
Proof.
  revert seen. induction cs as [|x cs IH]; intros seen; [done|]. simpl.
  case_bool_decide; [by apply sublist_cons|by apply sublist_skip].
Qed.

Lemma elem_of_picks cs c : c ∈ picks cs -> c ∈ cs /\ sized cs c = 1.
Proof.
  unfold picks. intros [Hin _]%elem_of_distinct_on. rewrite merge_sort_Permutation in Hin.
  by apply list_elem_of_filter in Hin as [? ?].
Qed.

Lemma picks_nil cs : picks cs = [] <-> forall c, c ∈ cs -> sized cs c <> 1.
Proof.
  unfold picks. split.
  - intros Hn c Hc Hs. assert (c ∈ merge_sort pick_le (filter (fun c => sized cs c = 1) cs)) as Hin.
    { rewrite merge_sort_Permutation. by apply list_elem_of_filter. }
    destruct (merge_sort _ _) as [|x l]; [by apply not_elem_of_nil in Hin|done].
  - intros H. assert (filter (fun c => sized cs c = 1) cs = []) as ->; [|done].
    apply elem_of_nil_inv. intros c [Hs Hc]%list_elem_of_filter. by apply (H c).
Qed.

Lemma picks_keys cs : NoDup (c_key <$> picks cs).
Proof.
  unfold picks. eapply sublist_NoDup; [|apply fmap_sublist, distinct_on_sublist]. rewrite merge_sort_Permutation.
  apply NoDup_of_one. intros c [Hs Hc]%list_elem_of_filter. unfold sized, same_line in Hs. unfold with_key_of.
  etrans; [|apply Nat.eq_le_incl, Nat2Z.inj, Hs]. apply sublist_length, filter_sublist, sublist_filter.
Qed.

Lemma exact_rows_pairs at_ cs x :
  x ∈ exact_rows at_ cs -> exists c, c ∈ picks cs /\ x = match_row c (line_amount c - move_amount c) 1 RuleExact at_.
Proof. unfold exact_rows. intros (c & -> & Hc)%list_elem_of_fmap. eauto. Qed.

Lemma set_rows_pairs at_ cs x :
  x ∈ set_rows at_ cs -> exists c, c ∈ sets cs /\ x = match_row c 0 (sized cs c) RuleConsolidated at_.
Proof. unfold set_rows. intros (c & -> & Hc)%list_elem_of_fmap. eauto. Qed.

Section selections.
Context (prefix : string) (d : Database) (R : Recon) (at_ : Instant) (cs : list Candidate).
Context (Hcs : cs ≡ₚ candidates prefix d R).

Lemma row_of_candidate c v n ru :
  c ∈ cs ->
  (exists r, recon_records R !! mt_key (match_row c v n ru at_) = Some r /\ matched_count r = 0) /\
  (exists m, m ∈ moves d /\ seq m = move_seq (match_row c v n ru at_)).
Proof.
  rewrite Hcs. intros (r & m & Hr & H0 & Hm & Hq & _)%candidate_facts. split; [by exists r|by exists m].
Qed.

Lemma exact_fresh : fresh_rows d R (exact_rows at_ cs).
Proof.
  intros x (c & Hc & ->)%exact_rows_pairs. pose proof (elem_of_picks _ _ Hc) as [Hin _].
  destruct (row_of_candidate c (line_amount c - move_amount c) 1 RuleExact Hin) as [Hr Hm]. split_and!; [done|done|].
  rewrite (one_of_NoDup mt_key); [done| |].
  - unfold exact_rows. rewrite <-list_fmap_compose. apply (picks_keys cs).
  - unfold exact_rows. by apply (list_elem_of_fmap_2 (fun c => match_row c (line_amount c - move_amount c) 1 RuleExact at_)).
Qed.

Lemma set_fresh : fresh_rows d R (set_rows at_ cs).
Proof.
  intros x (c & Hc & ->)%set_rows_pairs. pose proof Hc as [[Hn Hs] Hin]%list_elem_of_filter.
  destruct (row_of_candidate c 0 (sized cs c) RuleConsolidated Hin) as [Hr Hm]. split_and!; [done|done|].
  cbn [set_size match_row]. unfold sized at 1, same_line. f_equal. unfold set_rows. rewrite with_key_fmap.
  unfold with_key_of, sets. rewrite list_filter_filter. f_equal.
  apply filter_iff_in. intros y Hy. change (mt_key (match_row y _ _ _ _)) with (c_key y).
  change (mt_key (match_row c _ _ _ _)) with (c_key c). split; [|naive_solver]. intros E'. split; [done|].
  unfold sized, total_of. rewrite E'. split; [done|]. unfold total_of in Hs. rewrite Hs. rewrite Hcs in Hy, Hin. apply candidate_facts in Hy as (r & _ & Hr1 & _ & _ & _ & _ & -> & _).
  apply candidate_facts in Hin as (r' & _ & Hr2 & _ & _ & _ & _ & -> & _). rewrite E', Hr2 in Hr1. by injection Hr1 as ->.
Qed.

(** The rows of the exact pass never collide. *)
Lemma exact_total :
  NoDup (pair_of <$> recon_matches R) -> exists R', record_pairs at_ (exact_rows at_ cs) R = Ok R'.
Proof.
  intros Hnd. unfold record_pairs. rewrite insert_matches_total; [by eexists|]. rewrite fmap_app, NoDup_app. split_and!; [done| |].
  - intros p Hp (x & -> & (c & [Hin _]%elem_of_picks & ->)%exact_rows_pairs)%list_elem_of_fmap.
    rewrite Hcs in Hin. apply candidate_facts in Hin as (_ & _ & _ & _ & _ & _ & _ & _ & _ & Ha).
    apply not_true_iff_false in Ha. by rewrite already_matched_spec in Ha.
  - assert (NoDup ((fun p : string * Z => p.2) <$> (pair_of <$> exact_rows at_ cs))) as H; [|by apply NoDup_fmap_1 in H].
    unfold exact_rows. rewrite <-!list_fmap_compose. apply distinct_on_NoDup.
Qed.

End selections.

(** ** The steps of a run *)

(** Any order of rows, any way of writing an integer. *)
Record fair (P : Planner) : Prop := {
  fair_order : forall n (cs : list Candidate), order P n cs ≡ₚ cs;
  fair_wire : forall z, stands_for (wire P z) z;
}.

Lemma recorded_none at_ R : recorded_pairs at_ [] R R.
Proof.
  split; [done|by rewrite app_nil_r|done|]. intros k. by rewrite decide_False by apply not_elem_of_nil.
Qed.

Definition exact_candidates (P : Planner) cfg d R : list Candidate := order P 0 (candidates (boundaryPrefix cfg) d R).
Definition set_candidates (P : Planner) cfg d R : list Candidate := order P 1 (candidates (boundaryPrefix cfg) d R).

Definition over (cfg : Config) (v : Z) : bool := Z.abs (tolerance cfg) <? Z.abs v.

Lemma matchExact_cases E P cfg d R x R' :
  fair P -> matchExact E P cfg d R = (x, R') ->
  match x with
  | Err _ => R' = R
  | Ok (m, v) =>
      let new := exact_rows (rnow E 0) (exact_candidates P cfg d R) in
      fresh_rows d R new /\ recorded_pairs (rnow E 0) new R R' /\
      v = Z.of_nat (length (filter (fun x => over cfg (variance x) = true) new)) /\ m + v = Z.of_nat (length new)
  end.
Proof.
  intros [Hord Hwire] H. unfold matchExact in H. fold (exact_candidates P cfg d R) in H.
  set (new := exact_rows (rnow E 0) (exact_candidates P cfg d R)) in *.
  assert (fresh_rows d R new) as Hf by (eapply exact_fresh, Hord).
  unfold run_stmt in H. destruct (rfault E 0) as [code|]; [by simplify_eq|].
  destruct (record_pairs _ new R) as [R1|e] eqn:Hr; [|by simplify_eq]. simplify_eq. split_and!; [done|by eapply record_pairs_Ok|..].
  all: clear - Hwire; induction new as [|x new IH]; [done|]; rewrite fmap_cons, !filter_cons;
    rewrite (ScanNumeric_exact _ _ (Hwire _)); unfold over in *; repeat case_decide; simpl in *; try lia; congruence.
Qed.

Lemma matchConsolidated_cases E P cfg d R x R' :
  fair P -> matchConsolidated E P cfg d R = (x, R') ->
  match x with
  | Err _ => R' = R
  | Ok n =>
      let new := set_rows (rnow E 1) (set_candidates P cfg d R) in
      fresh_rows d R new /\ recorded_pairs (rnow E 1) new R R' /\ n = Z.of_nat (length (remove_dups (mt_key <$> new)))
  end.
Proof.
  intros [Hord Hwire] H. unfold matchConsolidated in H. fold (set_candidates P cfg d R) in H.
  set (new := set_rows (rnow E 1) (set_candidates P cfg d R)) in *.
  assert (fresh_rows d R new) as Hf by (eapply set_fresh, Hord).
  unfold run_stmt in H. destruct (rfault E 1) as [code|]; [by simplify_eq|].
  destruct (record_pairs _ new R) as [R1|e] eqn:Hr; [|by simplify_eq]. simplify_eq. split_and!; [done|by eapply record_pairs_Ok|].
  unfold new, set_rows. by rewrite <-list_fmap_compose.
Qed.

(** ** Counting lines *)

Definition unmatched (R : Recon) : gset line_key :=
  dom (filter (fun kr : line_key * ReconRow => matched_count kr.2 = 0) (recon_records R)).

Lemma elem_of_unmatched R k : k ∈ unmatched R <-> exists r, recon_records R !! k = Some r /\ matched_count r = 0.
Proof. unfold unmatched. rewrite elem_of_dom. unfold is_Some. setoid_rewrite map_lookup_filter_Some. done. Qed.

Lemma size_unmatched R : size (unmatched R) = length (unmatched_rows R).
Proof. unfold unmatched, unmatched_rows. by rewrite length_map_to_list, size_dom. Qed.

Lemma unmatched_recorded d at_ (new : list MatchRow) R R' :
  fresh_rows d R new -> recorded_pairs at_ new R R' ->
  unmatched R' = unmatched R ∖ list_to_set (mt_key <$> new) /\ list_to_set (mt_key <$> new) ⊆ unmatched R.
Proof.
  intros Hf Hr. split.
  - apply set_eq. intros k. rewrite elem_of_difference, !elem_of_unmatched, elem_of_list_to_set, (rp_records _ _ _ _ Hr).
    case_decide as Hin; [|naive_solver]. split; [|naive_solver].
    intros (r & (r0 & _ & ->)%fmap_Some & H0). exfalso. simpl in H0. apply list_elem_of_fmap in Hin as (x & -> & Hx).
    pose proof (with_key_elem mt_key _ _ Hx). lia.
  - intros k. rewrite elem_of_list_to_set, elem_of_unmatched. intros (x & -> & Hx)%list_elem_of_fmap. by apply Hf.
Qed.

Lemma size_of_keys (l : list line_key) : size (list_to_set l : gset line_key) = length (remove_dups l).
Proof.
  rewrite <-(size_list_to_set (C := gset line_key) (remove_dups l)) by apply NoDup_remove_dups.
  f_equal. apply set_eq. intros k. by rewrite !elem_of_list_to_set, elem_of_remove_dups.
Qed.

Lemma unmatched_less d at_ (new : list MatchRow) R R' :
  fresh_rows d R new -> recorded_pairs at_ new R R' ->
  (size (unmatched R) = size (unmatched R') + length (remove_dups (mt_key <$> new)))%nat.
Proof.
  intros Hf Hr. destruct (unmatched_recorded _ _ _ _ _ Hf Hr) as [-> Hsub].
  rewrite <-size_of_keys, size_difference by done. pose proof (subseteq_size _ _ Hsub). lia.
Qed.

Lemma exact_keys at_ cs : length (remove_dups (mt_key <$> exact_rows at_ cs)) = length (exact_rows at_ cs).
Proof.
  assert (NoDup (mt_key <$> exact_rows at_ cs)) as Hnd.
  { unfold exact_rows. rewrite <-list_fmap_compose. apply (picks_keys cs). }
  rewrite <-(length_fmap mt_key (exact_rows at_ cs)). induction Hnd as [|k l Hk Hnd IH]; [done|].
  simpl. destruct (decide_rel _ k l); [done|]. simpl. by rewrite IH.
Qed.

Definition total_count (m : gmap string Z) : Z := map_sum (fun _ n => n) m.

Lemma count_total b n m : total_count (count b n m) = total_count m + n.
Proof. unfold total_count, count. rewrite map_sum_insert. destruct (m !! b); simpl; lia. Qed.

Lemma counts_total {A} (f : A -> string) (l : list A) :
  total_count (foldr (fun x m => count (f x) 1 m) ∅ l) = Z.of_nat (length l).
Proof. induction l as [|x l IH]; [done|]. simpl. rewrite count_total, IH. lia. Qed.

Lemma recount_total (m : gmap string Z) :
  total_count (foldr (fun bn u => count bn.1 bn.2 u) ∅ (map_to_list m)) = total_count m.
Proof.
  unfold total_count at 2, map_sum. induction (map_to_list m) as [|x l IH]; [done|]. simpl. rewrite count_total, IH. lia.
Qed.

(** ** Every line is accounted for *)

(** A run accounts for every line. Whatever the planner and the driver do,
    each line unmatched before a run is counted exactly once in its summary:
    matched, a variance, or one of the reasons; and the reasons add up to the
    lines left unmatched. *)
Theorem match_accounts (E : ReconEnv) (P : Planner) (cfg : Config) (d : Database) (R : Recon) (sum : Summary) (R' : Recon) :
  fair P -> Match E P cfg d R = (sum, Ok tt, R') ->
  Matched sum + Variance sum + total_count (Unmatched sum) = Z.of_nat (size (unmatched R)) /\
  total_count (Unmatched sum) = Z.of_nat (size (unmatched R')).
Proof.
  intros HP H. unfold Match in H. destruct (matchExact E P cfg d R) as [[[m v]|e] R1] eqn:He; [|by simplify_eq].
  destruct (matchConsolidated E P cfg d R1) as [[n|e] R2] eqn:Hc; [|by simplify_eq].
  unfold classify, run_stmt in H. destruct (rfault E 2) as [code|]; simplify_eq.
  apply matchExact_cases in He as (Hf1 & Hr1 & _ & Hmv); [|done].
  apply matchConsolidated_cases in Hc as (Hf2 & Hr2 & ->); [|done].
  pose proof (unmatched_less _ _ _ _ _ Hf1 Hr1) as H1. rewrite exact_keys in H1.
  pose proof (unmatched_less _ _ _ _ _ Hf2 Hr2) as H2.
  cbn [Matched Variance Unmatched]. rewrite recount_total, counts_total, <-size_unmatched. lia.
Qed.

(** ** What a run records *)

Lemma match_cases E P cfg d R sum x R' :
  fair P -> Match E P cfg d R = (sum, x, R') ->
  exists new1 R1 new2,
    (new1 = [] \/ new1 = exact_rows (rnow E 0) (exact_candidates P cfg d R)) /\
    fresh_rows d R new1 /\ recorded_pairs (rnow E 0) new1 R R1 /\
    Variance sum = Z.of_nat (length (filter (fun x => over cfg (variance x) = true) new1)) /\
    (new2 = [] \/ new2 = set_rows (rnow E 1) (set_candidates P cfg d R1)) /\
    fresh_rows d R1 new2 /\ recorded_pairs (rnow E 1) new2 R1 R'.
Proof.
  intros HP H. unfold Match in H.
  assert (forall R, fresh_rows d R []) as Hnil by (intros ? ? []%not_elem_of_nil).
  destruct (matchExact E P cfg d R) as [[[m v]|e] R1] eqn:He; apply matchExact_cases in He; [|done| |done].
  2:{ subst R1. injection H as <- <- <-. exists [], R, []. split_and!; eauto using recorded_none. }
  destruct He as (Hf1 & Hr1 & Hv & _).
  destruct (matchConsolidated E P cfg d R1) as [[n|e] R2] eqn:Hc; apply matchConsolidated_cases in Hc; [|done| |done].
  - destruct Hc as (Hf2 & Hr2 & _). do 3 eexists. split_and!; [by right|done|done| |by right|done|].
    + destruct (classify _ _ _ _ _); by simplify_eq.
    + destruct (classify _ _ _ _ _); by simplify_eq.
  - simplify_eq. do 3 eexists. split_and!; [by right|done|done|done|by left|done|apply recorded_none].
Qed.

(** What the movement of a match moved. *)
Definition moved (d : Database) (x : MatchRow) : Z := sumZ amount (filter (fun m => seq m = move_seq x) (moves d)).

Lemma moved_at d (m : MoveRow) x : NoDup (seq <$> moves d) -> m ∈ moves d -> seq m = move_seq x -> moved d x = amount m.
Proof.
  unfold moved. intros Hnd Hm <-. revert Hnd Hm. induction (moves d) as [|y l IH]; [by intros _ ?%not_elem_of_nil|].
  rewrite fmap_cons, NoDup_cons, elem_of_cons, filter_cons. intros [Hn Hl] [-> | Hx].
  - rewrite decide_True by done. rewrite sumZ_cons. assert (filter (fun m => seq m = seq y) l = []) as ->; [|simpl; lia].
    apply elem_of_nil_inv. intros z [Hz Hin]%list_elem_of_filter. apply Hn. rewrite <-Hz. by apply list_elem_of_fmap_2.
  - rewrite decide_False; [by apply IH|]. intros E. apply Hn. rewrite E. by apply list_elem_of_fmap_2.
Qed.

(** One pairing is justified: the line's only candidate, with the difference
    written down; or part of a set that adds up to the line. *)
Record justified (prefix : string) (d : Database) (R : Recon) (new : list MatchRow) (x : MatchRow) : Prop := {
  ju_pair : exists r m, recon_records R !! mt_key x = Some r /\ matched_count r = 0 /\
    m ∈ moves d /\ seq m = move_seq x /\ pairs_up prefix d r m /\
    match with_key_of mt_key (mt_key x) new with
    | [_] => rule x = RuleExact /\ variance x = rr_amount r - amount m
    | set => rule x = RuleConsolidated /\ variance x = 0 /\ sumZ (moved d) set = rr_amount r
    end;
}.

Lemma justified_exact (E : ReconEnv) P cfg d R at_ x :
  fair P -> x ∈ exact_rows at_ (exact_candidates P cfg d R) ->
  justified (boundaryPrefix cfg) d R (exact_rows at_ (exact_candidates P cfg d R)) x.
Proof.
  intros [Hord _] Hx. set (cs := exact_candidates P cfg d R) in *.
  assert (cs ≡ₚ candidates (boundaryPrefix cfg) d R) as Hcs by apply Hord.
  pose proof (exact_fresh _ d R at_ cs Hcs x Hx) as (_ & _ & Hs). pose proof Hx as (c & Hc & ->)%exact_rows_pairs.
  pose proof Hc as [Hin _]%elem_of_picks. rewrite Hcs in Hin.
  apply candidate_facts in Hin as (r & m & Hr & H0 & Hm & Hq & Hp & Hl & Ha & _). split. exists r, m.
  split_and!; [done..|]. cbn [set_size match_row] in Hs. destruct (with_key_of _ _ _) as [|y [|z l]]; [done| |simpl in Hs; lia].
  simpl. by rewrite Hl, Ha.
Qed.

Lemma justified_set P cfg d R at_ x :
  fair P -> NoDup (seq <$> moves d) -> x ∈ set_rows at_ (set_candidates P cfg d R) ->
  justified (boundaryPrefix cfg) d R (set_rows at_ (set_candidates P cfg d R)) x.
Proof.
  intros [Hord _] Hnd Hx. set (cs := set_candidates P cfg d R) in *.
  assert (cs ≡ₚ candidates (boundaryPrefix cfg) d R) as Hcs by apply Hord.
  pose proof (set_fresh _ d R at_ cs Hcs x Hx) as (_ & _ & Hs). pose proof Hx as (c & Hc & ->)%set_rows_pairs.
  pose proof Hc as [[Hn Ht] Hin]%list_elem_of_filter. pose proof Hin as Hin'. rewrite Hcs in Hin'.
  apply candidate_facts in Hin' as (r & m & Hr & H0 & Hm & Hq & Hp & Hl & _). split. exists r, m. split_and!; [done..|].
  assert (sumZ (moved d) (with_key_of mt_key (mt_key (match_row c 0 (sized cs c) RuleConsolidated at_)) (set_rows at_ cs)) = rr_amount r) as Hsum.
  { rewrite <-Hl, <-Ht. unfold total_of, set_rows, same_line. clear Hs Hx Hc.
    transitivity (sumZ move_amount (with_key_of c_key (c_key c) (sets cs))).
    - assert (forall y, y ∈ sets cs -> y ∈ candidates (boundaryPrefix cfg) d R) as Hall.
      { intros y [_ Hy]%list_elem_of_filter. by rewrite <-Hcs. }
      revert Hall. unfold with_key_of. induction (sets cs) as [|y l IH]; intros Hall; [done|]. rewrite fmap_cons, !filter_cons.
      change (mt_key (match_row y _ _ _ _)) with (c_key y). change (mt_key (match_row c _ _ _ _)) with (c_key c) in *.
      specialize (IH ltac:(intros z Hz; apply Hall; by right)). case_decide; [|done]. rewrite !sumZ_cons, IH. f_equal.
      destruct (candidate_facts _ _ _ _ (Hall y (list_elem_of_here _ _))) as (_ & m' & _ & _ & Hm' & Hq' & _ & _ & -> & _).
      by apply moved_at.
    - unfold with_key_of, sets. rewrite list_filter_filter. f_equal. apply filter_iff_in. intros y Hy. split; [naive_solver|].
      intros E. split; [done|]. unfold sized, total_of. rewrite E. split; [done|]. unfold total_of in Ht. rewrite Ht, Hl.
      rewrite Hcs in Hy. apply candidate_facts in Hy as (r' & _ & Hr' & _ & _ & _ & _ & -> & _).
      rewrite E in Hr'. change (mt_key (match_row c _ _ _ _)) with (c_key c) in Hr. congruence. }
  cbn [set_size match_row] in Hs. destruct (with_key_of _ _ _) as [|y [|z l]]; [simpl in Hs; lia|simpl in Hs; lia|].
  done.
Qed.

Lemma with_key_app_l {A B} `{EqDecision B} (f : A -> B) b (l1 l2 : list A) :
  b ∉ f <$> l2 -> with_key_of f b (l1 ++ l2) = with_key_of f b l1.
Proof.
  intros Hb. unfold with_key_of. rewrite filter_app. assert (filter (fun y => f y = b) l2 = []) as ->; [|apply app_nil_r].
  apply elem_of_nil_inv. intros z [<- Hz]%list_elem_of_filter. apply Hb. by apply list_elem_of_fmap_2.
Qed.

Lemma with_key_app_r {A B} `{EqDecision B} (f : A -> B) b (l1 l2 : list A) :
  b ∉ f <$> l1 -> with_key_of f b (l1 ++ l2) = with_key_of f b l2.
Proof.
  intros Hb. unfold with_key_of. rewrite filter_app. assert (filter (fun y => f y = b) l1 = []) as ->; [|done].
  apply elem_of_nil_inv. intros z [<- Hz]%list_elem_of_filter. apply Hb. by apply list_elem_of_fmap_2.
Qed.

(** A line the first write matched is no longer unmatched for the second. *)
Lemma second_write d at_ (new1 new2 : list MatchRow) R R1 k :
  fresh_rows d R new1 -> recorded_pairs at_ new1 R R1 -> fresh_rows d R1 new2 ->
  k ∈ mt_key <$> new2 -> (k ∉ mt_key <$> new1) /\ recon_records R1 !! k = recon_records R !! k.
Proof.
  intros Hf1 Hr1 Hf2 (y & -> & Hy)%list_elem_of_fmap. destruct (Hf2 y Hy) as ((r & Hr & H0) & _).
  rewrite (rp_records _ _ _ _ Hr1) in Hr |- *. case_decide as Hin; [|done]. exfalso.
  apply fmap_Some in Hr as (r0 & _ & ->). simpl in H0. apply list_elem_of_fmap in Hin as (z & E & Hz).
  rewrite E in H0. pose proof (with_key_elem mt_key _ _ Hz). lia.
Qed.

(** C33: a run only records pairings it can justify. Whatever statement fails
    and in whatever order rows come, the evidence stays sound -- a movement
    matched at most once per source, each line's count the number of its
    matches -- nothing recorded before is touched, and every new match pairs
    an unmatched line with a boundary movement that carries its reference,
    asset and direction: alone, with the difference written down, or as one of
    a set that adds up to the line exactly. *)
Theorem match_sound (E : ReconEnv) (P : Planner) (cfg : Config) (d : Database) (R : Recon)
    (sum : Summary) (x : res recon_error unit) (R' : Recon) :
  fair P -> NoDup (seq <$> moves d) -> evidence d R -> Match E P cfg d R = (sum, x, R') ->
  evidence d R' /\ exists new,
    recon_matches R' = recon_matches R ++ new /\
    (forall y, y ∈ new -> justified (boundaryPrefix cfg) d R new y) /\
    (forall k, exists at_, recon_records R' !! k =
       if decide (k ∈ mt_key <$> new)
       then matched (Z.of_nat (length (with_key_of mt_key k new))) at_ <$> recon_records R !! k
       else recon_records R !! k) /\
    Variance sum = Z.of_nat (length (filter (fun y => over cfg (variance y) = true) new)).
Proof.
  intros HP Hnd Hev H. apply match_cases in H as (new1 & R1 & new2 & Hn1 & Hf1 & Hr1 & Hv & Hn2 & Hf2 & Hr2); [|done].
  split; [exact (recorded_keeps _ _ _ _ _ Hf2 Hr2 (recorded_keeps _ _ _ _ _ Hf1 Hr1 Hev))|].
  exists (new1 ++ new2).
  pose proof (fun k => second_write _ _ _ _ _ _ k Hf1 Hr1 Hf2) as Hsec. split_and!.
  - by rewrite (rp_matches _ _ _ _ Hr2), (rp_matches _ _ _ _ Hr1), app_assoc.
  - intros y [Hy|Hy]%elem_of_app.
    + assert (mt_key y ∉ mt_key <$> new2) as Hno.
      { intros Hin. apply Hsec in Hin as [Hin _]. apply Hin. by apply list_elem_of_fmap_2. }
      assert (justified (boundaryPrefix cfg) d R new1 y) as [Hj].
      { destruct Hn1 as [-> | ->]; [by apply not_elem_of_nil in Hy|by apply justified_exact]. }
      split. by rewrite with_key_app_l.
    + destruct (Hsec (mt_key y)) as [Hno Hsame]; [by apply list_elem_of_fmap_2|].
      assert (justified (boundaryPrefix cfg) d R1 new2 y) as [Hj].
      { destruct Hn2 as [-> | ->]; [by apply not_elem_of_nil in Hy|by apply justified_set]. }
      split. by rewrite with_key_app_r, <-Hsame.
  - intros k. rewrite (rp_records _ _ _ _ Hr2), fmap_app. destruct (decide (k ∈ mt_key <$> new2)) as [Hin|Hin].
    + destruct (Hsec k Hin) as [Hno ->]. exists (rnow E 1). rewrite decide_True by (apply elem_of_app; by right).
      by rewrite with_key_app_r.
    + exists (rnow E 0). rewrite (rp_records _ _ _ _ Hr1). rewrite with_key_app_l by done.
      repeat case_decide; try done; set_solver.
  - rewrite Hv, filter_app, length_app. assert (filter (fun y => over cfg (variance y) = true) new2 = []) as ->; [|simpl; lia].
    apply elem_of_nil_inv. intros y [Ho Hy]%list_elem_of_filter. destruct Hn2 as [-> | ->]; [by apply not_elem_of_nil in Hy|].
    apply set_rows_pairs in Hy as (c & _ & ->). unfold over in Ho. simpl in Ho. lia.
Qed.

(** ** Running again *)

(** No rule has anything to record. *)
Definition quiet (cfg : Config) (d : Database) (R : Recon) : Prop :=
  let cs := candidates (boundaryPrefix cfg) d R in
  (forall c, c ∈ cs -> sized cs c <> 1) /\ (sets cs = [] \/ ~ NoDup (pair_of <$> recon_matches R ++ set_rows 0 cs)).

Lemma sized_perm (cs cs' : list Candidate) c : cs ≡ₚ cs' -> sized cs c = sized cs' c.
Proof. intros Hp. unfold sized, same_line. by rewrite Hp. Qed.

Lemma sets_perm (cs cs' : list Candidate) : cs ≡ₚ cs' -> sets cs ≡ₚ sets cs'.
Proof.
  intros Hp. unfold sets. transitivity (filter (fun c => 1 < sized cs' c /\ total_of cs' c = line_amount c) cs); [|by rewrite Hp].
  apply reflexive_eq, filter_iff_in. intros c _.
  rewrite (sized_perm cs cs' c Hp). unfold total_of, same_line.
  rewrite (sumZ_permutation move_amount _ (filter (fun x => c_key x = c_key c) cs')) by (by rewrite Hp). done.
Qed.

(** Rows that differ in their time only. *)
Lemma set_rows_pairs_of at1 at2 cs : pair_of <$> set_rows at1 cs = pair_of <$> set_rows at2 cs.
Proof. unfold set_rows. by rewrite <-!list_fmap_compose. Qed.

Lemma quiet_perm cfg d R at_ cs :
  cs ≡ₚ candidates (boundaryPrefix cfg) d R ->
  quiet cfg d R <-> picks cs = [] /\ (sets cs = [] \/ ~ NoDup (pair_of <$> recon_matches R ++ set_rows at_ cs)).
Proof.
  intros Hp. unfold quiet. set (cs0 := candidates _ _ _) in *. rewrite picks_nil.
  assert ((forall c, c ∈ cs0 -> sized cs0 c <> 1) <-> (forall c, c ∈ cs -> sized cs c <> 1)) as ->.
  { split; intros H c Hc.
    - rewrite (sized_perm _ _ c Hp). apply H. by rewrite <-Hp.
    - rewrite <-(sized_perm _ _ c Hp). apply H. by rewrite Hp. }
  assert (sets cs0 = [] <-> sets cs = []) as ->.
  { pose proof (sets_perm _ _ Hp) as Hs. split; intros E; rewrite E in Hs;
      [by apply Permutation_nil_r in Hs|by apply Permutation_nil_l in Hs]. }
  assert (NoDup (pair_of <$> recon_matches R ++ set_rows 0 cs0) <-> NoDup (pair_of <$> recon_matches R ++ set_rows at_ cs)) as ->; [|done].
  rewrite !fmap_app, (set_rows_pairs_of 0 at_). unfold set_rows. rewrite <-!list_fmap_compose.
  assert ((fun c => (c_source c, c_move c)) <$> sets cs ≡ₚ (fun c => (c_source c, c_move c)) <$> sets cs0) as Hs
    by (by rewrite (sets_perm _ _ Hp)).
  change (pair_of ∘ (fun c => match_row c 0 (sized cs0 c) RuleConsolidated at_)) with (fun c => (c_source c, c_move c)).
  change (pair_of ∘ (fun c => match_row c 0 (sized cs c) RuleConsolidated at_)) with (fun c => (c_source c, c_move c)).
  by rewrite Hs.
Qed.

(** A service that answers. *)
Definition answering (E : ReconEnv) : Prop := forall i, rfault E i = None.

Lemma Match_state E P cfg d R : (Match E P cfg d R).2 =
  match matchExact E P cfg d R with
  | (Ok _, R1) => (matchConsolidated E P cfg d R1).2
  | (Err _, R1) => R1
  end.
Proof.
  unfold Match. destruct (matchExact E P cfg d R) as [[[m v]|e] R1]; [|done].
  destruct (matchConsolidated E P cfg d R1) as [[n|e] R2]; [|done]. by destruct (classify E P cfg d R2).
Qed.

Lemma record_nothing at_ R : record_pairs at_ [] R = Ok R.
Proof. by destruct R. Qed.

(** Nothing to record changes nothing. *)
Lemma quiet_run E P cfg d R :
  fair P -> NoDup (pair_of <$> recon_matches R) -> quiet cfg d R -> (Match E P cfg d R).2 = R.
Proof.
  intros HP Hnd Hq. pose proof (fair_order _ HP) as Hord. rewrite Match_state.
  pose proof (proj1 (quiet_perm _ _ _ 0 (exact_candidates P cfg d R) (Hord _ _)) Hq) as [Hpk _].
  pose proof (proj1 (quiet_perm _ _ _ (rnow E 1) (set_candidates P cfg d R) (Hord _ _)) Hq) as [_ Hq1].
  unfold matchExact. fold (exact_candidates P cfg d R). unfold exact_rows. rewrite Hpk.
  unfold run_stmt. destruct (rfault E 0); [done|].
  cbn [fmap list_fmap]. rewrite record_nothing.
  unfold matchConsolidated. fold (set_candidates P cfg d R). unfold run_stmt. destruct (rfault E 1); [done|].
  destruct (record_pairs _ _ R) as [R2|e] eqn:Hr; [|done]. simpl. destruct Hq1 as [Hs|Hs].
  - unfold set_rows in Hr. rewrite Hs in Hr. cbn [fmap list_fmap] in Hr. rewrite record_nothing in Hr. by injection Hr as <-.
  - exfalso. unfold record_pairs in Hr. inv_ok.
    match goal with H : insert_matches _ _ = Ok _ |- _ => apply insert_matches_Ok in H as [-> Hn] end. by apply Hs, Hn.
Qed.

Lemma recorded_nil at_ R R' : recorded_pairs at_ [] R R' -> R' = R.
Proof.
  intros [Hs Hm _ Hr]. assert (recon_records R' = recon_records R) as Hrec.
  { apply map_eq. intros k. rewrite Hr. destruct (decide _) as [Hin|_]; [by apply not_elem_of_nil in Hin|done]. }
  rewrite app_nil_r in Hm. destruct R, R'. simpl in *. by subst.
Qed.

Lemma remove_dups_nonempty (l : list line_key) : l <> [] -> remove_dups l <> [].
Proof.
  destruct l as [|k l]; [done|]. intros _ E. assert (k ∈ remove_dups (k :: l)) as H by (apply elem_of_remove_dups; by left).
  rewrite E in H. by apply not_elem_of_nil in H.
Qed.

(** Something to record matches a line. *)
Lemma busy_run E P cfg d R :
  fair P -> answering E -> NoDup (pair_of <$> recon_matches R) -> ~ quiet cfg d R ->
  (size (unmatched (Match E P cfg d R).2) < size (unmatched R))%nat.
Proof.
  intros HP HE Hnd Hq. pose proof (fair_order _ HP) as Hord. rewrite Match_state.
  destruct (matchExact E P cfg d R) as [x R1] eqn:He.
  destruct (exact_total _ d R (rnow E 0) (exact_candidates P cfg d R) (Hord _ _) Hnd) as [Rx Hx].
  assert (is_ok x = true) as Hok.
  { unfold matchExact, run_stmt in He. rewrite HE in He. fold (exact_candidates P cfg d R) in He. rewrite Hx in He. by simplify_eq. }
  apply matchExact_cases in He; [|done]. destruct x as [[m v]|e]; [|done]. destruct He as (Hf1 & Hr1 & _ & _).
  pose proof (unmatched_less _ _ _ _ _ Hf1 Hr1) as H1. rewrite exact_keys in H1.
  destruct (matchConsolidated E P cfg d R1) as [y R2] eqn:Hc. pose proof Hc as Hc'.
  apply matchConsolidated_cases in Hc; [|done]. simpl.
  assert (size (unmatched R2) <= size (unmatched R1))%nat as H2.
  { destruct y as [n|e]; [|by subst R2]. destruct Hc as (Hf2 & Hr2 & _). pose proof (unmatched_less _ _ _ _ _ Hf2 Hr2). lia. }
  destruct (exact_rows (rnow E 0) (exact_candidates P cfg d R)) as [|z zs] eqn:Hrows; [|simpl in H1; lia].
  apply recorded_nil in Hr1 as ->. clear H1 Hx Hf1 H2.
  assert (picks (exact_candidates P cfg d R) = []) as Hpk by (by apply fmap_nil_inv in Hrows).
  assert (picks (set_candidates P cfg d R) = []) as Hpk'.
  { assert (set_candidates P cfg d R ≡ₚ exact_candidates P cfg d R) as Hp by (etrans; [apply Hord|symmetry; apply Hord]).
    apply picks_nil. intros c Hin. rewrite (sized_perm _ _ c Hp). rewrite Hp in Hin. by apply picks_nil. }
  rewrite (quiet_perm _ _ _ (rnow E 1) (set_candidates P cfg d R) (Hord _ _)) in Hq.
  set (new := set_rows (rnow E 1) (set_candidates P cfg d R)) in *.
  destruct (decide (NoDup (pair_of <$> recon_matches R ++ new))) as [Hn|Hn]; [|naive_solver].
  assert (sets (set_candidates P cfg d R) <> []) as Hne by naive_solver.
  unfold matchConsolidated, run_stmt in Hc'. rewrite HE in Hc'. fold (set_candidates P cfg d R) in Hc'.
  change (set_rows (rnow E 1) (set_candidates P cfg d R)) with new in Hc'.
  unfold record_pairs in Hc' at 1. rewrite insert_matches_total in Hc' by done. cbn [rbind] in Hc'. simplify_eq.
  destruct Hc as (Hf2 & Hr2 & _). pose proof (unmatched_less _ _ _ _ _ Hf2 Hr2) as Hlt.
  pose proof (remove_dups_nonempty (mt_key <$> new)) as Hd. destruct (remove_dups (mt_key <$> new)); [|simpl in Hlt; lia].
  exfalso. apply Hd; [|done]. unfold new, set_rows. by destruct (sets (set_candidates P cfg d R)).
Qed.

Lemma quiet_or_not cfg d R : quiet cfg d R \/ ~ quiet cfg d R.
Proof.
  rewrite (quiet_perm cfg d R 0 (candidates (boundaryPrefix cfg) d R)) by done.
  destruct (decide (NoDup (pair_of <$> recon_matches R ++ set_rows 0 (candidates (boundaryPrefix cfg) d R)))),
    (picks (candidates (boundaryPrefix cfg) d R)), (sets (candidates (boundaryPrefix cfg) d R)); naive_solver.
Qed.

Lemma all_matched_quiet cfg d R : size (unmatched R) = 0%nat -> quiet cfg d R.
Proof.
  intros H0. assert (candidates (boundaryPrefix cfg) d R = []) as Hc.
  { apply elem_of_nil_inv. intros c (r & m & Hr & Hz & _)%candidate_facts. apply size_empty_inv in H0.
    assert (c_key c ∈ unmatched R) as Hin by (apply elem_of_unmatched; eauto). set_solver. }
  unfold quiet. rewrite Hc. split; [by intros c ?%not_elem_of_nil|by left].
Qed.

Lemma Match_evidence E P cfg d R : fair P -> evidence d R -> evidence d (Match E P cfg d R).2.
Proof.
  intros HP Hev. destruct (Match E P cfg d R) as [[sum x] R'] eqn:H.
  apply match_cases in H as (new1 & R1 & new2 & _ & Hf1 & Hr1 & _ & _ & Hf2 & Hr2); [|done].
  exact (recorded_keeps _ _ _ _ _ Hf2 Hr2 (recorded_keeps _ _ _ _ _ Hf1 Hr1 Hev)).
Qed.

(** Run after run on the same book. *)
Fixpoint after (E : nat -> ReconEnv) (P : nat -> Planner) (cfg : Config) (d : Database) (R : Recon) (n : nat) : Recon :=
  match n with
  | O => R
  | S n => (Match (E n) (P n) cfg d (after E P cfg d R n)).2
  end.

(** C40: matching settles. On a service that answers, in whatever order each
    run meets its rows, after as many runs as there are staged lines another
    run changes nothing. One run is not enough: a line that was ambiguous may
    be left with a single candidate by what the same run matched. *)
Theorem match_settles (E : nat -> ReconEnv) (P : nat -> Planner) (cfg : Config) (d : Database) (R : Recon) (n : nat) :
  (forall i, answering (E i)) -> (forall i, fair (P i)) -> evidence d R -> (size (recon_records R) <= n)%nat ->
  after E P cfg d R (S n) = after E P cfg d R n.
Proof.
  intros HE HP Hev Hn.
  assert (forall i, evidence d (after E P cfg d R i)) as Hevs by (induction i; [done|by apply Match_evidence]).
  assert (forall i, quiet cfg d (after E P cfg d R i) \/ (size (unmatched (after E P cfg d R i)) + i <= size (unmatched R))%nat) as Hi.
  { induction i as [|i IH]; [right; simpl; lia|]. simpl. destruct (quiet_or_not cfg d (after E P cfg d R i)) as [Hq|Hq].
    - left. rewrite quiet_run; [done|done|apply Hevs|done].
    - right. destruct IH as [?|IH]; [done|]. pose proof (busy_run (E i) (P i) cfg d _ (HP i) (HE i) (ev_once _ _ (Hevs i)) Hq). lia. }
  simpl. apply quiet_run; [done|apply Hevs|]. destruct (Hi n) as [?|Hs]; [done|]. apply all_matched_quiet.
  assert (size (unmatched R) <= size (recon_records R))%nat; [|lia].
  unfold unmatched. rewrite size_dom. rewrite <-!(size_dom (D := gset line_key)). apply subseteq_size, dom_filter_subseteq.
Qed.

(** ** Staging *)

Section staging.
Context (pg_json : string -> bool).

(** What a staging may leave: the lines it added, and nothing changed. *)
Record staged_from (source : string) (rs : list StatementLine) (R R' : Recon) : Prop := {
  sf_sources : recon_sources R' = recon_sources R;
  sf_matches : recon_matches R' = recon_matches R;
  sf_old : recon_records R ⊆ recon_records R';
  sf_new : forall k r, recon_records R' !! k = Some r -> recon_records R !! k = None ->
    k.1 = source /\ exists line at_, line ∈ rs /\ LID line = k.2 /\ r = staged_row line at_;
}.

Lemma staged_evidence d source (rs : list StatementLine) R R' : staged_from source rs R R' -> evidence d R -> evidence d R'.
Proof.
  intros [_ Hm Hold Hnew] [Honce Hmv Hst Hc]. split; rewrite ?Hm; [done|done|..].
  - intros x Hx. destruct (Hst x Hx) as (r & Hr & Hs). exists r. split; [by eapply lookup_weaken|done].
  - intros k r Hr. destruct (recon_records R !! k) as [r0|] eqn:H0.
    + pose proof (lookup_weaken _ _ _ _ H0 Hold) as H1. rewrite Hr in H1. injection H1 as <-. by apply Hc.
    + destruct (Hnew k r Hr H0) as (_ & line & at_ & _ & _ & ->). simpl.
      assert (with_key_of mt_key k (recon_matches R) = []) as ->; [|done].
      apply elem_of_nil_inv. intros x [<- Hx]%list_elem_of_filter. destruct (Hst x Hx) as (r1 & Hr1 & _). congruence.
Qed.

Lemma stage_lines_cases E i source d (rs : list StatementLine) n0 R n x R' :
  stage_lines pg_json E i source d rs n0 R = (n, x, R') ->
  staged_from source rs R R' /\ n - n0 = Z.of_nat (size (recon_records R')) - Z.of_nat (size (recon_records R)) /\
  (x = Ok tt -> forall E' j m R'', answering E' -> recon_records R' ⊆ recon_records R'' ->
     stage_lines pg_json E' j source d rs m R'' = (m, Ok tt, R'')) /\
  (forall k e, x <> Err (InvalidLine k e)).
Proof.
  revert i n0 R. induction rs as [|r rs IH]; intros i n0 R H; simpl in H.
  { simplify_eq. split_and!; [|lia|done|done]. split; [done|done|done|congruence]. }
  destruct (run_stmt (rfault E i) (stage pg_json source (rnow E i) d r R)) as [[m R1]|e] eqn:Hs.
  2:{ simplify_eq. split_and!; [|lia|done|].
      - split; [done|done|done|congruence].
      - intros k e'. unfold run_stmt, stage in Hs. repeat case_match; simplify_eq/=; done. }
  assert (stage pg_json source (rnow E i) d r R = Ok (m, R1)) as Hst by (unfold run_stmt in Hs; by destruct (rfault E i)).
  apply IH in H as ([Hsrc Hm Hold Hnew] & Hn & Hagain & Hinv). clear IH Hs.
  unfold stage in Hst. destruct (negb (line_text_ok source r)) eqn:Ht; [done|].
  destruct (negb _) eqn:Hj in Hst; [done|].
  assert (is_Some (recon_records R1 !! (source, LID r))) as Hhas.
  { destruct (recon_records R !! _) eqn:H0; [by simplify_eq; eexists|]. match type of Hst with (if ?b then _ else _) = _ => destruct b; [done|] end. simplify_eq. simpl.
    rewrite lookup_insert_eq. by eexists. }
  assert (recon_sources R1 = recon_sources R /\ recon_matches R1 = recon_matches R /\ recon_records R ⊆ recon_records R1 /\
    m = Z.of_nat (size (recon_records R1)) - Z.of_nat (size (recon_records R)) /\
    forall k x, recon_records R1 !! k = Some x -> recon_records R !! k = None ->
      k = (source, LID r) /\ x = staged_row r (rnow E i)) as (Hs1 & Hm1 & Hold1 & -> & Hnew1).
  { destruct (recon_records R !! _) eqn:H0.
    - simplify_eq. split_and!; [done|done|done|lia|congruence].
    - match type of Hst with (if ?b then _ else _) = _ => destruct b; [done|] end. simplify_eq. cbn [set_records recon_sources recon_matches recon_records].
      split_and!; [done|done|by apply insert_subseteq|rewrite map_size_insert_None by (exact H0); lia|].
      intros k y [[<- <-]|[_ ?]]%lookup_insert_Some Hk; [done|congruence]. }
  split_and!; [|lia| |done].
  - split; [by rewrite Hsrc|by rewrite Hm|by etrans|]. intros k y Hy Hk.
    destruct (recon_records R1 !! k) as [y1|] eqn:H1.
    + destruct (Hnew1 k y1 H1 Hk) as [-> ->]. pose proof (lookup_weaken _ _ _ _ H1 Hold) as H2. rewrite Hy in H2. injection H2 as ->.
      split; [done|]. exists r, (rnow E i). by split_and!; [left|..].
    + destruct (Hnew k y Hy H1) as (Hk1 & line & at_ & Hin & Hid & ->). split; [done|]. exists line, at_. by split_and!; [right|..].
  - intros Hx E' j m R'' HE Hsub. cbn [stage_lines]. rewrite HE. cbn [run_stmt]. unfold stage. rewrite Ht, Hj.
    destruct Hhas as [y Hy]. rewrite (lookup_weaken _ _ _ _ (lookup_weaken _ _ _ _ Hy Hold) Hsub).
    rewrite Z.add_0_r. by apply Hagain.
Qed.

(** Staging is exact and safe to repeat. Whatever happens, [Ingest] only
    adds lines that were handed to it, keeps every line and every match it
    found and reports exactly how many lines it added; one malformed line
    stages nothing; and once it has succeeded, the same lines again stage
    nothing and change nothing. *)
Theorem ingest_exact (E : ReconEnv) (source : string) (d : Database) (rs : list StatementLine) (R : Recon)
    (n : Z) (x : res recon_error unit) (R' : Recon) :
  Ingest pg_json E source d rs R = (n, x, R') ->
  staged_from source rs R R' /\ (evidence d R -> evidence d R') /\
  n = Z.of_nat (size (recon_records R')) - Z.of_nat (size (recon_records R)) /\
  ((exists k e, x = Err (InvalidLine k e)) <-> Exists (fun r => validate_line r <> None) rs) /\
  (Exists (fun r => validate_line r <> None) rs -> R' = R) /\
  (x = Ok tt -> forall E', answering E' -> Ingest pg_json E' source d rs R' = (0, Ok tt, R')).
Proof.
  assert (forall i, match first_invalid i rs with
                    | Some e => Exists (fun r => validate_line r <> None) rs /\ exists k e', e = InvalidLine k e'
                    | None => ~ Exists (fun r => validate_line r <> None) rs end) as Hfirst.
  { clear. induction rs as [|r rs IH]; intros i; simpl; [intros H; inversion H|].
    destruct (validate_line r) as [e|] eqn:Hv; [split; [left; congruence|by do 2 eexists]|].
    specialize (IH (S i)). destruct (first_invalid (S i) rs); [destruct IH; split; [by right|done]|].
    intros H. inversion H; [congruence|by apply IH]. }
  specialize (Hfirst 0%nat). unfold Ingest. destruct (first_invalid 0 rs) as [e|] eqn:Hf.
  - intros H. simplify_eq. destruct Hfirst as (Hex & k & e' & ->).
    assert (staged_from source rs R' R') as Hs by (split; [done|done|done|congruence]).
    split_and!; [done|by intros; apply (staged_evidence d source rs R')|lia|split; [done|eauto]|done|done].
  - intros H. apply stage_lines_cases in H as (Hs & Hn & Hagain & Hinv).
    split_and!; [done|by intros; apply (staged_evidence d source rs R)|lia|split; [|done]|done|by eauto].
    intros (k & e & ->). by destruct (Hinv k e).
Qed.

End staging.

(** ** At a concrete statement *)

Definition quiet_service : ReconEnv := {| rfault := fun _ => None; rnow := fun _ => 0 |}.
Definition as_listed : Planner := {| order := fun _ cs => cs; wire := numeric |}.
Definition defaults : Config := {| BoundaryPrefix := EmptyString; Tolerance := None |}.

Lemma as_listed_fair : fair as_listed.
Proof. split; [done|apply numeric_stands]. Qed.

Lemma quiet_service_answers : answering quiet_service.
Proof. done. Qed.

(** One transaction under the reference "wire-1", with two movements out
    through the bank. *)
Definition wire_transaction : TransactionRow :=
  {| timestamp := 0; inserted_at := 0; reverted_at := None; reference := None; postings := [];
     tx_metadata := {[ ExternalRefKey := "wire-1" ]}; sources := []; destinations := []; pc_volumes := ∅ |}.

Definition wire_move (n a : Z) : MoveRow :=
  {| seq := n; tx_id := 1; move_key := ("external:bank", "USD/2"); amount := a; is_source := false;
     effective_date := 0; move_inserted := 0; pcv := NewVolumes; pcev := NewVolumes |}.

Definition wired (ms : list MoveRow) : Database :=
  set_moves ms (Z.of_nat (length ms) + 1) (set_transactions {[ 1 := wire_transaction ]} empty_database).

Definition line (a : Z) (direction : option string) : ReconRow :=
  {| rr_reference := Some "wire-1"; rr_asset := "USD/2"; rr_amount := a; rr_direction := direction;
     occurred_at := None; raw := None; ingested_at := 0; matched_count := 0; matched_at := None |}.

Definition statement_of (lines : list (line_key * ReconRow)) : Recon :=
  {| recon_sources := {[ "bank" := "The bank"; "chain" := "The chain" ]};
     recon_records := list_to_map lines; recon_matches := [] |}.

Lemma fresh_evidence d (lines : list (line_key * ReconRow)) :
  Forall (fun kr => matched_count kr.2 = 0) lines -> evidence d (statement_of lines).
Proof.
  intros Hl. split; simpl; [constructor|by intros x ?%not_elem_of_nil..|].
  intros k r Hr%elem_of_list_to_map_2. rewrite Forall_forall in Hl. exact (Hl _ Hr).
Qed.

Definition one_wire : Database := wired [wire_move 1 100].
Definition one_line : Recon := statement_of [(("bank", "L1"), line 95 (Some "out"))].
Definition one_run : Summary * res recon_error unit * Recon := Match quiet_service as_listed defaults one_wire one_line.

Lemma one_run_is : one_run = (one_run.1.1, Ok tt, one_run.2).
Proof. vm_compute. reflexivity. Qed.

Lemma match_accounts_witness :
  Matched one_run.1.1 + Variance one_run.1.1 + total_count (Unmatched one_run.1.1) = Z.of_nat (size (unmatched one_line)) /\
  total_count (Unmatched one_run.1.1) = Z.of_nat (size (unmatched one_run.2)).
Proof. exact (match_accounts quiet_service as_listed defaults one_wire one_line _ _ as_listed_fair one_run_is). Defined.

Lemma one_wire_seqs : NoDup (seq <$> moves one_wire).
Proof. apply NoDup_singleton. Qed.

Lemma one_line_evidence : evidence one_wire one_line.
Proof. apply fresh_evidence. by repeat constructor. Qed.

Lemma match_sound_witness : evidence one_wire one_run.2.
Proof.
  exact (proj1 (match_sound quiet_service as_listed defaults one_wire one_line _ _ _ as_listed_fair one_wire_seqs
                  one_line_evidence one_run_is)).
Defined.

Lemma match_settles_witness :
  after (fun _ => quiet_service) (fun _ => as_listed) defaults one_wire one_line 2 =
  after (fun _ => quiet_service) (fun _ => as_listed) defaults one_wire one_line 1.
Proof.
  exact (match_settles (fun _ => quiet_service) (fun _ => as_listed) defaults one_wire one_line 1
           (fun _ => quiet_service_answers) (fun _ => as_listed_fair) one_line_evidence (Nat.le_refl 1)).
Defined.

Definition bank_line : StatementLine :=
  {| LID := "L1"; LReference := "wire-1"; LAsset := "USD/2"; LAmount := Some 95; LDirection := "out";
     LOccurredAt := {| unix_nano := 0; zone := 0 |}; LRaw := EmptyString |}.

Definition dollars : Database := set_assets {[ "USD/2" := 0 ]} one_wire.

Definition one_ingest : Z * res recon_error unit * Recon :=
  Ingest (fun _ => true) quiet_service "bank" dollars [bank_line] (statement_of []).

Lemma one_ingest_is : one_ingest = (1, Ok tt, one_ingest.2).
Proof. vm_compute. reflexivity. Qed.

Lemma ingest_exact_witness : staged_from "bank" [bank_line] (statement_of []) one_ingest.2.
Proof. exact (proj1 (ingest_exact (fun _ => true) quiet_service "bank" dollars [bank_line] (statement_of []) _ _ _ one_ingest_is)). Defined.

(** A second run can match what the first called ambiguous: the first line
    takes one of the two movements the second could name. *)
Example second_run_matches_more :
  let d := wired [wire_move 1 100; {| seq := 2; tx_id := 1; move_key := ("external:bank", "USD/2"); amount := 50; is_source := true;
                     effective_date := 0; move_inserted := 0; pcv := NewVolumes; pcev := NewVolumes |}] in
  let R := statement_of [(("bank", "L1"), line 100 (Some "out")); (("bank", "L2"), line 50 None)] in
  let first := Match quiet_service as_listed defaults d R in
  let second := Match quiet_service as_listed defaults d first.2 in
  Matched first.1.1 = 1 /\ Unmatched first.1.1 !! Ambiguous = Some 1 /\ Matched second.1.1 = 1.
Proof. vm_compute. repeat split. Qed.

(** Two sources that saw the same movement are matched one run at a time: the
    choice per movement does not look at the source. *)
Example one_source_per_run :
  let R := statement_of [(("bank", "L1"), line 100 None); (("chain", "L2"), line 100 None)] in
  let first := Match quiet_service as_listed defaults one_wire R in
  Matched first.1.1 = 1 /\ Unmatched first.1.1 !! Ambiguous = Some 1 /\
  Matched (Match quiet_service as_listed defaults one_wire first.2).1.1 = 1.
Proof. vm_compute. repeat split. Qed.

(** Two lines of one source that the same set adds up to: the insert of the
    second violates the unique index, and the whole run fails, every time. *)
Example colliding_sets_fail :
  let d := wired [wire_move 1 100; wire_move 2 50] in
  let R := statement_of [(("bank", "L1"), line 150 None); (("bank", "L2"), line 150 None)] in
  let run := Match quiet_service as_listed defaults d R in
  run.1.2 = Err (ReconQuery uniqueViolation) /\ size (unmatched run.2) = 2%nat.
Proof. vm_compute. repeat split. Qed.

(** An unregistered asset in the middle of a file stages the lines before
    it. *)
Example ingest_in_part :
  let euros := {| LID := "L2"; LReference := "wire-2"; LAsset := "EUR/2"; LAmount := Some 95; LDirection := "out";
                  LOccurredAt := {| unix_nano := 0; zone := 0 |}; LRaw := EmptyString |} in
  let r := Ingest (fun _ => true) quiet_service "bank" dollars [bank_line; euros] (statement_of []) in
  r.1 = (1, Err (ReconQuery foreignKeyViolation)) /\ size (recon_records r.2) = 1%nat.
Proof. vm_compute. repeat split. Qed.
