(* ===== verification/Migrations.v ===== *)
(** * Migration files

    [migrate/parse.go] and [migrate/new.go]: which files are migrations, what
    is read from one, and the file a new one starts as. The standard library's
    case folding and space trimming are modelled on the runes that matter. *)

From S2P Require Import Prelude Identifiers Text Decimal Sha256 GoTime.

(** ** Names *)

Definition slug_char (c : ascii) : bool := is_lower c || is_digit c.

(** [[a-z0-9]+(?:_[a-z0-9]+)*] as its automaton; [fresh] at the start of a
    word. *)
Fixpoint slug_from (fresh : bool) (s : string) : bool :=
  match s with
  | EmptyString => negb fresh
  | String c s =>
      if slug_char c then slug_from false s
      else Ascii.eqb c "_" && negb fresh && slug_from true s
  end.

Definition slug_ok (s : string) : bool := slug_from true s.

Definition version_digits : nat := 14.

(** [filenamePattern]: fourteen digits, an underscore, a slug, ".sql". *)
Definition parseFilename (filename : string) : option (Z * string) :=
  let version := string_take version_digits filename in
  match string_drop version_digits filename with
  | String "_" rest =>
      let '(slug, extension, _) := cut "." rest in
      if Nat.eqb (String.length version) version_digits && forall_char is_digit version
         && slug_ok slug && bool_decide (rest = String.append slug ".sql") && bool_decide (extension = "sql")
      then Some (digits_value 0 version, slug) else None
  | _ => None
  end.

Definition has_suffix (suffix s : string) : bool :=
  bool_decide (string_drop (String.length s - String.length suffix) s = suffix).

(** ** The directive *)

Definition noTransactionDirective : string := "-- giro:no-transaction".

Definition line_feed : ascii := ascii_of_N 10.

(** [strings.Lines], without their terminators, which [TrimSpace] drops. *)
Definition hasDirective (sql directive : string) : bool :=
  existsb (fun line => EqualFold (TrimSpace (runes line)) directive) (split_on line_feed sql).

(** ** Loading *)

Record Migration := {
  Version : Z;
  MName : string;
  Filename : string;
  SQL : string;
  Checksum : string;
  NoTx : bool;
}.

#[export] Instance Migration_eq_dec : EqDecision Migration.
Proof. solve_decision. Defined.

(** An entry of the directory, with what reading it returns. *)
Record Entry := {
  EntryName : string;
  IsDir : bool;
  Body : option string;
}.

Inductive load_error :=
| ReadDirFailed
| BadFilename (filename : string)
| ReadFileFailed (filename : string)
| DuplicateVersion (version : Z).

Definition migration_of (e : Entry) : res load_error Migration :=
  match parseFilename (EntryName e) with
  | None => Err (BadFilename (EntryName e))
  | Some (version, name) =>
      match Body e with
      | None => Err (ReadFileFailed (EntryName e))
      | Some body =>
          Ok {| Version := version; MName := name; Filename := EntryName e; SQL := body;
                Checksum := hex_encode (Sha256.sum256 body); NoTx := hasDirective body noTransactionDirective |}
      end
  end.

Fixpoint read_entries (es : list Entry) : res load_error (list Migration) :=
  match es with
  | [] => Ok []
  | e :: es =>
      if IsDir e || negb (has_suffix ".sql" (EntryName e)) then read_entries es
      else
        let! m := migration_of e in
        let! ms := read_entries es in
        Ok (m :: ms)
  end.

(** [int(a.Version - b.Version)]: fourteen digits, so nothing wraps. *)
Definition version_le : relation Migration := fun a b => Version a <= Version b.

#[export] Instance version_le_dec : RelDecision version_le.
Proof. intros a b. unfold version_le. apply _. Defined.

Fixpoint duplicate_version (ms : list Migration) : option Z :=
  match ms with
  | a :: ((b :: _) as ms) => if Version b =? Version a then Some (Version b) else duplicate_version ms
  | _ => None
  end.

Definition Load (fsys : option (list Entry)) : res load_error (list Migration) :=
  match fsys with
  | None => Err ReadDirFailed
  | Some es =>
      let! ms := read_entries es in
      let ms := merge_sort version_le ms in
      match duplicate_version ms with
      | Some v => Err (DuplicateVersion v)
      | None => Ok ms
      end
  end.

(** ** A new migration *)

(** A rune after [strings.ToLower], if it is one the pattern keeps: two
    letters outside ASCII have a lower case inside it. *)
Definition slug_rune (r : option string) : option ascii :=
  match r with
  | Some (String c EmptyString) => if slug_char (lower_char c) then Some (lower_char c) else None
  | Some r => if bool_decide (r = bytes [196;176]%N) then Some "i"%char
              else if bool_decide (r = bytes [226;132;170]%N) then Some "k"%char else None
  | None => None
  end.

(** [nonSlug.ReplaceAllString(..., "_")]: each run of other runes is one
    underscore. *)
Fixpoint collapse (in_run : bool) (l : list (option ascii)) : string :=
  match l with
  | [] => EmptyString
  | Some c :: l => String c (collapse false l)
  | None :: l => if in_run then collapse true l else String "_" (collapse true l)
  end.

Fixpoint trim_left (s : string) : string :=
  match s with
  | String c s' => if Ascii.eqb c "_" then trim_left s' else s
  | EmptyString => EmptyString
  end.

Fixpoint trim_right (s : string) : string :=
  match s with
  | String c s =>
      let t := trim_right s in
      if Ascii.eqb c "_" && bool_decide (t = EmptyString) then EmptyString else String c t
  | EmptyString => EmptyString
  end.

Definition Slugify (name : string) : string :=
  trim_right (trim_left (collapse false (slug_rune <$> runes name))).

(** [now.UTC().Format(TimestampLayout)] *)
Definition format_version (now : Instant) : string :=
  let secs := now / second in
  let '(y, m, d) := civil_from_days (secs / 86400) in
  let sod := secs mod 86400 in
  pad_digits 4 y (pad_digits 2 m (pad_digits 2 d
    (pad_digits 2 (sod / 3600) (pad_digits 2 (sod / 60 mod 60) (pad_digits 2 (sod mod 60) EmptyString))))).

Definition nl : string := String line_feed EmptyString.

Definition stub (slug : string) : string :=
  concat_strings ["-- "; slug; nl; "--"; nl;
    "-- forward only. to undo something, write a new migration."; nl;
    "-- add "; String (ascii_of_N 34) EmptyString; noTransactionDirective; String (ascii_of_N 34) EmptyString;
    " on its own line if this cannot run inside a transaction,"; nl;
    "-- for example create index concurrently."; nl; nl].

Inductive new_error :=
| UnusableName
| AlreadyExists
| WriteFailed.

(** [newAt]: the file it writes. [exists_] is what [os.Stat] finds, [io] whether
    the directory and the file could be written. *)
Definition newAt (exists_ : string -> bool) (io : bool) (name : string) (now : Instant)
    : res new_error (string * string) :=
  let slug := Slugify name in
  if bool_decide (slug = EmptyString) then Err UnusableName
  else
    let filename := String.append (format_version now) (String "_" (String.append slug ".sql")) in
    if exists_ filename then Err AlreadyExists
    else if io then Ok (filename, stub slug) else Err WriteFailed.

Example filenames :
  parseFilename "20260831142530_init_schema.sql" = Some (20260831142530, "init_schema") /\
  parseFilename "20260101000000_a.sql" = Some (20260101000000, "a") /\
  parseFilename "2026_init.sql" = None /\ parseFilename "20260831142530_Init.sql" = None /\
  parseFilename "20260831142530_init-schema.sql" = None /\ parseFilename "20260831142530_.sql" = None /\
  parseFilename "20260831142530_init_schema.txt" = None.
Proof. vm_compute. repeat split. Qed.

Example slugs :
  Slugify "Add metadata tables" = "add_metadata_tables" /\ Slugify "  Init  Schema!  " = "init_schema" /\
  Slugify "MiXeD CaSe 123" = "mixed_case_123" /\ Slugify "!!!" = "".
Proof. vm_compute. repeat split. Qed.

Example directives :
  hasDirective (String.append "  -- GIRO:no-transaction  " (String line_feed "create table t (id int);")) noTransactionDirective = true /\
  hasDirective "select '-- giro:no-transaction' as not_a_directive;" noTransactionDirective = false /\
  hasDirective "-- giro:no-transaction is what you would add here" noTransactionDirective = false.
Proof. vm_compute. repeat split. Qed.

(** ** What a slug is *)

Definition kept (l : list (option ascii)) : Prop := forall c, Some c ∈ l -> slug_char c = true.

Lemma slug_rune_kept name : kept (slug_rune <$> runes name).
Proof.
  intros c (r & Hr & _)%list_elem_of_fmap. symmetry in Hr. unfold slug_rune in Hr. repeat case_match; simplify_eq; done.
Qed.

Lemma slug_char_not_underscore c : slug_char c = true -> Ascii.eqb c "_" = false.
Proof. by destruct c as [[] [] [] [] [] [] [] []]. Qed.

Lemma trim_left_collapse l : kept l -> trim_left (collapse false l) = collapse true l.
Proof.
  intros Hk. assert (forall l, kept l -> trim_left (collapse true l) = collapse true l) as Htrue.
  { clear. induction l as [|[c|] l IH]; intros Hk; [done|..]; simpl.
    - by rewrite slug_char_not_underscore by (apply Hk; by left).
    - apply IH. intros c Hc. apply Hk. by right. }
  destruct l as [|[c|] l]; [done|..]; simpl.
  - by rewrite slug_char_not_underscore by (apply Hk; by left).
  - apply Htrue. intros c Hc. apply Hk. by right.
Qed.

Lemma collapse_slug b l : kept l -> trim_right (collapse b l) = EmptyString \/ slug_from b (trim_right (collapse b l)) = true.
Proof.
  revert b. induction l as [|[c|] l IH]; intros b Hk; [by left|..];
    (assert (kept l) as Hk' by (intros x Hx; apply Hk; by right)).
  - right. assert (slug_char c = true) as Hc by (apply Hk; by left). simpl.
    rewrite slug_char_not_underscore by done. simpl. rewrite Hc. destruct (IH false Hk') as [-> | ?]; done.
  - simpl. destruct b; [by apply IH|]. simpl. case_bool_decide as Ht; [by left|]. right. simpl.
    by destruct (IH true Hk') as [?|?].
Qed.

(** A slug with any character in it is one the file pattern accepts. *)
Lemma Slugify_ok name : Slugify name <> EmptyString -> slug_ok (Slugify name) = true.
Proof.
  unfold Slugify, slug_ok. rewrite trim_left_collapse by apply slug_rune_kept.
  by destruct (collapse_slug true _ (slug_rune_kept name)).
Qed.

Lemma slug_chars b s : slug_from b s = true -> forall_char (fun c => slug_char c || Ascii.eqb c "_") s = true.
Proof.
  revert b. induction s as [|c s IH]; intros b; [done|]. simpl. destruct (slug_char c); [by apply IH|].
  rewrite !andb_true_iff. intros [[-> _] Hs]. split; [done|by eapply IH].
Qed.

Lemma slug_free sep s : slug_ok s = true -> slug_char sep || Ascii.eqb sep "_" = false -> free_of sep s = true.
Proof.
  intros Hs%slug_chars Hsep. unfold free_of. apply (forall_char_impl (fun c => slug_char c || Ascii.eqb c "_")); [|done].
  intros c Hc. apply bool_decide_eq_true. intros ->. by rewrite Hsep in Hc.
Qed.

(** ** A new migration loads *)

Lemma drop_take_app n s t : String.length s = n -> string_take n (String.append s t) = s /\ string_drop n (String.append s t) = t.
Proof.
  revert s. induction n as [|n IH]; intros [|c s] Hs; try done.
  simpl in *. injection Hs as Hs. by destruct (IH s Hs) as [-> ->].
Qed.

Lemma parseFilename_made version slug :
  String.length version = version_digits -> forall_char is_digit version = true -> slug_ok slug = true ->
  parseFilename (String.append version (String "_" (String.append slug ".sql"))) = Some (digits_value 0 version, slug).
Proof.
  intros Hl Hd Hs. unfold parseFilename. destruct (drop_take_app version_digits version (String "_" (String.append slug ".sql")) Hl) as [-> ->].
  rewrite (cut_app_sep "." slug "sql") by (by apply slug_free). rewrite Hl, Nat.eqb_refl, Hd, Hs. simpl.
  by rewrite !bool_decide_true.
Qed.

Lemma format_version_text now :
  String.length (format_version now) = version_digits /\ forall_char is_digit (format_version now) = true.
Proof.
  unfold format_version. destruct (civil_from_days _) as [[y m] d]. split.
  - by rewrite !pad_digits_length.
  - by repeat apply pad_digits_digits.
Qed.

(** The directive needs a colon. *)
Lemma EqualFold_colon l s : EqualFold l s = true -> free_of ":" s = false -> Some ":" ∈ l.
Proof.
  revert s. induction l as [|r l IH]; intros [|c s]; try done. cbn [EqualFold]. rewrite andb_true_iff. intros [Hr Hl] Hs.
  unfold free_of in Hs. cbn [forall_char] in Hs. destruct (ascii_dec c ":") as [-> | Hc].
  - assert (r = Some ":") as ->; [|by left]. unfold rune_folds in Hr.
    destruct r as [[|x [|x' r]]|]; try done; try (rewrite !andb_false_r in Hr; done).
    destruct (Ascii.eqb_spec (lower_char x) (lower_char ":")) as [E|]; [|done].
    by destruct x as [[] [] [] [] [] [] [] []].
  - right. apply (IH s Hl). rewrite bool_decide_true in Hs by done. done.
Qed.

Lemma drop_spaces_sub l r : r ∈ drop_spaces l -> r ∈ l.
Proof. induction l as [|x l IH]; [done|]. simpl. destruct (unicode_space x); [intros ?%IH; by right|done]. Qed.

Lemma TrimSpace_sub l r : r ∈ TrimSpace l -> r ∈ l.
Proof. unfold TrimSpace. rewrite elem_of_reverse. intros H%drop_spaces_sub. rewrite elem_of_reverse in H. by apply drop_spaces_sub. Qed.

Lemma runes_ascii s : forall_char is_ascii s = true -> forall r, r ∈ runes s -> exists c, r = Some (String c EmptyString) /\ free_of c s = false.
Proof.
  induction s as [|c s IH]; intros Hs r; [by intros ?%not_elem_of_nil|]. simpl in Hs. apply andb_true_iff in Hs as [Hc Hs].
  rewrite runes_cons, rune_width_ascii by done. cbn [string_take string_drop]. intros [-> | Hr]%elem_of_cons.
  - exists c. split; [by destruct s|]. unfold free_of. simpl. by rewrite bool_decide_false by naive_solver.
  - destruct (IH Hs r Hr) as (x & -> & Hx). exists x. split; [done|]. unfold free_of in *. simpl. rewrite Hx. apply andb_false_r.
Qed.

Lemma no_colon_no_directive line d :
  forall_char is_ascii line = true -> free_of ":" line = true -> free_of ":" d = false -> EqualFold (TrimSpace (runes line)) d = false.
Proof.
  intros Ha Hl Hd. apply not_true_iff_false. intros Hc%EqualFold_colon; [|done]. apply TrimSpace_sub in Hc.
  destruct (runes_ascii line Ha _ Hc) as (c & [= <-] & Hf). congruence.
Qed.

(** The stub asks for the directive without being one. *)
Lemma stub_in_transaction slug : slug_ok slug = true -> hasDirective (stub slug) noTransactionDirective = false.
Proof.
  intros Hs. unfold hasDirective, stub. cbn [concat_strings]. rewrite <-append_assoc.
  set (rest := String.append nl _). assert (exists tail, rest = String line_feed tail /\
    existsb (fun line => EqualFold (TrimSpace (runes line)) noTransactionDirective) (split_on line_feed tail) = false) as (tail & -> & Ht).
  { eexists. split; [reflexivity|]. vm_compute. reflexivity. }
  rewrite split_app_sep.
  - cbn [existsb]. rewrite Ht, orb_false_r. apply no_colon_no_directive; [| |done].
    + rewrite forall_char_app. apply andb_true_iff. split; [done|].
      apply (forall_char_impl (fun c => slug_char c || Ascii.eqb c "_")); [|by eapply slug_chars].
      by intros [[] [] [] [] [] [] [] []].
    + unfold free_of. rewrite forall_char_app. apply andb_true_iff. split; [done|]. by apply slug_free.
  - unfold free_of. rewrite forall_char_app. apply andb_true_iff. split; [done|]. by apply slug_free.
Qed.

Lemma has_suffix_app suffix s : has_suffix suffix (String.append s suffix) = true.
Proof.
  unfold has_suffix. apply bool_decide_eq_true. rewrite length_append.
  replace (String.length s + String.length suffix - String.length suffix)%nat with (String.length s) by lia.
  by destruct (drop_take_app _ s suffix eq_refl).
Qed.

(** The version of an instant: its UTC calendar fields, two digits each. *)
Lemma format_version_value now :
  let '(y, m, d) := civil_from_days (now / second / 86400) in
  let sod := now / second mod 86400 in
  0 <= y <= 9999 ->
  digits_value 0 (format_version now) =
  ((((y * 100 + m) * 100 + d) * 100 + sod / 3600) * 100 + sod / 60 mod 60) * 100 + sod mod 60.
Proof.
  unfold format_version. destruct (civil_from_days (now / second / 86400)) as [[y m] d] eqn:Hc.
  intros Hy. set (sod := (now / second) mod 86400).
  apply civil_from_days_spec in Hc as (Hm & Hd & Hd31 & _).
  assert (0 <= sod < 86400) as Hs by (apply Z.mod_pos_bound; lia).
  assert (0 <= sod / 3600 < 100) by (Z.to_euclidean_division_equations; lia).
  assert (0 <= sod / 60 mod 60 < 100) by (Z.to_euclidean_division_equations; lia).
  assert (0 <= sod mod 60 < 100) by (Z.to_euclidean_division_equations; lia).
  rewrite !pad_digits_spec by (cbn; lia). cbn [digits_value]. change (10 ^ Z.of_nat 2) with 100. lia.
Qed.

(** What [Create] writes, [Load] reads. The file a new migration is
    written to had no file under its name, and [Load] reads it under the name's
    slug and the UTC time as its version, to run in a transaction: the stub
    mentions the directive without triggering it. *)
Theorem new_migration_loads (exists_ : string -> bool) (io : bool) (name : string) (now : Instant) (filename body : string) :
  newAt exists_ io name now = Ok (filename, body) ->
  exists_ filename = false /\ exists mig,
    Load (Some [{| EntryName := filename; IsDir := false; Body := Some body |}]) = Ok [mig] /\
    MName mig = Slugify name /\ slug_ok (MName mig) = true /\ Filename mig = filename /\ SQL mig = body /\ NoTx mig = false /\
    let '(y, m, d) := civil_from_days (now / second / 86400) in
    let sod := now / second mod 86400 in
    0 <= y <= 9999 ->
    Version mig = ((((y * 100 + m) * 100 + d) * 100 + sod / 3600) * 100 + sod / 60 mod 60) * 100 + sod mod 60.
Proof.
  unfold newAt. case_bool_decide as Hne; [done|].
  remember (String.append (format_version now) (String "_" (String.append (Slugify name) ".sql"))) as fn eqn:Hfn.
  destruct (exists_ fn) eqn:He; [done|]. destruct io; [|done].
  intros H. injection H as <- <-. split; [done|]. pose proof (Slugify_ok name Hne) as Hs.
  destruct (format_version_text now) as [Hl Hd].
  assert (has_suffix ".sql" fn = true) as Hsuf.
  { rewrite Hfn. generalize (format_version now) (Slugify name). intros v slug.
    replace (String.append v (String "_" (String.append slug ".sql")))
      with (String.append (String.append v (String "_" slug)) ".sql") by (by rewrite append_assoc). apply has_suffix_app. }
  pose proof (parseFilename_made _ _ Hl Hd Hs) as Hp. rewrite <-Hfn in Hp.
  eexists. split.
  - unfold Load. cbn [read_entries IsDir EntryName orb]. rewrite Hsuf. cbn [negb]. unfold migration_of. cbn [EntryName Body].
    rewrite Hp. reflexivity.
  - cbn [Version MName Filename SQL NoTx]. split_and!; try done; [by apply stub_in_transaction|]. apply format_version_value.
Qed.

Definition sample_day : Instant := 1767225600 * second.

Definition sample_file : string := "20260101000000_add_metadata_tables.sql".

Lemma sample_new : newAt (fun _ => false) true "Add metadata tables!" sample_day = Ok (sample_file, stub "add_metadata_tables").
Proof. vm_compute. reflexivity. Qed.

Lemma new_migration_loads_witness : (fun _ : string => false) sample_file = false.
Proof. exact (proj1 (new_migration_loads (fun _ => false) true "Add metadata tables!" sample_day _ _ sample_new)). Defined.
