(* ===== verification/Migrate.v ===== *)
(** * Running migrations

    [migrate/migrate.go]: the pending migrations in version order, each
    recorded with what it did, the three ways disk and history can disagree,
    and the check a binary makes at boot. What a migration's SQL does to the
    schema is the database's business, hence a parameter; one run outside a
    transaction may leave part of its work behind. *)

From S2P Require Import Prelude Identifiers Text Decimal Sha256 GoTime Errors Migrations.

Inductive migrate_error :=
| LoadFailed (e : load_error)
| ErrChecksumDrift
| ErrOutOfOrder
| ErrMissing
| ErrPending
| ErrSchemaAhead
| DbError (code : string)
| LockWaited
| LockNotHeld.

Record Applied := {
  AName : string;
  AChecksum : string;
  AppliedAt : Instant;
}.

(** One attempt at the advisory lock, while the wait lasts. *)
Inductive poll := PollGot | PollBusy | PollFailed (code : string).

Inductive release := Released | NotReleased | ReleaseFailed (code : string).

Inductive mstmt :=
| MSetTimeout
| MCreate
| MReadApplied
| MRegclass
| MBegin (v : Z)
| MExec (v : Z)
| MRecord (v : Z)
| MCommit (v : Z).

Record RunnerEnv := {
  mfault : mstmt -> option string;
  polls : list poll;
  unlock : release;
  record_now : Z -> Instant;
}.

(** The polling loop; the list ends when [lockWait] does. *)
Fixpoint acquireAdvisoryLock (ps : list poll) : option migrate_error :=
  match ps with
  | [] => Some LockWaited
  | PollGot :: _ => None
  | PollFailed code :: _ => Some (DbError code)
  | PollBusy :: ps => acquireAdvisoryLock ps
  end.

Definition releaseAdvisoryLock (r : release) : list migrate_error :=
  match r with
  | Released => []
  | NotReleased => [LockNotHeld]
  | ReleaseFailed code => [DbError code]
  end.

Section runner.
Context {World : Type} (run_sql : string -> World -> res string World) (run_sql_alone : string -> World -> option string * World).

(** Schema_migrations, absent before the first run, and everything else. *)
Record Db := { history : option (gmap Z Applied); schema : World }.

Definition done_of (db : Db) : gmap Z Applied := default ∅ (history db).

Definition applied_row (m : Migration) (at_ : Instant) : Applied :=
  {| AName := MName m; AChecksum := Checksum m; AppliedAt := at_ |}.

Definition mstmt_run {A} (E : RunnerEnv) (s : mstmt) (x : res migrate_error A) : res migrate_error A :=
  match mfault E s with Some code => Err (DbError code) | None => x end.

(** [record] *)
Definition record_applied (E : RunnerEnv) (m : Migration) (db : Db) : res migrate_error Db :=
  mstmt_run E (MRecord (Version m))
    (match done_of db !! Version m with
     | Some _ => Err (DbError uniqueViolation)
     | None => Ok {| history := Some (<[Version m := applied_row m (record_now E (Version m))]> (done_of db));
                     schema := schema db |}
     end).

Definition with_schema (s : World) (db : Db) : Db := {| history := history db; schema := s |}.

(** [apply] *)
Definition apply_migration (E : RunnerEnv) (m : Migration) (db : Db) : option migrate_error * Db :=
  if NoTx m then
    match mfault E (MExec (Version m)) with
    | Some code => (Some (DbError code), db)
    | None =>
        let '(e, s) := run_sql_alone (SQL m) (schema db) in
        let db := with_schema s db in
        match e with
        | Some code => (Some (DbError code), db)
        | None => match record_applied E m db with
                  | Ok db' => (None, db')
                  | Err e => (Some e, db)
                  end
        end
    end
  else
    let body :=
      let! _ := mstmt_run E (MBegin (Version m)) (Ok tt) in
      let! s := mstmt_run E (MExec (Version m))
                  (match run_sql (SQL m) (schema db) with Ok s => Ok s | Err code => Err (DbError code) end) in
      let! db' := record_applied E m (with_schema s db) in
      let! _ := mstmt_run E (MCommit (Version m)) (Ok tt) in
      Ok db' in
    match body with Ok db' => (None, db') | Err e => (Some e, db) end.

Definition loadApplied (E : RunnerEnv) (db : Db) : res migrate_error (gmap Z Applied) :=
  mstmt_run E MReadApplied (Ok (done_of db)).

Definition is_applied (done : gmap Z Applied) (m : Migration) : bool := bool_decide (is_Some (done !! Version m)).

Definition drifted (done : gmap Z Applied) (m : Migration) : bool :=
  match done !! Version m with Some a => negb (bool_decide (AChecksum a = Checksum m)) | None => false end.

Definition highestApplied (ms : list Migration) (done : gmap Z Applied) : Z :=
  foldl (fun h m => if is_applied done m then Z.max h (Version m) else h) 0 ms.

Definition on_disk (ms : list Migration) (v : Z) : bool := existsb (fun m => Version m =? v) ms.

(** [verify] *)
Definition verify_history (ms : list Migration) (done : gmap Z Applied) : option migrate_error :=
  if existsb (drifted done) ms then Some ErrChecksumDrift
  else if existsb (fun va => negb (on_disk ms va.1)) (map_to_list done) then Some ErrMissing
  else if existsb (fun m => negb (is_applied done m) && (Version m <? highestApplied ms done)) ms then Some ErrOutOfOrder
  else None.

Fixpoint apply_pending (E : RunnerEnv) (done : gmap Z Applied) (ms : list Migration) (n : nat) (db : Db)
    : nat * option migrate_error * Db :=
  match ms with
  | [] => (n, None, db)
  | m :: ms =>
      if is_applied done m then apply_pending E done ms n db
      else match apply_migration E m db with
           | (Some e, db) => (n, Some e, db)
           | (None, db) => apply_pending E done ms (n + 1) db
           end
  end.

(** [Run]: how many were applied, what went wrong, and the database. *)
Definition Run (E : RunnerEnv) (fsys : option (list Entry)) (db : Db) : nat * list migrate_error * Db :=
  match Load fsys with
  | Err e => (0%nat, [LoadFailed e], db)
  | Ok ms =>
      match mfault E MSetTimeout with
      | Some code => (0%nat, [DbError code], db)
      | None =>
          match acquireAdvisoryLock (polls E) with
          | Some e => (0%nat, [e], db)
          | None =>
              let '(n, e, db) :=
                match mfault E MCreate with
                | Some code => (0%nat, Some (DbError code), db)
                | None =>
                    let db := {| history := Some (done_of db); schema := schema db |} in
                    match loadApplied E db with
                    | Err e => (0%nat, Some e, db)
                    | Ok done => match verify_history ms done with
                                 | Some e => (0%nat, Some e, db)
                                 | None => apply_pending E done ms 0 db
                                 end
                    end
                end in
              (n, match e with Some e => [e] | None => [] end ++ releaseAdvisoryLock (unlock E), db)
          end
      end
  end.

(** [to_regclass('schema_migrations') is not null] *)
Definition history_exists (E : RunnerEnv) (db : Db) : res migrate_error bool :=
  mstmt_run E MRegclass (Ok (bool_decide (is_Some (history db)))).

Definition Status (E : RunnerEnv) (fsys : option (list Entry)) (db : Db)
    : res migrate_error (list (Migration * bool * option Instant)) :=
  match Load fsys with
  | Err e => Err (LoadFailed e)
  | Ok ms =>
      let! there := history_exists E db in
      let! done := (if there then loadApplied E db else Ok ∅) in
      Ok ((fun m => (m, is_applied done m, AppliedAt <$> done !! Version m)) <$> ms)
  end.

Definition RequireUpToDate (E : RunnerEnv) (fsys : option (list Entry)) (db : Db) : option migrate_error :=
  match Load fsys with
  | Err e => Some (LoadFailed e)
  | Ok ms =>
      match history_exists E db with
      | Err e => Some e
      | Ok false => Some ErrPending
      | Ok true =>
          match loadApplied E db with
          | Err e => Some e
          | Ok done =>
              if existsb (drifted done) ms then Some ErrChecksumDrift
              else if existsb (fun m => negb (is_applied done m)) ms then Some ErrPending
              else if existsb (fun va => negb (on_disk ms va.1)) (map_to_list done) then Some ErrSchemaAhead
              else None
          end
      end
  end.

(** ** Disk *)

Definition in_order (ms : list Migration) : Prop := StronglySorted (fun a b => Version a < Version b) ms.

Lemma strict_of_sorted (ms : list Migration) : StronglySorted version_le ms -> duplicate_version ms = None -> in_order ms.
Proof.
  unfold in_order. induction 1 as [|a ms Hs IH Ha]; [constructor|]. intros Hd.
  destruct ms as [|b ms]; [by repeat constructor|]. cbn [duplicate_version] in Hd.
  destruct (Z.eqb_spec (Version b) (Version a)) as [|Hne]; [done|]. specialize (IH Hd). constructor; [done|].
  inversion Ha as [|? ? Hab _]; subst. inversion IH as [|? ? _ Hb]; subst. unfold version_le in Hab.
  constructor; [lia|]. eapply Forall_impl; [exact Hb|]. simpl. lia.
Qed.

Lemma Load_in_order fsys (ms : list Migration) : Load fsys = Ok ms -> in_order ms.
Proof.
  unfold Load. destruct fsys as [es|]; [|done]. intros H. inv_ok. destruct (duplicate_version _) eqn:Hd; [done|].
  inv_ok. apply strict_of_sorted; [|done]. apply StronglySorted_merge_sort; unfold version_le; intros ?; lia.
Qed.

Lemma in_order_unique (ms : list Migration) m m' : in_order ms -> m ∈ ms -> m' ∈ ms -> Version m = Version m' -> m = m'.
Proof.
  unfold in_order. induction 1 as [|a ms Hs IH Ha]; [by intros ?%not_elem_of_nil|]. rewrite Forall_forall in Ha.
  intros [-> |Hm]%elem_of_cons [-> |Hm']%elem_of_cons E; [done|..|by apply IH].
  - specialize (Ha _ Hm'). simpl in Ha. lia.
  - specialize (Ha _ Hm). simpl in Ha. lia.
Qed.

(** ** When disk and history agree *)

Lemma highest_le (ms : list Migration) hist v :
  highestApplied ms hist <= v <-> 0 <= v /\ forall m, m ∈ ms -> is_applied hist m = true -> Version m <= v.
Proof.
  unfold highestApplied. generalize 0 as h0. induction ms as [|a ms IH]; intros h0; simpl.
  - split; [intros ?; split; [done|by intros m ?%not_elem_of_nil]|by intros [? _]].
  - rewrite IH. setoid_rewrite elem_of_cons. destruct (is_applied hist a) eqn:Ha; split; intros [H1 H2].
    + split; [lia|]. intros m [-> |Hm] Hd; [lia|by apply H2].
    + split; [|by eauto]. pose proof (H2 a (or_introl eq_refl) Ha). lia.
    + split; [done|]. intros m [-> |Hm] Hd; [congruence|by apply H2].
    + split; [done|]. eauto.
Qed.

(** What [verify] accepts. *)
Record agrees (ms : list Migration) (hist : gmap Z Applied) : Prop := {
  ag_bodies : forall m a, m ∈ ms -> hist !! Version m = Some a -> AChecksum a = Checksum m;
  ag_present : forall v, is_Some (hist !! v) -> exists m, m ∈ ms /\ Version m = v;
  ag_order : forall m, m ∈ ms -> is_applied hist m = false ->
    highestApplied ms hist <= Version m;
}.

Lemma existsb_false {A} (f : A -> bool) (l : list A) : existsb f l = false <-> forall x, x ∈ l -> f x = false.
Proof.
  induction l as [|x l IH]; simpl; [by split; [intros _ x ?%not_elem_of_nil|]|]. rewrite orb_false_iff, IH.
  setoid_rewrite elem_of_cons. naive_solver.
Qed.

Lemma drifted_false hist m : drifted hist m = false <-> forall a, hist !! Version m = Some a -> AChecksum a = Checksum m.
Proof.
  unfold drifted. destruct (hist !! Version m) as [a|]; [|naive_solver].
  rewrite negb_false_iff, bool_decide_eq_true. naive_solver.
Qed.

Lemma on_disk_true (ms : list Migration) v : on_disk ms v = true <-> exists m, m ∈ ms /\ Version m = v.
Proof.
  unfold on_disk. rewrite existsb_exists. setoid_rewrite Z.eqb_eq. by setoid_rewrite list_elem_of_In.
Qed.

Lemma absent_false (ms : list Migration) (hist : gmap Z Applied) :
  existsb (fun va => negb (on_disk ms va.1)) (map_to_list hist) = false <->
  forall v, is_Some (hist !! v) -> exists m, m ∈ ms /\ Version m = v.
Proof.
  rewrite existsb_false. split.
  - intros H v [a Ha]. apply on_disk_true, negb_false_iff, (H (v, a)). by apply elem_of_map_to_list.
  - intros H [v a] Ha%elem_of_map_to_list. apply negb_false_iff, on_disk_true, H. by exists a.
Qed.

Lemma verify_history_None (ms : list Migration) hist : verify_history ms hist = None <-> agrees ms hist.
Proof.
  unfold verify_history. split.
  - destruct (existsb (drifted hist) ms) eqn:H1; [done|].
    destruct (existsb _ (map_to_list hist)) eqn:H2; [done|]. destruct (existsb _ ms) eqn:H3 in |- *; [done|]. intros _.
    rewrite existsb_false in H1. pose proof (proj1 (absent_false _ _) H2). rewrite existsb_false in H3. split; [|done|].
    + intros m a Hm. by apply drifted_false, H1.
    + intros m Hm Hd. specialize (H3 m Hm). simpl in H3. rewrite Hd in H3. simpl in H3. lia.
  - intros [H1 H2 H3]. assert (existsb (drifted hist) ms = false) as ->.
    { apply existsb_false. intros m Hm. apply drifted_false. by intros a; apply H1. }
    rewrite (proj2 (absent_false _ _) H2).
    assert (existsb (fun m => negb (is_applied hist m) && (Version m <? highestApplied ms hist)) ms = false) as ->; [|done].
    apply existsb_false. intros m Hm. destruct (is_applied hist m) eqn:Hd; [done|]. specialize (H3 m Hm Hd). simpl. lia.
Qed.

(** ** What a run did *)

Definition pending_of (hist : gmap Z Applied) (ms : list Migration) : list Migration :=
  filter (fun m => is_applied hist m = false) ms.

(** Migrations carried out in order, each to its end. *)
Inductive carried : list Migration -> World -> World -> Prop :=
| carried_nil s : carried [] s s
| carried_cons m ms s s1 s2 :
    (if NoTx m then run_sql_alone (SQL m) s = (None, s1) else run_sql (SQL m) s = Ok s1) ->
    carried ms s1 s2 -> carried (m :: ms) s s2.

Definition recorded_after (E : RunnerEnv) (ms : list Migration) (hist : gmap Z Applied) : gmap Z Applied :=
  foldl (fun h m => <[Version m := applied_row m (record_now E (Version m))]> h) hist ms.

Lemma apply_migration_cases E m db e db' :
  apply_migration E m db = (e, db') ->
  match e with
  | None => carried [m] (schema db) (schema db') /\ done_of db !! Version m = None /\
            done_of db' = <[Version m := applied_row m (record_now E (Version m))]> (done_of db)
  | Some _ => done_of db' = done_of db /\ (NoTx m = false -> db' = db)
  end.
Proof.
  unfold apply_migration. destruct (NoTx m) eqn:Htx.
  - destruct (mfault E _); [intros H; by simplify_eq|]. destruct (run_sql_alone (SQL m) (schema db)) as [[code|] s] eqn:Hr;
      [intros H; by simplify_eq|]. unfold record_applied, mstmt_run. destruct (mfault E _); [intros H; by simplify_eq|].
    destruct (done_of _ !! _) eqn:Hd; intros H; simplify_eq; [done|]. split_and!; [|done|done].
    econstructor; [by rewrite Htx|constructor].
  - intros H.
    destruct (rbind _ _) as [d|e'] eqn:Hb in H; simplify_eq; [|by split].
    unfold record_applied, mstmt_run in Hb. inv_ok. destruct (run_sql (SQL m) (schema db)) as [s|code] eqn:Hr; repeat case_match; simplify_eq/=.
    split_and!; [|done|done]. econstructor; [by rewrite Htx|constructor].
Qed.

Lemma recorded_after_other E (l : list Migration) hist v :
  (forall m, m ∈ l -> Version m <> v) -> recorded_after E l hist !! v = hist !! v.
Proof.
  unfold recorded_after. revert hist. induction l as [|a l IH]; intros hist Hv; [done|]. simpl.
  rewrite IH by (intros m Hm; apply Hv; by right). rewrite lookup_insert_ne; [done|]. apply Hv. by left.
Qed.

Lemma recorded_after_lookup E (ms l : list Migration) hist m :
  in_order ms -> (forall x, x ∈ l -> x ∈ ms) -> m ∈ l ->
  recorded_after E l hist !! Version m = Some (applied_row m (record_now E (Version m))).
Proof.
  intros Ho. unfold recorded_after. revert hist. induction l as [|a l IH]; intros hist Hl Hm; [by apply not_elem_of_nil in Hm|]. simpl.
  destruct (decide (m ∈ l)) as [Hin|Hout]; [apply IH; [intros x Hx; apply Hl; by right|done]|].
  apply elem_of_cons in Hm as [-> |?]; [|done]. etrans; [apply (recorded_after_other E l)|apply lookup_insert_eq].
  intros x Hx E'. apply Hout. rewrite <-(in_order_unique ms x a); [done|done|apply Hl; by right|apply Hl; by left|done].
Qed.

Lemma recorded_after_kept E (l : list Migration) hist v :
  is_Some (hist !! v) -> is_Some (recorded_after E l hist !! v).
Proof.
  unfold recorded_after. revert hist. induction l as [|a l IH]; intros hist Hv; [done|]. simpl. apply IH.
  apply lookup_insert_is_Some'. by right.
Qed.

Lemma apply_pending_cases E hist (ms : list Migration) n0 db n e db' :
  apply_pending E hist ms n0 db = (n, e, db') ->
  exists k s, n = (n0 + k)%nat /\ (k <= length (pending_of hist ms))%nat /\
    done_of db' = recorded_after E (take k (pending_of hist ms)) (done_of db) /\
    carried (take k (pending_of hist ms)) (schema db) s /\
    match e with
    | None => k = length (pending_of hist ms) /\ schema db' = s
    | Some _ => schema db' = s \/ exists m, pending_of hist ms !! k = Some m /\ NoTx m = true
    end.
Proof.
  revert n0 db. unfold pending_of. induction ms as [|m ms IH]; intros n0 db; simpl.
  { intros H. simplify_eq. exists 0%nat, (schema db'). split_and!; [lia|done|done|constructor|done|done]. }
  rewrite filter_cons. destruct (is_applied hist m) eqn:Hd.
  { rewrite decide_False by done. apply IH. }
  rewrite decide_True by done. destruct (apply_migration E m db) as [[e1|] db1] eqn:Ha; apply apply_migration_cases in Ha.
  - destruct Ha as [Hdone Hsame]. intros H. simplify_eq. exists 0%nat, (schema db). split_and!; [lia|lia|done|constructor|].
    destruct (NoTx m) eqn:Htx; [right; by exists m|left; by rewrite Hsame].
  - destruct Ha as (Hc & _ & Hdone). intros (k & s & -> & Hk & Hd' & Hc' & Hlast)%IH.
    exists (S k), s. split_and!; [lia|simpl; lia|by rewrite Hd', Hdone| |].
    + inversion Hc as [|? ? ? s1 ? Hm Hnil]; subst. inversion Hnil; subst. by econstructor.
    + destruct e; [done|]. destruct Hlast as [-> ->]. done.
Qed.

Lemma record_history E m db db' : record_applied E m db = Ok db' -> is_Some (history db').
Proof.
  unfold record_applied, mstmt_run. destruct (mfault E _); [done|]. destruct (done_of db !! _); [done|].
  intros H. simplify_eq. by eexists.
Qed.

Lemma apply_history E m db db' : apply_migration E m db = (None, db') -> is_Some (history db').
Proof.
  unfold apply_migration. destruct (NoTx m).
  - destruct (mfault E _); [done|]. destruct (run_sql_alone _ _) as [[code|] s]; [done|].
    destruct (record_applied E m _) eqn:Hr; [|done]. intros H. simplify_eq. by eapply record_history.
  - intros H. destruct (rbind _ _) as [d|] eqn:Hb in H; [|done]. simplify_eq. inv_ok. by eapply record_history.
Qed.

Lemma pending_history E hist (ms : list Migration) n0 db n db' :
  apply_pending E hist ms n0 db = (n, None, db') -> is_Some (history db) -> is_Some (history db').
Proof.
  revert n0 db. induction ms as [|m ms IH]; intros n0 db; simpl; [by intros; simplify_eq|].
  destruct (is_applied hist m); [by apply IH|].
  destruct (apply_migration E m db) as [[e|] db1] eqn:Ha; [done|]. intros H _. eapply IH; [exact H|].
  by eapply apply_history.
Qed.

Lemma pending_in_order hist (ms : list Migration) : in_order ms -> in_order (pending_of hist ms).
Proof.
  unfold in_order, pending_of. induction 1 as [|a ms Hs IH Ha]; [constructor|]. rewrite filter_cons.
  case_decide; [|done]. constructor; [done|]. rewrite Forall_forall in *. intros x [_ Hx]%list_elem_of_filter. by apply Ha.
Qed.

(** Recording a prefix of what is pending keeps disk and history agreed. *)
Lemma agrees_after E (ms : list Migration) hist k :
  in_order ms -> agrees ms hist -> agrees ms (recorded_after E (take k (pending_of hist ms)) hist).
Proof.
  intros Ho [Hb Hp Hord]. set (l := take k (pending_of hist ms)).
  assert (forall x, x ∈ l -> x ∈ ms /\ is_applied hist x = false) as Hl.
  { intros x Hx%elem_of_take. destruct Hx as (i & Hi%list_elem_of_lookup_2 & _). by apply list_elem_of_filter in Hi as [? ?]. }
  assert (forall m, m ∈ ms -> m ∈ l \/ recorded_after E l hist !! Version m = hist !! Version m) as Hcase.
  { intros m Hm. destruct (decide (m ∈ l)) as [?|Hout]; [by left|right]. apply recorded_after_other.
    intros x Hx E'. apply Hout. rewrite <-(in_order_unique ms x m); [done|done|by apply Hl|done|done]. }
  assert (forall m, m ∈ l -> recorded_after E l hist !! Version m = Some (applied_row m (record_now E (Version m)))) as Hnew.
  { intros m Hm. apply (recorded_after_lookup E ms); [done|by intros x Hx; apply Hl|done]. }
  split.
  - intros m a Hm Ha. destruct (Hcase m Hm) as [Hin|E'].
    + rewrite (Hnew m Hin) in Ha. by injection Ha as <-.
    + rewrite E' in Ha. by apply Hb.
  - intros v Hv. destruct (decide (Exists (fun m => Version m = v) l)) as [(x & Hx & <-)%Exists_exists|Hn].
    + exists x. by split; [apply Hl|].
    + apply Hp. rewrite recorded_after_other in Hv; [done|]. intros m Hm E'. apply Hn, Exists_exists. by exists m.
  - intros m Hm Hna. assert (m ∉ l) as Hout.
    { intros Hin. unfold is_applied in Hna. rewrite (Hnew m Hin) in Hna. by rewrite bool_decide_true in Hna by eauto. }
    assert (is_applied hist m = false) as Hpend.
    { destruct (Hcase m Hm) as [?|E']; [done|]. unfold is_applied in *. by rewrite <-E'. }
    specialize (Hord m Hm Hpend). apply highest_le in Hord as [H0 Hord]. apply highest_le. split; [done|].
    intros x Hx Hax. destruct (Hcase x Hx) as [Hin|E']; [|apply Hord; [done|]; unfold is_applied in *; by rewrite <-E'].
    assert (m ∈ drop k (pending_of hist ms)) as Hdrop.
    { assert (m ∈ pending_of hist ms) as Hmp by (by apply list_elem_of_filter). rewrite <-(take_drop k) in Hmp.
      by apply elem_of_app in Hmp as [?|?]. }
    assert (in_order (pending_of hist ms)) as Hs by (by apply pending_in_order). unfold in_order in Hs.
    rewrite <-(take_drop k) in Hs. apply StronglySorted_app in Hs as (Hlt & _). specialize (Hlt x m Hin Hdrop). simpl in Hlt. lia.
Qed.

(** A run that got as far as applying. *)
Lemma Run_cases E fsys db n errs db' :
  Run E fsys db = (n, errs, db') ->
  (n = 0%nat /\ errs <> [] /\ done_of db' = done_of db /\ schema db' = schema db) \/
  exists ms db0 e,
    Load fsys = Ok ms /\ agrees ms (done_of db) /\ done_of db0 = done_of db /\ schema db0 = schema db /\
    history db0 = Some (done_of db) /\ apply_pending E (done_of db) ms 0 db0 = (n, e, db') /\
    errs = match e with Some e => [e] | None => [] end ++ releaseAdvisoryLock (unlock E).
Proof.
  unfold Run, loadApplied, mstmt_run. destruct (Load fsys) as [ms|e] eqn:Hl; [|intros H; simplify_eq; by left].
  destruct (mfault E MSetTimeout); [intros H; simplify_eq; by left|].
  destruct (acquireAdvisoryLock (polls E)); [intros H; simplify_eq; by left|].
  destruct (mfault E MCreate); [intros H; simplify_eq; by left|].
  destruct (mfault E MReadApplied); [intros H; simplify_eq; by left|].
  change (done_of {| history := Some (done_of db); schema := schema db |}) with (done_of db).
  destruct (verify_history ms (done_of db)) as [e|] eqn:Hv; [intros H; simplify_eq; by left|].
  apply verify_history_None in Hv. intros H. right.
  destruct (apply_pending E (done_of db) ms 0 _) as [[k e] db1] eqn:Hp. simplify_eq.
  eexists ms, _, e. split_and!; [done|done| | | |exact Hp|done]; done.
Qed.

(** C36: a run can stop anywhere and be run again. Whatever fails, the pending
    migrations that were recorded are the first so many in version order, each
    carried out to its end and before the next; the count reported is theirs;
    nothing else happened to the schema unless a migration that runs outside a
    transaction failed part way; and disk and history still agree, so the next
    run continues where this one stopped. *)
Theorem migrations_resume (E : RunnerEnv) (fsys : option (list Entry)) (ms : list Migration) (db : Db)
    (n : nat) (errs : list migrate_error) (db' : Db) :
  Load fsys = Ok ms -> verify_history ms (done_of db) = None -> Run E fsys db = (n, errs, db') ->
  let pending := pending_of (done_of db) ms in
  (n <= length pending)%nat /\ done_of db' = recorded_after E (take n pending) (done_of db) /\
  (exists s, carried (take n pending) (schema db) s /\
     (schema db' = s \/ exists m, pending !! n = Some m /\ NoTx m = true)) /\
  verify_history ms (done_of db') = None /\
  (errs = [] -> n = length pending).
Proof.
  intros Hl Hv Hrun. pose proof (Load_in_order _ _ Hl) as Ho. apply verify_history_None in Hv as Hag.
  apply Run_cases in Hrun as [(-> & Hne & Hd & Hs)|(ms' & db0 & e & Hl' & _ & Hd0 & Hs0 & _ & Hp & ->)].
  - cbn zeta. rewrite Hd, Hs. split_and!; [lia|done| |done|done]. exists (schema db). split; [constructor|by left].
  - assert (ms' = ms) as -> by congruence.
    apply apply_pending_cases in Hp as (k & s & -> & Hk & Hd & Hc & Hlast). rewrite Hd0, Hs0 in *. simpl in Hk |- *.
    split_and!; [done|done| | |].
    + exists s. split; [done|]. destruct e; [done|]. left. by destruct Hlast.
    + rewrite Hd. by apply verify_history_None, agrees_after.
    + intros Hnil. destruct e; [done|]. by destruct Hlast.
Qed.

(** A database that answers, and a lock that is free. *)
Record working (E : RunnerEnv) : Prop := {
  wk_faults : forall s, mfault E s = None;
  wk_lock : acquireAdvisoryLock (polls E) = None;
  wk_unlock : unlock E = Released;
}.

Lemma nothing_pending E hist (ms : list Migration) n db :
  (forall m, m ∈ ms -> is_applied hist m = true) -> apply_pending E hist ms n db = (n, None, db).
Proof.
  induction ms as [|m ms IH]; intros H; [done|]. simpl. rewrite (H m (list_elem_of_here _ _)).
  apply IH. intros x Hx. apply H. by right.
Qed.

(** A run that reports no error leaves nothing to do. Every migration on
    disk is recorded with its checksum, [RequireUpToDate] passes, [Status]
    reports them all applied, and running again applies none and changes
    nothing. *)
Theorem migrated_up_to_date (E E' : RunnerEnv) (fsys : option (list Entry)) (db : Db) (n : nat) (db' : Db) :
  Run E fsys db = (n, [], db') -> working E' ->
  RequireUpToDate E' fsys db' = None /\ Run E' fsys db' = (0%nat, [], db') /\
  exists ms, Load fsys = Ok ms /\
    (forall m, m ∈ ms -> exists a, done_of db' !! Version m = Some a /\ AChecksum a = Checksum m) /\
    Status E' fsys db' = Ok ((fun m => (m, true, AppliedAt <$> done_of db' !! Version m)) <$> ms).
Proof.
  intros Hrun [Hf Hlock Hunlock].
  apply Run_cases in Hrun as [(_ & Hne & _)|(ms & db0 & e & Hl & Hag & Hd0 & Hs0 & Hh & Hp & He)]; [done|].
  pose proof (Load_in_order _ _ Hl) as Ho. destruct e as [e|]; [done|].
  assert (is_Some (history db')) as [h Hh'] by (eapply pending_history; [exact Hp|by rewrite Hh]).
  apply apply_pending_cases in Hp as (k & s & -> & Hk & Hd & _ & [-> _]). rewrite Hd0 in Hd.
  rewrite firstn_all in Hd.
  assert (agrees ms (done_of db')) as Hag'.
  { rewrite Hd. pose proof (agrees_after E ms (done_of db) (length (pending_of (done_of db) ms)) Ho Hag) as H. by rewrite firstn_all in H. }
  assert (forall m, m ∈ ms -> is_applied (done_of db') m = true) as Hall.
  { intros m Hm. unfold is_applied. rewrite Hd. apply bool_decide_eq_true.
    destruct (is_applied (done_of db) m) eqn:Ha.
    - apply recorded_after_kept. by eapply bool_decide_eq_true_1.
    - rewrite (recorded_after_lookup E ms); [by eexists|done|by intros x [_ ?]%list_elem_of_filter|by apply list_elem_of_filter]. }
  unfold RequireUpToDate, Run, Status, history_exists, loadApplied, mstmt_run. rewrite Hl, !Hf, Hh', Hlock, Hunlock.
  rewrite bool_decide_true by eauto. cbn [rbind].
  assert (existsb (drifted (done_of db')) ms = false) as Hdr.
  { apply existsb_false. intros m Hm. apply drifted_false. intros a. by apply (ag_bodies _ _ Hag'). }
  assert (existsb (fun va => negb (on_disk ms va.1)) (map_to_list (done_of db')) = false) as Hab.
  { apply absent_false. apply (ag_present _ _ Hag'). }
  assert (existsb (fun m => negb (is_applied (done_of db') m)) ms = false) as Hpe.
  { apply existsb_false. intros m Hm. by rewrite (Hall m Hm). }
  split_and!.
  - by rewrite Hdr, Hpe, Hab.
  - change (done_of {| history := Some (done_of db'); schema := schema db' |}) with (done_of db').
    rewrite (proj2 (verify_history_None _ _) Hag'), nothing_pending by done.
    f_equal. destruct db' as [h' s']. simpl in Hh'. by subst h'.
  - exists ms. split_and!; [done| |].
    + intros m Hm. specialize (Hall m Hm) as Ha. apply bool_decide_eq_true in Ha as [a Ha]. exists a. split; [done|].
      by apply (ag_bodies _ _ Hag').
    + f_equal. apply list_fmap_ext. intros i m Hi%list_elem_of_lookup_2. by rewrite (Hall m Hi).
Qed.
End runner.

(** ** A run that stops half way, and one that does not *)

Definition sample_migration (filename name sql : string) (v : Z) (alone : bool) : Migration :=
  {| Version := v; MName := name; Filename := filename; SQL := sql;
     Checksum := hex_encode (Sha256.sum256 sql); NoTx := alone |}.

Definition first_sample : Migration :=
  sample_migration "20260904010000_tables.sql" "tables" "create table t (n int)" 20260904010000 false.

Definition second_sample : Migration :=
  sample_migration "20260904020000_index.sql" "index" "-- giro:no-transaction" 20260904020000 true.

Definition sample_files : option (list Entry) :=
  Some ((fun m => {| EntryName := Filename m; IsDir := false; Body := Some (SQL m) |}) <$> [second_sample; first_sample]).

(** A schema is the statements that took effect. The index build of the second
    file is cut off when [cut] says so, leaving its first half. *)
Definition sample_sql (sql : string) (s : list string) : res string (list string) := Ok (s ++ [sql]).

Definition sample_sql_alone (cut : bool) (sql : string) (s : list string) : option string * list string :=
  if cut then (Some "57014"%string, s ++ ["invalid index"%string]) else (None, s ++ [sql]).

Definition sample_runner : RunnerEnv :=
  {| mfault := fun _ => None; polls := [PollBusy; PollGot]; unlock := Released; record_now := fun v => v |}.

Definition fresh_db : Db (World := list string) := {| history := None; schema := [] |}.

Lemma sample_load : Load sample_files = Ok [first_sample; second_sample].
Proof. reflexivity. Qed.

Lemma migrations_resume_witness :
  verify_history [first_sample; second_sample] (done_of fresh_db) = None /\
  verify_history [first_sample; second_sample] {[Version first_sample := applied_row first_sample (Version first_sample)]} = None.
Proof.
  split; [reflexivity|].
  exact (proj1 (proj2 (proj2 (proj2 (migrations_resume sample_sql (sample_sql_alone true) sample_runner sample_files
    [first_sample; second_sample] fresh_db 1 [DbError "57014"]
    {| history := Some {[Version first_sample := applied_row first_sample (Version first_sample)]};
       schema := ["create table t (n int)"; "invalid index"]%string |}
    sample_load eq_refl eq_refl))))).
Defined.

Lemma migrated_up_to_date_witness :
  RequireUpToDate sample_runner sample_files (Run sample_sql (sample_sql_alone false) sample_runner sample_files fresh_db).2 = None.
Proof.
  exact (proj1 (migrated_up_to_date sample_sql (sample_sql_alone false) sample_runner sample_runner sample_files fresh_db 2 _ eq_refl
    (Build_working sample_runner (fun _ => eq_refl) eq_refl eq_refl))).
Defined.
