(* ===== verification/Operator.v ===== *)
(** * The command line

    [cmd/giro]: [giro account] and [giro recover] over every ledger of one
    database. A command prints lines, changes the ledgers and ends well or with
    an error that decides its exit code. The lines are data, not text, except
    a tip, which another command reads back, and the table of a policy. *)

From S2P Require Import Prelude Identifiers Text Tabulate Decimal Posting Volumes GoTime Transaction Codec Encoding Errors Schema Txn Locking Guards Moves History Log Observer Commit Committed Book Chain Sample CommitSpec Replay Effective Read Verify Invariant Revert Bulk MetadataOps Policy Closure Registry Recovery Ledger Refinement VerifyRuns Service Counters Params Reader Body Client Wire Api Numeric Recon Migrations Migrate.

(** ** A database of ledgers *)

(** One ledger's rows in every table. *)
Record Tenant := { book : Database; statements : Recon; verified : list VerificationRun }.

Definition vacant : Tenant := {| book := empty_database; statements := no_recon; verified := [] |}.

Abbreviation Books := (gmap string Tenant) (only parsing).

Definition tenant (C : Books) (l : string) : Tenant := default vacant (C !! l).

Definition set_book (d : Database) (t : Tenant) : Tenant :=
  {| book := d; statements := statements t; verified := verified t |}.

(** [storage.Ledgers] *)
Definition ledger_names (C : Books) : list string := Ledgers (omap (fun t => ledger_row (book t)) C).

(** [storage.New] *)
Definition New (d : Database) : Store :=
  {| db := d; seen_assets := ∅; ledgerSeen := false; retries := 0; observing := false; events := [] |}.

(** ** Commands *)

(** The texts of a usage error. *)
Inductive usage :=
| GiroUsage | UnknownCommand (s : string)
| AccountUsage | UnknownAccountCommand (s : string)
| RecoverUsage | UnknownRecoverCommand (s : string)
| VerifyUsage | LateFlag (name : string)
| ServeUsage | UnknownFlag (s : string)
| MigrateUsage | MigrateNewUsage | UnknownMigrateCommand (s : string).

Inductive cmd_error :=
| UsageErr (u : usage)
| NoDatabaseURL
| ConnectFailed (message : string)
| InvalidAddress (a : string)
| InvalidAsset (a : string)
| NoLedger (name : string) (have : list string)
| NotHandled (asset : Asset) (handles : list Asset)
| StorageErr (e : error)
| BadConfig (message : string)
| PingFailed (message : string)
| AcquireFailed (message : string)
| SchemaErr (e : migrate_error)
| MigrateErrs (es : list migrate_error)
| CreateErr (e : new_error)
| ListenFailed (message : string)
| TipsDiffer (failed all : nat)
| FindingsReported (n : nat)
| ChecksOverdue (n : nat)
| Panicked.

Inductive side := NegativeSide | PositiveSide.

Inductive line :=
| SideSet (a : Address) (permits : bool) (s : side) (asset : Asset)
| AlreadyOutside (balance : Z) (asset : Asset)
| ClosedLine (a : Address) (l : string)
| ReopenedLine (a : Address) (l : string)
| StateLine (a : Address) (closed : bool)
| NothingMoved
| PolicyTable (text : string)
| NoLedgers
| TipLine (text : string)
| TipOk (l : string)
| TipFail (l : string) (e : error)
| NothingToDo (l : string) (log recorded : Z)
| Resumed (l : string) (log from to : Z)
| NewTip (text : string)
| LedgerLine (l : string)
| CheckLine (r : CheckResult)
| NeverRun
| LastRunLine (check : string) (at_ : Instant) (stale : bool)
| JsonResults (l : string) (rs : list CheckResult)
| JsonAges (rows : list (string * string * option Instant * bool))
| UpToDate
| MigrationsApplied (n : nat)
| NoMigrations
| MigrationLine (m : Migration) (applied : bool) (at_ : option Instant)
| Created (filename : string)
| SchemaAhead
| Privileged (user : string)
| UnkeyedNote
| NoAuthNote
| Listening (addr : string) (srv : Server)
| Stopped
| UsageText.

(** What a command does: the lines it prints, how it ends, what it leaves.
    Lines printed and changes made before an error stay. *)
Definition Command (State A : Type) : Type := State -> list line * res cmd_error A * State.

(** On the ledgers; migrations have their own state. *)
Definition Cmd (A : Type) : Type := Command Books A.

Definition give {State A} (a : A) : Command State A := fun C => ([], Ok a, C).
Definition throw {State A} (e : cmd_error) : Command State A := fun C => ([], Err e, C).
Definition say {State} (l : line) : Command State unit := fun C => ([l], Ok tt, C).

Definition chain {State A B} (m : Command State A) (f : A -> Command State B) : Command State B := fun C =>
  let '(out, r, C1) := m C in
  match r with
  | Err e => (out, Err e, C1)
  | Ok a => let '(more, r', C2) := f a C1 in (out ++ more, r', C2)
  end.

Declare Scope cmd_scope.
Delimit Scope cmd_scope with cmd.
Notation "'do*' x ':=' m 'in' k" := (chain m (fun x => k))
  (at level 200, x name, m at level 100, k at level 200, right associativity) : cmd_scope.
Notation "m ';*' k" := (chain m (fun _ => k)) (at level 199, right associativity) : cmd_scope.
Open Scope cmd_scope.

Definition require {State} (b : bool) (e : cmd_error) : Command State unit := if b then give tt else throw e.

Fixpoint each {State A} (f : nat -> A -> Command State unit) (i : nat) (l : list A) : Command State unit :=
  match l with
  | [] => give tt
  | x :: l => f i x ;* each f (S i) l
  end.

Definition exit_code (r : res cmd_error unit) : Z :=
  match r with
  | Ok _ => 0
  | Err (UsageErr _) | Err Panicked => 2
  | Err _ => 1
  end.

(** The process: its environment, the failures of its reads in their order, and
    the weather of its write. *)
Record Shell := {
  database_url : string;
  connects : option string;
  query_fault : nat -> option string;
  weather : Weather;
}.

(** [os.Getenv], [pgxpool.New] *)
Definition contact {State} (Sh : Shell) : Command State unit :=
  require (negb (bool_decide (database_url Sh = EmptyString))) NoDatabaseURL ;*
  match connects Sh with Some m => throw (ConnectFailed m) | None => give tt end.

Definition answer {State A} (r : res error A) : Command State A :=
  match r with Ok a => give a | Err e => throw (StorageErr e) end.

(** The [i]th read of the command, of one ledger. *)
Definition ask {A} (Sh : Shell) (i : nat) (l : string) (read : Database -> res error A) : Cmd A := fun C =>
  match query_fault Sh i with
  | Some code => throw (StorageErr (PgError code)) C
  | None => answer (read (book (tenant C l))) C
  end.

Definition ask_ledgers (Sh : Shell) (i : nat) : Cmd (list string) := fun C =>
  match query_fault Sh i with
  | Some code => throw (StorageErr (PgError code)) C
  | None => give (ledger_names C) C
  end.

Section codec.
Context {codec : Codec}.

(** A write on one ledger, by a store made for it. *)
Definition operate (Sh : Shell) (l : string) (r : Request) : Cmd unit := fun C =>
  let '(x, s) := serve (weather Sh) r (New (book (tenant C l))) in
  ([], match x with Ok _ => Ok tt | Err e => Err (StorageErr e) end, <[l := set_book (db s) (tenant C l)]> C).

(** ** [giro account] *)

Definition bounds (p : AssetPolicy) : string :=
  match AllowNegative p, AllowPositive p with
  | true, true => "unbounded — no rule in either direction"
  | true, false => "at or below zero — a cost line"
  | false, true => "at or above zero — the ordinary account"
  | false, false => "zero only — it may hold nothing"
  end.

Definition outside (s : side) (balance : Z) : bool :=
  match s with NegativeSide => balance <? 0 | PositiveSide => 0 <? balance end.

(** The balance is read back to warn; a failure to read it is not reported. *)
Definition warn_outside (Sh : Shell) (l : string) (address : Address) (asset : Asset) (s : side) : Cmd unit := fun C =>
  match ask Sh 2 l (fun d => Policy d address) C with
  | (_, Err _, _) => give tt C
  | (_, Ok policy, _) =>
      each (fun _ p => if bool_decide (APAsset p = asset) && outside s (APBalance p)
                       then say (AlreadyOutside (APBalance p) asset) else give tt) 0 policy C
  end.

Definition setBound (Sh : Shell) (l : string) (address : Address) (asset : Asset) (s : side) (allow : bool) : Cmd unit :=
  operate Sh l (match s with
                | NegativeSide => DoSetAllowNegative address asset allow
                | PositiveSide => DoSetAllowPositive address asset allow
                end) ;*
  say (SideSet address allow s asset) ;*
  if allow then give tt else warn_outside Sh l address asset s.

Definition showAccount (Sh : Shell) (l : string) (address : Address) : Cmd unit :=
  do* closed := ask Sh 2 l (fun d => IsClosed d address) in
  do* policy := ask Sh 3 l (fun d => Policy d address) in
  say (StateLine address closed) ;*
  match policy with
  | [] => say NothingMoved
  | _ => say (PolicyTable (tabulate (["  ASSET"; "BALANCE"; "BOUNDS"]
            :: ((fun p => ["  " +:+ APAsset p; print_Z (APBalance p); bounds p]) <$> policy))))
  end.

Inductive verb := VShow | VSet (s : side) (allow : bool) | VClose | VReopen.

Definition account_verb (s : string) : option verb :=
  if bool_decide (s = "allow-negative") then Some (VSet NegativeSide true)
  else if bool_decide (s = "refuse-negative") then Some (VSet NegativeSide false)
  else if bool_decide (s = "allow-positive") then Some (VSet PositiveSide true)
  else if bool_decide (s = "refuse-positive") then Some (VSet PositiveSide false)
  else if bool_decide (s = "show") then Some VShow
  else if bool_decide (s = "close") then Some VClose
  else if bool_decide (s = "reopen") then Some VReopen
  else None.

(** The ledger, the address and, where the verb takes one, the asset. *)
Definition account_args (v : verb) (rest : list string) : option (string * Address * option Asset) :=
  match v, rest with
  | VSet _ _, [l; a; c] => Some (l, a, Some c)
  | VSet _ _, _ => None
  | _, [l; a] => Some (l, a, None)
  | _, _ => None
  end.

Definition account_action (Sh : Shell) (v : verb) (l : string) (address : Address) (asset : option Asset) : Cmd unit :=
  match v with
  | VShow => showAccount Sh l address
  | VSet s allow => setBound Sh l address (default EmptyString asset) s allow
  | VClose => operate Sh l (DoCloseAccount address) ;* say (ClosedLine address l)
  | VReopen => operate Sh l (DoReopenAccount address) ;* say (ReopenedLine address l)
  end.

(** Everything that is looked at before the account is. *)
Definition account_checks (Sh : Shell) (l : string) (address : Address) (asset : option Asset) : Cmd unit :=
  require (Address_Valid address) (InvalidAddress address) ;*
  require (from_option Asset_Valid true asset) (InvalidAsset (default EmptyString asset)) ;*
  contact Sh ;*
  do* names := ask_ledgers Sh 0 in
  require (bool_decide (l ∈ names)) (NoLedger l names) ;*
  match asset with
  | None => give tt
  | Some c => do* registered := ask Sh 1 l (fun d => Ok (Assets d)) in
              require (bool_decide (c ∈ registered)) (NotHandled c registered)
  end.

Definition accountCommand (Sh : Shell) (args : list string) : Cmd unit :=
  match args with
  | [] => throw (UsageErr AccountUsage)
  | verb :: rest =>
      match account_verb verb with
      | None => throw (UsageErr (UnknownAccountCommand verb))
      | Some v =>
          match account_args v rest with
          | None => throw (UsageErr AccountUsage)
          | Some (l, address, asset) =>
              account_checks Sh l address asset ;*
              account_action Sh v l address asset
          end
      end
  end.

End codec.

(** ** Reads change nothing *)

(** A command ends where its first part ended badly, or in its second part. *)
Lemma chain_cases {State A B} (m : Command State A) (f : A -> Command State B) C out r C' :
  chain m f C = (out, r, C') ->
  (exists e, m C = (out, Err e, C') /\ r = Err e) \/
  (exists a out1 out2 C1, m C = (out1, Ok a, C1) /\ f a C1 = (out2, r, C') /\ out = out1 ++ out2).
Proof.
  unfold chain. destruct (m C) as [[out1 [a|e]] C1].
  - destruct (f a C1) as [[out2 r2] C2] eqn:Hf. intros [= <- <- <-]. right. by eexists _, _, _, _.
  - intros [= <- <- <-]. left. by eexists.
Qed.

(** Checks: they change nothing, and what they refuse exits 1. *)
Definition checked {State A} (C : State) (m : Command State A) (P : A -> Prop) : Prop :=
  exists out r, m C = (out, r, C) /\ match r with Ok a => P a | Err e => exit_code (Err e) = 1 end.

Lemma checked_chain {State A B} (C : State) (m : Command State A) (f : A -> Command State B) P Q :
  checked C m P -> (forall a, P a -> checked C (f a) Q) -> checked C (chain m f) Q.
Proof.
  intros (out & r & Hm & Hr) Hf. unfold checked, chain. rewrite Hm. destruct r as [a|e]; [|by eexists _, _].
  destruct (Hf a Hr) as (more & r' & Ha & Hr'). rewrite Ha. by eexists _, _.
Qed.

Lemma checked_give {State A} (C : State) (a : A) (P : A -> Prop) : P a -> checked C (give a) P.
Proof. by eexists _, _. Qed.

Lemma checked_say {State} (C : State) l (P : unit -> Prop) : P tt -> checked C (say l) P.
Proof. by eexists _, _. Qed.

Lemma checked_require {State} (C : State) b e : exit_code (Err e) = 1 -> checked C (require b e) (fun _ => b = true).
Proof. destruct b; by eexists _, _. Qed.

Lemma checked_contact {State} (C : State) Sh : checked C (contact Sh) (fun _ => True).
Proof. eapply checked_chain; [by apply checked_require|]. intros _ _. destruct (connects Sh); by eexists _, _. Qed.

Lemma checked_ask {A} C Sh i l (read : Database -> res error A) :
  checked C (ask Sh i l read) (fun a => read (book (tenant C l)) = Ok a).
Proof. unfold checked, ask. destruct (query_fault Sh i); [by eexists _, _|]. destruct (read _); by eexists _, _. Qed.

Lemma checked_ask_ledgers C Sh i : checked C (ask_ledgers Sh i) (fun names => names = ledger_names C).
Proof. unfold checked, ask_ledgers. destruct (query_fault Sh i); by eexists _, _. Qed.

Lemma checked_weaken {State A} (C : State) (m : Command State A) (P Q : A -> Prop) : checked C m P -> (forall a, P a -> Q a) -> checked C m Q.
Proof. intros (out & [a|e] & Hm & Hr) HPQ; (eexists _, _; split; [exact Hm|]); simpl; auto. Qed.

Lemma checked_each {State A} (C : State) (f : nat -> A -> Command State unit) i l :
  (forall i x, checked C (f i x) (fun _ => True)) -> checked C (each f i l) (fun _ => True).
Proof.
  intros Hf. revert i. induction l as [|x l IH]; intros i; [by apply checked_give|].
  eapply checked_chain; [apply Hf|]. by intros _ _.
Qed.

(** Checks first, then the rest. *)
Lemma checked_bind {State A B} (C : State) (m : Command State A) (f : A -> Command State B) (P : A -> Prop) out r C' :
  checked C m P -> chain m f C = (out, r, C') ->
  (C' = C /\ exists e, r = Err e /\ exit_code (Err e) = 1) \/ (exists a out', P a /\ f a C = (out', r, C')).
Proof.
  intros (o & [a|e] & Hm & Hr); unfold chain; rewrite Hm.
  - destruct (f a C) as [[o2 r2] C2] eqn:Hf. intros [= <- <- <-]. right. by eexists _, _.
  - intros [= <- <- <-]. left. eauto.
Qed.

(** The same, of a command known to end well. *)
Lemma checked_Ok {State A B} (C : State) (m : Command State A) (f : A -> Command State B) (P : A -> Prop) out b C' :
  checked C m P -> chain m f C = (out, Ok b, C') -> exists a out', P a /\ f a C = (out', Ok b, C').
Proof. intros Hm H. eapply checked_bind in H as [(_ & e & [=] & _)|H]; [done|exact Hm]. Qed.

Section codec.
Context {codec : Codec}.

Lemma checked_showAccount C Sh l a : checked C (showAccount Sh l a) (fun _ => True).
Proof.
  eapply checked_chain; [apply checked_ask|]. intros closed _. eapply checked_chain; [apply checked_ask|]. intros policy _.
  eapply checked_chain; [by apply (checked_say _ _ (fun _ => True))|]. intros _ _.
  destruct policy as [|p policy]; by apply checked_say.
Qed.

Lemma warn_outside_quiet Sh l address asset s C : exists out, warn_outside Sh l address asset s C = (out, Ok tt, C).
Proof.
  unfold warn_outside. destruct (ask _ _ _ _ C) as [[out [policy|e]] C1]; [|by eexists].
  generalize 0%nat. induction policy as [|p policy IH]; intros i; [by eexists|]. cbn [each]. unfold chain.
  destruct (IH (S i)) as [more Hm]. destruct (_ && _); cbn; rewrite Hm; by eexists.
Qed.

(** A write is one request served, by somebody new to the ledger. *)
Lemma operate_refines Sh l r C out x C' :
  operate Sh l r C = (out, x, C') -> request_ok r -> fellow_users (weather Sh) -> settled_ok (book (tenant C l)) ->
  exists d', C' = <[l := set_book d' (tenant C l)]> C /\ exit_code x <> 2 /\
    exists acts o, adds (weather Sh) (book (tenant C l)) acts d' /\
      promised (weather Sh) r (book (tenant C l)) o d' acts /\ is_ok o = is_ok x.
Proof.
  unfold operate. intros H Hr HW Hs. pose proof (serve_refines (weather Sh) r (New (book (tenant C l))) Hr HW Hs) as Href.
  destruct (serve _ _ _) as [o s']. destruct Href as (acts & H1 & H2).
  injection H as <- <- <-. eexists. split; [done|]. split; [by destruct o|]. exists acts, o.
  split_and!; [done..|by destruct o].
Qed.

(** What the command asked for is to its ledger. *)
Definition account_play (v : verb) (address : Address) (asset : option Asset) : list action :=
  match v with
  | VShow => []
  | VSet NegativeSide allow => [PermitOwing (address, default EmptyString asset) allow]
  | VSet PositiveSide allow => [PermitHolding (address, default EmptyString asset) allow]
  | VClose => [Shut address]
  | VReopen => [Reopen address]
  end.

Definition account_request (v : verb) (address : Address) (asset : option Asset) : option Request :=
  match v with
  | VShow => None
  | VSet NegativeSide allow => Some (DoSetAllowNegative address (default EmptyString asset) allow)
  | VSet PositiveSide allow => Some (DoSetAllowPositive address (default EmptyString asset) allow)
  | VClose => Some (DoCloseAccount address)
  | VReopen => Some (DoReopenAccount address)
  end.

Lemma promised_play v address asset W r d o d' acts :
  account_request v address asset = Some r -> promised W r d o d' acts ->
  acts = if is_ok o then account_play v address asset else [].
Proof. destruct v as [|[] allow| |]; intros [= <-]; by destruct o. Qed.

(** The one write, and lines. *)
Lemma account_action_cases Sh v l address asset C out r C' :
  account_action Sh v l address asset C = (out, r, C') ->
  match account_request v address asset with
  | None => C' = C /\ exit_code r <> 2
  | Some q => exists out', operate Sh l q C = (out', r, C')
  end.
Proof.
  destruct v as [|s allow| |]; cbn [account_action account_request].
  - destruct (checked_showAccount C Sh l address) as (o & x & -> & Hx). intros [= <- <- <-]. split; [done|].
    destruct x; [done|]. by rewrite Hx.
  - unfold setBound. intros H.
    assert (exists out', operate Sh l (match s with
      | NegativeSide => DoSetAllowNegative address (default EmptyString asset) allow
      | PositiveSide => DoSetAllowPositive address (default EmptyString asset) allow end) C = (out', r, C')); [|by destruct s].
    apply chain_cases in H as [(e & He & ->)|([] & o1 & o2 & C1 & He & H & _)]; [by eexists|].
    apply chain_cases in H as [(e & Hs & ->)|([] & o3 & o4 & C2 & [= _ <-] & H & _)]; [done|].
    exists o1. rewrite He. destruct allow; [by injection H as _ <- <-|].
    destruct (warn_outside_quiet Sh l address (default EmptyString asset) s C1) as [o5 Hw]. rewrite Hw in H.
    by injection H as _ <- <-.
  - intros [(e & He & ->)|([] & o1 & o2 & C1 & He & [= _ <- <-] & _)]%chain_cases; by eexists.
  - intros [(e & He & ->)|([] & o1 & o2 & C1 & He & [= _ <- <-] & _)]%chain_cases; by eexists.
Qed.

Lemma checked_account C Sh l a asset :
  checked C (account_checks Sh l a asset)
    (fun _ => l ∈ ledger_names C /\ forall c, asset = Some c -> c ∈ Assets (book (tenant C l))).
Proof.
  unfold account_checks. eapply checked_chain; [by apply checked_require|intros _ _].
  eapply checked_chain; [by apply checked_require|intros _ _]. eapply checked_chain; [apply checked_contact|intros _ _].
  eapply checked_chain; [apply checked_ask_ledgers|intros names ->].
  eapply checked_chain; [by apply checked_require|intros _ Hl%bool_decide_eq_true]. destruct asset as [c|].
  - eapply checked_chain; [apply checked_ask|intros registered [= <-]].
    eapply checked_weaken; [by apply checked_require|]. intros _ Hc%bool_decide_eq_true. split; [done|]. by intros c' [= <-].
  - by apply checked_give.
Qed.

(** What the arguments ask for, if they are well formed. *)
Definition account_shape (args : list string) : option (verb * string * Address * option Asset) :=
  match args with
  | [] => None
  | s :: rest =>
      match account_verb s with
      | None => None
      | Some v => match account_args v rest with
                  | None => None
                  | Some (l, a, asset) => Some (v, l, a, asset)
                  end
      end
  end.

Lemma accountCommand_cases Sh args C out r C' :
  accountCommand Sh args C = (out, r, C') ->
  match account_shape args with
  | None => C' = C /\ exit_code r = 2
  | Some (v, l, a, asset) =>
      (C' = C /\ exists e, r = Err e /\ exit_code (Err e) = 1) \/
      (l ∈ ledger_names C /\ (forall c, asset = Some c -> c ∈ Assets (book (tenant C l))) /\
       exists out', account_action Sh v l a asset C = (out', r, C'))
  end.
Proof.
  unfold accountCommand, account_shape. destruct args as [|s rest]; [by intros [= <- <- <-]|].
  destruct (account_verb s) as [v|]; [|by intros [= <- <- <-]].
  destruct (account_args v rest) as [[[l a] asset]|]; [|by intros [= <- <- <-]].
  intros H. apply (checked_bind _ _ _ _ _ _ _ (checked_account C Sh l a asset)) in H as [H|([] & out' & [Hl Ha] & H)]; [by left|right; eauto].
Qed.

Lemma tenant_insert C l t l' : tenant (<[l := t]> C) l' = if decide (l' = l) then t else tenant C l'.
Proof. unfold tenant. case_decide as H; [by rewrite H, lookup_insert_eq|by rewrite lookup_insert_ne by done]. Qed.

(** C10: [giro account] does what it was asked, or nothing. It exits 2 exactly
    when the words are wrong, having touched nothing. Otherwise no other ledger
    changes, nor this one's statements and runs; and from where the commits of
    others left this one -- where it was, if there were none -- exit 0 has played
    exactly the one action of its verb ([show] none), on a ledger that exists
    and, where an asset was named, handles it, and any other exit has played
    nothing. Granting world the positive side is left aside: see
    [world_loses_its_permission]. *)
Theorem account_command_exact (Sh : Shell) (args : list string) (C : Books) :
  fellow_users (weather Sh) -> (forall l, settled_ok (book (tenant C l))) ->
  (forall l c, args <> ["allow-positive"; l; WorldAccount; c]) ->
  let '(_, r, C') := accountCommand Sh args C in
  (exit_code r = 2 <-> account_shape args = None) /\
  match account_shape args with
  | None => C' = C
  | Some (v, l, a, asset) =>
      (forall l', l' <> l -> tenant C' l' = tenant C l') /\
      statements (tenant C' l) = statements (tenant C l) /\ verified (tenant C' l) = verified (tenant C l) /\
      (is_ok r = true -> l ∈ ledger_names C /\ forall c, asset = Some c -> c ∈ Assets (book (tenant C l))) /\
      adds (weather Sh) (book (tenant C l)) (if is_ok r then account_play v a asset else []) (book (tenant C' l))
  end.
Proof.
  intros HW Hs Hworld. destruct (accountCommand Sh args C) as [[out r] C'] eqn:H. apply accountCommand_cases in H.
  assert (forall a asset v l, account_shape args = Some (v, l, a, asset) -> forall q, account_request v a asset = Some q -> request_ok q) as Hok.
  { unfold account_shape. intros a asset v l Hsh q Hq. destruct args as [|s rest]; [done|].
    destruct (account_verb s) as [v'|] eqn:Hv; [|done]. destruct (account_args v' rest) as [[[l' a'] c]|] eqn:Ha; [|done].
    simplify_eq. destruct v as [|[] [] | |]; simplify_eq/=; try done.
    intros ->. destruct rest as [|? [|? [|? [|]]]]; simplify_eq/=. exfalso. eapply (Hworld l).
    unfold account_verb in Hv. repeat case_bool_decide; by simplify_eq. }
  destruct (account_shape args) as [[[[v l] a] asset]|]; [|by destruct H as [-> ?]].
  specialize (Hok _ _ _ _ eq_refl). destruct H as [[-> (e & -> & Hu)]|(Hl & Ha & out' & H)].
  { split; [by rewrite Hu|]. split_and!; [done..|]. by apply adds_nothing. }
  apply account_action_cases in H. destruct (account_request v a asset) as [q|] eqn:Hq.
  - destruct H as [out2 H]. apply operate_refines in H as (d' & -> & Hu & acts & o & H1 & Hp & Ho); [|by auto..].
    rewrite !tenant_insert, decide_True by done. split; [|split; [|split_and!; [done..|]]].
    + split; [by intros ?|done].
    + intros l' Hne. by rewrite tenant_insert, decide_False.
    + rewrite (promised_play _ _ _ _ _ _ _ _ _ Hq Hp), Ho in H1. exact H1.
  - destruct H as [-> Hu]. assert (account_play v a asset = []) as -> by (by destruct v as [|[]| |]). split.
    + split; [by intros ?|done].
    + split_and!; [done..|]. destruct (is_ok r); by apply adds_nothing.
Qed.

End codec.

(** ** At a concrete database *)

(** One ledger, "main", and a process that reaches it. *)
Definition one_book (d : Database) : Books := {[ "main" := set_book d vacant ]}.

Definition fair_shell : Shell :=
  {| database_url := "postgres://"; connects := None; query_fault := fun _ => None; weather := calm |}.

Lemma one_book_all (P : Database -> Prop) d : P d -> P empty_database -> forall l, P (book (tenant (one_book d) l)).
Proof.
  intros Hd He l. unfold tenant, one_book. destruct (decide (l = "main")) as [-> |Hne]; [by rewrite lookup_singleton_eq|].
  by rewrite lookup_singleton_ne.
Qed.

Lemma new_book_settled l : settled_ok (book (tenant (one_book new_ledger) l)).
Proof. apply one_book_all; [apply new_ledger_settled|apply empty_service]. Qed.

Definition let_owe : list string := ["allow-negative"; "main"; "users:alice"; "USD/2"].

Lemma account_command_exact_witness :
  is_ok (accountCommand fair_shell let_owe (one_book new_ledger)).1.2 = true /\
  plays [PermitOwing ("users:alice", "USD/2") true] (abs new_ledger)
    (abs (book (tenant (accountCommand fair_shell let_owe (one_book new_ledger)).2 "main"))).
Proof.
  assert (is_ok (accountCommand fair_shell let_owe (one_book new_ledger)).1.2 = true) as Hok by (vm_compute; reflexivity).
  split; [exact Hok|].
  assert (forall l c : string, let_owe <> ["allow-positive"; l; WorldAccount; c]) as Hw by discriminate.
  pose proof (account_command_exact fair_shell let_owe (one_book new_ledger) one_user new_book_settled Hw) as H.
  destruct (accountCommand fair_shell let_owe (one_book new_ledger)) as [[out r] C'].
  destruct H as (_ & _ & _ & _ & _ & H). simpl in Hok. rewrite Hok in H.
  exact (adds_alone calm _ _ _ (fun _ _ => eq_refl) H).
Defined.

(** What an operator sees. *)
Definition screen (args : list string) (d : Database) : list line * Z :=
  let '(out, r, _) := accountCommand fair_shell args (one_book d) in (out, exit_code r).

Example account_screens :
  screen let_owe new_ledger = ([SideSet "users:alice" true NegativeSide "USD/2"], 0) /\
  screen ["refuse-positive"; "main"; "users:alice"; "USD/2"] (db funded_store) =
    ([SideSet "users:alice" false PositiveSide "USD/2"; AlreadyOutside 100 "USD/2"], 0) /\
  screen ["show"; "main"; "users:alice"] (db funded_store) =
    ([StateLine "users:alice" false;
      PolicyTable (lines_of ["  ASSET  BALANCE  BOUNDS";
                             "  USD/2  100      at or above zero — the ordinary account"])], 0) /\
  screen ["show"; "main"; "world"] new_ledger = ([StateLine "world" false; NothingMoved], 0) /\
  screen ["close"; "main"; "users:alice"] (db funded_store) = ([], 1) /\
  screen ["close"; "man"; "users:alice"] new_ledger = ([], 1) /\
  screen ["allow-negative"; "main"; "users:alice"; "USD"] new_ledger = ([], 1) /\
  screen ["close"; "main"] new_ledger = ([], 2) /\ screen ["shut"; "main"; "users:alice"] new_ledger = ([], 2).
Proof. vm_compute. done. Qed.
