(* ===== verification/Restore.v ===== *)
(** * Coming back from a backup

    [cmd/giro/recover.go]: [giro recover tip], [check] and [resume], and the
    drill they make together: a tip printed before the loss, and a restored
    ledger resumed above every id the lost entries held. *)

From S2P Require Import Prelude Identifiers Text Decimal Posting Volumes Sha256 GoTime Transaction Codec Encoding Errors Schema Txn Locking Guards Moves History Log Observer Commit Committed Book Chain Sample CommitSpec Replay Effective Read Verify Invariant Revert Bulk MetadataOps Policy Closure Registry Base64 Recovery Ledger Refinement VerifyRuns Service Counters Operator.

(** [strings.CutPrefix] *)
Fixpoint CutPrefix (s prefix : string) : option string :=
  match prefix, s with
  | EmptyString, _ => Some s
  | String p prefix, String c s => if Ascii.eqb p c then CutPrefix s prefix else None
  | String _ _, EmptyString => None
  end.

Definition note_flag : string := "--note=".

(** The last note, and what is left. *)
Fixpoint resume_args (args : list string) (note : string) : string * list string :=
  match args with
  | [] => (note, [])
  | a :: args =>
      match CutPrefix a note_flag with
      | Some after => resume_args args after
      | None => let '(note, tips) := resume_args args note in (note, a :: tips)
      end
  end.

(** The names given, or every ledger. *)
Definition named (Sh : Shell) (names : list string) : Cmd (list string) :=
  match names with [] => ask_ledgers Sh 0 | _ => give names end.

Definition recoverTip (Sh : Shell) (names : list string) : Cmd unit :=
  do* names := named Sh names in
  match names with
  | [] => say NoLedgers
  | _ => each (fun i l => do* tip := ask Sh i l (ChainTip l) in say (TipLine (Tip_String tip))) 1 names
  end.

(** How many did not match. *)
Fixpoint check_tips (Sh : Shell) (i : nat) (args : list string) (failures : nat) : Cmd nat :=
  match args with
  | [] => give failures
  | arg :: args =>
      do* tip := answer (ParseTip arg) in
      fun C => match ask Sh i (TLedger tip) (CheckTip (TLedger tip) tip) C with
               | (_, Err (StorageErr e), _) => (say (TipFail (TLedger tip) e) ;* check_tips Sh (S i) args (S failures)) C
               | (_, Err e, _) => throw e C
               | (_, Ok _, _) => (say (TipOk (TLedger tip)) ;* check_tips Sh (S i) args failures) C
               end
  end.

Definition recoverCheck (Sh : Shell) (args : list string) : Cmd unit :=
  match args with
  | [] => throw (UsageErr RecoverUsage)
  | _ => do* failures := check_tips Sh 0 args 0 in
         require (failures =? 0)%nat (TipsDiffer failures (length args))
  end.

Section codec.
Context {codec : Codec}.

Definition recoverResume (Sh : Shell) (args : list string) : Cmd unit :=
  let '(note, tips) := resume_args args EmptyString in
  match tips with
  | [t] =>
      do* tip := answer (ParseTip t) in
      do* names := ask_ledgers Sh 0 in
      let l := TLedger tip in
      require (bool_decide (l ∈ names)) (NoLedger l names) ;*
      let watermark := {| TLedger := l; TTxID := TLogID tip; TLogID := TLogID tip; THash := EmptyString |} in
      do* before := ask Sh 1 l (ChainTip l) in
      operate Sh l (DoRecordRecovery l watermark note) ;*
      do* after := ask Sh 2 l (ChainTip l) in
      if TLogID after =? TLogID before
      then say (NothingToDo l (TLogID before) (TLogID tip))
      else say (Resumed l (TLogID after) (wrap64 (TLogID before + 1)) (TLogID tip)) ;*
           say (NewTip (Tip_String after))
  | _ => throw (UsageErr RecoverUsage)
  end.

Definition recoverCommand (Sh : Shell) (args : list string) : Cmd unit :=
  match args with
  | [] => throw (UsageErr RecoverUsage)
  | c :: rest =>
      contact Sh ;*
      if bool_decide (c = "tip") then recoverTip Sh rest
      else if bool_decide (c = "check") then recoverCheck Sh rest
      else if bool_decide (c = "resume") then recoverResume Sh rest
      else throw (UsageErr (UnknownRecoverCommand c))
  end.

End codec.

(** ** The check *)

(** A tip the ledger still stands at or past, with the entry it names. *)
Definition tip_stands (C : Books) (arg : string) : Prop :=
  exists tip, ParseTip arg = Ok tip /\ CheckTip (TLedger tip) tip (book (tenant C (TLedger tip))) = Ok tt.

Lemma check_tips_spec Sh C i args n :
  (forall j, query_fault Sh j = None) ->
  exists out r, check_tips Sh i args n C = (out, r, C) /\
    match r with
    | Ok m => (n <= m)%nat /\ Forall (fun arg => is_ok (ParseTip arg) = true) args /\ length out = length args /\
              (m = n <-> Forall (tip_stands C) args)
    | Err e => exists arg e', arg ∈ args /\ ParseTip arg = Err e' /\ e = StorageErr e'
    end.
Proof.
  intros Hq. revert i n. induction args as [|arg args IH]; intros i n; cbn [check_tips].
  { eexists _, _. split; [done|]. split_and!; [lia|constructor|done|]. split; [by constructor|done]. }
  unfold chain, answer. destruct (ParseTip arg) as [tip|e] eqn:Hp.
  2:{ eexists _, _. split; [done|]. exists arg, e. split_and!; [by left|done|done]. }
  cbn. unfold ask. rewrite Hq. destruct (CheckTip (TLedger tip) tip _) as [[]|e] eqn:Hc; cbn.
  - destruct (IH (S i) n) as (out & r & Hr & Hs). rewrite Hr. eexists _, _. split; [done|]. destruct r as [m|e].
    + destruct Hs as (? & Hall & Hlen & Hiff). split_and!; [done|constructor; [by rewrite Hp|done]|by rewrite <-Hlen|].
      rewrite Hiff, Forall_cons. split; [|by intros [_ ?]]. intros Ht. split; [by exists tip|done].
    + destruct Hs as (a & e' & Ha & ?). exists a, e'. split; [by right|done].
  - destruct (IH (S i) (S n)) as (out & r & Hr & Hs). rewrite Hr. eexists _, _. split; [done|]. destruct r as [m|e0].
    + destruct Hs as (? & Hall & Hlen & Hiff). split_and!; [lia|constructor; [by rewrite Hp|done]|by rewrite <-Hlen|].
      split; [intros ->; lia|]. intros [(tip' & Hp' & Hc') _]%Forall_cons. congruence.
    + destruct Hs as (a & e' & Ha & ?). exists a, e'. split; [by right|done].
Qed.

(** [giro recover check] gates a restore. Asked about at least one tip, on a
    database that answers, it changes nothing, and exits 0 exactly when every
    argument is a tip and every ledger still holds the entry its tip names,
    under the same hash; when all are tips it prints a line for each. *)
Theorem recover_check_decides (Sh : Shell) (args : list string) (C : Books) :
  (forall j, query_fault Sh j = None) -> args <> [] ->
  let '(out, r, C') := recoverCheck Sh args C in
  C' = C /\ (exit_code r = 0 <-> Forall (tip_stands C) args) /\
  (Forall (fun arg => is_ok (ParseTip arg) = true) args -> length out = length args).
Proof.
  intros Hq Hne. unfold recoverCheck. destruct args as [|a args]; [done|].
  destruct (check_tips_spec Sh C 0 (a :: args) 0 Hq) as (out & r & Hr & Hs). unfold chain. rewrite Hr. destruct r as [m|e].
  - destruct Hs as (_ & _ & Hlen & Hiff). unfold require, give, throw. destruct (Nat.eqb_spec m 0) as [Hm|Hm];
      (split_and!; [done| |by rewrite app_nil_r]).
    + split; [|done]. intros _. by apply Hiff.
    + split; [done|]. intros H%Hiff. done.
  - destruct Hs as (arg & e' & Ha & He & ->). split_and!; [done| |].
    + split; [done|]. rewrite Forall_forall. intros H. destruct (H arg Ha) as (tip & Ht & _). congruence.
    + rewrite Forall_forall. intros H. specialize (H arg Ha). by rewrite He in H.
Qed.

(** ** The drill *)

Lemma prefix_before_colon p l rest : free_of ":" p = true -> CutPrefix l p = None -> CutPrefix (String.append l (String ":" rest)) p = None.
Proof.
  revert l. induction p as [|c p IH]; intros [|x l] Hf; cbn [CutPrefix String.append]; try done.
  - intros _. unfold free_of in Hf. cbn [forall_char] in Hf. apply andb_true_iff in Hf as [Hc _].
    destruct (Ascii.eqb_spec c ":") as [-> |]; [|done]. by rewrite bool_decide_false in Hc.
  - destruct (Ascii.eqb c x); [|done]. apply IH. unfold free_of in *. cbn [forall_char] in Hf. by apply andb_true_iff in Hf as [_ Hf].
Qed.

Lemma tip_no_flag t : CutPrefix (TLedger t) note_flag = None -> CutPrefix (Tip_String t) note_flag = None.
Proof. intros H. unfold Tip_String. destruct (TLogID t =? 0); by apply (prefix_before_colon note_flag). Qed.

Lemma cut_append p s : CutPrefix (String.append p s) p = Some s.
Proof. induction p as [|c p IH]; [by destruct s|]. cbn. by rewrite Ascii.eqb_refl. Qed.

Section codec.
Context {codec : Codec}.

Definition cleared (w : Tip) (d : Database) : Prop :=
  exists l, ledger_row d = Some l /\ TLogID w <= last_log_id l /\ TTxID w <= last_tx_id l.

Lemma past_cleared w l d : ledger_row d = Some l -> past w (last_tx_id l) (last_log_id l) = true -> cleared w d.
Proof. intros Hl Hp. exists l. unfold past in Hp. split; [done|]. lia. Qed.

(** A recovery that succeeds stands past its watermark. *)
Lemma recovery_clears E name w note d d' :
  RecordRecovery E name w note d = (Ok tt, d') -> int64_ok (TLogID w) -> settled_ok (landed E d) -> cleared w d'.
Proof.
  unfold RecordRecovery, ChainTip. destruct (ledger_row d) as [l|] eqn:Hl; [|done]. cbn. intros H Hw [[_ Hlog _ _ _] _].
  destruct (past w (last_tx_id l) (last_log_id l)) eqn:Hp; [injection H as <-; by eapply past_cleared|].
  destruct (fault E SBegin); [done|]. unfold transact in H.
  destruct (recovery_body E w note (fault E) (landed E d)) as [[o d2]|e] eqn:Hb; [|done].
  apply recovery_body_cases in Hb as [[-> (l0 & Hl0 & Hp0)]|[-> [(l0 & bytes & id & Hl0 & _ & _ & Hid & Hge & _ & ->)]]];
    injection H as <-; [by eapply past_cleared|].
  unfold log_ok in Hlog. rewrite Hl0 in Hlog. apply next_above_watermark in Hid; [|by eapply tip_nonneg|done..].
  eexists. split; [reflexivity|]. simpl. lia.
Qed.

Lemma recovery_served Sh l w note C out C' :
  operate Sh l (DoRecordRecovery l w note) C = (out, Ok tt, C') ->
  int64_ok (TLogID w) -> utf8_valid note = true -> TTxID w <= TLogID w -> onward (weather Sh) -> service_ok (book (tenant C l)) ->
  exists d', C' = <[l := set_book d' (tenant C l)]> C /\ cleared w d' /\ service_ok d' /\ advances (book (tenant C l)) d'.
Proof.
  unfold operate. intros H Hw Hn Hp HW Hs. set (r := DoRecordRecovery l w note) in *.
  pose proof (service_settled (weather Sh) r (New (book (tenant C l))) (conj Hw Hn) (proj1 HW) Hs) as Hok.
  pose proof (serve_advances (weather Sh) r (New (book (tenant C l))) (conj Hw Hn) Hp HW Hs) as Hadv.
  destruct (serve (weather Sh) r _) as [o s'] eqn:Hserve. injection H as _ Ho <-. exists (db s'). split_and!; [done| |done|done].
  unfold serve, r in Hserve. apply on_db_eq in Hserve as (x & Hx & ->). destruct x as [[]|e]; [|done].
  eapply recovery_clears; [exact Hx|done|]. by apply (proj1 HW).
Qed.

(** What [recover tip l] prints is the tip of [l]. *)
Lemma tip_printed Sh l C out C' t :
  recoverCommand Sh ["tip"; l] C = (out, Ok tt, C') -> TipLine t ∈ out ->
  exists tip, ChainTip l (book (tenant C l)) = Ok tip /\ t = Tip_String tip.
Proof.
  unfold recoverCommand. intros H Ht. apply chain_cases in H as [(e & _ & [=])|([] & o1 & o2 & C1 & Hc & H & ->)].
  assert (o1 = [] /\ C1 = C) as [-> ->].
  { unfold contact, chain, require, give, throw in Hc. destruct (negb _), (connects Sh); simplify_eq/=; by split. }
  rewrite bool_decide_true in H by done. unfold recoverTip, named in H. cbn in H.
  unfold chain, ask, answer, throw in H. destruct (query_fault Sh 1); [done|].
  destruct (ChainTip l (book (tenant C l))) as [tip|e]; [|done]. cbn in H. injection H as <- _.
  exists tip. split; [done|]. by apply list_elem_of_singleton in Ht as [= ->].
Qed.

(** [recover resume] that ends well has recorded its recovery. *)
Lemma resume_served Sh args t tip C out C' :
  recoverCommand Sh ("resume" :: args) C = (out, Ok tt, C') -> (resume_args args EmptyString).2 = [t] -> ParseTip t = Ok tip ->
  exists out1, operate Sh (TLedger tip) (DoRecordRecovery (TLedger tip)
    {| TLedger := TLedger tip; TTxID := TLogID tip; TLogID := TLogID tip; THash := EmptyString |}
    (resume_args args EmptyString).1) C = (out1, Ok tt, C').
Proof.
  unfold recoverCommand. intros H Hargs Hp. apply (checked_Ok _ _ _ _ _ _ _ (checked_contact C Sh)) in H as ([] & o1 & _ & H).
  rewrite !bool_decide_false, bool_decide_true in H by done. unfold recoverResume in H.
  destruct (resume_args args EmptyString) as [note tips]. simpl in Hargs. subst tips. rewrite Hp in H.
  apply chain_cases in H as [(e & [=] & _)|(tip' & ? & ? & C1 & [= _ <- <-] & H & _)].
  apply (checked_Ok _ _ _ _ _ _ _ (checked_ask_ledgers C Sh 0)) in H as (names & o2 & -> & H).
  eapply checked_Ok in H as (_ & o3 & _ & H); [|by apply checked_require].
  eapply checked_Ok in H as (before & o4 & _ & H); [|apply checked_ask].
  apply chain_cases in H as [(e & _ & [=])|([] & o5 & o6 & C1 & Hop & H & _)]. exists o5. cbn [fst]. rewrite Hop.
  eapply checked_Ok in H as (after & o7 & _ & H); [|apply checked_ask].
  destruct (_ =? _); [by injection H as _ <-|].
  apply chain_cases in H as [(e & _ & [=])|([] & ? & ? & C2 & [= _ <-] & H & _)]. by injection H as _ <-.
Qed.

Lemma resume_args_noted t note :
  CutPrefix t note_flag = None -> resume_args [t; String.append note_flag note] EmptyString = (note, [t]).
Proof. intros H. cbn [resume_args]. by rewrite H, cut_append. Qed.

(** C12: the drill of deploy/RECOVERY.md works. Print the tip of a sound ledger,
    lose any of it, restore anything sound under its name, and resume at the
    printed tip: once that exits 0, whatever is asked of the restored ledger
    afterwards, under whatever failures and beside whoever else, no transaction
    or entry made from then on carries an id the lost ledger had given to one of
    its own; and the restored ledger is sound, the others untouched. *)
Theorem recover_drill (Sh Sh' : Shell) (live live' restored restored' : Books) (l t note : string) (out out' : list line)
    (calls : list (Weather * Request)) :
  free_of ":" l = true -> CutPrefix l note_flag = None ->
  let lost := book (tenant live l) in
  service_ok lost -> paced lost -> (forall r, ledger_row lost = Some r -> last_log_id r <= max_int64) ->
  recoverCommand Sh ["tip"; l] live = (out, Ok tt, live') -> TipLine t ∈ out ->
  service_ok (book (tenant restored l)) -> utf8_valid note = true -> onward (weather Sh') ->
  recoverCommand Sh' ["resume"; t; String.append note_flag note] restored = (out', Ok tt, restored') ->
  Forall dutiful calls ->
  let back := book (tenant restored' l) in
  let later := db (serve_all calls (New back)) in
  (forall l', l' <> l -> tenant restored' l' = tenant restored l') /\ service_ok back /\
  (forall id, is_Some (transactions later !! id) -> transactions back !! id = None -> transactions lost !! id = None) /\
  (forall id, is_Some (logs later !! id) -> logs back !! id = None -> logs lost !! id = None).
Proof.
  intros Hfree Hflag lost Hlost Hpaced Hmax Htip Ht Hrest Hnote HW Hres Hcalls back later.
  destruct (tip_printed _ _ _ _ _ _ Htip Ht) as (tip & Hct & ->). unfold ChainTip in Hct. fold lost in Hct.
  destruct (ledger_row lost) as [row|] eqn:Hrow; [|done]. injection Hct as <-. specialize (Hmax _ eq_refl).
  destruct Hlost as [[[_ Hlog _ _ _] _] _]. unfold log_ok in Hlog. rewrite Hrow in Hlog. pose proof (tip_nonneg _ _ Hlog) as Hpos.
  set (tip := {| TLedger := l; TTxID := last_tx_id row; TLogID := last_log_id row; THash := _ |}) in *.
  assert (int64_ok (TLogID tip)) as Hid by (unfold int64_ok; simpl; unfold max_int64 in *; lia).
  pose proof (tip_roundtrip tip Hfree Hid) as Hparse. pose proof (tip_no_flag tip Hflag) as Hcut.
  pose proof (resume_args_noted _ note Hcut) as Hargs.
  eapply resume_served in Hres as [out1 Hop]; [|by rewrite Hargs|exact Hparse]. rewrite Hargs in Hop. cbn [fst TLedger TLogID] in Hop.
  apply recovery_served in Hop as (d' & -> & (r' & Hr' & Hlg & Htx) & Hok & _); [|done|done|simpl; lia|done..].
  cbn [TLogID TTxID] in Hlg, Htx. subst later back. rewrite !tenant_insert, !decide_True by done.
  destruct (serve_all_advances calls (New d') Hcalls Hok) as [_ [Hadv _]].
  destruct (Hadv r' Hr') as (r2 & _ & _ & _ & Hnt & Hng). split; [|split; [done|split]].
  - intros l' Hne. by rewrite tenant_insert, decide_False.
  - intros id Hi Hn. apply Hnt in Hi as [[x Hx]|Hi]; [cbn in *; congruence|]. apply eq_None_not_Some. intros Hs.
    apply (chain_tx_ids _ _ Hlog) in Hs. specialize (Hpaced row Hrow). simpl in *. lia.
  - intros id Hi Hn. apply Hng in Hi as [[x Hx]|Hi]; [cbn in *; congruence|]. apply eq_None_not_Some. intros Hs.
    apply (chain_ids _ _ Hlog) in Hs. simpl in *. lia.
Qed.

End codec.

(** ** At a concrete database *)

Definition before_loss : Database := db (serve_all a_day new_store).

Lemma before_loss_ok : service_ok before_loss.
Proof. apply serve_all_ok; [exact a_day_honest|exact new_ledger_service]. Qed.

Definition printed : list line * res cmd_error unit * gmap string Tenant :=
  recoverCommand fair_shell ["tip"; "main"] (one_book before_loss).

Definition printed_tip : string := match printed.1.1 with [TipLine t] => t | _ => EmptyString end.

(** The restore came back empty. *)
Definition resumed : list line * res cmd_error unit * gmap string Tenant :=
  recoverCommand fair_shell ["resume"; printed_tip; "--note=disk lost"] (one_book new_ledger).

Definition after_loss : list (Weather * Request) := [(calm, DoCommit deposit no_options)].

Lemma calm_onward : onward calm.
Proof. split; [by intros n d|]. intros n d _. by apply advances_same. Qed.

Lemma after_loss_dutiful : Forall dutiful after_loss.
Proof. apply Forall_singleton. split; [apply map_Forall_empty|]. split; [done|apply calm_onward]. Qed.

Definition resumed_book : Database := book (tenant resumed.2 "main").

(** What the operator read, and the first transaction after. *)
Example drill_seen :
  printed_tip = "main:2:kUeC1L85kCqF4FF5DtU6wlhWxRvXr7HNV5AjfqMsxdM" /\
  resumed.1.1 = [Resumed "main" 3 1 2; NewTip "main:3:zfmxenGTMUYUDPByXcFehuH932rzM3Ig669rt83_V1g"] /\
  (fun id => bool_decide (is_Some (transactions (db (serve_all after_loss (New resumed_book))) !! id))) <$> [1; 2; 3] = [false; false; true].
Proof. vm_compute. done. Qed.

Lemma one_book_main d : book (tenant (one_book d) "main") = d.
Proof. unfold tenant, one_book. by rewrite lookup_singleton_eq. Qed.

Lemma recover_drill_witness :
  transactions (book (tenant (one_book before_loss) "main")) !! 3 = None.
Proof.
  assert (service_ok (book (tenant (one_book before_loss) "main"))) as Hs by (rewrite one_book_main; exact before_loss_ok).
  assert (service_ok (book (tenant (one_book new_ledger) "main"))) as Hr by (rewrite one_book_main; exact new_ledger_service).
  assert (paced (book (tenant (one_book before_loss) "main"))) as Hp
    by (intros l H; vm_compute in H; injection H as <-; vm_compute; discriminate).
  assert (forall r, ledger_row (book (tenant (one_book before_loss) "main")) = Some r -> last_log_id r <= max_int64) as Hm
    by (intros l H; vm_compute in H; injection H as <-; vm_compute; discriminate).
  assert (recoverCommand fair_shell ["tip"; "main"] (one_book before_loss) = ([TipLine printed_tip], Ok tt, printed.2)) as Hpr
    by (vm_compute; reflexivity).
  assert (recoverCommand fair_shell ["resume"; printed_tip; String.append note_flag "disk lost"] (one_book new_ledger)
          = (resumed.1.1, Ok tt, resumed.2)) as Hre by (vm_compute; reflexivity).
  assert (is_Some (transactions (db (serve_all after_loss (New (book (tenant resumed.2 "main"))))) !! 3)) as H3
    by (apply (bool_decide_unpack _); vm_compute; exact I).
  assert (transactions (book (tenant resumed.2 "main")) !! 3 = None) as Hn by (vm_compute; reflexivity).
  exact (proj1 (proj2 (proj2 (recover_drill fair_shell fair_shell (one_book before_loss) printed.2 (one_book new_ledger) resumed.2
    "main" printed_tip "disk lost" [TipLine printed_tip] resumed.1.1 after_loss eq_refl eq_refl
    Hs Hp Hm Hpr (list_elem_of_here _ _) Hr eq_refl calm_onward Hre after_loss_dutiful))) 3 H3 Hn).
Defined.

Lemma recover_check_decides_witness :
  (exit_code (recoverCheck fair_shell [printed_tip] (one_book before_loss)).1.2 = 0 <->
   Forall (tip_stands (one_book before_loss)) [printed_tip]) /\
  (exit_code (recoverCheck fair_shell [printed_tip] (one_book new_ledger)).1.2 = 0 <->
   Forall (tip_stands (one_book new_ledger)) [printed_tip]).
Proof.
  assert ([printed_tip] <> []) as Hne by discriminate. split.
  - pose proof (recover_check_decides fair_shell [printed_tip] (one_book before_loss) (fun _ => eq_refl) Hne) as H.
    destruct (recoverCheck fair_shell [printed_tip] (one_book before_loss)) as [[out r] C']. exact (proj1 (proj2 H)).
  - pose proof (recover_check_decides fair_shell [printed_tip] (one_book new_ledger) (fun _ => eq_refl) Hne) as H.
    destruct (recoverCheck fair_shell [printed_tip] (one_book new_ledger)) as [[out r] C']. exact (proj1 (proj2 H)).
Defined.

(** Behind, and standing. *)
Example restore_checked :
  (recoverCheck fair_shell [printed_tip] (one_book before_loss)).1 = ([TipOk "main"], Ok tt) /\
  exit_code (recoverCheck fair_shell [printed_tip] (one_book new_ledger)).1.2 = 1.
Proof. vm_compute. done. Qed.

(** A malformed tip stops the check: the ledgers after it are not looked at. *)
Example check_stops_midway :
  (recoverCheck fair_shell [printed_tip; "main"; printed_tip] (one_book before_loss)).1 =
  ([TipOk "main"], Err (StorageErr (PlainError "malformed tip"))).
Proof. vm_compute. done. Qed.

(** Nothing was lost, but one entry is not a transaction: the ledger is not
    found to be past its own tip, a gap from 3 to 2 is declared, and the next
    transaction skips an id. *)
Definition annotated_day : list (Weather * Request) :=
  [(calm, DoCommit deposit no_options); (calm, DoSetAccountMetadata "users:alice" {[ "tier" := "gold" ]})].

Definition annotated : Database := db (serve_all annotated_day new_store).

Definition resume_intact : list line * res cmd_error unit * gmap string Tenant :=
  match recoverCommand fair_shell ["tip"; "main"] (one_book annotated) with
  | ([TipLine t], _, C) => recoverCommand fair_shell ["resume"; t] C
  | _ => ([], Ok tt, ∅)
  end.

Example intact_ledger_resumed :
  (last_tx_id <$> ledger_row annotated) = Some 1 /\ (last_log_id <$> ledger_row annotated) = Some 2 /\
  match resume_intact with
  | ([Resumed l log from to; NewTip _], Ok _, C) =>
      (l, log, from, to) = ("main", 3, 3, 2) /\ last_tx_id <$> ledger_row (book (tenant C "main")) = Some 2
  | _ => False
  end.
Proof. vm_compute. done. Qed.
