(* ===== verification/Nightly.v ===== *)
(** * The nightly run

    [cmd/giro/verify.go]: [giro verify] over some ledgers or all of them, the
    checks the layers above the engine contribute, what is reported and the exit
    code, and [--last], which asks when each check last ran. The flags arrive
    parsed. *)

From S2P Require Import Prelude Identifiers Text Decimal Posting Volumes Sha256 GoTime Transaction Codec Encoding Errors Schema Txn Locking Guards Moves History Log Observer Commit Committed Book Chain Sample CommitSpec Replay Effective Read Verify Invariant Revert Bulk MetadataOps Policy Closure Registry Ledger Refinement VerifyRuns Service Counters Rational Fx Numeric Recon Operator.

Record VerifyFlags := {
  stalePrefix : string;
  staleAfter : Z;
  reconAfter : Z;
  boundary : string;
  record : bool;
  last_run : bool;
  maxAge : Z;
  asJSON : bool;
}.

Definition default_flags : VerifyFlags :=
  {| stalePrefix := "pending:"; staleAfter := 0; reconAfter := 0; boundary := EmptyString; record := true;
     last_run := false; maxAge := 0; asJSON := false |}.

(** The clocks and failures of the [i]th ledger's run; its [read_fault] covers
    the first query of each check, [recon_env] those of the matching pass. *)
Record NightEnv := {
  run_env : nat -> RunEnv;
  recon_env : nat -> ReconEnv;
  recon_planner : nat -> Planner;
  recon_now : nat -> Instant;
  clock : string -> string -> Instant;
}.

(** [time.Since], saturated *)
Definition Since (now_ at_ : Instant) : Z := Z.max (- 2 ^ 63) (Z.min max_int64 (now_ - at_)).

(** The engine's six checks come first. *)
Definition conversions_slot : nat := 6.
Definition recon_slot : nat := 7.

Section verify.
Context {codec : Codec}.
Context (describe : finding -> string) (describe_stale : StaleBalance -> string).
Context (describe_fx : list (Z * fx_error) -> string) (describe_fx_error : fx_error -> string).
Context (describe_breaks : list StaleBreak -> string) (describe_recon : recon_error -> string).

Definition conversions_outcome (d : Database) : check_outcome :=
  let '(n, r) := Verify_conversions None d DefaultTolerance in
  (Z.of_nat n, match r with
               | Ok [] => None
               | Ok l => Some (ExtraFinding (describe_fx l))
               | Err e => Some (ExtraFinding (describe_fx_error e))
               end).

Definition recon_outcome (x : Z * res recon_error (list StaleBreak)) : check_outcome :=
  (x.1, match x.2 with
        | Ok [] => None
        | Ok l => Some (ExtraFinding (describe_breaks l))
        | Err e => Some (ExtraFinding (describe_recon e))
        end).

(** [extraChecks], run: what they come to, and the statement lines the matching
    pass paired. *)
Definition extraChecks (N : NightEnv) (i : nat) (flags : VerifyFlags) (t : Tenant)
    : list (string * check_outcome) * Recon :=
  let conversions := [("conversions", conversions_outcome (book t))] in
  if 0 <? reconAfter flags then
    match read_fault (run_env N i) recon_slot with
    | Some _ => (conversions ++ [("reconciliation", (0, None))], statements t)
    | None =>
        let '(x, R) := Check_recon (recon_env N i) (recon_planner N i)
                         {| BoundaryPrefix := boundary flags; Tolerance := None |}
                         (book t) (recon_now N i) (reconAfter flags) (statements t) in
        (conversions ++ [("reconciliation", recon_outcome x)], R)
    end
  else (conversions, statements t).

Definition verify_options (flags : VerifyFlags) (extra : list (string * check_outcome)) : VerifyOptions :=
  {| StalePrefix := stalePrefix flags; StaleAfter := staleAfter flags; VRecord := record flags; Extra := extra |}.

(** A nil amount in a conversion's postings stops the process. *)
Definition panics (N : NightEnv) (i : nat) (t : Tenant) : bool :=
  bool_decide (read_fault (run_env N i) conversions_slot = None) &&
  bool_decide ((Verify_conversions None (book t) DefaultTolerance).2 = Err FxPanic).

(** One ledger. *)
Definition verify_ledger (N : NightEnv) (i : nat) (flags : VerifyFlags) (t : Tenant)
    : list CheckResult * res error unit * Tenant :=
  let '(extra, st) := extraChecks N i flags t in
  let '(results, r, runs) := Verify describe describe_stale (run_env N i) (verify_options flags extra) (book t) (verified t) in
  (results, r, {| book := book t; statements := st; verified := runs |}).

Definition failed (results : list CheckResult) : nat := length (filter (fun r => COK r = false) results).

(** For a person, and for a monitor. *)
Definition report (l : string) (results : list CheckResult) : list line := LedgerLine l :: (CheckLine <$> results).

Definition reportJSON (l : string) (results : list CheckResult) : list line := [JsonResults l results].

Definition reported (flags : VerifyFlags) (l : string) (results : list CheckResult) : list line :=
  if asJSON flags then reportJSON l results else report l results.

Fixpoint verify_each (N : NightEnv) (flags : VerifyFlags) (i : nat) (names : list string) (findings : nat) : Cmd nat :=
  match names with
  | [] => give findings
  | l :: names => fun C =>
      if panics N i (tenant C l) then throw Panicked C
      else
        let '(results, r, t) := verify_ledger N i flags (tenant C l) in
        let C1 := <[l := t]> C in
        match r with
        | Err e => (reported flags l results, Err (StorageErr e), C1)
        | Ok _ => let '(out, r', C2) := verify_each N flags (S i) names (findings + failed results) C1 in
                  (reported flags l results ++ out, r', C2)
        end
  end.

(** ** When each check last ran *)

Definition is_stale (flags : VerifyFlags) (age : Z) : bool := (0 <? maxAge flags) && (maxAge flags <? age).

(** A ledger's rows of the report, and how many are stale. *)
Definition last_rows (N : NightEnv) (flags : VerifyFlags) (l : string) (seen : gmap string Instant)
    : list (string * string * option Instant * bool) :=
  match map_rows String.le seen with
  | [] => if 0 <? maxAge flags then [(l, "*", None, true)] else []
  | rows => (fun ca => (l, ca.1, Some ca.2, is_stale flags (Since (clock N l ca.1) ca.2))) <$> rows
  end.

Definition stale_count (rows : list (string * string * option Instant * bool)) : nat :=
  length (filter (fun x => x.2 = true) rows).

Definition last_lines (l : string) (seen : gmap string Instant) (rows : list (string * string * option Instant * bool)) : list line :=
  LedgerLine l ::
  match map_rows String.le seen with
  | [] => [NeverRun]
  | _ => (fun x => LastRunLine x.1.1.2 (default 0 x.1.2) x.2) <$> rows
  end.

Fixpoint last_each (Sh : Shell) (N : NightEnv) (flags : VerifyFlags) (i : nat) (names : list string)
    (acc : list (string * string * option Instant * bool)) : Cmd (list (string * string * option Instant * bool)) :=
  match names with
  | [] => give acc
  | l :: names => fun C =>
      match query_fault Sh i with
      | Some code => throw (StorageErr (PgError code)) C
      | None =>
          let seen := LastVerified (verified (tenant C l)) in
          let rows := last_rows N flags l seen in
          let '(out, r, C') := last_each Sh N flags (S i) names (acc ++ rows) C in
          ((if asJSON flags then [] else last_lines l seen rows) ++ out, r, C')
      end
  end.

Definition reportLastRun (Sh : Shell) (N : NightEnv) (names : list string) (flags : VerifyFlags) : Cmd unit :=
  do* rows := last_each Sh N flags 1 names [] in
  (if asJSON flags then say (JsonAges rows) else give tt) ;*
  require (stale_count rows =? 0)%nat (ChecksOverdue (stale_count rows)).

(** ** The command *)

Definition looks_like_flag (name : string) : bool := String.prefix "-" name.

(** [None] when the flags do not parse. *)
Definition verifyCommand (Sh : Shell) (N : NightEnv) (parsed : option (VerifyFlags * list string)) : Cmd unit :=
  match parsed with
  | None => throw (UsageErr VerifyUsage)
  | Some (flags, names) =>
      contact Sh ;*
      match List.find looks_like_flag names with
      | Some name => throw (UsageErr (LateFlag name))
      | None =>
          do* names := match names with [] => ask_ledgers Sh 0 | _ => give names end in
          match names with
          | [] => say NoLedgers
          | _ =>
              if last_run flags then reportLastRun Sh N names flags
              else
                do* findings := verify_each N flags 0 names 0 in
                require (findings =? 0)%nat (FindingsReported findings)
          end
      end
  end.

(** ** What a clean run means *)

Lemma failed_zero (rs : list CheckResult) : failed rs = 0%nat <-> Forall (fun r => COK r = true) rs.
Proof.
  unfold failed. induction rs as [|r rs IH]; [by split|]. rewrite Forall_cons, filter_cons.
  destruct (COK r) eqn:Hr; [rewrite decide_False by done; rewrite IH; naive_solver|].
  rewrite decide_True by done. split; [done|]. by intros [? _].
Qed.

Lemma run_check_clean R i c :
  COK (run_check describe R i c) = true <-> read_fault R i = None /\ c.2.2 = None.
Proof.
  unfold run_check. destruct c as [name [n err]]. cbn [fst snd]. destruct (read_fault R i); unfold result, COK;
    rewrite bool_decide_eq_true; naive_solver.
Qed.

Lemma checks_clean R (l : list (string * check_outcome)) :
  Forall (fun r => COK r = true) (imap (run_check describe R) l) <->
  (forall i, (i < length l)%nat -> read_fault R i = None) /\ Forall (fun c => c.2.2 = None) l.
Proof.
  rewrite !Forall_lookup. setoid_rewrite list_lookup_imap_Some. setoid_rewrite <-lookup_lt_is_Some. split.
  - intros H. assert (forall i c, l !! i = Some c -> COK (run_check describe R i c) = true) as H' by (intros i c Hc; eapply H; eauto).
    split; [intros i [c Hc]|intros i c Hc]; by apply H', run_check_clean in Hc as [? ?].
  - intros [Hf Hc] i r (c & Hl & ->). apply run_check_clean. split; [by apply Hf|by eapply Hc].
Qed.

Lemma stale_clean R i opts d :
  COK (stale_check describe describe_stale R i opts d) = true <->
  read_fault R i = None /\ StaleBalances (run_now R) d (StalePrefix opts) (StaleAfter opts) = Ok [].
Proof.
  unfold stale_check. destruct (read_fault R i); [naive_solver|]. destruct (StaleBalances _ _ _ _) as [[|x l]|e]; naive_solver.
Qed.

Definition how_many (flags : VerifyFlags) : nat :=
  (7 + (if (0 <? reconAfter flags)%Z then 1 else 0) + (if (0 <? staleAfter flags)%Z then 1 else 0))%nat.

(** Everything the run looks at is in order, and could be looked at. *)
Record in_order_at (N : NightEnv) (i : nat) (flags : VerifyFlags) (t : Tenant) : Prop := {
  io_engine : Forall (fun c => c.2.2 = None) (checks (book t));
  io_conversions : (Verify_conversions None (book t) DefaultTolerance).2 = Ok [];
  io_recon : 0 < reconAfter flags ->
    (Check_recon (recon_env N i) (recon_planner N i) {| BoundaryPrefix := boundary flags; Tolerance := None |}
       (book t) (recon_now N i) (reconAfter flags) (statements t)).1.2 = Ok [];
  io_stale : 0 < staleAfter flags ->
    StaleBalances (run_now (run_env N i)) (book t) (stalePrefix flags) (staleAfter flags) = Ok [];
  io_answered : forall k,
    (k < how_many flags)%nat -> read_fault (run_env N i) k = None;
}.

Lemma conversions_clean d : (conversions_outcome d).2 = None <-> (Verify_conversions None d DefaultTolerance).2 = Ok [].
Proof. unfold conversions_outcome. destruct (Verify_conversions _ _ _) as [n [[|x l]|e]]; naive_solver. Qed.

Lemma recon_clean x : (recon_outcome x).2 = None <-> x.2 = Ok [].
Proof. unfold recon_outcome. destruct x as [n [[|b l]|e]]; naive_solver. Qed.

Lemma extra_length N i flags t :
  length (extraChecks N i flags t).1 = (1 + if (0 <? reconAfter flags)%Z then 1 else 0)%nat.
Proof.
  unfold extraChecks. destruct (0 <? reconAfter flags)%Z; [|done]. destruct (read_fault _ _); [done|].
  by destruct (Check_recon _ _ _ _ _ _ _).
Qed.

Lemma extra_clean N i flags t :
  (0 < reconAfter flags -> read_fault (run_env N i) recon_slot = None) ->
  Forall (fun c => c.2.2 = None) (extraChecks N i flags t).1 <->
  (Verify_conversions None (book t) DefaultTolerance).2 = Ok [] /\
  (0 < reconAfter flags ->
    (Check_recon (recon_env N i) (recon_planner N i) {| BoundaryPrefix := boundary flags; Tolerance := None |}
       (book t) (recon_now N i) (reconAfter flags) (statements t)).1.2 = Ok []).
Proof.
  intros Hf. unfold extraChecks. cbv zeta. rewrite <-conversions_clean. destruct (Z.ltb_spec 0 (reconAfter flags)) as [Hr|Hr].
  - rewrite Hf by done. destruct (Check_recon _ _ _ _ _ _ _) as [x R]. cbn [fst app].
    rewrite Forall_cons, Forall_singleton. cbn [fst snd]. rewrite recon_clean. naive_solver.
  - cbn [fst]. rewrite Forall_singleton. cbn [fst snd]. split; [|naive_solver]. intros H. split; [done|lia].
Qed.

Lemma checks_length d : length (checks d) = 6%nat.
Proof. done. Qed.

Lemma verify_ledger_results N i flags t :
  (verify_ledger N i flags t).1.1 =
  verify_results describe describe_stale (run_env N i) (verify_options flags (extraChecks N i flags t).1) (book t).
Proof.
  unfold verify_ledger. destruct (extraChecks N i flags t) as [extra st]. cbn [fst]. unfold Verify.
  destruct (VRecord _); [|done]. by destruct (recordVerification _ _ _ _).
Qed.

Lemma verify_ledger_clean N i flags t :
  Forall (fun r => COK r = true) (verify_ledger N i flags t).1.1 <-> in_order_at N i flags t.
Proof.
  rewrite verify_ledger_results. unfold verify_results. cbn [Extra StaleAfter verify_options].
  rewrite Forall_app, checks_clean, Forall_app, length_app, checks_length, extra_length.
  pose proof (extra_clean N i flags t) as Hx. split.
  - intros [[Hf [He Hxt]] Hst]. apply Hx in Hxt as [Hc Hr].
    + assert (0 < staleAfter flags -> read_fault (run_env N i) (6 + (1 + if (0 <? reconAfter flags)%Z then 1 else 0)) = None /\
        StaleBalances (run_now (run_env N i)) (book t) (stalePrefix flags) (staleAfter flags) = Ok []) as Hs.
      { intros Hlt. rewrite (proj2 (Z.ltb_lt _ _) Hlt), Forall_singleton in Hst. by apply stale_clean in Hst. }
      split; [done|done|done|by intros ?; apply Hs|]. intros k Hk. unfold how_many in Hk.
      destruct (Z.ltb_spec 0 (staleAfter flags)) as [Hlt|Hge]; [|apply Hf; lia].
      destruct (decide (k = 6 + (1 + if (0 <? reconAfter flags)%Z then 1 else 0))%nat) as [->|Hne]; [by apply Hs|apply Hf; lia].
    + intros Hr. apply Hf. unfold recon_slot. rewrite (proj2 (Z.ltb_lt _ _) Hr). lia.
  - intros [He Hc Hr Hs Ha]. unfold how_many in Ha. split; [split; [|split; [done|apply Hx; [|done]]]|].
    + intros k Hk. apply Ha. lia.
    + intros Hlt. apply Ha. unfold recon_slot. rewrite (proj2 (Z.ltb_lt _ _) Hlt). lia.
    + destruct (Z.ltb_spec 0 (staleAfter flags)) as [Hlt|Hge]; [|constructor]. apply Forall_singleton, stale_clean.
      split; [apply Ha; lia|by apply Hs].
Qed.

(** ** What is left behind *)

Lemma record_rows R i results runs u runs' :
  recordVerification R i results runs = (Ok u, runs') -> runs' = runs ++ imap (fun j r => run_row (insert_now R (i + j)) r) results.
Proof.
  revert i runs. induction results as [|r results IH]; intros i runs; cbn [recordVerification]; [by intros [= _ <-]; rewrite app_nil_r|].
  destruct (insert_fault R i); [done|]. destruct (negb _); [done|]. destruct (existsb _ _); [done|].
  intros ->%IH. rewrite <-app_assoc. f_equal. cbn [imap app]. f_equal; [by rewrite Nat.add_0_r|].
  apply imap_ext. intros j x _. cbn. do 2 f_equal. lia.
Qed.

(** The rows of the [j]th ledger of the run. *)
Definition rows_left (N : NightEnv) (flags : VerifyFlags) (j : nat) (t : Tenant) : list VerificationRun :=
  imap (fun k r => run_row (insert_now (run_env N j) k) r) (verify_ledger N j flags t).1.1.

(** The inserts are answered, later than every run on record. *)
Definition can_record (N : NightEnv) (j : nat) (t : Tenant) : Prop :=
  (forall k, insert_fault (run_env N j) k = None) /\
  forall x k, x ∈ verified t -> ran_at x < Truncate (insert_now (run_env N j) k) microsecond.

(** The names of a run's checks are distinct. *)
Lemma result_names N j flags t :
  NoDup (CName <$> (verify_ledger N j flags t).1.1) /\
  Forall (fun r => forall_char basic (CName r) = true) (verify_ledger N j flags t).1.1.
Proof.
  rewrite verify_ledger_results. rewrite <-(Forall_fmap CName (fun n => forall_char basic n = true)).
  rewrite (proj1 (verify_reports_all describe describe_stale (run_env N j) (verify_options flags (extraChecks N j flags t).1) (book t))).
  cbn [Extra StaleAfter verify_options].
  assert ((extraChecks N j flags t).1.*1 = "conversions" :: if 0 <? reconAfter flags then ["reconciliation"] else []) as ->.
  { unfold extraChecks. destruct (0 <? reconAfter flags); [|done]. destruct (read_fault _ _); [done|].
    by destruct (Check_recon _ _ _ _ _ _ _). }
  destruct (0 <? reconAfter flags), (0 <? staleAfter flags); split; by first [apply (bool_decide_unpack _); vm_compute|repeat constructor].
Qed.

Lemma verify_ledger_left N j flags t results r t' :
  verify_ledger N j flags t = (results, r, t') ->
  book t' = book t /\ (r = Ok tt -> record flags = true -> verified t' = verified t ++ rows_left N flags j t) /\
  (in_order_at N j flags t -> (record flags = true -> can_record N j t) -> r = Ok tt).
Proof.
  intros H. unfold rows_left. pose proof (result_names N j flags t) as [Hnd Htext].
  pose proof (verify_ledger_clean N j flags t) as Hclean. pose proof (verify_ledger_results N j flags t) as Hres.
  rewrite H in Hnd, Htext, Hclean, Hres |- *. cbn [fst] in *. unfold verify_ledger in H.
  destruct (extraChecks N j flags t) as [extra st]. unfold Verify in H. cbn [VRecord verify_options] in H.
  destruct (record flags); [|by simplify_eq/=].
  destruct (recordVerification _ _ _ _) as [x runs] eqn:Hr. injection H as Hrs <- <-. rewrite Hrs in Hr. split_and!; [done| |].
  - intros -> _. by apply record_rows in Hr.
  - intros Hok [Hf Hlate]; [done|]. apply Hclean in Hok. rewrite Hres in Hok. apply clean_silent in Hok. rewrite <-Hres in Hok.
    pose proof (recorded (run_env N j) 0 results (verified t)) as Hall. rewrite Hr in Hall. cbn [fst] in Hall.
    apply Hall; [|done|done|].
    + apply Forall_and. split; [done|]. eapply Forall_impl; [exact Hok|]. by intros y ->.
    + intros y z k Hy _ _. pose proof (Hlate y k Hy). lia.
Qed.

Lemma in_order_calm N j flags t : in_order_at N j flags t -> panics N j t = false.
Proof.
  intros [_ Hc _ _ _]. unfold panics. apply andb_false_iff. right. rewrite Hc. by apply bool_decide_false.
Qed.

Lemma all_in_order_cons N flags i l names C :
  (forall j l', (l :: names) !! j = Some l' -> in_order_at N (i + j) flags (tenant C l')) <->
  in_order_at N i flags (tenant C l) /\ forall j l', names !! j = Some l' -> in_order_at N (i + S j) flags (tenant C l').
Proof.
  split.
  - intros H. split; [specialize (H 0%nat l eq_refl); by rewrite Nat.add_0_r in H|]. intros j l'. apply (H (S j) l').
  - intros [H0 H] [|j] l' Hj; [injection Hj as <-; by rewrite Nat.add_0_r|]. by apply H.
Qed.

Lemma verify_each_spec N flags i names n C :
  NoDup names ->
  exists out r C', verify_each N flags i names n C = (out, r, C') /\
    (forall l, book (tenant C' l) = book (tenant C l)) /\ (forall l, l ∉ names -> tenant C' l = tenant C l) /\
    match r with
    | Ok m => (n <= m)%nat /\
        (record flags = true -> forall j l, names !! j = Some l ->
           verified (tenant C' l) = verified (tenant C l) ++ rows_left N flags (i + j) (tenant C l)) /\
        (m = n <-> forall j l, names !! j = Some l -> in_order_at N (i + j) flags (tenant C l))
    | Err e => exit_code (Err e) <> 0 /\
        ~ (forall j l, names !! j = Some l ->
             in_order_at N (i + j) flags (tenant C l) /\ (record flags = true -> can_record N (i + j) (tenant C l)))
    end.
Proof.
  revert i n C. induction names as [|l names IH]; intros i n C Hnd; cbn [verify_each].
  { eexists _, _, _. split; [done|]. split_and!; [done..|]. by split. }
  apply NoDup_cons in Hnd as [Hl Hnd]. destruct (panics N i (tenant C l)) eqn:Hp.
  { eexists _, _, _. split; [done|]. split_and!; [done..|]. intros H. destruct (H 0%nat l eq_refl) as [Ho _].
    rewrite Nat.add_0_r in Ho. apply in_order_calm in Ho. congruence. }
  destruct (verify_ledger N i flags (tenant C l)) as [[results r] t'] eqn:Hv.
  destruct (verify_ledger_left _ _ _ _ _ _ _ Hv) as (Hb & Hrows & Hland).
  pose proof (verify_ledger_clean N i flags (tenant C l)) as Hclean. rewrite Hv in Hclean. cbn [fst] in Hclean.
  destruct r as [[]|e].
  - destruct (IH (S i) (n + failed results)%nat (<[l:=t']> C) Hnd) as (out & r & C' & Hr & Hbk & Hout & Hres). rewrite Hr.
    assert (forall l', l' ∈ names -> tenant (<[l:=t']> C) l' = tenant C l') as Hsame.
    { intros l' Hl'. rewrite tenant_insert, decide_False; [done|]. by intros ->. }
    assert (forall j l', names !! j = Some l' -> tenant (<[l:=t']> C) l' = tenant C l' /\ (S i + j = i + S j)%nat) as Hat.
    { intros j l' Hj. split; [by apply Hsame, list_elem_of_lookup_2 with j|lia]. }
    eexists _, _, _. split; [done|]. split_and!.
    + intros l'. rewrite Hbk, tenant_insert. by case_decide; subst.
    + intros l' [Hne Hni]%not_elem_of_cons. rewrite Hout, tenant_insert, decide_False by done. done.
    + assert ((forall j l', names !! j = Some l' -> in_order_at N (S i + j) flags (tenant (<[l:=t']> C) l')) <->
              (forall j l', names !! j = Some l' -> in_order_at N (i + S j) flags (tenant C l'))) as Hiff.
      { split; intros H j l' Hj; destruct (Hat j l' Hj) as [He Hn]; specialize (H j l' Hj); [by rewrite <-He, <-Hn|by rewrite He, Hn]. }
      destruct r as [m|e].
      * destruct Hres as (Hle & Hleft & Hm). split_and!; [lia| |].
        -- intros Hrec [|j] l' Hj; [injection Hj as <-|].
           ++ rewrite Hout, tenant_insert, decide_True, Nat.add_0_r by done. by apply Hrows.
           ++ destruct (Hat j l' Hj) as [He Hn]. rewrite (Hleft Hrec j l' Hj), He. by rewrite Hn.
        -- rewrite Hiff in Hm. rewrite all_in_order_cons, <-Hclean, <-failed_zero, <-Hm. lia.
      * destruct Hres as [Hne Hno]. split; [done|]. intros H. apply Hno. intros j l' Hj.
        destruct (Hat j l' Hj) as [He Hn]. rewrite He, Hn. exact (H (S j) l' Hj).
  - eexists _, _, _. split; [done|]. split_and!.
    + intros l'. rewrite tenant_insert. by case_decide; subst.
    + intros l' [Hne _]%not_elem_of_cons. by rewrite tenant_insert, decide_False.
    + done.
    + intros H. destruct (H 0%nat l eq_refl) as [Ho Hc]. rewrite Nat.add_0_r in Ho, Hc. by specialize (Hland Ho Hc).
Qed.

(** The ledgers a run is about. *)
Definition targets (C : Books) (names : list string) : list string :=
  match names with [] => ledger_names C | _ => names end.

Lemma ledger_names_NoDup C : NoDup (ledger_names C).
Proof. apply map_rows_NoDup. Qed.

(** Past the checks of its arguments and its connection. *)
Lemma verifyCommand_cases Sh N flags names C out r C' :
  verifyCommand Sh N (Some (flags, names)) C = (out, r, C') ->
  (C' = C /\ exists e, r = Err e) \/
  (targets C names = [] /\ C' = C /\ r = Ok tt) \/
  exists out', (if last_run flags then reportLastRun Sh N (targets C names) flags
                else do* findings := verify_each N flags 0 (targets C names) 0 in
                     require (findings =? 0)%nat (FindingsReported findings)) C = (out', r, C').
Proof.
  unfold verifyCommand. intros H. apply (checked_bind _ _ _ _ _ _ _ (checked_contact C Sh)) in H as [[-> (e & -> & _)]|([] & o1 & _ & H)]; [eauto|].
  destruct (List.find looks_like_flag names) as [name|]; [injection H as _ <- <-; eauto|].
  assert (checked C (match names with [] => ask_ledgers Sh 0 | _ => give names end) (fun l => l = targets C names)) as Hn.
  { destruct names; [apply checked_ask_ledgers|by apply checked_give]. }
  apply (checked_bind _ _ _ _ _ _ _ Hn) in H as [[-> (e & -> & _)]|(ts & o2 & -> & H)]; [eauto|].
  destruct (targets C names) as [|t ts] eqn:Ht; [injection H as _ <- <-; right; left; done|]. right; right. by exists o2.
Qed.

(** With a database that answers, and names that are names. *)
Definition reachable (Sh : Shell) (names : list string) : Prop :=
  database_url Sh <> EmptyString /\ connects Sh = None /\ query_fault Sh 0 = None /\
  List.find looks_like_flag names = None.

Lemma verifyCommand_runs Sh N flags names C :
  reachable Sh names ->
  verifyCommand Sh N (Some (flags, names)) C =
  match targets C names with
  | [] => say NoLedgers C
  | ts => (if last_run flags then reportLastRun Sh N ts flags
           else do* findings := verify_each N flags 0 ts 0 in
                require (findings =? 0)%nat (FindingsReported findings)) C
  end.
Proof.
  intros (Hu & Hc & Hq & Hf).
  assert (forall {A} (k : Cmd A), chain (contact Sh) (fun _ => k) C = k C) as Hcontact.
  { intros A k. unfold chain, contact, require, give. rewrite (bool_decide_false _ Hu), Hc. cbn. by destruct (k C) as [[? ?] ?]. }
  assert (forall {A} (k : list string -> Cmd A),
    chain (match names with [] => ask_ledgers Sh 0 | _ => give names end) k C = k (targets C names) C) as Hask.
  { intros A k. unfold chain, ask_ledgers, give. destruct names; [rewrite Hq|]; cbn; by destruct (k _ C) as [[? ?] ?]. }
  unfold verifyCommand. rewrite Hcontact, Hf, Hask. by destruct (targets C names).
Qed.

(** C11: exit 0 of [giro verify] means what it says. Over distinct ledgers, on any
    database, and without [--last]: no book changes; if it exits 0, then at every
    ledger it was about every check could be run and found nothing -- the
    engine's six, the stated rates, and where they were asked for the outstanding
    statement lines and the stale balances -- and, recording, each left its row.
    Conversely, when all of that is so and the database answers -- the inserts
    too, where it records, and no earlier run bears a later time -- it exits 0. *)
Theorem verify_command_decides (Sh : Shell) (N : NightEnv) (flags : VerifyFlags) (names : list string) (C : Books) :
  NoDup names -> last_run flags = false ->
  let '(_, r, C') := verifyCommand Sh N (Some (flags, names)) C in
  let all_in_order := forall j l, targets C names !! j = Some l -> in_order_at N j flags (tenant C l) in
  let all_on_record := forall j l, targets C names !! j = Some l ->
    verified (tenant C' l) = verified (tenant C l) ++ rows_left N flags j (tenant C l) in
  (forall l, book (tenant C' l) = book (tenant C l)) /\
  (exit_code r = 0 -> all_in_order /\ (record flags = true -> all_on_record)) /\
  (reachable Sh names -> all_in_order ->
     (record flags = true -> forall j l, targets C names !! j = Some l -> can_record N j (tenant C l)) ->
     exit_code r = 0).
Proof.
  intros Hnd Hlast. assert (NoDup (targets C names)) as Hts by (destruct names; [apply ledger_names_NoDup|done]).
  destruct (verify_each_spec N flags 0 (targets C names) 0 C Hts) as (out1 & r1 & C1 & He & Hb & _ & Hr1).
  destruct (verifyCommand Sh N (Some (flags, names)) C) as [[out r] C'] eqn:H. intros all_in_order all_on_record.
  assert (forall x, chain (fun C => verify_each N flags 0 (targets C names) 0 C) (fun f => require (f =? 0)%nat (FindingsReported f)) C = x ->
    x.2 = C1 /\ (exit_code x.1.2 = 0 <-> r1 = Ok 0%nat)) as Hx.
  { intros x <-. unfold chain. rewrite He. destruct r1 as [[|m]|e]; cbn; [by split|by split|]. split; [done|].
    destruct Hr1 as [Hne _]. by split. }
  split; [|split].
  - apply verifyCommand_cases in H as [[-> _]|[(_ & -> & _)|(out' & H)]]; [done..|]. rewrite Hlast in H.
    apply Hx in H as [HC _]. cbn in HC. by subst C'.
  - intros Hr. apply verifyCommand_cases in H as [[_ (e & ->)]|[(Ht & _ & ->)|(out' & H)]].
    + by destruct e.
    + unfold all_in_order, all_on_record. rewrite Ht. split; [by intros j l Hj|by intros _ j l Hj].
    + rewrite Hlast in H. apply Hx in H as [HC [Hok _]]. cbn in HC. specialize (Hok Hr). subst r1 C'.
      destruct Hr1 as (_ & Hrows & Hiff). split; [exact (proj1 Hiff eq_refl)|exact Hrows].
  - intros Hreach Hord Hrec. assert (r1 = Ok 0%nat) as ->.
    { destruct r1 as [m|e]; destruct Hr1 as (_ & Hr1); [f_equal; exact (proj2 (proj2 Hr1) Hord)|].
      destruct Hr1. intros j l Hj. split; [by apply Hord|]. intros Hr. by apply Hrec. }
    rewrite verifyCommand_runs, Hlast in H by done.
    destruct (targets C names) as [|t ts] eqn:Ht; [unfold say in H; by simplify_eq/=|].
    rewrite <-Ht in H. apply Hx in H as [_ Hiff]. by apply Hiff.
Qed.

(** ** What [--last] means *)

Lemma stale_count_app xs ys : stale_count (xs ++ ys) = (stale_count xs + stale_count ys)%nat.
Proof. unfold stale_count. by rewrite filter_app, length_app. Qed.

Lemma stale_count_zero xs : stale_count xs = 0%nat <-> Forall (fun x => x.2 = false) xs.
Proof.
  unfold stale_count. induction xs as [|[y b] xs IH]; [by split|]. rewrite Forall_cons, filter_cons. cbn [snd].
  destruct b; [rewrite decide_True by done|rewrite decide_False by done; rewrite IH; naive_solver].
  split; [done|]. by intros [? _].
Qed.

(** Some check ran at [l], and every check that ever did ran within the bound. *)
Definition fresh_at (N : NightEnv) (flags : VerifyFlags) (l : string) (t : Tenant) : Prop :=
  LastVerified (verified t) <> ∅ /\
  map_Forall (fun check at_ => Since (clock N l check) at_ <= maxAge flags) (LastVerified (verified t)).

Lemma last_rows_fresh N flags l t :
  Forall (fun x => x.2 = false) (last_rows N flags l (LastVerified (verified t))) <->
  maxAge flags <= 0 \/ fresh_at N flags l t.
Proof.
  unfold last_rows, fresh_at. set (seen := LastVerified (verified t)).
  destruct (map_rows String.le seen) as [|ca rows] eqn:Hr.
  - assert (seen = ∅) as He.
    { apply map_empty. intros k. apply eq_None_not_Some. intros [a Ha]. apply (elem_of_map_rows String.le) in Ha.
      rewrite Hr in Ha. by apply not_elem_of_nil in Ha. }
    destruct (Z.ltb_spec 0 (maxAge flags)); [|split; [intros _; by left|constructor]].
    rewrite Forall_singleton. split; [done|]. intros [?|[? _]]; [lia|done].
  - rewrite <-Hr, Forall_fmap, Forall_forall. unfold compose, is_stale. cbn [snd].
    assert (seen <> ∅) as Hne by (intros ->; by rewrite map_rows_empty in Hr by apply _).
    split.
    + intros H. destruct (Z.ltb_spec 0 (maxAge flags)); [right|by left]. split; [done|]. intros k a Hk%(elem_of_map_rows String.le).
      specialize (H _ Hk). simpl in H. lia.
    + intros [Hm|[_ H]] [k a] Hk%elem_of_map_rows; [apply andb_false_iff; left; lia|].
      specialize (H k a Hk). apply andb_false_iff. right. simpl in *. lia.
Qed.

Lemma last_each_spec Sh N flags i names acc C :
  (forall j, query_fault Sh j = None) ->
  exists out rows, last_each Sh N flags i names acc C = (out, Ok (acc ++ rows), C) /\
    (stale_count rows = 0%nat <-> Forall (fun l => maxAge flags <= 0 \/ fresh_at N flags l (tenant C l)) names).
Proof.
  intros Hq. revert i acc. induction names as [|l names IH]; intros i acc; cbn [last_each].
  { exists [], []. rewrite app_nil_r. split; [done|]. by split. }
  rewrite Hq. destruct (IH (S i) (acc ++ last_rows N flags l (LastVerified (verified (tenant C l))))) as (out & rows & -> & Hs).
  eexists _, (last_rows N flags l (LastVerified (verified (tenant C l))) ++ rows). split; [by rewrite <-app_assoc|].
  rewrite stale_count_app, Nat.eq_add_0, Hs, Forall_cons, stale_count_zero, last_rows_fresh. done.
Qed.

(** [giro verify --last --max-age] watches the watcher. On a database that
    answers it changes nothing, and exits 0 exactly when no bound was given or
    every ledger asked about has had a run, and no check that ever ran there has
    last done so longer ago than the bound. *)
Theorem last_run_decides (Sh : Shell) (N : NightEnv) (flags : VerifyFlags) (names : list string) (C : Books) :
  reachable Sh names -> (forall j, query_fault Sh j = None) -> last_run flags = true ->
  let '(_, r, C') := verifyCommand Sh N (Some (flags, names)) C in
  C' = C /\
  (exit_code r = 0 <-> Forall (fun l => maxAge flags <= 0 \/ fresh_at N flags l (tenant C l)) (targets C names)).
Proof.
  intros Hreach Hq Hlast. rewrite verifyCommand_runs, Hlast by done.
  destruct (last_each_spec Sh N flags 1 (targets C names) [] C Hq) as (out & rows & He & Hs).
  destruct (targets C names) as [|t ts]; [by split|]. unfold reportLastRun, chain. rewrite He. cbn [app].
  destruct (asJSON flags); unfold say, give, require; cbn; destruct (Nat.eqb_spec (stale_count rows) 0); (split; [done|]);
    (etrans; [|exact Hs]); by split.
Qed.

End verify.

(** ** At a concrete database *)

Definition plain_text {A} (x : A) : string := "finding".

Definition a_night : NightEnv :=
  {| run_env := fun _ => {| run_now := new_year; took := fun _ => 0; read_fault := fun _ => None;
                            insert_fault := fun _ => None; insert_now := fun i => new_year + Z.of_nat i * millisecond |};
     recon_env := fun _ => {| rfault := fun _ => None; rnow := fun _ => new_year |};
     recon_planner := fun _ => {| order := fun _ cs => cs; wire := numeric |};
     recon_now := fun _ => new_year; clock := fun _ _ => new_year + second |}.

Definition nightly (flags : VerifyFlags) (names : list string) (C : Books) : list line * res cmd_error unit * Books :=
  verifyCommand plain_text plain_text plain_text plain_text plain_text plain_text fair_shell a_night (Some (flags, names)) C.

Definition checked_once : Books := (nightly default_flags [] (one_book (db funded_store))).2.

Definition asking_age (m : Z) : VerifyFlags :=
  {| stalePrefix := "pending:"; staleAfter := 0; reconAfter := 0; boundary := EmptyString; record := true;
     last_run := true; maxAge := m; asJSON := false |}.

Definition unrecorded : VerifyFlags :=
  {| stalePrefix := "pending:"; staleAfter := 3600 * second; reconAfter := 3600 * second; boundary := EmptyString; record := false;
     last_run := false; maxAge := 0; asJSON := false |}.

Example nights :
  exit_code (nightly default_flags [] (one_book (db funded_store))).1.2 = 0 /\
  length (verified (tenant checked_once "main")) = 7%nat /\
  exit_code (nightly (asking_age (10 * second)) [] checked_once).1.2 = 0 /\
  exit_code (nightly (asking_age millisecond) [] checked_once).1.2 = 1 /\
  (nightly (asking_age second) [] (one_book new_ledger)).1 = ([LedgerLine "main"; NeverRun], Err (ChecksOverdue 1)) /\
  (nightly default_flags ["main"; "--record=false"] checked_once).1 = ([], Err (UsageErr (LateFlag "--record=false"))).
Proof. vm_compute. done. Qed.

(** A ledger nobody created verifies, and its runs are recorded. *)
Example typo_verifies :
  let '(_, r, C') := nightly default_flags ["man"] checked_once in
  exit_code r = 0 /\ (run_ok <$> verified (tenant C' "man")) = repeat true 7 /\ ledger_names C' = ["main"].
Proof. vm_compute. done. Qed.

(** Asked for a bound, [--last] does not miss a check that never ran where
    another did: [reconciliation] here. *)
Example never_run_passes :
  exit_code (nightly (asking_age (10 * second)) [] checked_once).1.2 = 0 /\
  "reconciliation" ∉ (check_name <$> verified (tenant checked_once "main")).
Proof. split; [by vm_compute|]. apply (bool_decide_unpack _). by vm_compute. Qed.

Lemma verify_command_decides_witness :
  in_order_at a_night 0 default_flags (tenant (one_book (db funded_store)) "main") /\
  verified (tenant checked_once "main") =
    verified (tenant (one_book (db funded_store)) "main") ++
    rows_left plain_text plain_text plain_text plain_text plain_text plain_text a_night default_flags 0
      (tenant (one_book (db funded_store)) "main") /\
  (can_record a_night 0 (tenant (one_book (db funded_store)) "main") ->
   exit_code (nightly default_flags [] (one_book (db funded_store))).1.2 = 0) /\
  can_record a_night 0 (tenant (one_book (db funded_store)) "main").
Proof.
  assert (exit_code (nightly default_flags [] (one_book (db funded_store))).1.2 = 0) as Hok by (vm_compute; reflexivity).
  assert (targets (one_book (db funded_store)) [] !! 0%nat = Some "main") as Ht by (vm_compute; reflexivity).
  pose proof (verify_command_decides plain_text plain_text plain_text plain_text plain_text plain_text
                fair_shell a_night default_flags [] (one_book (db funded_store)) (NoDup_nil_2 : NoDup (@nil string)) eq_refl) as H.
  unfold checked_once, nightly in *.
  destruct (verifyCommand _ _ _ _ _ _ fair_shell a_night _ (one_book (db funded_store))) as [[out r] C'].
  cbn [fst snd] in Hok |- *. destruct H as (_ & H & Hback). destruct (H Hok) as [Hin Hrows].
  assert (reachable fair_shell []) as Hreach by (split_and!; [discriminate|reflexivity..]).
  split; [exact (Hin 0%nat "main" Ht)|]. split; [exact (Hrows eq_refl 0%nat "main" Ht)|]. split.
  - intros Hc. apply (Hback Hreach Hin). intros _ j l Hj. vm_compute in Hj. destruct j; [|discriminate Hj].
    injection Hj as <-. exact Hc.
  - split; [reflexivity|]. intros x k Hx. vm_compute in Hx. inversion Hx.
Defined.

Lemma last_run_decides_witness :
  exit_code (nightly (asking_age (10 * second)) [] checked_once).1.2 = 0 <->
  Forall (fun l => maxAge (asking_age (10 * second)) <= 0 \/ fresh_at a_night (asking_age (10 * second)) l (tenant checked_once l))
    (targets checked_once []).
Proof.
  assert (reachable fair_shell []) as Hr by (split_and!; [discriminate|reflexivity..]).
  pose proof (last_run_decides plain_text plain_text plain_text plain_text plain_text plain_text
                fair_shell a_night (asking_age (10 * second)) [] checked_once Hr (fun _ => eq_refl) eq_refl) as H.
  unfold nightly. destruct (verifyCommand _ _ _ _ _ _ fair_shell a_night _ checked_once) as [[out r] C'].
  exact (proj2 H).
Defined.
