(* ===== verification/Words.v ===== *)
(** * The words of errors and findings

    The [Error] methods of package storage's error types and of its findings
    ([storage/errors.go], [commit.go], [bulk.go], [assets.go], [recovery.go],
    [verify.go], [effective.go], [policy.go], [closure.go]), [StaleBalance.String]
    and [recon.StaleBreak.Error]. They reach a client in a refusal's message and
    a person in the detail of a check, which a run stores. The words of errors
    without a method of their own, and what is put before them on the way up,
    are a parameter. *)

From S2P Require Import Prelude Identifiers Text Decimal Posting Volumes Sha256 GoTime Transaction Codec Encoding Errors Schema Txn Locking Guards Moves History Log Observer Commit Committed Book Chain Sample CommitSpec Replay Effective Read Verify Invariant Revert Bulk MetadataOps Policy Closure Registry Recovery VerifyRuns Rational Fx Numeric Recon Operator Nightly.

Definition print_index (n : nat) : string := print_Z (Z.of_nat n).

(** ** Errors *)

Definition InsufficientFundsError_Error (account : Address) (asset : Asset) (available requested : Z) : string :=
  "insufficient funds: " +:+ account +:+ " holds " +:+ print_Z available +:+ " " +:+ asset +:+ ", needs " +:+ print_Z requested.

Definition UnexpectedCreditError_Error (account : Address) (asset : Asset) (balance : Z) : string :=
  account +:+ " would hold " +:+ print_Z balance +:+ " " +:+ asset +:+ ", and is not permitted a positive balance: "
  +:+ "a cost recorded as a gain leaves the book balanced and the profit wrong".

Definition UnboundedSweepError_Error (account : Address) (asset : Asset) : string :=
  account +:+ " is permitted a negative balance in " +:+ asset +:+ ", so it holds no determinate amount to move".

Definition AccountClosedError_Error (account : Address) : string :=
  account +:+ " is closed and accepts no further movement; reopen it first".

Definition UnknownAssetError_Error (asset registered : Asset) : string :=
  if negb (bool_decide (registered = EmptyString))
  then asset +:+ " is not registered, but " +:+ registered +:+ " is: same currency, different scale"
  else asset +:+ " is not registered on this ledger".

(** The difference of two int64s. *)
Definition TipMismatch_Error (expected actual : Tip) (kind : error) : string :=
  if errors_Is kind ErrChainBehind
  then "ledger " +:+ TLedger actual +:+ " is at log " +:+ print_Z (TLogID actual) +:+ " but was recorded at "
       +:+ print_Z (TLogID expected) +:+ ": a restore lost " +:+ print_Z (wrap64 (TLogID expected - TLogID actual))
       +:+ " entries, and committing from here reuses their ids"
  else "ledger " +:+ TLedger actual +:+ " log entry " +:+ print_Z (TLogID expected)
       +:+ " does not match the recorded hash: ids have been reused, so entry " +:+ print_Z (TLogID expected)
       +:+ " is no longer the entry it was".

Definition PostingError_prefix (i : nat) : string := "postings[" +:+ print_index i +:+ "]: ".
Definition BatchItemError_prefix (i : nat) : string := "transactions[" +:+ print_index i +:+ "]: ".

Fixpoint Error (other : error -> string) (e : error) : string :=
  match e with
  | InsufficientFundsError account asset available requested => InsufficientFundsError_Error account asset available requested
  | UnexpectedCreditError account asset balance => UnexpectedCreditError_Error account asset balance
  | UnboundedSweepError account asset => UnboundedSweepError_Error account asset
  | AccountClosedError account => AccountClosedError_Error account
  | UnknownAssetError asset registered => UnknownAssetError_Error asset registered
  | TipMismatch expected actual kind => TipMismatch_Error expected actual kind
  | PostingError i e => PostingError_prefix i +:+ Error other e
  | BatchItemError i e => BatchItemError_prefix i +:+ Error other e
  | _ => other e
  end.

(** ** Findings *)

(** [(%s, %s)] *)
Definition both_sides (v : Volumes) : string :=
  "(" +:+ print_Z (Input v) +:+ ", " +:+ print_Z (Output v) +:+ ")".

Definition ProjectionMismatch_Error (m : ProjectionMismatch) : string :=
  PMAccount m +:+ " " +:+ PMAsset m +:+ ": " +:+
  match PMStored m, PMWant m with
  | None, want => "the log says " +:+ both_sides (default NewVolumes want) +:+ " and there is no row"
  | Some stored, None => "row holds " +:+ both_sides stored +:+ " and the log never mentions it"
  | Some stored, Some want => "row holds " +:+ both_sides stored +:+ ", the log says " +:+ both_sides want
  end.

(** A nil amount in the log has no words: the process stops. *)
Definition projection_words (other : error -> string) (f : projection_failure) : string :=
  match f with
  | Mismatch m => ProjectionMismatch_Error m
  | NeverLogged id => "transaction " +:+ print_Z id +:+ " exists but was never logged"
  | CountDiffers logged held => "the log describes " +:+ print_index logged +:+ " transactions and the table holds " +:+ print_index held
  | NilAmount _ => EmptyString
  | Unreadable e => Error other e
  end.

Definition EffectiveVolumesMismatch_Error (e : EffectiveVolumesMismatch) : string :=
  "move " +:+ print_Z (EMSeq e) +:+ " (" +:+ EMAccount e +:+ " " +:+ EMAsset e +:+ "): stored " +:+ both_sides (EMStored e)
  +:+ ", replay says " +:+ both_sides (EMWant e).

Definition UnpermittedNegative_Error (e : UnpermittedNegative) : string :=
  UNAccount e +:+ " " +:+ UNAsset e +:+ ": balance " +:+ print_Z (UNBalance e) +:+ ", and the account is not permitted to go "
  +:+ (if 0 <? UNBalance e then "positive" else "negative").

Definition ClosedAccountHoldsBalance_Error (e : ClosedAccountHoldsBalance) : string :=
  CAAccount e +:+ " is closed and holds " +:+ print_Z (CABalance e) +:+ " " +:+ CAAsset e.

(** [time.RFC3339]: no fraction of a second. *)
Definition rfc3339 (t : Instant) : string := format_time {| unix_nano := Truncate t second; zone := 0 |}.

Definition StaleBalance_String (b : StaleBalance) : string :=
  SBAccount b +:+ " " +:+ print_Z (SBBalance b) +:+ " " +:+ Read.SBAsset b +:+ ", last moved " +:+ rfc3339 (LastMove b).

Definition StaleBreak_Error (b : StaleBreak) : string :=
  let ref := if bool_decide (SBReference b = EmptyString) then "no reference" else SBReference b in
  SBSource b +:+ "/" +:+ SBRecordID b +:+ " (" +:+ ref +:+ ", " +:+ print_Z (SBAmount b) +:+ " " +:+ SBAsset b
  +:+ ") unmatched since " +:+ rfc3339 (SBSince b).

(** [errors.Join] *)
Definition Join (l : list string) : string := join_with (ascii_of_nat 10) l.

(** [fmt]'s brackets around a slice. *)
Definition bracketed (l : list string) : string := "[" +:+ join_with " " l +:+ "]".

(** The report of a check that did not come back clean. *)
Definition describe (other : error -> string) (f : finding) : string :=
  match f with
  | Drifted l => "conservation broken: " +:+ bracketed ((fun ax => ax.1 +:+ " drifted by " +:+ print_Z ax.2) <$> l)
  | LogBroken e | CouldNotRun e => Error other e
  | ProjectionBroken f => projection_words other f
  | EffectiveWrong e => EffectiveVolumesMismatch_Error e
  | OutOfBounds l => Join (UnpermittedNegative_Error <$> l)
  | ClosedHolding l => Join (ClosedAccountHoldsBalance_Error <$> l)
  | ExtraFinding text => text
  end.

(** ** What a refusal says *)

Lemma free_app sep (s s' t t' : string) :
  free_of sep s = true -> free_of sep s' = true -> s +:+ String sep t = s' +:+ String sep t' -> s = s' /\ t = t'.
Proof. intros Hs Hs' Heq. pose proof (cut_app_sep sep s t Hs) as H. rewrite Heq, cut_app_sep in H by done. by simplify_eq. Qed.

Lemma prefix_inj (p s s' : string) : p +:+ s = p +:+ s' -> s = s'.
Proof. induction p as [|c p IH]; [done|]. cbn [String.append]. intros [= H]. by apply IH. Qed.

Lemma free_of_chars (p : ascii -> bool) sep s : p sep = false -> forall_char p s = true -> free_of sep s = true.
Proof. intros Hsep. apply forall_char_impl. intros c Hc. apply bool_decide_eq_true. intros ->. congruence. Qed.

(** The characters of addresses, assets and integers. *)
Definition word_char (c : ascii) : bool :=
  segment_char c || asset_char c || is_digit c || bool_decide (c = ":"%char) || bool_decide (c = "/"%char) || bool_decide (c = "-"%char).

Lemma address_word a : Address_Valid a = true -> forall_char word_char a = true.
Proof.
  unfold Address_Valid. intros Ha. rewrite <-(join_split ":" a). apply join_with_chars; [done|].
  apply Forall_forall. intros s Hs. rewrite forallb_forall in Ha. apply list_elem_of_In, Ha, andb_true_iff in Hs as [_ Hs].
  eapply forall_char_impl; [|exact Hs]. intros c Hc. unfold word_char. by rewrite Hc.
Qed.

Lemma digits_word s : forall_char is_digit s = true -> forall_char word_char s = true.
Proof. apply forall_char_impl. intros c Hc. unfold word_char. rewrite Hc. by rewrite !orb_true_r. Qed.

Lemma asset_word a : Asset_Valid a = true -> forall_char word_char a = true.
Proof.
  intros Ha. destruct a as [|c rest]; [done|]. simpl in Ha. apply andb_true_iff in Ha as [Hc Ha].
  destruct (span_char asset_char rest) as [code tail] eqn:Hs. apply span_char_spec in Hs as (-> & Hcode & _).
  assert (forall x, asset_char x = true -> word_char x = true) as Hx.
  { intros x H. unfold word_char. rewrite H. by rewrite orb_true_r. }
  cbn [forall_char]. rewrite Hx by (unfold asset_char; by rewrite Hc). rewrite andb_true_l, forall_char_app. apply andb_true_iff. split.
  - eapply forall_char_impl; [exact Hx|exact Hcode].
  - destruct tail as [|s digits]; [done|]. rewrite !andb_true_iff in Ha. destruct Ha as [[[Hsl Hd] _] _].
    apply bool_decide_eq_true in Hsl as ->. cbn [forall_char]. by rewrite digits_word.
Qed.

Lemma print_Z_word z : forall_char word_char (print_Z z) = true.
Proof.
  unfold print_Z. case_match; [|apply digits_word, print_nat_is_digits]. cbn [forall_char].
  by rewrite digits_word by apply print_nat_is_digits.
Qed.

Lemma print_Z_inj x y : print_Z x = print_Z y -> x = y.
Proof. intros H. apply (f_equal parse_Z) in H. rewrite !parse_print_Z in H. congruence. Qed.

(** Whoever reads a refusal for lack of funds learns all of it: who ran out, of
    what, how much there was and how much was asked for. *)
Theorem insufficient_funds_says (a a' : Address) (c c' : Asset) (x x' y y' : Z) :
  Address_Valid a = true -> Address_Valid a' = true -> Asset_Valid c = true -> Asset_Valid c' = true ->
  InsufficientFundsError_Error a c x y = InsufficientFundsError_Error a' c' x' y' -> (a, c, x, y) = (a', c', x', y').
Proof.
  intros Ha%address_word Ha'%address_word Hc%asset_word Hc'%asset_word H. unfold InsufficientFundsError_Error in H.
  apply prefix_inj in H. cbn [String.append] in H.
  apply free_app in H as [-> H]; [|by apply (free_of_chars word_char)..]. injection H as H.
  apply free_app in H as [->%print_Z_inj H]; [|apply (free_of_chars word_char); [done|apply print_Z_word]..].
  apply free_app in H as [-> H]; [|by apply (free_of_chars word_char)..]. injection H as ->%print_Z_inj. done.
Qed.

(** ** What a check's detail says is text *)

Lemma basic_append s t : forall_char basic s = true -> forall_char basic t = true -> forall_char basic (s +:+ t) = true.
Proof. intros Hs Ht. by rewrite forall_char_app, Hs, Ht. Qed.

Lemma basic_cons c t : basic c = true -> forall_char basic t = true -> forall_char basic (String c t) = true.
Proof. intros Hc Ht. cbn [forall_char]. by rewrite Hc, Ht. Qed.

Lemma rfc3339_basic t : forall_char basic (rfc3339 t) = true.
Proof. apply format_time_basic. Qed.

Create HintDb words.
#[export] Hint Resolve basic_append basic_cons print_Z_basic rfc3339_basic address_basic asset_basic : words.
#[export] Hint Extern 1 (forall_char basic EmptyString = true) => reflexivity : words.
#[export] Hint Extern 1 (basic _ = true) => reflexivity : words.

Lemma both_sides_basic v : forall_char basic (both_sides v) = true.
Proof. unfold both_sides. auto 8 with words. Qed.
#[export] Hint Resolve both_sides_basic : words.

Lemma unpermitted_basic e :
  forall_char basic (UNAccount e) = true -> forall_char basic (UNAsset e) = true -> forall_char basic (UnpermittedNegative_Error e) = true.
Proof. intros. unfold UnpermittedNegative_Error. case_match; auto 60 with words. Qed.

Definition pair_basic (a : Address) (c : Asset) : Prop := forall_char basic a = true /\ forall_char basic c = true.

Section reports.
Context {codec : Codec}.
Context (other : error -> string).

Definition worded (e : error) : Prop := forall_char basic (Error other e) = true.

Definition projection_plain (f : projection_failure) : Prop :=
  match f with Mismatch m => pair_basic (PMAccount m) (PMAsset m) | Unreadable e => worded e | _ => True end.

Definition plain (f : finding) : Prop :=
  match f with
  | Drifted l => Forall (fun ax : Asset * Z => forall_char basic ax.1 = true) l
  | LogBroken e | CouldNotRun e => worded e
  | ProjectionBroken f => projection_plain f
  | EffectiveWrong e => pair_basic (EMAccount e) (EMAsset e)
  | OutOfBounds l => Forall (fun e => pair_basic (UNAccount e) (UNAsset e)) l
  | ClosedHolding l => Forall (fun e => pair_basic (CAAccount e) (CAAsset e)) l
  | ExtraFinding text => forall_char basic text = true
  end.

Lemma describe_basic f : plain f -> forall_char basic (describe other f) = true.
Proof.
  destruct f as [l|e|f|e|l|l|e|text]; cbn [plain describe]; intros Hf; try done.
  - unfold bracketed. apply basic_append, basic_append, basic_append; [done|done| |done]. apply join_with_chars; [done|].
    apply Forall_fmap. eapply Forall_impl; [exact Hf|]. intros ax Ha. simpl. auto 30 with words.
  - destruct f as [e|id|m|id|n k]; cbn [projection_words projection_plain] in *; [done|done| |auto 60 with words|unfold print_index; auto 80 with words].
    destruct Hf. unfold ProjectionMismatch_Error. repeat case_match; auto 60 with words.
  - destruct Hf. unfold EffectiveVolumesMismatch_Error. auto 60 with words.
  - apply join_with_chars; [done|]. apply Forall_fmap. eapply Forall_impl; [exact Hf|]. intros e [? ?]. by apply unpermitted_basic.
  - apply join_with_chars; [done|]. apply Forall_fmap. eapply Forall_impl; [exact Hf|]. intros e [? ?].
    unfold compose, ClosedAccountHoldsBalance_Error. auto 60 with words.
Qed.

Lemma substring_chars p n s : forall_char p s = true -> forall_char p (String.substring 0 n s) = true.
Proof.
  revert s. induction n as [|n IH]; intros s Hs; destruct s as [|c s]; try done. cbn [String.substring forall_char] in *.
  apply andb_true_iff in Hs as [-> Hs]. by rewrite IH.
Qed.

Lemma truncate_basic s : forall_char basic s = true -> forall_char basic (truncateDetail s) = true.
Proof.
  intros Hs. unfold truncateDetail. case_match; [done|]. apply basic_append; [by apply substring_chars|done].
Qed.

(** Rows whose names are plain; an error of the log or the driver has plain words. *)
Record plain_book (d : Database) : Prop := {
  pb_rows a c r : volumes d !! (a, c) = Some r -> pair_basic a c;
  pb_moves : Forall (fun m => pair_basic (move_key m).1 (move_key m).2) (moves d);
  pb_log e : (VerifyLog d).2 = Err e -> worded e;
  pb_projection f : (VerifyProjection d).2 = Err f -> projection_plain f;
  pb_driver code : worded (PgError code);
  pb_refused : worded (PlainError "olderThan is negative");
}.

Lemma effective_names rows running n e :
  (verify_moves rows running n).2 = Err e -> exists m, m ∈ rows /\ EMAccount e = (move_key m).1 /\ EMAsset e = (move_key m).2.
Proof.
  revert running n. induction rows as [|m rows IH]; intros running n; [done|]. cbn [verify_moves]. case_match.
  - intros [= <-]. exists m. split_and!; [by left|done..].
  - intros (m' & Hm & ?)%IH. exists m'. split; [by right|done].
Qed.

Lemma checks_plain d name n f : plain_book d -> (name, (n, Some f)) ∈ checks d -> plain f.
Proof.
  intros [Hrows Hmoves Hlog Hproj _ _] Hin.
  assert (forall {A} (wrap : list A -> finding) (l : list A) (P : A -> Prop), joined wrap l = Some f ->
            (forall x, x ∈ l -> P x) -> exists l, f = wrap l /\ Forall P l) as Hjoin.
  { intros A wrap l P Hj HP. destruct l as [|x l]; [done|]. injection Hj as <-. exists (x :: l). by rewrite Forall_forall. }
  unfold checks in Hin. rewrite !elem_of_cons, elem_of_nil in Hin. destruct_or! Hin; try done; injection Hin as _ _ Hin; symmetry in Hin.
  - eapply (Hjoin _ _ _ (fun ax : Asset * Z => forall_char basic ax.1 = true)) in Hin as (l & -> & Hl); [exact Hl|].
    intros [a z] (r & Hr & Hx)%list_elem_of_omap. case_match; [done|]. injection Hx as <- _.
    apply list_elem_of_fmap in Hr as (c & -> & Hc). unfold volume_assets in Hc. rewrite merge_sort_Permutation in Hc.
    apply elem_of_remove_dups, list_elem_of_fmap in Hc as ([[a' c'] row] & -> & Hk%elem_of_map_to_list). by apply Hrows in Hk as [_ ?].
  - destruct (VerifyLog d).2 as [?|e] eqn:He; [done|]. injection Hin as <-. by apply Hlog.
  - destruct (VerifyProjection d).2 as [?|e] eqn:He; [done|]. injection Hin as <-. by apply Hproj.
  - destruct (VerifyEffectiveVolumes d).2 as [?|e] eqn:He; [done|]. injection Hin as <-.
    apply effective_names in He as (m & Hm & H1 & H2). rewrite merge_sort_Permutation in Hm. rewrite Forall_forall in Hmoves.
    cbn [plain]. rewrite H1, H2. by apply Hmoves.
  - eapply (Hjoin _ _ _ (fun e => pair_basic (UNAccount e) (UNAsset e))) in Hin as (l & -> & Hl); [exact Hl|].
    intros e ([[a c] r] & Hk%elem_of_map_rows & He)%list_elem_of_omap; [|apply _..]. unfold unpermitted in He. case_match; [|done].
    injection He as <-. by eapply Hrows.
  - eapply (Hjoin _ _ _ (fun e => pair_basic (CAAccount e) (CAAsset e))) in Hin as (l & -> & Hl); [exact Hl|].
    intros e ([[a c] r] & Hk%elem_of_map_rows & He)%list_elem_of_omap; [|apply _..]. unfold closed_holding in He. case_match; [|done].
    injection He as <-. by eapply Hrows.
Qed.

Lemma stale_plain now d prefix age l b :
  plain_book d -> StaleBalances now d prefix age = Ok l -> b ∈ l -> forall_char basic (StaleBalance_String b) = true.
Proof.
  intros Hd H Hb. unfold StaleBalances in H. inv_ok. rewrite merge_sort_Permutation in Hb.
  apply list_elem_of_omap in Hb as ([[a c] r] & Hr%elem_of_map_to_list & Hs). unfold stale_row in Hs. repeat case_match; try done.
  injection Hs as <-. destruct (pb_rows d Hd a c r Hr). unfold StaleBalance_String. cbn. auto 40 with words.
Qed.

Lemma stale_details_basic l :
  (forall b, b ∈ l -> forall_char basic (StaleBalance_String b) = true) -> forall_char basic (stale_details StaleBalance_String l) = true.
Proof.
  unfold stale_details. assert (forall_char basic EmptyString = true) as H0 by done. revert H0. generalize EmptyString as acc.
  induction l as [|b l IH]; intros acc Hacc Hl; [done|]. simpl. apply IH; [|intros x Hx; apply Hl; by right].
  apply truncate_basic, basic_append; [|done]. apply basic_append; [done|]. apply Hl. by left.
Qed.

Lemma result_basic name n err took :
  from_option plain True err -> forall_char basic (Detail (result (describe other) name n err took)) = true.
Proof. intros Hf. destruct err as [f|]; [|done]. by apply truncate_basic, describe_basic. Qed.

(** The detail of every check is text PostgreSQL stores, wherever it was cut off,
    when the names in the book and what the layers above report are plain. *)
Lemma details_basic R opts d :
  plain_book d -> Forall (fun c : string * check_outcome => from_option plain True c.2.2) (Extra opts) ->
  Forall (fun r => forall_char basic (Detail r) = true) (verify_results (describe other) StaleBalance_String R opts d).
Proof.
  intros Hd Hex. unfold verify_results. apply Forall_app. split.
  - apply Forall_forall. intros r Hr. apply elem_of_lookup_imap in Hr as (i & [name [n err]] & -> & Hc%list_elem_of_lookup_2).
    unfold run_check. cbn [fst snd]. destruct (read_fault R i) as [code|]; apply result_basic; [apply (pb_driver d Hd)|].
    apply elem_of_app in Hc as [Hc|Hc]; [|rewrite Forall_forall in Hex; exact (Hex _ Hc)].
    destruct err as [f|]; [|done]. by eapply checks_plain.
  - case_match; [|constructor]. apply Forall_singleton. unfold stale_check.
    destruct (read_fault R _) as [code|]; [apply (pb_driver d Hd)|].
    destruct (StaleBalances _ _ _ _) as [[|b l]|e] eqn:Hs; [done| |].
    + apply stale_details_basic. intros x Hx. by eapply stale_plain.
    + unfold StaleBalances, when in Hs. destruct (_ <? 0); [injection Hs as <-; apply (pb_refused d Hd)|].
      destruct (negb _); [injection Hs as <-; apply (pb_driver d Hd)|done].
Qed.

(** A run over a book of plain names is always on record: nothing it has to say
    is refused by the table, however much of it is cut off. *)
Theorem plain_runs_recorded (R : RunEnv) (opts : VerifyOptions) (d : Database) (runs : list VerificationRun) :
  plain_book d -> VRecord opts = true ->
  Forall (fun c : string * check_outcome => forall_char basic c.1 = true /\ from_option plain True c.2.2) (Extra opts) ->
  NoDup (CName <$> verify_results (describe other) StaleBalance_String R opts d) ->
  (forall j, insert_fault R j = None) ->
  (forall x j, x ∈ runs -> ran_at x < Truncate (insert_now R j) microsecond) ->
  (Verify (describe other) StaleBalance_String R opts d runs).1.2 = Ok tt.
Proof.
  intros Hd Hrec Hex Hnd Hf Hruns. unfold Verify. rewrite Hrec. destruct (recordVerification _ _ _ _) as [r runs'] eqn:H.
  cbn [fst snd]. pose proof (recorded R 0 (verify_results (describe other) StaleBalance_String R opts d) runs) as Hall.
  rewrite H in Hall. apply Hall; [|done|done|].
  - apply Forall_and. split; [|apply details_basic; [done|eapply Forall_impl; [exact Hex|by intros c []]]].
    pose proof (proj1 (verify_reports_all (describe other) StaleBalance_String R opts d)) as Hnames. cbv zeta in Hnames.
    rewrite <-(Forall_fmap CName (fun n => forall_char basic n = true)), Hnames. rewrite !Forall_app. split; [|split].
    + by repeat constructor.
    + apply Forall_fmap. eapply Forall_impl; [exact Hex|by intros c []].
    + case_match; by repeat constructor.
  - intros x y j Hx _ _. pose proof (Hruns x j Hx). lia.
Qed.

End reports.

(** ** A detail cut inside a character *)

(** Sixty lines of a bank whose references are written with accents. *)
Definition accents (n : nat) : string := Nat.iter n (fun s => bytes [195; 169]%N +:+ s) EmptyString.

Definition accented_line (i : nat) : line_key * ReconRow :=
  (("bank", print_index (100 + i)),
   {| rr_reference := Some (accents 23); rr_asset := "EUR/2"; rr_amount := 1500; rr_direction := None; occurred_at := None;
      raw := None; ingested_at := 0; matched_count := 0; matched_at := None |}).

Definition accented_books : Books :=
  {[ "main" := {| book := db funded_store;
                  statements := {| recon_sources := {[ "bank" := "The bank" ]};
                                   recon_records := list_to_map (accented_line <$> List.seq 0 60); recon_matches := [] |};
                  verified := [] |};
     "next" := {| book := db funded_store; statements := no_recon; verified := [] |} ]}.

Definition with_recon : VerifyFlags :=
  {| stalePrefix := "pending:"; staleAfter := 3600 * second; reconAfter := 3600 * second; boundary := EmptyString; record := true;
     last_run := false; maxAge := 0; asJSON := false |}.

Definition accented_night : list line * res cmd_error unit * Books :=
  let quiet {A} (_ : A) := EmptyString in
  verifyCommand (describe quiet) StaleBalance_String quiet quiet (fun l => Join (StaleBreak_Error <$> l)) quiet
    fair_shell a_night (Some (with_recon, [])) accented_books.

(** The detail is cut at its 4000th byte. Where that is the middle of a character
    PostgreSQL refuses the row: the finding is not recorded, the checks after it
    neither, and the ledgers after this one are not checked at all. *)
Example cut_run_lost :
  let '(_, r, C) := accented_night in
  r = Err (StorageErr (PgError invalidText)) /\
  (check_name <$> verified (tenant C "main")) =
    ["conservation"; "log"; "projection"; "effective_volumes"; "balance_permissions"; "closed_accounts"; "conversions"] /\
  verified (tenant C "next") = [].
Proof. vm_compute. done. Qed.
