(* ===== verification/Startup.v ===== *)
(** * Starting up

    [cmd/giro/main.go], [serve.go], [migrate.go] and [db.go]: the dispatch of a
    command, [giro migrate], and [giro serve] up to the moment it listens, with
    the check of the schema that gates it. The migrations embedded in the binary
    are an argument, as is what their SQL does. *)

From S2P Require Import Prelude Identifiers Text GoTime Transaction Codec Errors Schema Commit Observer Sample Params Reader Body Client Wire Api Migrations Migrate Operator Restore VerifyRuns Read Fx Recon Nightly.

Definition allow_unkeyed_flag : string := "--allow-unkeyed-writes".

(** The loop over the arguments: what is positional, or the usage error. *)
Fixpoint serve_args (args : list string) : res usage (list string) :=
  match args with
  | [] => Ok []
  | a :: args =>
      if bool_decide (a = "-h") || bool_decide (a = "--help") then Err ServeUsage
      else if bool_decide (a = allow_unkeyed_flag) then serve_args args
      else if String.prefix "-" a then Err (UnknownFlag a)
      else let! rest := serve_args args in Ok (a :: rest)
  end.

Definition default_addr : string := ":8080".

Definition serve_addr (args : list string) : res usage string :=
  let! positional := serve_args args in
  match positional with
  | [] => Ok default_addr
  | [addr] => Ok addr
  | _ => Err ServeUsage
  end.

(** [serverOptions], applied: a note for each, and the server they make. *)
Definition serverOptions (args : list string) : list line * Server :=
  let given := filter (fun a => a = allow_unkeyed_flag) args in
  ((fun _ => UnkeyedNote) <$> given, {| allowUnkeyed := bool_decide (given <> []) |}).

(** What [giro serve] meets; [owner] when the privilege query answered yes. *)
Record ServeEnv := {
  parse_config : option string;
  ping : option string;
  acquire : option string;
  owner : option string;
  listen : option string;
}.

Section startup.
Context {World : Type} (run_sql : string -> World -> res string World) (run_sql_alone : string -> World -> option string * World).
Context (embedded : option (list Entry)).

Abbreviation Db := (Db (World := World)) (only parsing).
Abbreviation Cmd := (Command Db) (only parsing).

Definition may_fail (f : option string) (e : string -> cmd_error) : Cmd unit :=
  match f with Some m => throw (e m) | None => give tt end.

(** ** [giro serve] *)

Definition checkSchema (S : ServeEnv) (E : RunnerEnv) : Cmd unit := fun db =>
  (may_fail (acquire S) AcquireFailed ;*
   match RequireUpToDate E embedded db with
   | None => give tt
   | Some ErrSchemaAhead => say SchemaAhead
   | Some e => throw (SchemaErr e)
   end) db.

Definition warnIfPrivileged (S : ServeEnv) : Cmd unit :=
  match owner S with Some user => say (Privileged user) | None => give tt end.

Definition serveCommand (Sh : Shell) (S : ServeEnv) (E : RunnerEnv) (args : list string) : Cmd unit :=
  match serve_addr args with
  | Err u => throw (UsageErr u)
  | Ok addr =>
      require (negb (bool_decide (database_url Sh = EmptyString))) NoDatabaseURL ;*
      may_fail (parse_config S) BadConfig ;*
      may_fail (connects Sh) ConnectFailed ;*
      may_fail (ping S) PingFailed ;*
      checkSchema S E ;*
      warnIfPrivileged S ;*
      say NoAuthNote ;*
      let '(notes, srv) := serverOptions args in
      each (fun _ n => say n) 0 notes ;*
      say (Listening addr srv) ;*
      may_fail (listen S) ListenFailed ;*
      say Stopped
  end.

(** ** [giro migrate] *)

(** [withConn] *)
Definition withConn (Sh : Shell) (fn : Cmd unit) : Cmd unit := contact Sh ;* fn.

Definition migrateUp (E : RunnerEnv) : Cmd unit := fun db =>
  let '(n, errs, db') := Run run_sql run_sql_alone E embedded db in
  match errs with
  | [] => (if (n =? 0)%nat then say UpToDate else say (MigrationsApplied n)) db'
  | _ => throw (MigrateErrs errs) db'
  end.

Definition migrateStatus (E : RunnerEnv) : Cmd unit := fun db =>
  match Status E embedded db with
  | Err e => throw (SchemaErr e) db
  | Ok [] => say NoMigrations db
  | Ok l => each (fun _ x => say (MigrationLine x.1.1 x.1.2 x.2)) 0 l db
  end.

(** What is on the disk, whether it can be written, and the clock. *)
Record Disk := { exists_on : string -> bool; writable : bool; disk_now : Instant }.

Definition migrateNew (K : Disk) (name : string) : Cmd unit :=
  match newAt (exists_on K) (writable K) name (disk_now K) with
  | Err e => throw (CreateErr e)
  | Ok (filename, _) => say (Created filename)
  end.

(** [strings.Join] *)
Definition join_words (words : list string) : string := String.concat " " words.

Definition migrateCommand (Sh : Shell) (E : RunnerEnv) (K : Disk) (args : list string) : Cmd unit :=
  match args with
  | [] => throw (UsageErr MigrateUsage)
  | c :: rest =>
      if bool_decide (c = "up") then withConn Sh (migrateUp E)
      else if bool_decide (c = "status") then withConn Sh (migrateStatus E)
      else if bool_decide (c = "new") then
        match rest with [] => throw (UsageErr MigrateNewUsage) | _ => migrateNew K (join_words rest) end
      else throw (UsageErr (UnknownMigrateCommand c))
  end.

(** ** [main] *)

(** The database as the commands see it: its ledgers, and its schema. *)
Record Machine := { ledgers_of : Books; schema_of : Db }.

Definition on_ledgers {A} (m : Operator.Cmd A) : Command Machine A := fun M =>
  let '(out, r, C) := m (ledgers_of M) in (out, r, {| ledgers_of := C; schema_of := schema_of M |}).

Definition on_schema {A} (m : Cmd A) : Command Machine A := fun M =>
  let '(out, r, db) := m (schema_of M) in (out, r, {| ledgers_of := ledgers_of M; schema_of := db |}).

Context {codec : Codec}.
Context (describe : finding -> string) (describe_stale : StaleBalance -> string).
Context (describe_fx : list (Z * fx_error) -> string) (describe_fx_error : fx_error -> string).
Context (describe_breaks : list StaleBreak -> string) (describe_recon : recon_error -> string).
(** The flag package. *)
Context (parse_flags : list string -> option (VerifyFlags * list string)).

Definition dispatch (Sh : Shell) (S : ServeEnv) (E : RunnerEnv) (K : Disk) (N : NightEnv) (args : list string)
    : Command Machine unit :=
  match args with
  | [] => throw (UsageErr GiroUsage)
  | c :: rest =>
      if bool_decide (c = "migrate") then on_schema (migrateCommand Sh E K rest)
      else if bool_decide (c = "serve") then on_schema (serveCommand Sh S E rest)
      else if bool_decide (c = "verify") then
        on_ledgers (verifyCommand describe describe_stale describe_fx describe_fx_error describe_breaks describe_recon
                      Sh N (parse_flags rest))
      else if bool_decide (c = "account") then on_ledgers (accountCommand Sh rest)
      else if bool_decide (c = "recover") then on_ledgers (recoverCommand Sh rest)
      else if bool_decide (c ∈ ["help"; "-h"; "--help"]) then say UsageText
      else throw (UsageErr (UnknownCommand c))
  end.

End startup.

(** ** What is served *)

Section serving.
Context {World : Type} (run_sql : string -> World -> res string World) (run_sql_alone : string -> World -> option string * World).
Context (embedded : option (list Entry)).

Abbreviation Db := (Db (World := World)) (only parsing).
Abbreviation Cmd := (Command Db) (only parsing).

(** Every migration the binary carries is recorded as it carries it. *)
Definition schema_current (db : Db) : Prop :=
  exists ms, Load embedded = Ok ms /\
    forall m, m ∈ ms -> exists a, done_of db !! Version m = Some a /\ AChecksum a = Checksum m.

Lemma not_refused_current E (db : Db) :
  RequireUpToDate E embedded db = None \/ RequireUpToDate E embedded db = Some ErrSchemaAhead -> schema_current db.
Proof.
  unfold RequireUpToDate. intros H. destruct (Load embedded) as [ms|e] eqn:Hl; [|by destruct H]. exists ms. split; [done|].
  destruct (history_exists E db) as [[]|e] eqn:Hh; [|by destruct H|].
  2:{ unfold history_exists, mstmt_run in Hh. destruct (mfault E MRegclass); [|done]. injection Hh as <-. by destruct H. }
  unfold loadApplied, mstmt_run in H. destruct (mfault E MReadApplied); [by destruct H|].
  destruct (existsb (drifted (done_of db)) ms) eqn:Hd; [by destruct H|].
  destruct (existsb _ ms) eqn:Hp in H; [by destruct H|]. intros m Hm. rewrite existsb_false in Hd, Hp.
  specialize (Hp m Hm). apply negb_false_iff, bool_decide_eq_true in Hp as [a Ha]. exists a. split; [done|].
  specialize (Hd m Hm). rewrite drifted_false in Hd. by apply Hd.
Qed.

Lemma serverOptions_flag args : allowUnkeyed (serverOptions args).2 = true <-> allow_unkeyed_flag ∈ args.
Proof.
  unfold serverOptions. cbn [snd allowUnkeyed]. rewrite bool_decide_eq_true. split.
  - destruct (filter _ args) as [|x l] eqn:Hf; [done|]. intros _.
    assert (x ∈ filter (fun a => a = allow_unkeyed_flag) args) as Hx by (rewrite Hf; by left).
    by apply list_elem_of_filter in Hx as [-> Hx].
  - intros Hin Hnil. assert (allow_unkeyed_flag ∈ filter (fun a => a = allow_unkeyed_flag) args) as Hx by by apply list_elem_of_filter.
    rewrite Hnil in Hx. by apply not_elem_of_nil in Hx.
Qed.

(** [giro serve] says what it said, changes nothing, and only listens past the
    check. *)
Lemma each_says {State A} (f : A -> line) i (l : list A) (C : State) :
  each (fun _ x => say (f x)) i l C = (f <$> l, Ok tt, C).
Proof.
  revert i. induction l as [|x l IH]; intros i; [done|]. cbn [each]. unfold chain. cbn. by rewrite IH.
Qed.

Lemma checkSchema_quiet S E (db : Db) :
  exists out r, checkSchema embedded S E db = (out, r, db) /\ (out = [] \/ out = [SchemaAhead]) /\
    (r = Ok tt -> acquire S = None /\ (RequireUpToDate E embedded db = None \/ RequireUpToDate E embedded db = Some ErrSchemaAhead)).
Proof.
  unfold checkSchema, chain, may_fail. destruct (acquire S); [by eexists _, _; split_and!; [done|left|]|]. cbn.
  destruct (RequireUpToDate E embedded db) as [[]|]; (eexists _, _; split_and!; [done|by (left + right)|]); auto; try done.
Qed.

Lemma checkSchema_exit S E (db : Db) out e db' : checkSchema embedded S E db = (out, Err e, db') -> exit_code (Err e) = 1.
Proof.
  unfold checkSchema, chain, may_fail. destruct (acquire S); [by intros [= _ <- _]|]. cbn.
  destruct (RequireUpToDate E embedded db) as [[]|]; by intros [= _ <- _].
Qed.

(** Stopped before anything is printed. *)
Local Ltac stopped :=
  cbn; split; [reflexivity|]; left; eexists; split_and!; [reflexivity|reflexivity|]; intros ? ?; apply not_elem_of_nil.

(** The whole of a start: what stops it, in order, or what it serves. *)
Lemma serveCommand_cases Sh S E args (db : Db) :
  let '(out, r, db') := serveCommand embedded Sh S E args db in
  db' = db /\
  match serve_addr args with
  | Err u => out = [] /\ r = Err (UsageErr u)
  | Ok addr =>
      (exists e, r = Err e /\ exit_code r = 1 /\ forall a v, Listening a v ∉ out) \/
      (database_url Sh <> EmptyString /\ parse_config S = None /\ connects Sh = None /\ ping S = None /\
       acquire S = None /\ (RequireUpToDate E embedded db = None \/ RequireUpToDate E embedded db = Some ErrSchemaAhead) /\
       exists before after, out = before ++ Listening addr (serverOptions args).2 :: after /\
         (forall a v, Listening a v ∉ before ++ after) /\ exit_code r <> 2)
  end.
Proof.
  unfold serveCommand. destruct (serve_addr args) as [addr|u]; [|by split].
  destruct (checkSchema_quiet S E db) as (o & r & Hc & Ho & Hok).
  assert (forall a v, Listening a v ∉ o) as Hno by (intros a v; destruct Ho as [-> | ->]; set_solver).
  unfold chain at 1, require. destruct (bool_decide_reflect (database_url Sh = EmptyString)) as [Hu|Hu]; [by stopped|].
  cbn. unfold chain at 1, may_fail at 1. destruct (parse_config S); [by stopped|].
  cbn. unfold chain at 1, may_fail at 1. destruct (connects Sh); [by stopped|].
  cbn. unfold chain at 1, may_fail at 1. destruct (ping S); [by stopped|].
  cbn. unfold chain at 1. rewrite Hc. destruct r as [[]|e].
  2:{ split; [done|]. left. exists e. split_and!; [done| |done]. apply checkSchema_exit in Hc. done. }
  destruct (Hok eq_refl) as [Ha Hs].
  set (notes := (fun _ => UnkeyedNote) <$> filter (fun a => a = allow_unkeyed_flag) args).
  assert (forall a v, Listening a v ∉ notes) as Hn by (intros a v (x & ? & _)%list_elem_of_fmap; done).
  set (w := match owner S with Some user => [Privileged user] | None => [] end).
  assert (forall a v, Listening a v ∉ w) as Hw by (intros a v; unfold w; destruct (owner S); set_solver).
  assert (warnIfPrivileged S db = (w, Ok tt, db)) as Hwarn by (unfold warnIfPrivileged, w; by destruct (owner S)).
  unfold chain at 1. rewrite Hwarn. unfold chain at 1. cbn [say]. unfold chain at 1. rewrite (each_says (fun x => x)), list_fmap_id. fold notes.
  unfold chain at 1. cbn [say]. unfold chain at 1, may_fail. 
  destruct (listen S) as [m|]; cbn; (split; [done|]; right; split_and!; [done..|]).
  - exists (o ++ w ++ NoAuthNote :: notes), []. split_and!; [by rewrite <-!app_assoc| |done].
    intros a v. rewrite app_nil_r. set_solver.
  - exists (o ++ w ++ NoAuthNote :: notes), [Stopped]. split_and!; [by rewrite <-!app_assoc| |done].
    intros a v. set_solver.
Qed.

(** A process given its arguments right, on a database that lets it in. *)
Definition admitted (Sh : Shell) (S : ServeEnv) (args : list string) : Prop :=
  database_url Sh <> EmptyString /\ parse_config S = None /\ connects Sh = None /\ ping S = None /\ acquire S = None /\
  is_ok (serve_addr args) = true.

Lemma serve_admits Sh S E args (db : Db) :
  admitted Sh S args -> RequireUpToDate E embedded db = None ->
  exists addr, serve_addr args = Ok addr /\ Listening addr (serverOptions args).2 ∈ (serveCommand embedded Sh S E args db).1.1.
Proof.
  intros (Hu & Hp & Hc & Hpi & Ha & Hargs) Hr. unfold serveCommand. destruct (serve_addr args) as [addr|u]; [|done].
  exists addr. split; [done|]. unfold chain, require, may_fail, checkSchema, chain, may_fail. rewrite (bool_decide_false _ Hu), Hp, Hc, Hpi, Ha.
  cbn. rewrite Hr. cbn. unfold warnIfPrivileged. destruct (owner S); cbn; rewrite (each_says (fun x => x)), list_fmap_id; destruct (listen S); cbn; set_solver.
Qed.

(** C37: [giro serve] and the schema. It changes no schema; it listens only on a
    database where every migration it carries is recorded, with the checksum it
    carries it under -- newer ones it only warns of -- at the address it was
    given, admitting unkeyed writes exactly when it was told to; and exit 2 means
    the arguments. After [giro migrate up] exits 0 it does come up, wherever the
    database lets it in. *)
Theorem serve_listens_on_its_schema (Sh : Shell) (S : ServeEnv) (E : RunnerEnv) (args : list string) (db : Db) :
  let '(out, r, db') := serveCommand embedded Sh S E args db in
  db' = db /\
  (forall addr srv, Listening addr srv ∈ out ->
     schema_current db /\ serve_addr args = Ok addr /\ (allowUnkeyed srv = true <-> allow_unkeyed_flag ∈ args)) /\
  (exit_code r = 2 -> is_ok (serve_addr args) = false) /\
  (forall E0 K db0 out0, migrateCommand run_sql run_sql_alone embedded Sh E0 K ["up"] db0 = (out0, Ok tt, db) -> working E -> admitted Sh S args ->
     exists addr srv, Listening addr srv ∈ out).
Proof.
  pose proof (serveCommand_cases Sh S E args db) as H. pose proof (serve_admits Sh S E args db) as Hadm.
  destruct (serveCommand embedded Sh S E args db) as [[out r] db'] eqn:Hrun. cbn [fst] in Hadm. destruct H as [-> H].
  split; [done|]. split; [|split].
  - intros addr srv Hin. destruct (serve_addr args) as [a|u].
    + destruct H as [(e & _ & _ & Hno)|(_ & _ & _ & _ & _ & Hs & before & after & -> & Hno & _)]; [by destruct (Hno _ _ Hin)|].
      split; [by eapply not_refused_current|]. rewrite elem_of_app, elem_of_cons in Hin. specialize (Hno addr srv).
      rewrite elem_of_app in Hno. assert (Listening addr srv = Listening a (serverOptions args).2) as [= -> ->] by tauto.
      split; [done|]. apply serverOptions_flag.
    + destruct H as [-> _]. by apply not_elem_of_nil in Hin.
  - intros Hr. destruct (serve_addr args) as [a|u]; [|done].
    destruct H as [(e & -> & Hc & _)|(_ & _ & _ & _ & _ & _ & before & after & _ & _ & Hne)]; [congruence|done].
  - intros E0 K db0 out0 Hm HE Hadmit. unfold migrateCommand in Hm. rewrite bool_decide_true in Hm by done.
    unfold withConn in Hm. apply (checked_Ok _ _ _ _ _ _ _ (checked_contact db0 Sh)) in Hm as ([] & o1 & _ & Hm).
    unfold migrateUp in Hm. destruct (Run run_sql run_sql_alone E0 embedded db0) as [[n errs] db1] eqn:Hr.
    destruct errs as [|x errs]; [|done]. assert (db1 = db) as -> by (destruct (n =? 0)%nat; by injection Hm as _ <-).
    destruct (migrated_up_to_date run_sql run_sql_alone E0 E embedded db0 n db Hr HE) as (Hreq & _).
    destruct (Hadm Hadmit Hreq) as (addr & _ & Hin). by eexists _, _.
Qed.

End serving.

(** ** At a concrete binary *)

Definition welcoming : ServeEnv :=
  {| parse_config := None; ping := None; acquire := None; owner := Some "owner"; listen := None |}.

Definition calm_shell : Shell :=
  {| database_url := "postgres://"; connects := None; query_fault := fun _ => None; weather := Sample.calm |}.

Definition empty_disk : Disk := {| exists_on := fun _ => false; writable := true; disk_now := 0 |}.

Definition up (db : Db (World := list string)) : list line * res cmd_error unit * Db (World := list string) :=
  migrateCommand sample_sql (sample_sql_alone false) sample_files calm_shell sample_runner empty_disk ["up"] db.

Definition serve_with (files : option (list Entry)) (args : list string) (db : Db (World := list string))
    : list line * res cmd_error unit :=
  (serveCommand files calm_shell welcoming sample_runner args db).1.

Example boots :
  (up fresh_db).1 = ([MigrationsApplied 2], Ok tt) /\ (up (up fresh_db).2).1 = ([UpToDate], Ok tt) /\
  serve_with sample_files [] fresh_db = ([], Err (SchemaErr ErrPending)) /\
  serve_with sample_files ["--allow-unkeyed-writes"; ":9090"] (up fresh_db).2 =
    ([Privileged "owner"; NoAuthNote; UnkeyedNote; Listening ":9090" {| allowUnkeyed := true |}; Stopped], Ok tt) /\
  serve_with (Some []) [] (up fresh_db).2 =
    ([SchemaAhead; Privileged "owner"; NoAuthNote; Listening ":8080" {| allowUnkeyed := false |}; Stopped], Ok tt) /\
  serve_with sample_files ["-v"] fresh_db = ([], Err (UsageErr (UnknownFlag "-v"))).
Proof. vm_compute. done. Qed.

Lemma serve_listens_on_its_schema_witness :
  exists addr srv, Listening addr srv ∈ (serveCommand sample_files calm_shell welcoming sample_runner [":9090"] (up fresh_db).2).1.1.
Proof.
  pose proof (serve_listens_on_its_schema sample_sql (sample_sql_alone false) sample_files calm_shell welcoming sample_runner
                [":9090"] (up fresh_db).2) as H.
  assert (admitted calm_shell welcoming [":9090"]) as Ha by (split_and!; [discriminate|reflexivity..]).
  assert (up fresh_db = ((up fresh_db).1.1, Ok tt, (up fresh_db).2)) as Hup by (vm_compute; reflexivity).
  destruct (serveCommand sample_files calm_shell welcoming sample_runner [":9090"] (up fresh_db).2) as [[out r] db'].
  exact (proj2 (proj2 (proj2 H)) sample_runner empty_disk fresh_db _ Hup
           (Build_working sample_runner (fun _ => eq_refl) eq_refl eq_refl) Ha).
Defined.
