(* ===== verification/Telemetry.v ===== *)
(** * Telemetry

    Package obs ([obs/otel.go], [obs/catalogue.go]): what an observer records of
    what the engine reports, as samples of named instruments under labels and as
    events on the span of the request; how a span of the engine ends; and how
    many time series that makes, of stores that commit and of ledgers whose
    registries grow: for that, which assets the events of a commit name. OpenTelemetry is what receives them. *)

From Stdlib Require Import SpecFloat.
From S2P Require Import Prelude Identifiers Text Posting Volumes Sha256 GoTime Transaction Codec Encoding Errors Schema Txn Locking Guards Moves Log Observer Commit Committed Sample CommitSpec Tracing Registry Triggers.

(** What [storage.Observer] is told: a commit, a refusal, a wait for locks or a
    restart. Durations are in nanoseconds. *)
Inductive observation :=
| OCommitted (assets : list Asset) (postings accounts attempts : Z) (took : Z) (addresses : list Address)
| ORefused (reason : RefusalCause) (asset : Asset) (account : Address)
| OContended (waited attempt : Z) (restarted : bool) (accounts : list Address).

Definition cause_text (c : RefusalCause) : string :=
  match c with
  | CauseInsufficientFunds => "insufficient_funds"
  | CauseUnexpectedCredit => "unexpected_credit"
  | CauseAccountClosed => "account_closed"
  | CauseUnknownAsset => "unknown_asset"
  | CauseUnboundedSweep => "unbounded_sweep"
  | CauseInvalidPosting => "invalid_posting"
  | CauseContentionGiveUp => "contention_exhausted"
  | CauseOther => "other"
  end.

(** ** Durations

    [Duration.Seconds]: the whole seconds and the rest, in float64. *)
Definition float64 (z : Z) : spec_float := binary_normalize 53 1024 z 0 false.

Definition Seconds (d : Z) : spec_float :=
  SFadd 53 1024 (float64 (Z.quot d 1000000000)) (SFdiv 53 1024 (float64 (Z.rem d 1000000000)) (float64 1000000000)).

(** What an instrument records. *)
Inductive reading := RInt (n : Z) | RFloat (x : spec_float).

(** ** Instruments *)

(** A time series: an instrument under one choice of labels. *)
Record series := { instrument : string; labels : list (string * string) }.

#[export] Instance series_eq_dec : EqDecision series.
Proof. solve_decision. Defined.

Definition ledger_label : string := "giro.ledger".
Definition asset_label : string := "giro.asset".
Definition reason_label : string := "giro.reason".

Definition at_ledger (name l : string) : series := {| instrument := name; labels := [(ledger_label, l)] |}.

(** [assetAttr] *)
Definition assetAttr (a : Asset) : string * string := (asset_label, a).

Definition Committed (l : string) (assets : list Asset) (postings attempts took : Z) : list (series * reading) :=
  ((fun a => ({| instrument := "giro.transactions"; labels := [(ledger_label, l); assetAttr a] |}, RInt 1)) <$> assets)
  ++ [(at_ledger "giro.commit.duration" l, RFloat (Seconds took)); (at_ledger "giro.commit.attempts" l, RInt attempts);
      (at_ledger "giro.postings" l, RInt postings)].

Definition Refused (l : string) (reason : RefusalCause) (asset : Asset) : list (series * reading) :=
  [({| instrument := "giro.refusals";
       labels := [(ledger_label, l); (reason_label, cause_text reason)]
                 ++ (if bool_decide (asset = EmptyString) then [] else [assetAttr asset]) |}, RInt 1)].

Definition Contended (l : string) (waited : Z) (restarted : bool) : list (series * reading) :=
  if restarted then [(at_ledger "giro.commit.restarts" l, RInt 1)] else [(at_ledger "giro.lock.wait" l, RFloat (Seconds waited))].

(** The samples of one observation of ledger [l]. *)
Definition samples (l : string) (o : observation) : list (series * reading) :=
  match o with
  | OCommitted assets postings _ attempts took _ => Committed l assets postings attempts took
  | ORefused reason asset _ => Refused l reason asset
  | OContended waited _ restarted _ => Contended l waited restarted
  end.

(** ** Spans *)

Inductive attribute := AText (k v : string) | AInt (k : string) (v : Z) | AFloat (k : string) (v : spec_float) | ATexts (k : string) (v : list string).

(** The event added to the span of the request, when one is recording. *)
Definition span_event (slow_lock : Z) (l : string) (o : observation) : option (string * list attribute) :=
  match o with
  | OCommitted _ postings accounts attempts _ addresses =>
      Some ("giro.committed", [AText ledger_label l; AInt "giro.postings" postings; AInt "giro.accounts" accounts;
                               AInt "giro.attempts" attempts; ATexts "giro.addresses" addresses])
  | ORefused reason asset account =>
      Some ("giro.refused", [AText ledger_label l; AText reason_label (cause_text reason)]
              ++ (if bool_decide (asset = EmptyString) then [] else [AText asset_label asset])
              ++ (if bool_decide (account = EmptyString) then [] else [AText "giro.account" account]))
  | OContended waited attempt true _ => Some ("giro.restarted", [AText ledger_label l; AInt "giro.attempt" attempt])
  | OContended waited _ false accounts =>
      if (0 <? slow_lock) && (slow_lock <=? waited)
      then Some ("giro.lock.slow", [AText ledger_label l; AFloat "giro.waited_seconds" (Seconds waited); ATexts "giro.accounts" accounts])
      else None
  end.

(** How a span opened by [Start] ends. *)
Inductive span_end := SpanUnset | SpanRefused (reason : RefusalCause) | SpanError (e : error).

Definition end_span (e : option error) : span_end :=
  match e with
  | None => SpanUnset
  | Some err => match CauseOf e with
                | Some cause => SpanRefused cause
                | None => SpanError err
                end
  end.

(** ** The catalogue *)

Record Metric := { MetricName : string; Kind : string; MetricUnit : string; MetricLabels : list string }.

Definition Metrics : list Metric :=
  [ {| MetricName := "giro.transactions"; Kind := "counter"; MetricUnit := "{transaction}"; MetricLabels := [ledger_label; asset_label] |};
    {| MetricName := "giro.refusals"; Kind := "counter"; MetricUnit := "{transaction}"; MetricLabels := [ledger_label; asset_label; reason_label] |};
    {| MetricName := "giro.commit.duration"; Kind := "histogram"; MetricUnit := "s"; MetricLabels := [ledger_label] |};
    {| MetricName := "giro.lock.wait"; Kind := "histogram"; MetricUnit := "s"; MetricLabels := [ledger_label] |};
    {| MetricName := "giro.commit.attempts"; Kind := "histogram"; MetricUnit := "{attempt}"; MetricLabels := [ledger_label] |};
    {| MetricName := "giro.commit.restarts"; Kind := "counter"; MetricUnit := "{restart}"; MetricLabels := [ledger_label] |};
    {| MetricName := "giro.postings"; Kind := "histogram"; MetricUnit := "{posting}"; MetricLabels := [ledger_label] |} ].

Definition label_values (ledgers assets : Z) (l : string) : Z :=
  if bool_decide (l = ledger_label) then ledgers
  else if bool_decide (l = asset_label) then assets
  else if bool_decide (l = reason_label) then Z.of_nat (length RefusalCauses)
  else 1.

(** Of numbers of ledgers and assets too small for an [int] to wrap. *)
Definition Cardinality (ledgers assets : Z) : Z :=
  foldl (fun total m => total + foldl (fun series l => series * label_values ledgers assets l) 1 (MetricLabels m)) 0 Metrics.

Lemma cardinality_formula ledgers assets :
  Cardinality ledgers assets = ledgers * assets + ledgers * assets * 8 + 5 * ledgers.
Proof.
  unfold Cardinality. cbn [foldl Metrics MetricLabels].
  change (label_values ledgers assets ledger_label) with ledgers. change (label_values ledgers assets asset_label) with assets.
  change (label_values ledgers assets reason_label) with 8. lia.
Qed.

(** ** What it costs *)

(** The series there can be, over these ledgers and asset labels. *)
Definition transactions_series (Ls As : list string) : list series :=
  l ← Ls; (fun a => {| instrument := "giro.transactions"; labels := [(ledger_label, l); assetAttr a] |}) <$> As.

Definition refusal_series (Ls As : list string) : list series :=
  l ← Ls; c ← RefusalCauses; (fun a => {| instrument := "giro.refusals";
    labels := [(ledger_label, l); (reason_label, cause_text c)] ++ (if bool_decide (a = EmptyString) then [] else [assetAttr a]) |})
    <$> EmptyString :: As.

Definition ledger_series (Ls : list string) : list series :=
  l ← Ls; (fun n => at_ledger n l) <$>
    ["giro.commit.duration"; "giro.commit.attempts"; "giro.postings"; "giro.commit.restarts"; "giro.lock.wait"].

Definition all_series (Ls As : list string) : list series :=
  transactions_series Ls As ++ refusal_series Ls As ++ ledger_series Ls.

(** The asset labels of an observation. *)
Definition observed_assets (o : observation) : list Asset :=
  match o with
  | OCommitted assets _ _ _ _ _ => assets
  | ORefused _ asset _ => if bool_decide (asset = EmptyString) then [] else [asset]
  | OContended _ _ _ _ => []
  end.

Lemma length_mbind {A B} (f : A -> list B) n (l : list A) : (forall x, length (f x) = n) -> length (l ≫= f) = (length l * n)%nat.
Proof. intros Hf. induction l as [|x l IH]; [done|]. cbn. by rewrite length_app, Hf, <-IH. Qed.

Lemma all_series_length Ls As :
  Z.of_nat (length (all_series Ls As)) = Cardinality (Z.of_nat (length Ls)) (Z.of_nat (length As)) + 8 * Z.of_nat (length Ls).
Proof.
  unfold all_series, transactions_series, refusal_series, ledger_series. rewrite !length_app.
  rewrite (length_mbind _ (length As)) by (intros; by rewrite length_fmap).
  rewrite (length_mbind _ (8 * S (length As))) by (intros; rewrite (length_mbind _ (S (length As))) by (intros; by rewrite length_fmap); done).
  rewrite (length_mbind _ 5) by done. rewrite cardinality_formula. lia.
Qed.

Lemma samples_listed (Ls As : list string) l o s v :
  l ∈ Ls -> observed_assets o ⊆ As -> (s, v) ∈ samples l o -> s ∈ all_series Ls As.
Proof.
  intros Hl Ha Hs. unfold all_series. rewrite !elem_of_app. destruct o as [assets postings accounts attempts took addresses|reason asset account|waited attempt restarted accounts];
    cbn [samples observed_assets] in *.
  - unfold Committed in Hs. rewrite elem_of_app in Hs. destruct Hs as [(a & [= -> ->] & Hin)%list_elem_of_fmap|Hs].
    + left. apply list_elem_of_bind. exists l. split; [|done]. apply list_elem_of_fmap. exists a. split; [done|]. by apply Ha.
    + right; right. apply list_elem_of_bind. exists l. split; [|done]. apply list_elem_of_fmap.
      rewrite !elem_of_cons in Hs. destruct Hs as [[= -> ->]|[[= -> ->]|[[= -> ->]|Hs%not_elem_of_nil]]]; [..|done];
        eexists; (split; [reflexivity|]); set_solver.
  - right; left. unfold Refused in Hs. apply list_elem_of_singleton in Hs as [= -> ->]. apply list_elem_of_bind. exists l. split; [|done].
    apply list_elem_of_bind. exists reason. split; [|destruct reason; unfold RefusalCauses; set_solver].
    apply list_elem_of_fmap. exists asset. split; [done|]. case_bool_decide as He; [by rewrite He; left|]. right. apply Ha. by left.
  - right; right. apply list_elem_of_bind. exists l. split; [|done]. apply list_elem_of_fmap.
    unfold Contended in Hs. destruct restarted; apply list_elem_of_singleton in Hs as [= -> ->]; eexists; (split; [reflexivity|]); set_solver.
Qed.

(** Each is in the catalogue, and says which ledger, asset and reason. *)
Lemma all_series_catalogued Ls As s :
  s ∈ all_series Ls As ->
  (exists m, m ∈ Metrics /\ instrument s = MetricName m /\ (labels s).*1 ⊆ MetricLabels m) /\
  (labels s).*2 ⊆ Ls ++ As ++ (cause_text <$> RefusalCauses).
Proof.
  unfold all_series. rewrite !elem_of_app. intros [Hs|[Hs|Hs]]; apply list_elem_of_bind in Hs as (l & Hs & Hl).
  - apply list_elem_of_fmap in Hs as (a & -> & Ha). split; [|set_solver].
    eexists. split; [by left|]. split; [done|]. set_solver.
  - apply list_elem_of_bind in Hs as (c & Hs & Hc). apply list_elem_of_fmap in Hs as (a & -> & Ha).
    assert (cause_text c ∈ cause_text <$> RefusalCauses) as Hct by by apply list_elem_of_fmap_2. split.
    + eexists. split; [by right; left|]. split; [done|]. intros k Hk. cbn in Hk |- *. case_bool_decide; cbn in Hk;
        rewrite !elem_of_cons in Hk; rewrite !elem_of_cons; tauto.
    + intros v Hv. cbn in Hv. rewrite !elem_of_app. apply elem_of_cons in Ha. case_bool_decide as He; cbn in Hv;
        rewrite !elem_of_cons in Hv; destruct Hv as [->|[->|Hv]]; [tauto|tauto|by apply not_elem_of_nil in Hv|tauto|tauto|].
      destruct Hv as [->|Hv%not_elem_of_nil]; tauto.
  - apply list_elem_of_fmap in Hs as (n & -> & Hn). split; [|set_solver].
    rewrite !elem_of_cons in Hn. destruct Hn as [->|[->|[->|[->|[->|Hn%not_elem_of_nil]]]]]; [..|done].
    + eexists. split; [by do 2 right; left|by split].
    + eexists. split; [by do 4 right; left|by split].
    + eexists. split; [by do 6 right; left|by split].
    + eexists. split; [by do 5 right; left|by split].
    + eexists. split; [by do 3 right; left|by split].
Qed.

(** The series a history of observations makes. *)
Definition made (history : list (string * observation)) : list series :=
  remove_dups (lo ← history; (samples lo.1 lo.2).*1).

(** ** What the reports of a commit name

    Of the events a commit reports, which assets are in them: those of a commit
    and of every refusal under the locks are assets of the request that passed
    [checkAssets], hence registered; only a refusal of an unknown asset names
    another. First, the errors that name none. *)

Definition unlabelled (e : error) : Prop := assetOf e = EmptyString.

(** Every way [m] fails is [P]. *)
Definition fails_as {A} (P : error -> Prop) (m : Txn A) : Prop := forall f d e, m f d = Err e -> P e.

Section fails.
Context (P : error -> Prop) (Hpg : forall code, P (PgError code)).

Lemma fails_bind {A B} (m : Txn A) (k : A -> Txn B) :
  fails_as P m -> (forall f d a d', m f d = Ok (a, d') -> fails_as P (k a)) -> fails_as P (bind m k).
Proof.
  intros Hm Hk f d e H. unfold bind in H. apply rbind_Err in H as [H|([a d'] & Ha & H)]; [by eapply Hm|].
  by eapply Hk.
Qed.

Lemma fails_then {A B} (m : Txn A) (k : A -> Txn B) :
  fails_as P m -> (forall a, fails_as P (k a)) -> fails_as P (bind m k).
Proof. intros Hm Hk. by apply fails_bind. Qed.

Lemma fails_ret {A} (a : A) : fails_as P (ret a).
Proof. by intros f d e H. Qed.

Lemma fails_lift {A} (m : res error A) : (forall e, m = Err e -> P e) -> fails_as P (lift m).
Proof. intros Hm f d e H. unfold lift in H. apply rbind_Err in H as [H|(a & _ & [=])]. by apply Hm. Qed.

Lemma fails_stmt {A} s (run : Database -> res error (A * Database)) :
  (forall d e, run d = Err e -> P e) -> fails_as P (stmt s run).
Proof. intros Hr f d e H. unfold stmt in H. destruct (f s); [by simplify_eq|]. by eapply Hr. Qed.

Lemma fails_exec s run : (forall d e, run d = Err e -> P e) -> fails_as P (exec s run).
Proof.
  intros Hr. apply fails_stmt. intros d e H. apply rbind_Err in H as [H|(a & _ & [=])]. by eapply Hr.
Qed.

Lemma fails_query {A} s (read : Database -> A) : fails_as P (query s read).
Proof. by apply fails_stmt. Qed.

Lemma fails_map_err {A} g (m : Txn A) : fails_as P m -> (forall e, P e -> P (g e)) -> fails_as P (map_err g m).
Proof. intros Hm Hg f d e H. unfold map_err in H. destruct (m f d) as [x|e'] eqn:Hx; simplify_eq. by eapply Hg, Hm. Qed.

End fails.

Lemma when_Err {E} b (e e' : E) : when b e = Err e' -> e' = e.
Proof. unfold when. destruct b; naive_solver. Qed.

(** A statement's own failures name no asset, by cases on what it checks. *)
Ltac unlabelled :=
  repeat match goal with
  | H : rbind _ _ = Err _ |- _ => apply rbind_Err in H as [H|(? & ? & H)]
  | H : when _ _ = Err _ |- _ => apply when_Err in H; subst
  | H : Ok _ = Err _ |- _ => discriminate H
  | H : Err _ = Err _ |- _ => injection H as <-
  | _ => case_match
  end; try done.

(** ** The statements of a commit *)

Lemma unlabelled_monotonic old new e : volumes_monotonic old new = Err e -> unlabelled e.
Proof. unfold volumes_monotonic. intros H. unlabelled. Qed.

Lemma unlabelled_overdraw old new e : no_unpermitted_overdraw old new = Err e -> unlabelled e.
Proof. unfold no_unpermitted_overdraw. intros H. unlabelled. Qed.

Lemma unlabelled_zero_rows ks d e : insert_zero_rows ks d = Err e -> unlabelled e.
Proof.
  revert d. induction ks as [|k ks IH]; intros d; cbn [insert_zero_rows]; [done|].
  intros [H|(d1 & _ & H)]%rbind_Err; [|by eapply IH]. destruct (volumes d !! k); [done|].
  unfold insert_volume in H. apply rbind_Err in H as [H|(u & _ & H)]; [by eapply unlabelled_overdraw|]. unlabelled.
Qed.

Lemma unlabelled_apply_update u d e : apply_update u d = Err e -> unlabelled e.
Proof.
  unfold apply_update, update_volume. destruct (volumes d !! update_key u); [|by intros [= <-]].
  intros [H|(x1 & _ & [H|(x2 & _ & [=])]%rbind_Err)]%rbind_Err; [by eapply unlabelled_monotonic|by eapply unlabelled_overdraw].
Qed.

Lemma unlabelled_update_ledger l d e : update_ledger l d = Err e -> unlabelled e.
Proof. unfold update_ledger, counters_monotonic. intros H. unlabelled. Qed.

Lemma fails_lockVolumes us : fails_as unlabelled (lockVolumes us).
Proof.
  unfold lockVolumes. apply fails_then; [|intros _].
  { apply fails_exec; [done|]. intros d e. apply unlabelled_zero_rows. }
  apply fails_then; [by apply fails_query|]. intros rows. apply fails_then; [by apply fails_query|]. intros c. apply fails_ret.
Qed.

Lemma fails_applyVolumes us : fails_as unlabelled (applyVolumes us).
Proof.
  unfold applyVolumes. generalize 0%nat as i. induction us as [|u us IH]; intros i; simpl; [apply fails_ret|].
  apply fails_then; [|intros _; apply IH]. apply fails_exec; [done|]. intros d e. apply unlabelled_apply_update.
Qed.

Lemma fails_allocate : fails_as unlabelled allocate.
Proof.
  apply fails_stmt; [done|]. intros d e H. unfold allocate_row in H. destruct (ledger_row d); [|by simplify_eq].
  apply rbind_Err in H as [H|(u & _ & [H|(d' & _ & [=])]%rbind_Err)]; [unlabelled|]. by eapply unlabelled_update_ledger.
Qed.

Lemma fails_insertTransaction now t : fails_as unlabelled (insertTransaction now t).
Proof.
  unfold insertTransaction. apply fails_then; [|intros _; apply fails_ret]. apply fails_map_err.
  - apply fails_exec; [done|]. unfold stored_metadata, insert_transaction_row. intros d e H. unlabelled.
  - intros e He. unfold duplicate_reference. by destruct (is_unique_violation e).
Qed.

Lemma fails_run_batch i (batch : list write) :
  Forall (fun w : write => forall d e, w d = Err e -> unlabelled e) batch -> fails_as unlabelled (run_batch i batch).
Proof.
  intros Hb. revert i. induction Hb as [|w batch Hw _ IH]; intros i; simpl; [apply fails_ret|].
  apply fails_then; [|intros _; apply IH]. by apply fails_exec.
Qed.

Lemma queued_unlabelled t s q :
  Forall (fun w : write => forall d e, w d = Err e -> unlabelled e) (queued s) ->
  Forall (fun w : write => forall d e, w d = Err e -> unlabelled e) (queued (foldl (queue_posting t) s q)).
Proof.
  revert s. induction q as [|x q IH]; intros s Hs; [done|]. simpl. apply IH. simpl.
  rewrite !Forall_app, !Forall_singleton. unfold insert_move. split; [split; [done|]|]; intros d e H; unlabelled.
Qed.

Lemma fails_writes now ts t before eff us :
  fails_as unlabelled (run_batch 0 (queueAccounts us ts now ++ queueMoves t before eff us)).
Proof.
  apply fails_run_batch. unfold queueAccounts, queueMoves, queueLaterEffectiveShift. rewrite !Forall_app, !Forall_fmap. split; [|split].
  - by apply Forall_forall.
  - by apply queued_unlabelled.
  - by apply Forall_forall.
Qed.

Section codec.
Context {codec : Codec}.

Lemma fails_insertLog id r : fails_as unlabelled (insertLog id r).
Proof.
  apply fails_exec; [done|]. unfold insert_log_row, pg_varchar. intros d e [H|(d1 & _ & H)]%rbind_Err; [unlabelled|].
  destruct (ledger_row d1); [|done]. by eapply unlabelled_update_ledger.
Qed.

Lemma unlabelled_replay d k h e : check_replay d k h = Err e -> unlabelled e.
Proof. unfold check_replay. intros H. unlabelled. Qed.

Lemma fails_find s k h : fails_as unlabelled (findByIdempotencyKey s k h).
Proof.
  apply fails_stmt; [done|]. intros d e [H|(t & _ & [=])]%rbind_Err. by eapply unlabelled_replay.
Qed.

Lemma fails_append_or_race d0 t a k h : fails_as unlabelled (appendLog_or_race d0 t a k h).
Proof.
  intros f d e. unfold appendLog_or_race. destruct (appendLog t a k h f d) as [[u d1]|e0] eqn:Hl; [done|].
  assert (unlabelled e0) as H0.
  { unfold appendLog, appendLogEntry in Hl. destruct (marshal _); [|by injection Hl as <-]. by eapply fails_insertLog. }
  destruct (idempotencyRace f d0 k h e0) as [[t'|]|e1] eqn:Hr; intros; simplify_eq; [done|].
  unfold idempotencyRace in Hr. destruct (_ || _); [done|]. destruct (f SRaceBegin); [by simplify_eq|].
  destruct (findByIdempotencyKey SRaceFind k h f d0) as [[? ?]|e1] eqn:Hf; simplify_eq/=. by eapply fails_find.
Qed.

(** What an error under the locks names: nothing, or an asset of the request. *)
Definition names_asset_of (p : Postings) (e : error) : Prop := unlabelled e \/ assetOf e ∈ PAsset <$> p.

Lemma fails_weaken {A} (m : Txn A) p : fails_as unlabelled m -> fails_as (names_asset_of p) m.
Proof. intros Hm f d e H. left. by eapply Hm. Qed.

Lemma touched_asset p k : touched p k -> k.2 ∈ PAsset <$> p.
Proof. intros (x & Hx & [<-|<-]); exact (list_elem_of_fmap_2 PAsset p x Hx). Qed.

Lemma checkBalances_names before us e :
  checkBalances before us = Err e -> exists u, u ∈ us /\ assetOf e = UAsset u.
Proof.
  intros (l1 & u & l2 & -> & H & _)%checkBalances_Err. exists u. split; [set_solver|].
  unfold check_balance in H. by repeat case_match; simplify_eq.
Qed.

Lemma fails_applyTransaction now db_now p opts : fails_as (names_asset_of p) (applyTransaction now db_now p opts).
Proof.
  unfold applyTransaction. apply fails_bind.
  { apply fails_lift. intros e H. left. destruct (VolumeUpdates p); by simplify_eq/=. }
  intros f d us0 d' [Hu _]%lift_Ok. assert (VolumeUpdates p = Ok us0) as Hv by (by destruct (VolumeUpdates p); simplify_eq/=).
  apply fails_then; [apply fails_weaken, fails_lockVolumes|]. intros before. apply fails_bind.
  { apply fails_lift. intros e H. left. unfold resolve in H. destruct (HasUpTo p); [|done].
    apply rbind_Err in H as [H|(q & _ & [H|(us & _ & [=])]%rbind_Err)].
    - apply resolve_from_Err in H as (? & ? & ? & _ & _ & _ & ->). done.
    - destruct (VolumeUpdates q); by simplify_eq/=. }
  intros f1 d1 [q us] d2 [Hr _]%lift_Ok. destruct (resolve_Ok _ _ _ _ _ Hv Hr) as (Hus & Hto & _). cbn beta iota.
  apply fails_then; [apply fails_lift|intros _].
  { intros e (u & _ & _ & ->)%checkClosed_Err. by left. }
  apply fails_then; [apply fails_lift|intros _].
  { intros e (u & Hu' & Ha)%checkBalances_names. right. rewrite Ha. change (UAsset u) with (update_key u).2.
    apply touched_asset, Hto, (updates_touched _ _ Hus). by apply list_elem_of_fmap_2. }
  apply fails_weaken. apply fails_then; [apply fails_applyVolumes|intros _].
  apply fails_then; [by apply fails_query|]. intros eff. apply fails_then; [apply fails_allocate|]. intros a.
  apply fails_then; [apply fails_insertTransaction|]. intros t. apply fails_then; [apply fails_writes|intros _]. apply fails_ret.
Qed.

Lemma fails_commit_body E d0 p opts h :
  beforeCommit E = None -> fails_as (names_asset_of p) (commit_body E d0 p opts h).
Proof.
  intros Hs. unfold commit_body. rewrite Hs. apply fails_then; [apply fails_applyTransaction|]. intros [t a].
  apply fails_weaken. apply fails_then; [apply fails_append_or_race|]. intros [r|]; [apply fails_ret|].
  destruct (ODryRun opts); [apply fails_ret|]. apply fails_stmt; [done|].
  intros d e H. unfold giro_conservation in H. unlabelled.
Qed.

Lemma commitOnce_names E p opts h d e d' :
  beforeCommit E = None -> commitOnce E p opts h d = (Err e, d') -> names_asset_of p e.
Proof.
  intros Hs. unfold commitOnce, fast_path. destruct (fault E SBegin); [intros [= <- <-]; by left|].
  assert (forall e0 d0, transact (fault E) (commit_body E (landed E d) p opts h) (landed E d) = (Err e0, d0) -> names_asset_of p e0) as Hb.
  { intros e0 d0 H. unfold transact in H. destruct (commit_body _ _ _ _ _ _ _) as [[[]]|e1] eqn:Hc; simplify_eq.
    by eapply fails_commit_body. }
  case_bool_decide; [apply Hb|]. destruct (findByIdempotencyKey SFindKey _ h (fault E) d) as [[[t|] ?]|e0] eqn:Hf; simpl;
    [done|apply Hb|]. intros [= <- <-]. left. by eapply fails_find.
Qed.

(** ** What is reported *)

(** No test seam is set before COMMIT, as in every build but the tests'. *)
Definition seamless (W : Weather) : Prop := forall n, beforeCommit (attempt_env W n) = None.

(** The assets of an event are registered; a refusal of an unknown asset is free. *)
Definition names_registered (d : Database) (e : event) : Prop :=
  match e with
  | Committed_event assets _ _ _ _ => Forall (fun a => registered d a = true) assets
  | Refused_event CauseUnknownAsset _ _ | Contended_event _ => True
  | Refused_event _ a _ => a = EmptyString \/ registered d a = true
  end.

(** A store that is listened to and remembers only what is registered. *)
Record listened (s : Store) : Prop := {
  li_observing : observing s = true;
  li_cache : forall a, a ∈ seen_assets s -> registered (db s) a = true;
}.

Lemma admitted_registered d d' a : admitted d d' -> registered d a = true -> registered d' a = true.
Proof. rewrite !registered_is_Some. intros H [x Hx]. exists x. by apply (adm_assets _ _ H). Qed.

Lemma listened_later s s' :
  listened s -> observing s' = observing s -> seen_assets s' = seen_assets s -> admitted (db s) (db s') -> listened s'.
Proof.
  intros [Ho Hc] Ho' Hs' Ha. split; [congruence|]. rewrite Hs'. intros a Hin. by eapply admitted_registered, Hc.
Qed.

Definition all_registered (d : Database) (p : Postings) : Prop := forall a, a ∈ PAsset <$> p -> registered d a = true.

Lemma refusal_named d p e :
  all_registered d p -> names_asset_of p e -> Forall (names_registered d) (refusal_events e).
Proof.
  intros Hp Hn. unfold refusal_events. destruct (CauseOf (Some e)) as [c|]; [|constructor]. apply Forall_singleton.
  assert (assetOf e = EmptyString \/ registered d (assetOf e) = true) as Ha by (destruct Hn as [Hn|Hn]; auto). by destruct c.
Qed.

Lemma committed_named d p n : all_registered d p -> names_registered d (observeCommitted p n).
Proof. intros Hp. apply Forall_forall. intros a Ha%first_seen_spec. apply Hp, Ha. Qed.

Lemma attempts_report W fuel n p opts h s r s' :
  guarded W -> seamless W -> observing s = true -> all_registered (db s) p ->
  commit_attempts W fuel n p opts h s = (r, s') ->
  observing s' = observing s /\ seen_assets s' = seen_assets s /\
  exists es, events s' = events s ++ es /\ Forall (names_registered (db s')) es.
Proof.
  intros HW Hsm. revert n s. induction fuel as [|fuel IH]; intros n s Ho Hp; cbn [commit_attempts].
  { intros [= <- <-]. simpl. rewrite Ho. split_and!; [done..|]. eexists. split; [done|]. apply Forall_singleton. by left. }
  destruct (commitOnce (attempt_env W n) p opts h (db s)) as [r1 d1] eqn:Hc.
  assert (all_registered d1 p) as Hp1.
  { intros a Ha. eapply admitted_registered; [by eapply commitOnce_admitted|by apply Hp]. }
  destruct r1 as [t|e].
  { intros [= <- <-]. simpl. rewrite Ho. split_and!; [done..|]. eexists. split; [done|]. by apply Forall_singleton, committed_named. }
  apply commitOnce_names in Hc; [|apply Hsm]. destruct (retryable e).
  2:{ intros [= <- <-]. simpl. rewrite Ho. split_and!; [done..|]. eexists. split; [done|]. by apply (refusal_named _ p). }
  destruct (cancelled W n).
  { intros [= <- <-]. simpl. rewrite Ho. split_and!; [done..|]. eexists. split; [done|]. by apply Forall_singleton. }
  intros H. apply IH in H as (Ho' & Hs' & es & He & Hes); [|done|done]. simpl in *. rewrite Ho in He.
  split_and!; [done..|]. exists ([Contended_event n] ++ es). rewrite He, <-app_assoc. split; [done|]. by constructor.
Qed.

Lemma checkAssets_Ok_registered f p s u s' :
  checkAssets f p s = (Ok u, s') -> listened s -> listened s' /\ all_registered (db s') p.
Proof.
  intros H [Ho Hc]. unfold checkAssets in H.
  assert (forall a, a ∈ PAsset <$> p -> a ∈ seen_assets s \/ a ∈ unknown_assets (seen_assets s) p) as Hall.
  { intros a Ha. destruct (decide (a ∈ seen_assets s)); [by left|right]. apply list_elem_of_filter. split; [done|].
    by apply first_seen_spec. }
  destruct (bool_decide (unknown_assets (seen_assets s) p = [])) eqn:Hn; cbn [andb] in H.
  - apply bool_decide_eq_true in Hn. rewrite Hn in *.
    assert (all_registered (db s) p) as Hp by (intros a [Ha|Ha%not_elem_of_nil]%Hall; [by apply Hc|done]).
    destruct (ledgerSeen s); [by simplify_eq|]. repeat case_match; simplify_eq/=; try done.
    split; [|done]. split; [done|]. simpl. intros a Ha. apply Hc. set_solver.
  - destruct (f SCheckAssets); [done|]. destruct (ledger_row (db s)); [|done].
    destruct (find _ _) as [a|] eqn:Hf; [done|]. simplify_eq/=.
    assert (forall a, a ∈ unknown_assets (seen_assets s) p -> registered (db s) a = true) as Hk.
    { intros a Ha. apply list_elem_of_In in Ha. apply (find_none _ _ Hf) in Ha. by apply negb_false_iff in Ha. }
    split; [split; [done|]|].
    + simpl. intros a. rewrite elem_of_union, elem_of_list_to_set. intros [Ha|Ha]; auto.
    + intros a [Ha|Ha]%Hall; simpl; auto.
Qed.

Lemma checkAssets_Err_named f p s e s' :
  checkAssets f p s = (Err e, s') -> seen_assets s' = seen_assets s /\ observing s' = observing s /\
  forall d, Forall (names_registered d) (refusal_events e).
Proof.
  unfold checkAssets. intros H. repeat case_match; simplify_eq; try (split_and!; [done..|]; intros d; by repeat constructor).
Qed.

(** What a call reports, the ledger's registry being what it then is. *)
Lemma commit_reports W p opts s r s' :
  guarded W -> seamless W -> listened s -> CommitTransaction W p opts s = (r, s') ->
  listened s' /\ exists es, events s' = events s ++ es /\ Forall (names_registered (db s')) es.
Proof.
  intros HW Hsm Hl H. pose proof (commit_admitted _ _ _ _ _ _ HW H) as Ha. revert H. unfold CommitTransaction, refuse.
  pose proof (li_observing _ Hl) as Ho.
  case_bool_decide.
  { intros [= <- <-]. split; [by apply (listened_later s)|]. simpl. rewrite Ho. eexists. split; [done|]. by apply (refusal_named _ []); [intros a ?%not_elem_of_nil|left]. }
  destruct (Validate p) as [[i e]|] eqn:Hv.
  { intros [= <- <-]. split; [by apply (listened_later s)|]. simpl. rewrite Ho. eexists. split; [done|].
    apply (refusal_named _ []); [by intros a ?%not_elem_of_nil|by left]. }
  destruct (checkAssets (check_faults W) p s) as [[u|e] s1] eqn:Hca.
  2:{ intros [= <- <-]. pose proof (checkAssets_quiet _ _ _ _ _ Hca) as (Hev & _ & _).
      apply checkAssets_Err_named in Hca as (Hs1 & Ho1 & Hn). split; [by apply (listened_later s)|].
      simpl. rewrite Ho1, Ho, Hev. eexists. split; [done|]. apply Hn. }
  pose proof (checkAssets_quiet _ _ _ _ _ Hca) as (Hev & _ & _).
  destruct (checkAssets_Ok_registered _ _ _ _ _ Hca Hl) as [Hl1 Hp]. destruct (idempotencyHash p opts) as [h|e].
  - intros Hrun. pose proof (commit_attempts_admitted _ _ _ _ _ _ _ _ _ HW Hrun) as Ha1.
    apply attempts_report in Hrun as (Ho' & Hs' & es & He & Hes); [|done..|apply Hl1|done].
    split; [by apply (listened_later s1)|]. exists es. by rewrite He, Hev.
  - intros [= <- <-]. split; [done|]. exists []. by rewrite app_nil_r.
Qed.

End codec.

(** ** What the engine reports *)

(** What the observer is told at a mark, with the time it took. *)
Definition observed (took : Z) (m : mark) : option observation :=
  match m with
  | Told (Committed_event assets postings accounts attempts addresses) =>
      Some (OCommitted assets (Z.of_nat postings) (Z.of_nat accounts) (Z.of_nat attempts) took addresses)
  | Told (Refused_event reason asset account) => Some (ORefused reason asset account)
  | Told (Contended_event attempt) => Some (OContended took (Z.of_nat attempt) true [])
  | Waited accounts => Some (OContended took 0 false accounts)
  | Opened _ | Closed _ _ => None
  end.

(** This package's observer, which traces as well. *)
Definition wired : wiring := Observe (Some true) unwired.

(** What happens at a ledger: its store commits, or others change the tables. *)
Inductive doing :=
| Commits (late : nat -> bool) (W : Weather) (p : Postings) (opts : CommitOptions)
| Others (change : Database -> Database).

Section codec.
Context {codec : Codec}.

(** The marks of a store's life. *)
Fixpoint watch (acts : list doing) (s : Store) : list mark * Store :=
  match acts with
  | [] => ([], s)
  | Commits late W p opts :: acts =>
      let '(ms, (_, s)) := traced_CommitTransaction wired late W p opts s in
      let '(ms', s) := watch acts s in
      (ms ++ ms', s)
  | Others change :: acts => watch acts (with_db (change (db s)) s)
  end.

(** A ledger, its store, what happens, and the durations measured. *)
Record site := { site_name : string; began : Store; acts : list doing; clock : nat -> Z }.

Definition observations (x : site) : list (string * observation) :=
  (fun o => (site_name x, o)) <$> omap id (imap (fun i m => observed (clock x i) m) (watch (acts x) (began x)).1).

(** The assets registered in the end. *)
Definition registry (x : site) : list Asset := (map_to_list (assets (db (watch (acts x) (began x)).2))).*1.

(** Whatever is done passes the guards of the tables. *)
Definition proper (a : doing) : Prop :=
  match a with
  | Commits _ W _ _ => guarded W /\ seamless W
  | Others change => forall d, admitted d (change d)
  end.

(** A refusal of an unknown asset, counted under an asset not in [As]. *)
Definition stray (As : list Asset) (s : series) : bool :=
  match labels s with
  | [_; reason; asset] =>
      bool_decide (instrument s = "giro.refusals") && bool_decide (reason = (reason_label, cause_text CauseUnknownAsset)) &&
      negb (bool_decide (asset.2 ∈ As))
  | _ => false
  end.

Lemma names_later d d' e : admitted d d' -> names_registered d e -> names_registered d' e.
Proof.
  intros Ha. pose proof (admitted_registered d d') as Hr. destruct e as [l p a n addr|c asset account|n]; simpl; [|destruct c; naive_solver|done].
  intros Hall. eapply Forall_impl; [exact Hall|]. eauto.
Qed.

Lemma watch_listened acts s :
  listened s -> Forall proper acts ->
  listened (watch acts s).2 /\ admitted (db s) (db (watch acts s).2) /\
  Forall (names_registered (db (watch acts s).2)) (omap told_event (watch acts s).1).
Proof.
  intros Hl Hp. revert s Hl. induction Hp as [|a acts Ha _ IH]; intros s Hl; simpl; [split_and!; [done|reflexivity|constructor]|].
  destruct a as [late W p opts|change].
  - destruct Ha as [HW Hs]. pose proof (traced_told wired late W p opts s eq_refl eq_refl (li_observing _ Hl)) as Ht.
    destruct (traced_CommitTransaction wired late W p opts s) as [ms [ret s1]]. destruct Ht as [-> Hev].
    destruct (CommitTransaction W p opts s) as [r s1] eqn:Hc.
    pose proof (commit_admitted _ _ _ _ _ _ HW Hc) as Had. destruct (commit_reports _ _ _ _ _ _ HW Hs Hl Hc) as (Hl1 & es & He & Hes).
    simpl in *. destruct (IH s1 Hl1) as (Hl2 & Had2 & Hes2). destruct (watch acts s1) as [ms' s2]. simpl in *.
    rewrite He in Hev. apply app_inv_head in Hev. subst es. split_and!; [done|by etrans|].
    rewrite omap_app, Forall_app. split; [|done]. eapply Forall_impl; [exact Hes|]. intros e. by apply names_later.
  - destruct (IH (with_db (change (db s)) s)) as (Hl2 & Had2 & Hes2); [by apply (listened_later s)|].
    split_and!; [done| |done]. etrans; [apply Ha|exact Had2].
Qed.

(** Each observation of a site names assets of the registry, or is a stray one. *)
Lemma observed_listed x lo :
  listened (began x) -> Forall proper (acts x) -> lo ∈ observations x ->
  lo.1 = site_name x /\
  (observed_assets lo.2 ⊆ registry x \/ exists a account, lo.2 = ORefused CauseUnknownAsset a account).
Proof.
  intros Hl Hp (o & -> & Ho)%list_elem_of_fmap. split; [done|]. apply list_elem_of_omap in Ho as (oo & Ho & Hoo). simpl in Hoo. subst.
  apply elem_of_lookup_imap in Ho as (i & m & Hm & Hi). apply list_elem_of_lookup_2 in Hi.
  destruct (watch_listened _ _ Hl Hp) as (_ & _ & Hnames). rewrite Forall_forall in Hnames.
  assert (forall a, registered (db (watch (acts x) (began x)).2) a = true -> a ∈ registry x) as Hreg.
  { intros a [v Hv]%registered_is_Some. unfold registry. change a with (a, v).1. apply list_elem_of_fmap_2. by apply elem_of_map_to_list. }
  destruct m as [n|n e|e|accounts]; simpl in Hm; [done|done| |simplify_eq; left; cbn; set_solver].
  assert (names_registered (db (watch (acts x) (began x)).2) e) as Hn by (apply Hnames, list_elem_of_omap; eauto).
  destruct e as [l n k n' addr|c asset account|n]; simplify_eq; cbn [observed_assets snd] in *.
  - left. intros a Ha. apply Hreg. cbn in Hn. rewrite Forall_forall in Hn. by apply Hn.
  - destruct (decide (c = CauseUnknownAsset)) as [->|Hc]; [right; eauto|left]. case_bool_decide as He; [set_solver|].
    intros a Ha%list_elem_of_singleton. subst. apply Hreg. by destruct c, Hn.
  - left. set_solver.
Qed.

Lemma refused_unknown_listed Ls As l a account s :
  l ∈ Ls -> s ∈ (samples l (ORefused CauseUnknownAsset a account)).*1 ->
  s ∈ all_series Ls As \/
  (stray As s = true /\ s ∈ all_series Ls [a]).
Proof.
  intros Hl Hs. apply list_elem_of_fmap in Hs as ([s' v] & -> & Hs). destruct (decide (a ∈ As)) as [Ha|Ha].
  - left. eapply samples_listed; [done| |done]. cbn. case_bool_decide; set_solver.
  - destruct (decide (a = EmptyString)) as [->|Hne].
    + left. eapply samples_listed; [done| |done]. set_solver.
    + right. split; [|eapply samples_listed; [done| |done]; cbn; case_bool_decide; set_solver].
      unfold samples, Refused in Hs. rewrite bool_decide_false in Hs by done. apply list_elem_of_singleton in Hs as [= -> ->]. unfold stray. simpl.
      by rewrite (bool_decide_false (a ∈ As)).
Qed.

(** C39: telemetry costs what the catalogue says, and eight a ledger more, the
    misspelt assets of callers apart. Let stores commit whatever they are asked
    to, with others writing to the tables, registering assets among other things.
    The distinct series, but those of an [unknown_asset] refusal under an asset that
    is not registered, number at most [Cardinality] of the ledgers and the assets
    registered in the end, plus the refusals that name no asset: traffic adds
    none. Each series is of an instrument the catalogue lists, under labels it
    lists, and all but those name a ledger, a registered asset and a cause. *)
Theorem series_bounded (sites : list site) :
  Forall (fun x => listened (began x) /\ Forall proper (acts x)) sites ->
  let Ls := site_name <$> sites in
  let As := remove_dups (sites ≫= registry) in
  let all := made (sites ≫= observations) in
  Z.of_nat (length (filter (fun s => stray As s = false) all)) <=
    Cardinality (Z.of_nat (length Ls)) (Z.of_nat (length As)) + 8 * Z.of_nat (length Ls) /\
  Forall (fun s => (exists m, m ∈ Metrics /\ instrument s = MetricName m /\ (labels s).*1 ⊆ MetricLabels m) /\
                   (stray As s = true \/ (labels s).*2 ⊆ Ls ++ As ++ (cause_text <$> RefusalCauses))) all.
Proof.
  intros Hsites Ls As all. rewrite Forall_forall in Hsites.
  assert (forall s, s ∈ all -> s ∈ all_series Ls As \/ (stray As s = true /\ exists a, s ∈ all_series Ls [a])) as Hin.
  { intros s (lo & Hs & Hlo)%elem_of_remove_dups%list_elem_of_bind. apply list_elem_of_bind in Hlo as (x & Hlo & Hx).
    destruct (Hsites x Hx) as [Hl Hp]. destruct (observed_listed x lo Hl Hp Hlo) as [Hn Ho].
    assert (lo.1 ∈ Ls) as Hls by (rewrite Hn; by apply list_elem_of_fmap_2).
    destruct Ho as [Ho|(a & account & Ho)].
    - left. apply list_elem_of_fmap in Hs as ([s' v] & -> & Hs). eapply samples_listed; [exact Hls| |exact Hs].
      intros a Ha. apply elem_of_remove_dups, list_elem_of_bind. exists x. split; [by apply Ho|done].
    - rewrite Ho in Hs. destruct (refused_unknown_listed Ls As _ _ _ _ Hls Hs) as [H|[H1 H2]]; eauto. }
  split.
  - rewrite <-all_series_length. apply inj_le, submseteq_length, NoDup_submseteq; [apply NoDup_filter, NoDup_remove_dups|].
    intros s [Hst Hs]%list_elem_of_filter. destruct (Hin s Hs) as [H|[H _]]; [done|congruence].
  - apply Forall_forall. intros s Hs. destruct (Hin s Hs) as [H|[Hst [a H]]]; apply all_series_catalogued in H as [H1 H2]; eauto.
Qed.

End codec.

(** ** At concrete observations *)

Definition two_assets : list Asset := ["EUR/2"; "USD/2"].

(** Every kind of thing that can be observed of one ledger. *)
Definition everything : list (string * observation) :=
  (fun o => ("main", o)) <$>
    ([OCommitted two_assets 2 3 1 1000 ["world"; "users:alice"]; OContended 10 0 false ["world"]; OContended 0 1 true []]
     ++ (c ← RefusalCauses; ORefused c EmptyString "users:alice" :: ((fun a => ORefused c a "users:alice") <$> two_assets))).

(** The bound is reached, and is not what the package says of itself: the
    estimate leaves the refusals that name no asset out, and the comment adds the
    reasons where they multiply. *)
Example cardinality_reached :
  length (made everything) = 31%nat /\ Cardinality 1 2 = 23 /\ 1 * (2 + 8 + 5) = 15.
Proof. vm_compute. done. Qed.

(** A refusal never fails a span; anything else that went wrong does. *)
Lemma refusal_leaves_span_unset e c : CauseOf (Some e) = Some c -> end_span (Some e) = SpanRefused c.
Proof. unfold end_span. by intros ->. Qed.

(** ** At a concrete ledger *)

Definition misspelt (a : Asset) : Postings :=
  [ {| Source := "world"; Destination := "users:alice"; PAsset := a; Amount := Some 1; UpTo := false |} ].

Definition calmly (p : Postings) : doing := Commits (fun _ => false) calm p no_options.

(** A deposit, an asset registered meanwhile and used, a withdrawal of more than
    there is, and an asset misspelt. *)
Definition morning : site :=
  {| site_name := "main"; began := watched_store;
     acts := [calmly deposit;
              Others (fun d => (RegisterAsset calm_env "EUR/2" d).2);
              calmly (misspelt "EUR/2");
              calmly [ {| Source := "users:bob"; Destination := "users:alice"; PAsset := "EUR/2"; Amount := Some 5; UpTo := false |} ];
              calmly (misspelt "EUR/3")];
     clock := fun i => Z.of_nat i * 1000 |}.

Lemma calm_proper p : proper (calmly p).
Proof. split; [intros n d; reflexivity|done]. Qed.

Lemma registering_proper E a : proper (Others (fun d => (RegisterAsset E a d).2)).
Proof.
  intros d. unfold RegisterAsset. destruct (negb (Asset_Valid a)); [reflexivity|].
  destruct (autocommit (fault E) (exec SExec (insert_asset a (db_now E))) d) as [[u|e] d'] eqn:Ha;
    apply autocommit_admitted in Ha; try (intros d0; apply keeps_exec; intros d1 d2 H Hd; etrans; [exact Hd|by eapply insert_asset_admitted]).
  - done.
  - by repeat case_match.
Qed.

Lemma morning_proper : Forall (fun x => listened (began x) /\ Forall proper (acts x)) [morning].
Proof.
  apply Forall_singleton. split; [split; [done|]; intros a Ha; by apply elem_of_empty in Ha|].
  repeat (apply Forall_cons; split; [apply calm_proper || apply registering_proper|]). constructor.
Qed.

(** Two assets are registered in the end, and the one stray series is the misspelt one's. *)
Example morning_seen :
  registry morning = ["USD/2"; "EUR/2"] /\ length (made (observations morning)) = 8%nat /\
  filter (fun s => stray (registry morning) s = true) (made (observations morning)) =
    [ {| instrument := "giro.refusals";
         labels := [(ledger_label, "main"); (reason_label, "unknown_asset"); (asset_label, "EUR/3")] |} ].
Proof. vm_compute. done. Qed.

Lemma series_bounded_witness :
  Z.of_nat (length (filter (fun s => stray (remove_dups ([morning] ≫= registry)) s = false)
                      (made ([morning] ≫= observations)))) <=
    Cardinality 1 (Z.of_nat (length (remove_dups ([morning] ≫= registry)))) + 8 * 1.
Proof. exact (proj1 (series_bounded [morning] morning_proper)). Defined.

Definition telemetry (ps : list Postings) : list series :=
  made (observations {| site_name := "main"; began := watched_store; acts := calmly <$> ps; clock := fun _ => 0 |}).

(** The asset label is not bounded by the registry: each unregistered asset a
    caller sends is a series of its own. *)
Example unregistered_label :
  telemetry (misspelt <$> ["AAA/1"; "AAB/1"; "AAC/1"]) =
    (fun a => {| instrument := "giro.refusals";
                 labels := [(ledger_label, "main"); (reason_label, "unknown_asset"); (asset_label, a)] |})
    <$> ["AAA/1"; "AAB/1"; "AAC/1"] /\
  (fun a => bool_decide (is_Some (assets new_ledger !! a))) <$> ["AAA/1"; "AAB/1"; "AAC/1"] = [false; false; false].
Proof. vm_compute. done. Qed.

(** A slow lock's event has its wait in float64: a tenth of a second is not exact. *)
Example tenth_of_a_second : Seconds 100000000 = S754_finite false 7205759403792794 (-56) /\ Seconds 1500000000 = S754_finite false 6755399441055744 (-52).
Proof. vm_compute. done. Qed.
