(* ===== verification/Setup.v ===== *)
(** * Setting telemetry up

    The other half of package obs: [New] ([obs/otel.go]), which makes the seven
    instruments or says which one it could not make, and [Setup]
    ([obs/setup.go]), which builds the two providers, installs them, and leaves
    none running when it fails; then the catalogue [WriteCatalogue]
    ([obs/catalogue.go]) prints. The OpenTelemetry SDK is a parameter: what it
    answers to each call. *)

From S2P Require Import Prelude Text Tabulate Decimal Observer Telemetry.

(** ** The SDK *)

(** What a meter is asked to make. *)
Record Instrument := { IName : string; IKind : string; INumber : string; IDescription : string; IUnit : string }.

#[export] Instance Instrument_eq_dec : EqDecision Instrument.
Proof. solve_decision. Defined.

Inductive setup_error :=
| BuildResource (e : string)
| MetricExporter (e : string)
| SpanExporter (e : string)
| CreateInstrument (name : string) (e : string)
| ShutdownError (e : string)
| Joined (es : list setup_error).

(** [errors.Join]: the errors that are one, or no error at all. *)
Definition errors_Join (es : list (option setup_error)) : option setup_error :=
  match omap id es with [] => None | es => Some (Joined es) end.

(** The answers of the SDK: [None] when it does what it is asked. A provider is
    the number it was built under. *)
Record SDK := {
  merge_resource : option string;
  new_metric_reader : option string;
  new_span_exporter : option string;
  refuses_instrument : nat -> Instrument -> option string;
  shutdown_fails : nat -> option string
}.

(** How far the process is: the providers built so far, those asked to shut
    down, the global ones, the instruments made and in which meter. *)
Record Process := { built : nat; stopped : list nat; meter : nat; tracer : nat; created : list (nat * Instrument) }.

Definition Wiring (A : Type) : Type := Process -> res setup_error A * Process.

Definition wired {A} (a : A) : Wiring A := fun P => (Ok a, P).

Definition unwired {A} (e : setup_error) : Wiring A := fun P => (Err e, P).

Definition then_wire {A B} (m : Wiring A) (k : A -> Wiring B) : Wiring B := fun P =>
  match m P with (Ok a, P') => k a P' | (Err e, P') => (Err e, P') end.

Declare Scope wiring_scope.
Delimit Scope wiring_scope with wiring.
Notation "'wire' x ':=' m 'in' k" := (then_wire m (fun x => k))
  (at level 200, x name, m at level 100, k at level 200, right associativity) : wiring_scope.
Open Scope wiring_scope.

(** [NewMeterProvider], [NewTracerProvider] *)
Definition new_provider : Wiring nat := fun P =>
  (Ok (built P), {| built := S (built P); stopped := stopped P; meter := meter P; tracer := tracer P; created := created P |}).

(** [SetMeterProvider], [SetTracerProvider] *)
Definition install (mp tp : nat) : Wiring unit := fun P =>
  (Ok tt, {| built := built P; stopped := stopped P; meter := mp; tracer := tp; created := created P |}).

(** [Shutdown] of a provider: asked once it is called, whatever it answers. *)
Definition stop (K : SDK) (p : nat) : Wiring (option setup_error) := fun P =>
  (Ok (ShutdownError <$> shutdown_fails K p),
   {| built := built P; stopped := stopped P ++ [p]; meter := meter P; tracer := tracer P; created := created P |}).

(** [Int64Counter], [Int64Histogram], [Float64Histogram] of a meter, and what
    [New] makes of its refusal. *)
Definition instrument_in (K : SDK) (m : nat) (i : Instrument) : Wiring (nat * Instrument) := fun P =>
  match refuses_instrument K m i with
  | Some e => (Err (CreateInstrument (IName i) e), P)
  | None => (Ok (m, i), {| built := built P; stopped := stopped P; meter := meter P; tracer := tracer P;
                           created := created P ++ [(m, i)] |})
  end.

(** ** [New] *)

Record Options := { OMeter : option nat; OTracer : option nat; SlowLock : Z }.

Record OtelObserver := {
  commits : nat * Instrument; refusals : nat * Instrument; restarts : nat * Instrument;
  duration : nat * Instrument; lockWait : nat * Instrument; attempts : nat * Instrument;
  postings : nat * Instrument; tracer_of : nat; slowLock : Z
}.

Definition int64_counter (name description unit : string) : Instrument :=
  {| IName := name; IKind := "counter"; INumber := "int64"; IDescription := description; IUnit := unit |}.

Definition int64_histogram (name description unit : string) : Instrument :=
  {| IName := name; IKind := "histogram"; INumber := "int64"; IDescription := description; IUnit := unit |}.

Definition float64_histogram (name description unit : string) : Instrument :=
  {| IName := name; IKind := "histogram"; INumber := "float64"; IDescription := description; IUnit := unit |}.

Definition New (K : SDK) (opts : Options) : Wiring OtelObserver := fun P =>
  let m := default (meter P) (OMeter opts) in
  let t := default (tracer P) (OTracer opts) in
  (wire a := instrument_in K m (int64_counter "giro.transactions" "Transactions committed." "{transaction}") in
   wire b := instrument_in K m (int64_counter "giro.refusals"
     "Transactions the ledger declined. Not errors: a refusal is the ledger working." "{transaction}") in
   wire c := instrument_in K m (int64_counter "giro.commit.restarts"
     "Commits restarted after losing a deadlock. Sorted lock ordering should keep this near zero." "{restart}") in
   wire d := instrument_in K m (float64_histogram "giro.commit.duration"
     "End to end commit latency, including retries and backoff." "s") in
   wire w := instrument_in K m (float64_histogram "giro.lock.wait"
     "Time inside the row locking statement. The hot row shows up here first." "s") in
   wire n := instrument_in K m (int64_histogram "giro.commit.attempts"
     "Attempts a commit needed. 1 unless it lost a deadlock." "{attempt}") in
   wire p := instrument_in K m (int64_histogram "giro.postings" "Postings per transaction." "{posting}") in
   wired {| commits := a; refusals := b; restarts := c; duration := d; lockWait := w; attempts := n; postings := p;
            tracer_of := t; slowLock := SlowLock opts |}) P.

(** ** [Setup] *)

(** An SDK call the code wraps the error of and returns at once. *)
Definition must (answer : option string) (wrap : string -> setup_error) : Wiring unit :=
  match answer with None => wired tt | Some e => unwired (wrap e) end.

(** Returns the observer and the providers its shutdown function stops. *)
Definition Setup (K : SDK) (opts : Options) : Wiring (OtelObserver * (nat * nat)) :=
  wire _ := must (merge_resource K) BuildResource in
  wire _ := must (new_metric_reader K) MetricExporter in
  wire mp := new_provider in
  match new_span_exporter K with
  | Some e =>
      wire x := stop K mp in
      unwired (Joined (SpanExporter e :: option_list x))
  | None =>
      wire tp := new_provider in
      wire _ := install mp tp in
      let opts := {| OMeter := Some (default mp (OMeter opts)); OTracer := Some (default tp (OTracer opts));
                     SlowLock := SlowLock opts |} in
      fun P => match New K opts P with
               | (Ok o, P') => (Ok (o, (mp, tp)), P')
               | (Err e, P') =>
                   (wire x := stop K mp in
                    wire y := stop K tp in
                    unwired (Joined (e :: option_list x ++ option_list y))) P'
               end
  end.

(** The shutdown function [Setup] returns. *)
Definition shutdown (K : SDK) (mp tp : nat) : Wiring (option setup_error) :=
  wire x := stop K tp in
  wire y := stop K mp in
  wired (errors_Join [x; y]).

(** ** What is made *)

(** The instruments of [New], in its order. *)
Definition instruments : list Instrument :=
  [ int64_counter "giro.transactions" "Transactions committed." "{transaction}";
    int64_counter "giro.refusals" "Transactions the ledger declined. Not errors: a refusal is the ledger working." "{transaction}";
    int64_counter "giro.commit.restarts"
      "Commits restarted after losing a deadlock. Sorted lock ordering should keep this near zero." "{restart}";
    float64_histogram "giro.commit.duration" "End to end commit latency, including retries and backoff." "s";
    float64_histogram "giro.lock.wait" "Time inside the row locking statement. The hot row shows up here first." "s";
    int64_histogram "giro.commit.attempts" "Attempts a commit needed. 1 unless it lost a deadlock." "{attempt}";
    int64_histogram "giro.postings" "Postings per transaction." "{posting}" ].

Definition fields (o : OtelObserver) : list (nat * Instrument) :=
  [commits o; refusals o; restarts o; duration o; lockWait o; attempts o; postings o].

(** An instrument as the catalogue has it. *)
Definition catalogued (i : Instrument) (m : Metric) : bool :=
  bool_decide (IName i = MetricName m /\ IKind i = Kind m /\ IUnit i = MetricUnit m).

(** The catalogue is written out beside the instruments; it is the same seven. *)
Lemma catalogue_is_instruments :
  forallb (fun i => existsb (catalogued i) Metrics) instruments && forallb (fun m => existsb (fun i => catalogued i m) instruments) Metrics = true /\
  length Metrics = length instruments.
Proof. by vm_compute. Qed.

(** Two instruments share no name, so no two series either. *)
Lemma instruments_distinct : NoDup (IName <$> instruments).
Proof. apply (bool_decide_unpack _). by vm_compute. Qed.

(** The SDK's first refusal stops [New], with what it had made by then. *)
Fixpoint make_until (K : SDK) (m : nat) (l : list Instrument) : list Instrument * option setup_error :=
  match l with
  | [] => ([], None)
  | i :: l => match refuses_instrument K m i with
              | Some e => ([], Some (CreateInstrument (IName i) e))
              | None => let '(made, e) := make_until K m l in (i :: made, e)
              end
  end.

Definition making (m : nat) (ms : list Instrument) (P : Process) : Process :=
  {| built := built P; stopped := stopped P; meter := meter P; tracer := tracer P; created := created P ++ (pair m <$> ms) |}.

Lemma New_makes K opts P :
  let m := default (meter P) (OMeter opts) in
  let '(ms, e) := make_until K m instruments in
  (New K opts P).2 = making m ms P /\
  match (New K opts P).1 with
  | Ok o => e = None /\ ms = instruments /\ fields o = pair m <$> instruments /\
            tracer_of o = default (tracer P) (OTracer opts) /\ slowLock o = SlowLock opts
  | Err e' => e = Some e'
  end.
Proof.
  cbv zeta. unfold New, then_wire, instrument_in, wired, making. set (m := default (meter P) (OMeter opts)).
  cbn [make_until instruments].
  repeat (destruct (refuses_instrument K m _);
    [cbn; rewrite <-?app_assoc; split; [destruct P; cbn; by rewrite ?app_nil_r|done]|cbn [created built stopped meter tracer]]).
  cbn. by rewrite <-!app_assoc.
Qed.

Lemma make_until_all K m l :
  match make_until K m l with
  | (ms, None) => ms = l
  | (ms, Some e) => exists i rest why, l = ms ++ i :: rest /\ refuses_instrument K m i = Some why /\ e = CreateInstrument (IName i) why
  end.
Proof.
  induction l as [|i l IH]; [done|]. cbn. destruct (refuses_instrument K m i) as [why|] eqn:Hi; [by exists i, l, why|].
  destruct (make_until K m l) as [ms [e|]]; [|by subst]. destruct IH as (j & rest & why & -> & Hj & ->). by exists j, rest, why.
Qed.

(** ** Nothing left running *)

(** The providers built on the way from one process to another. *)
Definition built_between (P P' : Process) (p : nat) : Prop := (built P <= p < built P')%nat.

(** [Setup] fails leaving nothing of its own running: every provider it built
    has been asked to stop, and no other. When it succeeds both of its providers
    run, they are the global ones, every instrument of the catalogue is made in the
    meter chosen, and the function it returns stops both, the tracer first,
    whatever either answers, and reports what each answered. *)
Theorem Setup_leaves_nothing_running K opts P :
  let P' := (Setup K opts P).2 in
  match (Setup K opts P).1 with
  | Err _ => exists extra, stopped P' = stopped P ++ extra /\ forall p, p ∈ extra <-> built_between P P' p
  | Ok (o, (mp, tp)) =>
      stopped P' = stopped P /\ (forall p, built_between P P' p <-> p = mp \/ p = tp) /\ mp <> tp /\
      meter P' = mp /\ tracer P' = tp /\ tracer_of o = default tp (OTracer opts) /\
      fields o = pair (default mp (OMeter opts)) <$> instruments /\ created P' = created P ++ fields o /\
      forall Q, stopped (shutdown K mp tp Q).2 = stopped Q ++ [tp; mp] /\
                (shutdown K mp tp Q).1 = Ok (errors_Join [ShutdownError <$> shutdown_fails K tp; ShutdownError <$> shutdown_fails K mp])
  end.
Proof.
  cbv zeta. unfold Setup, must, then_wire, new_provider, install, stop, unwired, wired.
  destruct (merge_resource K) as [e|]; [exists []; rewrite app_nil_r; unfold built_between; set_solver by lia|].
  destruct (new_metric_reader K) as [e|]; [exists []; rewrite app_nil_r; unfold built_between; set_solver by lia|].
  destruct (new_span_exporter K) as [e|].
  { exists [built P]. split; [done|]. intros p. unfold built_between. cbn. rewrite list_elem_of_singleton. lia. }
  cbn [built stopped meter tracer created].
  match goal with |- context [New K ?o ?Q] => pose proof (New_makes K o Q) as Hn; destruct (New K o Q) as [r P''] end.
  cbn [OMeter OTracer Telemetry.Committed default option_rect from_option id built stopped meter tracer created SlowLock] in Hn.
  destruct (make_until _ _ _) as [ms e'].
  destruct Hn as [Hp Hn]. cbn [fst snd] in Hp, Hn. subst P''. unfold making. destruct r as [o|e]; cbn.
  - destruct Hn as (-> & -> & Hf & Ht & _). rewrite Hf. split_and!; try done.
    + intros p. unfold built_between. cbn. lia.
    + intros Q. cbn. by rewrite <-app_assoc.
  - eexists. split; [by rewrite <-app_assoc|]. intros p. unfold built_between. cbn.
    rewrite elem_of_cons, list_elem_of_singleton. lia.
Qed.

(** An SDK that refuses one histogram and fails to stop a tracer. *)
Definition failing_sdk : SDK :=
  {| merge_resource := None; new_metric_reader := None; new_span_exporter := None;
     refuses_instrument := fun _ i => if bool_decide (IName i = "giro.lock.wait") then Some "refused" else None;
     shutdown_fails := fun p => if bool_decide (p = 3%nat) then Some "timed out" else None |}.

(** A process with two global providers of its own, numbered 0 and 1. *)
Definition fresh : Process := {| built := 2; stopped := []; meter := 0; tracer := 1; created := [] |}.

Definition no_choice : Options := {| OMeter := None; OTracer := None; SlowLock := 0 |}.

(** A refused instrument fails [Setup] with everything that went wrong; the
    global providers are by then the ones it has just stopped. *)
Example setup_fails :
  let r := Setup failing_sdk no_choice fresh in
  r.1 = Err (Joined [CreateInstrument "giro.lock.wait" "refused"; ShutdownError "timed out"]) /\
  stopped r.2 = [2; 3]%nat /\ (meter r.2, tracer r.2) = (2, 3)%nat /\ length (created r.2) = 4%nat.
Proof. by vm_compute. Qed.

(** ** The table *)

(** [WriteCatalogue], to a writer that takes what it is given. *)
Definition WriteCatalogue (ledgers assets : Z) : string :=
  tabulate (["METRIC"; "KIND"; "UNIT"; "LABELS"]
            :: ((fun m => [MetricName m; Kind m; MetricUnit m; String.concat ", " (MetricLabels m)]) <$> Metrics))
  +:+ lines_of
    [ EmptyString;
      print_Z ledgers +:+ " ledgers x " +:+ print_Z assets +:+ " assets x " +:+ print_Z (Z.of_nat (length RefusalCauses))
        +:+ " refusal reasons = about " +:+ print_Z (Cardinality ledgers assets) +:+ " series.";
      EmptyString;
      "No metric is labelled by account address. Addresses are unbounded and would";
      "give you one series per customer; they are recorded on spans instead, where";
      "one exists per request rather than per series." ].

(** What [obs/README.md] shows, for two ledgers and three assets. *)
Example catalogue_printed :
  WriteCatalogue 2 3 = lines_of
    [ "METRIC                KIND       UNIT           LABELS";
      "giro.transactions     counter    {transaction}  giro.ledger, giro.asset";
      "giro.refusals         counter    {transaction}  giro.ledger, giro.asset, giro.reason";
      "giro.commit.duration  histogram  s              giro.ledger";
      "giro.lock.wait        histogram  s              giro.ledger";
      "giro.commit.attempts  histogram  {attempt}      giro.ledger";
      "giro.commit.restarts  counter    {restart}      giro.ledger";
      "giro.postings         histogram  {posting}      giro.ledger";
      EmptyString;
      "2 ledgers x 3 assets x 8 refusal reasons = about 64 series.";
      EmptyString;
      "No metric is labelled by account address. Addresses are unbounded and would";
      "give you one series per customer; they are recorded on spans instead, where";
      "one exists per request rather than per series." ].
Proof. by vm_compute. Qed.
